(* ===== verification/_CoqProject ===== *)
-Q . S2P
Prelude.v
RustStd.v
Externals.v
Instances.v
Config.v
Routing.v
Balancing.v
Telemetry.v
Exposition.v
Health.v
HealthConc.v
Runtime.v
Scenario.v
HealthChecks.v
SharedSteps.v
Upstream.v
Http.v
HttpSafety.v
HttpState.v
HttpContent.v
System.v
Server.v
Main.v
UnitTests.v
ProxyTests.v
HttpTests.v
BenchBackend.v
Calendar.v
BenchRunner.v
BenchHost.v
BenchProcess.v
