(* ===== verification/Prelude.v ===== *)
(** * Verification of ferrum-proxy

    ferrum-proxy is an HTTP/1.1 reverse proxy.  A request is matched to a route, a healthy
    backend of the route is chosen, and the request is forwarded, with retries for methods
    that may be repeated.  Health is tracked per backend, by the outcomes of requests and by
    active checks; telemetry counts everything; the server drains its connections before it
    stops.  This library models the whole proxy of [src/src/], translated from the source, and
    proves what makes it correct.

    ** Files, in the order of compilation

    - [Prelude]: the state monad [stateM], [result] with its bind (the [?] operator), the hint
      databases and generic lemmas.
    - [RustStd]: 64-bit wrapping and saturating arithmetic, [Duration] and [Instant] as
      nanoseconds, the [str] methods of the source on byte strings, [parse::<u64>] and the
      [016x] format.
    - [Externals]: the crates the proxy calls, as type classes of operations with classes of
      laws that state their documented behaviour ([url], [http], [hyper], [tokio]'s semaphore
      and [Notify], the iteration of a [HashSet]).  [Platform] bundles them.  [Instances]
      has a concrete instance of each, for the witnesses only.
    - [Config] ([config/mod.rs]): the records, the defaults, validation, loading.
    - [Routing] ([routing/mod.rs]), [Balancing] ([balancing/mod.rs]), [Telemetry]
      ([telemetry/mod.rs]): the whole modules.  [Exposition] parses the metrics text back.
    - [Health] ([health/mod.rs], the manager): health states, ejection, the probing window, and
      the circuit breaker they refine.  [HealthConc]: the same methods as programs of atomic
      operations, interleaved by any number of threads.
    - [Runtime]: one task's view of the world.  A task is a computation in [stateM World]; each
      access to the shared state and each reading of the clock is one atomic step, before which
      the [Environment] lets time pass and lets the other tasks do anything to the shared
      state.  The network's answers are the environment's too.  A theorem for every
      environment covers every interleaving at that granularity.
    - [Scenario]: a calm environment and a sample configuration, for the witnesses.
    - [HealthChecks] ([health/mod.rs], the active checks).
    - [Upstream] ([upstream/mod.rs]): errors, headers, limited bodies, [forward].
    - [Http] ([http/mod.rs]): [AppState], [handle_request] with every branch,
      [forward_with_retries], buffering, the internal endpoints, startup.  The theorems about
      it are in [HttpSafety] (termination, attempts), [HttpState] (invariants, permits,
      verdicts, identifiers, the debug endpoints, buffering, startup) and [HttpContent] (what
      backends and clients receive).
    - [SharedSteps]: the steps that the tasks take on the shared state, as a relation, and the
      invariants they keep.  [System]: the running proxy as a transition system, with the types
      of its state and its invariant.
    - [Server] ([server/mod.rs]): the accept loop, connections and the drain, as a step relation.
      [Main] ([main.rs], [server::run]): the process from its configuration to its exit code.
    - [UnitTests], [ProxyTests], [HttpTests]: the repository's own tests, translated assertion
      by assertion and evaluated on the model.  They compare the model with what the authors
      expect of the code; no theorem rests on them.
    - [BenchBackend] ([bin/benchmark_backend.rs]), [BenchRunner], [BenchProcess] and [Calendar]
      ([bin/benchmark_runner.rs]): the benchmark tools.  [BenchHost] is the operating system as
      the runner uses it.

    ** What the theorems show

    - A request is always answered ([HttpSafety.handle_request_responds]); it reaches only
      backends of its route, each at most once, and as often as its method allows
      ([attempts_bounded]); backends see the client's method, headers and body, and its path
      and query as an http URL writes them, unchanged when they are plain
      ([HttpContent.upstream_request_faithful], [upstream_body_faithful]); the headers that are
      stripped are those of one connection ([Upstream.sanitize_exact]); the forwarding headers
      cannot be spoofed ([Upstream.forwarding_headers_exact]); every response carries the
      request's identifier ([HttpContent.response_carries_request_id]).
    - Every reachable state of the proxy satisfies its invariant, however requests, checks and
      bodies in flight interleave ([System.system_invariant]); the tasks of the source take only
      the steps of that system and return exactly the permits they take, whatever number of
      permits the others hold meanwhile ([tasks_stay_in_the_system]).
    - Only admitted backends are chosen ([HttpContent.selection_is_admitted]); each attempt
      passes one verdict ([HttpState.attempt_verdict]); the health manager refines a circuit
      breaker ([Health.health_refines_breaker]), trips at its threshold, and recovers in
      bounded time ([ejection_bounded]); no interleaving inside its methods loses a backend
      ([HealthConc.no_backend_is_lost]).
    - Size limits hold ([Upstream.limit_body_bounded], [HttpState.buffer_request_body_exact]),
      also on bodies without an end ([Upstream.endless_body_is_cut]), and bodies within the limit
      pass unchanged ([limit_body_transparent]); permits are returned,
      identifiers are distinct, debug endpoints are protected.
    - Validation decides validity ([Config.validate_decides]); routing picks the longest prefix;
      round robin is fair; the metrics are functions of the recorded events, and their text can
      be parsed back ([Exposition.exposition_roundtrip]).
    - The connection tracker counts exactly and a reported drain is sound ([Server]); a wake-up
      of the drain can be lost ([drain_can_miss_the_last_close]); the exits of the process and
      the line it leaves on stderr are those of the step that ended it
      ([Main.exit_code_exact]); a failed call is classified by the chain of its causes
      ([Upstream.upstream_errors_classified]).
    - The benchmark's backends read their command lines back and fail on schedule
      ([BenchRunner.spawned_backend_behaves]); the runner leaves no process behind once its
      backends have started, although its children never end unless they are killed
      ([BenchProcess.no_process_outlives_a_run]), but does when their
      start fails ([failed_start_leaves_a_process]); its dates are those of the calendar
      ([Calendar.civil_from_days_follows_calendar]).

    ** Fuel and bounds

    The retry loop has [max_attempts + 1] units of fuel; [handle_request_responds] shows that
    they never run out.  Waiting for a service has one unit for every tenth of a second until
    the deadline and two more; [no_process_outlives_a_run] shows that they suffice.  Counters
    are 64 bits wide and wrap; theorems that need their values to be exact state the bound.
    [usize] is 64 bits wide.

    ** Not modelled

    YAML parsing and serde, the HTTP implementation below requests and bodies, the time stamp
    and the quoting of log fields.  The body of a request is a finite list of items; for a body
    without an end [endless_body_is_cut] treats its prefixes.  A call of the health manager is
    one atomic step in [Health] and in the life of a request; [HealthConc] has the
    interleavings of its operations on one backend, without the telemetry.  The counters of
    [render_prometheus] are read at one moment.  Panics of the crates on absurd configurations
    (a semaphore of more permits than tokio allows, an ejection beyond the end of [Instant])
    are left out.  Of the benchmark runner, what the children write to the log files they
    inherit, and panics of [println!]. *)

From stdpp Require Export base tactics list numbers strings pretty gmap sorting.
From stdpp Require Import options.

(** * The hint database and the scope of the development *)

Create HintDb ferrum discriminated.
#[export] Hint Constants Opaque : ferrum.

Declare Scope ferrum_scope.
Delimit Scope ferrum_scope with ferrum.

(** * Effects: a state monad with stdpp's notations *)

(** Stateful code that threads one state through many calls is written in [stateM S]. *)
Definition stateM (S A : Type) : Type := S → A * S.

#[export] Instance stateM_ret {S} : MRet (stateM S) := λ A a s, (a, s).
#[export] Instance stateM_bind {S} : MBind (stateM S) :=
  λ A B f m s, let r := m s in f r.1 r.2.

#[export] Instance stateM_fmap {S} : FMap (stateM S) :=
  λ A B f m s, let r := m s in (f r.1, r.2).

Definition getM {S} : stateM S S := λ s, (s, s).
Definition gets {S A} (f : S → A) : stateM S A := λ s, (f s, s).
Definition modifyM {S} (f : S → S) : stateM S unit := λ s, (tt, f s).

(** [m] keeps the invariant [I] of the state. *)
Definition preserves {S A} (I : S → Prop) (m : stateM S A) : Prop :=
  ∀ s, I s → I (m s).2.

Lemma preserves_ret {S A} (I : S → Prop) (a : A) : preserves I (mret a).
Proof. by intros s Hs. Qed.

Lemma preserves_bind {S A B} (I : S → Prop) (m : stateM S A) (k : A → stateM S B) :
  preserves I m → (∀ a, preserves I (k a)) → preserves I (m ≫= k).
Proof. intros Hm Hk s Hs. apply Hk, Hm, Hs. Qed.

Lemma preserves_fmap {S A B} (I : S → Prop) (f : A → B) (m : stateM S A) :
  preserves I m → preserves I (f <$> m).
Proof. intros Hm s Hs. by apply Hm. Qed.

Lemma preserves_gets {S A} (I : S → Prop) (f : S → A) : preserves I (gets f).
Proof. by intros s Hs. Qed.

Lemma preserves_modify {S} (I : S → Prop) (f : S → S) :
  (∀ s, I s → I (f s)) → preserves I (modifyM f).
Proof. intros Hf s Hs. by apply Hf. Qed.

#[export] Hint Resolve preserves_ret preserves_bind preserves_fmap preserves_gets preserves_modify : ferrum.

(** The weakest precondition of a computation; every computation returns. *)
Definition wp {S A} (m : stateM S A) (Q : A → S → Prop) (s : S) : Prop := Q (m s).1 (m s).2.

Lemma wp_ret {S A} (a : A) (Q : A → S → Prop) s : Q a s → wp (mret a) Q s.
Proof. done. Qed.

Lemma wp_bind {S A B} (m : stateM S A) (k : A → stateM S B) Q s :
  wp m (λ a, wp (k a) Q) s → wp (m ≫= k) Q s.
Proof. done. Qed.

Lemma wp_mono {S A} (m : stateM S A) (Q Q' : A → S → Prop) s :
  wp m Q s → (∀ a s', Q a s' → Q' a s') → wp m Q' s.
Proof. unfold wp. auto. Qed.

(** [for x in l { f(x) }] *)
Fixpoint forM {S A} (l : list A) (f : A → stateM S unit) : stateM S unit :=
  match l with
  | [] => mret tt
  | x :: l => _ ← f x; forM l f
  end.

Lemma preserves_forM {S A} (I : S → Prop) (l : list A) (f : A → stateM S unit) :
  (∀ x, x ∈ l → preserves I (f x)) → preserves I (forM l f).
Proof.
  induction l as [|x l IH]; intros Hf; simpl; [apply preserves_ret|].
  apply preserves_bind; [apply Hf; left|]. intros _. apply IH. intros y Hy. apply Hf. by right.
Qed.

(** * Fallible code: [Result<T, E>] as a sum, and the [?] operator as its bind *)

Inductive result (E A : Type) : Type :=
  | Ok (a : A)
  | Err (e : E).
Arguments Ok {E A} a.
Arguments Err {E A} e.

#[export] Instance result_ret {E} : MRet (result E) := λ A a, Ok a.
#[export] Instance result_bind {E} : MBind (result E) :=
  λ A B f r, match r with Ok a => f a | Err e => Err e end.

Definition is_ok {E A} (r : result E A) : bool :=
  match r with Ok _ => true | Err _ => false end.

(** [if c { return Err(e) }] *)
Definition reject_if {E} (c : bool) (e : E) : result E unit :=
  if c then Err e else Ok tt.

(** [for x in l { f(x)?; }] *)
Fixpoint for_each {E A} (f : A → result E unit) (l : list A) : result E unit :=
  match l with
  | [] => Ok tt
  | x :: l => _ ← f x; for_each f l
  end.

Lemma bind_Ok {E A B} (r : result E A) (k : A → result E B) b :
  r ≫= k = Ok b ↔ ∃ a, r = Ok a ∧ k a = Ok b.
Proof. destruct r; simpl; naive_solver. Qed.

Lemma reject_if_Ok {E} c (e : E) u : reject_if c e = Ok u ↔ c = false.
Proof. destruct c, u; simpl; naive_solver. Qed.

Lemma bind_reject_if_Ok {E A} c (e : E) (k : unit → result E A) a :
  reject_if c e ≫= k = Ok a ↔ c = false ∧ k tt = Ok a.
Proof. destruct c; simpl; naive_solver. Qed.

Lemma for_each_Ok {E A} (f : A → result E unit) l :
  for_each f l = Ok tt ↔ Forall (λ x, f x = Ok tt) l.
Proof.
  induction l as [|x l IH]; simpl; [by split|].
  rewrite bind_Ok, Forall_cons, <-IH. split.
  - intros ([] & ? & ?); done.
  - intros [? ?]; eauto.
Qed.

Create Rewrite HintDb result.
#[export] Hint Rewrite @bind_Ok @reject_if_Ok @for_each_Ok @bind_reject_if_Ok : result.

(** * Generic list lemmas *)

Lemma last_cons_is_Some {A} (x : A) l : is_Some (last (x :: l)).
Proof. revert x. induction l as [|y l IH]; intros x; simpl; eauto. Qed.

Definition is_some {A} (o : option A) : bool := if o is Some _ then true else false.

Lemma unwrap_is_some {A} (d : A) (o : option A) : is_some o = true → o = Some (default d o).
Proof. by destruct o. Qed.

Lemma foldl_preserves {A B} (I : A → Prop) (f : A → B → A) l a :
  (∀ a b, I a → I (f a b)) → I a → I (foldl f a l).
Proof. intros Hf. revert a. induction l; simpl; auto. Qed.

(** [Iterator::max_by_key]: the last of the elements with the greatest key. *)
Fixpoint max_by_key_from {A} (key : A → N) (best : A) (l : list A) : A :=
  match l with
  | [] => best
  | x :: l => max_by_key_from key (if decide (key best ≤ key x)%N then x else best) l
  end.
Definition max_by_key {A} (key : A → N) (l : list A) : option A :=
  match l with
  | [] => None
  | x :: l => Some (max_by_key_from key x l)
  end.

Lemma max_by_key_from_spec {A} (key : A → N) best l :
  max_by_key_from key best l ∈ best :: l ∧
  ∀ x, x ∈ best :: l → (key x ≤ key (max_by_key_from key best l))%N.
Proof.
  revert best. induction l as [|y l IH]; intros best; simpl.
  { split; [by left|]. by intros x ->%list_elem_of_singleton. }
  set (b := if decide _ then y else best). destruct (IH b) as [Hin Hmax].
  assert (b = y ∨ b = best) as Hb by (subst b; case_decide; auto).
  assert (key best ≤ key b ∧ key y ≤ key b)%N as [Hbest Hy]
    by (subst b; case_decide; lia).
  assert (key b ≤ key (max_by_key_from key b l))%N by (apply Hmax; left).
  split.
  - rewrite !elem_of_cons in *. destruct Hb as [->| ->]; tauto.
  - intros x. rewrite !elem_of_cons. intros [->|[->|Hx]]; [lia..|].
    apply Hmax. by right.
Qed.

Lemma max_by_key_Some {A} (key : A → N) l m :
  max_by_key key l = Some m → m ∈ l ∧ ∀ x, x ∈ l → (key x ≤ key m)%N.
Proof. destruct l; [done|]. intros [= <-]. apply max_by_key_from_spec. Qed.

Lemma max_by_key_None {A} (key : A → N) l : max_by_key key l = None ↔ l = [].
Proof. by destruct l. Qed.
