(* ===== verification/RustStd.v ===== *)
(** The fragment of the Rust language and standard library that ferrum-proxy uses:
    unsigned machine integers with their wrap-around and saturation, [Duration] and
    [Instant] as nanosecond counts, and the [str] methods of the source, on byte
    strings.  [usize] is 64 bits wide, as on every target the proxy is built for. *)

From Stdlib Require Import Ascii.
From S2P Require Import Prelude.
From stdpp Require Import options.

(** * Machine integers *)

Definition u64_modulus : N := (2 ^ 64)%N.
Definition u64_max : N := (u64_modulus - 1)%N.

(** [x.fetch_add(1, _)], [x.wrapping_add(y)] and, in a release build, [x + y]. *)
Definition u64_add (x y : N) : N := ((x + y) `mod` u64_modulus)%N.
(** [x.fetch_sub(1, _)], [x.wrapping_sub(y)]. *)
Definition u64_sub (x y : N) : N := ((x + (u64_modulus - y)) `mod` u64_modulus)%N.
(** [x.saturating_mul(y)] *)
Definition u64_saturating_mul (x y : N) : N := N.min (x * y) u64_max.
(** [x as u64] on a wider unsigned integer *)
Definition as_u64 (x : N) : N := (x `mod` u64_modulus)%N.

(** * Time *)

(** [Duration] and [Instant] count nanoseconds; [Instant] counts them from an origin. *)
Abbreviation Duration := N (only parsing).
Abbreviation Instant := N (only parsing).

Definition from_millis (ms : N) : Duration := (ms * 1000000)%N.
Definition from_secs (s : N) : Duration := (s * 1000000000)%N.
Definition as_millis (d : Duration) : N := (d `div` 1000000)%N.
Definition as_micros (d : Duration) : N := (d `div` 1000)%N.
(** [t.elapsed()] and [a.saturating_sub(b)] both truncate at zero, as [N.sub] does. *)
Definition elapsed (now started : Instant) : Duration := (now - started)%N.

(** * Strings (byte strings; [len] is the number of bytes) *)

Definition str_len (s : string) : N := N.of_nat (String.length s).
Definition is_empty (s : string) : bool := match s with "" => true | _ => false end.
Definition starts_with (s p : string) : bool := String.prefix p s.

(** The escape ["\n"] of a literal *)
Definition newline : string := String "010" "".

Fixpoint contains_char (c : ascii) (s : string) : bool :=
  match s with
  | "" => false
  | String a s => if decide (a = c) then true else contains_char c s
  end.

(** [s.chars().all(f)] *)
Fixpoint string_all (f : ascii → bool) (s : string) : bool :=
  match s with "" => true | String a s => f a && string_all f s end.

(** [s.contains(t)] *)
Fixpoint str_contains (s t : string) : bool :=
  starts_with s t || match s with "" => false | String _ s => str_contains s t end.

Fixpoint map_string (f : ascii → ascii) (s : string) : string :=
  match s with "" => "" | String a s => String (f a) (map_string f s) end.

(** [s.replace(c, t)] with a one-character pattern *)
Fixpoint replace_char (c : ascii) (t s : string) : string :=
  match s with
  | "" => ""
  | String a s => if decide (a = c) then t +:+ replace_char c t s
                  else String a (replace_char c t s)
  end.

Definition ascii_lower (a : ascii) : ascii :=
  let n := nat_of_ascii a in
  if decide (65 ≤ n ∧ n ≤ 90) then ascii_of_nat (n + 32) else a.
Definition to_ascii_lowercase (s : string) : string := map_string ascii_lower s.

(** [s.split(c)]: never empty, and [""] between two adjacent separators. *)
Fixpoint split_char (c : ascii) (s : string) : list string :=
  match s with
  | "" => [""]
  | String a s =>
      if decide (a = c) then "" :: split_char c s
      else match split_char c s with
           | [] => [String a ""]
           | w :: ws => String a w :: ws
           end
  end.

Definition str_concat (l : list string) : string := foldr String.append "" l.

(** [parts.join(sep)] *)
Fixpoint str_join (sep : string) (l : list string) : string :=
  match l with
  | [] => ""
  | [s] => s
  | s :: l => s +:+ sep +:+ str_join sep l
  end.

(** [s.trim()] strips the characters with the Unicode property White_Space; their UTF-8
    encodings are these byte sequences. *)
Definition bytes (l : list nat) : string :=
  foldr (λ n s, String (ascii_of_nat n) s) "" l.
Definition white_space : list string :=
  bytes <$> [[9]; [10]; [11]; [12]; [13]; [32]; [194; 133]; [194; 160]; [225; 154; 128];
             [226; 128; 128]; [226; 128; 129]; [226; 128; 130]; [226; 128; 131];
             [226; 128; 132]; [226; 128; 133]; [226; 128; 134]; [226; 128; 135];
             [226; 128; 136]; [226; 128; 137]; [226; 128; 138]; [226; 128; 168];
             [226; 128; 169]; [226; 128; 175]; [226; 129; 159]; [227; 128; 128]].

Fixpoint str_drop (n : nat) (s : string) : string :=
  match n, s with
  | 0, s => s
  | S n, "" => ""
  | S n, String _ s => str_drop n s
  end.

Fixpoint str_take (n : nat) (s : string) : string :=
  match n, s with
  | S n, String a s => String a (str_take n s)
  | _, _ => ""
  end.

(** Strips one leading character that is listed in [ws], if there is one. *)
Fixpoint strip_one (ws : list string) (s : string) : option string :=
  match ws with
  | [] => None
  | w :: ws => if String.prefix w s then Some (str_drop (String.length w) s)
               else strip_one ws s
  end.
Fixpoint strip_fuel (ws : list string) (fuel : nat) (s : string) : string :=
  match fuel with
  | O => s
  | S fuel => match strip_one ws s with Some s' => strip_fuel ws fuel s' | None => s end
  end.
Definition trim_start (s : string) : string :=
  strip_fuel white_space (String.length s) s.
Definition trim_end (s : string) : string :=
  String.rev (strip_fuel (String.rev <$> white_space) (String.length s) (String.rev s)).
Definition trim (s : string) : string := trim_end (trim_start s).

(** * Numbers and strings *)

Definition digit_value (a : ascii) : option N := N.of_nat <$> Ascii.is_nat a.

(** The digits are read one by one into [acc]; the error is the text of [ParseIntError].  The
    numbers of a [w]-bit type are those below [modulus = 2 ^ w]. *)
Fixpoint parse_digits (modulus : N) (s : string) (acc : N) : result string N :=
  match s with
  | "" => Ok acc
  | String a s =>
      match digit_value a with
      | None => Err "invalid digit found in string"
      | Some d =>
          let acc := (acc * 10 + d)%N in
          if decide (acc < modulus)%N then parse_digits modulus s acc
          else Err "number too large to fit in target type"
      end
  end.

(** [s.parse::<T>()] for an unsigned integer type: an optional plus sign, then at least one
    digit, and no overflow. *)
Definition parse_uint (modulus : N) (s : string) : result string N :=
  match s with
  | "" => Err "cannot parse integer from empty string"
  | String a s' =>
      if decide (a = "+"%char ∧ s' ≠ "") then parse_digits modulus s' 0
      else parse_digits modulus s 0
  end.

(** [s.parse::<u64>().ok()] *)
Definition parse_u64 (s : string) : option N :=
  match parse_uint u64_modulus s with Ok n => Some n | Err _ => None end.

Definition u16_modulus : N := (2 ^ 16)%N.

Fixpoint str_repeat (c : ascii) (n : nat) : string :=
  match n with O => "" | S n => String c (str_repeat c n) end.

(** [format!("{n:0k}")] of an unsigned integer: decimal, filled up with zeros on the left. *)
Definition dec_pad (k : nat) (n : N) : string :=
  str_repeat "0" (k - String.length (pretty n)) +:+ pretty n.

Definition hex_digit (n : N) : ascii :=
  ascii_of_N (if decide (n < 10)%N then 48 + n else 87 + n)%N.

(** The [k] low hexadecimal digits of [n], the most significant first. *)
Fixpoint hex_digits (k : nat) (n : N) (s : string) : string :=
  match k with
  | O => s
  | S k => hex_digits k (n `div` 16)%N (String (hex_digit (n `mod` 16)%N) s)
  end.
(** [format!("{n:016x}")] of a [u64] *)
Definition hex016 (n : N) : string := hex_digits 16 n "".

(** * Lemmas on machine integers *)

Lemma u64_modulus_pos : (0 < u64_modulus)%N.
Proof. done. Qed.

Lemma u64_add_lt x y : (u64_add x y < u64_modulus)%N.
Proof. by apply N.mod_lt. Qed.

Lemma u64_add_small x y : (x + y < u64_modulus)%N → u64_add x y = (x + y)%N.
Proof. intros. by apply N.mod_small. Qed.

Lemma u64_add_assoc x y z : u64_add (u64_add x y) z = u64_add x (y + z).
Proof.
  unfold u64_add. rewrite N.Div0.add_mod_idemp_l. by rewrite N.add_assoc.
Qed.

Lemma u64_sub_small x y :
  (y ≤ x)%N → (x < u64_modulus)%N → u64_sub x y = (x - y)%N.
Proof.
  intros. unfold u64_sub.
  replace (x + (u64_modulus - y))%N with ((x - y) + 1 * u64_modulus)%N by lia.
  rewrite N.Div0.mod_add. apply N.mod_small. lia.
Qed.

Lemma u64_saturating_mul_le x y : (u64_saturating_mul x y ≤ u64_max)%N.
Proof. unfold u64_saturating_mul. lia. Qed.

#[export] Hint Resolve u64_add_lt u64_saturating_mul_le : ferrum.

(** * Lemmas on strings *)

Lemma append_cons a (s t : string) : String a s +:+ t = String a (s +:+ t).
Proof. done. Qed.

Lemma append_nil_l (s : string) : "" +:+ s = s.
Proof. done. Qed.

Lemma append_assoc (a b c : string) : (a +:+ b) +:+ c = a +:+ b +:+ c.
Proof. induction a as [|x a IH]; [done|]. rewrite !append_cons. by f_equal. Qed.

Lemma append_nil_r (a : string) : a +:+ "" = a.
Proof. induction a as [|x a IH]; [done|]. rewrite !append_cons. by f_equal. Qed.

Lemma string_length_app (a b : string) :
  String.length (a +:+ b) = String.length a + String.length b.
Proof. induction a as [|x a IH]; [done|]. rewrite append_cons. simpl. by rewrite IH. Qed.

Lemma starts_with_spec s p : starts_with s p = true ↔ ∃ t, s = p +:+ t.
Proof.
  unfold starts_with. revert s. induction p as [|a p IH]; intros s; simpl.
  { split; [by exists s|by destruct s]. }
  destruct s as [|b s]; simpl.
  { split; [done|]. by intros [? ?]. }
  destruct (ascii_dec a b) as [->|Hne].
  - rewrite IH. split; intros [t Ht]; exists t; rewrite append_cons in *; congruence.
  - split; [done|]. intros [t Ht]. rewrite append_cons in Ht. congruence.
Qed.

Lemma contains_char_spec c s :
  contains_char c s = true ↔ ∃ a b, s = a +:+ String c b.
Proof.
  induction s as [|x s IH]; simpl.
  { split; [done|]. by intros ([|y a] & b & Hs). }
  case_decide as Hx.
  - subst. split; [|done]. intros _. by exists "", s.
  - rewrite IH. split.
    + intros (a & b & ->). by exists (String x a), b.
    + intros ([|y a] & b & Heq); [by injection Heq|].
      rewrite append_cons in Heq. injection Heq as -> ->. eauto.
Qed.

Lemma str_take_length n s : n ≤ String.length s → String.length (str_take n s) = n.
Proof.
  revert s. induction n as [|n IH]; intros [|a s] Hn; simpl in *; [done|done|lia|].
  rewrite IH; lia.
Qed.

Lemma str_take_app n s t : n ≤ String.length s → str_take n (s +:+ t) = str_take n s.
Proof.
  revert s. induction n as [|n IH]; intros [|a s] Hn; simpl in *; try done; [lia|].
  rewrite IH by lia. done.
Qed.

Lemma str_take_app_repeat n s c k :
  String.length s ≤ n ≤ String.length s + k →
  str_take n (s +:+ str_repeat c k) = s +:+ str_repeat c (n - String.length s).
Proof.
  revert n. induction s as [|a s IH]; intros n Hn; simpl in Hn.
  - rewrite append_nil_l. simpl. rewrite Nat.sub_0_r. revert n Hn.
    induction k as [|k IH]; intros [|n] Hn; simpl in *; try done; [lia|].
    rewrite append_nil_l in *. f_equal. apply IH. lia.
  - destruct n as [|n]; [lia|]. rewrite !append_cons. simpl. by rewrite IH by lia.
Qed.

(** Two prefixes of one string are prefixes of each other, so equal lengths make them equal. *)
Lemma append_inj_length (a b s t : string) :
  a +:+ s = b +:+ t → String.length a = String.length b → a = b ∧ s = t.
Proof.
  revert b. induction a as [|x a IH]; intros [|y b] Heq Hlen; try done.
  rewrite !append_cons in Heq. injection Heq as -> Heq. injection Hlen as Hlen.
  by destruct (IH b Heq Hlen) as [-> ->].
Qed.

(** * Decimal round trip: [n.to_string().parse::<u64>()] *)

Lemma digit_value_pretty d : (d < 10)%N → digit_value (pretty_N_char d) = Some d.
Proof.
  intros Hd. destruct d as [|p]; [done|].
  do 4 (destruct p as [p|p|]; [try lia..|done]); lia.
Qed.

(** The digits of [n], prepended to digits that are parsed afterwards, are parsed as [n]. *)
Lemma parse_digits_pretty_go modulus n s :
  (n < modulus)%N → parse_digits modulus (pretty_N_go n s) 0 = parse_digits modulus s n.
Proof.
  revert s. induction (N.lt_wf_0 n) as [n _ IH]; intros s Hn.
  destruct (decide (n = 0)%N) as [->|Hnz]; [by rewrite pretty_N_go_0|].
  rewrite pretty_N_go_step by lia.
  pose proof (N.div_lt n 10 ltac:(lia) ltac:(done)).
  rewrite IH by lia. cbn [parse_digits].
  rewrite digit_value_pretty by (by apply N.mod_lt). simpl.
  replace (n `div` 10 * 10 + n `mod` 10)%N with n
    by (rewrite (N.div_mod' n 10) at 1; lia).
  by rewrite decide_True by done.
Qed.

(** A string that does not begin with a plus sign is read digit by digit. *)
Lemma parse_uint_digits modulus s n :
  s ≠ "" → parse_digits modulus s 0 = Ok n → parse_uint modulus s = Ok n.
Proof.
  intros Hs Hp. destruct s as [|a s]; [done|]. unfold parse_uint.
  case_decide as Ha; [|done]. destruct Ha as [-> _]. by cbn in Hp.
Qed.

Lemma parse_uint_pretty modulus n : (n < modulus)%N → parse_uint modulus (pretty n) = Ok n.
Proof.
  intros Hn. unfold pretty, pretty_N. case_decide as Hz.
  { subst. apply parse_uint_digits; [done|]. simpl. by rewrite decide_True. }
  pose proof (parse_digits_pretty_go modulus n "" Hn) as Hp. simpl in Hp.
  apply parse_uint_digits; [|done]. intros Hs. rewrite Hs in Hp. simpl in Hp. congruence.
Qed.

Lemma parse_u64_pretty n : (n < u64_modulus)%N → parse_u64 (pretty n) = Some n.
Proof. intros Hn. unfold parse_u64. by rewrite parse_uint_pretty. Qed.

Lemma parse_digits_lt modulus s acc n :
  parse_digits modulus s acc = Ok n → (acc < modulus)%N → (n < modulus)%N.
Proof.
  revert acc. induction s as [|a s IH]; intros acc; simpl; [congruence|].
  destruct (digit_value a) as [d|]; simpl; [|done].
  case_decide; [|done]. eauto.
Qed.

Lemma parse_uint_lt modulus s n : parse_uint modulus s = Ok n → (0 < modulus)%N → (n < modulus)%N.
Proof.
  destruct s as [|a s]; [done|]. unfold parse_uint.
  case_decide; eauto using parse_digits_lt.
Qed.

Lemma parse_u64_lt s n : parse_u64 s = Some n → (n < u64_modulus)%N.
Proof.
  unfold parse_u64. destruct (parse_uint _ _) as [m|] eqn:Hp; [|done]. intros [= <-].
  eauto using parse_uint_lt, u64_modulus_pos.
Qed.

(** ** The characters of a decimal number *)

Definition is_digit (a : ascii) : bool := is_some (digit_value a).

Lemma pretty_N_go_avoids c n s :
  is_digit c = false → contains_char c (pretty_N_go n s) = contains_char c s.
Proof.
  intros Hc. revert s. induction (N.lt_wf_0 n) as [n _ IH]; intros s.
  destruct (decide (n = 0)%N) as [->|Hnz]; [by rewrite pretty_N_go_0|].
  rewrite pretty_N_go_step by lia. rewrite IH by (by apply N.div_lt; lia). simpl.
  rewrite decide_False; [done|]. intros <-. unfold is_digit in Hc.
  by rewrite digit_value_pretty in Hc by (by apply N.mod_lt).
Qed.

Lemma pretty_avoids c (n : N) : is_digit c = false → contains_char c (pretty n) = false.
Proof.
  intros Hc. unfold pretty, pretty_N. case_decide.
  - simpl. rewrite decide_False; [done|]. by intros <-.
  - by rewrite pretty_N_go_avoids.
Qed.

Lemma contains_char_app c s t :
  contains_char c (s +:+ t) = contains_char c s || contains_char c t.
Proof.
  induction s as [|a s IH]; [done|]. rewrite append_cons. simpl. by case_decide.
Qed.

(** ** Splitting *)

Lemma split_char_app c s t :
  contains_char c s = false → split_char c (s +:+ String c t) = s :: split_char c t.
Proof.
  induction s as [|a s IH]; intros Hs.
  - rewrite append_nil_l. simpl. by rewrite decide_True.
  - rewrite append_cons. simpl in *. case_decide; [done|]. by rewrite IH.
Qed.

(** ** Padded decimal numbers *)

Lemma parse_digits_pretty modulus n :
  (n < modulus)%N → parse_digits modulus (pretty n) 0 = Ok n.
Proof.
  intros Hn. unfold pretty, pretty_N. case_decide as Hz.
  - subst. simpl. by rewrite decide_True.
  - by apply (parse_digits_pretty_go modulus n "").
Qed.

Lemma parse_digits_zeros modulus j s :
  (0 < modulus)%N → parse_digits modulus (str_repeat "0" j +:+ s) 0 = parse_digits modulus s 0.
Proof.
  intros Hm. induction j as [|j IH]; [done|].
  cbn [str_repeat]. rewrite append_cons. simpl. by rewrite decide_True.
Qed.

Lemma dec_pad_inj k m n : dec_pad k m = dec_pad k n → m = n.
Proof.
  intros Heq. set (modulus := (m + n + 1)%N).
  apply (f_equal (λ s, parse_digits modulus s 0)) in Heq. unfold dec_pad in Heq.
  rewrite !parse_digits_zeros, !parse_digits_pretty in Heq by lia. congruence.
Qed.

Lemma str_repeat_length c n : String.length (str_repeat c n) = n.
Proof. induction n as [|n IH]; [done|]. simpl. by rewrite IH. Qed.

Lemma pretty_N_go_length k n s :
  (n < 10 ^ N.of_nat k)%N → String.length (pretty_N_go n s) ≤ k + String.length s.
Proof.
  revert n s. induction k as [|k IH]; intros n s Hn.
  { change (10 ^ N.of_nat 0)%N with 1%N in Hn. assert (n = 0)%N as -> by lia.
    by rewrite pretty_N_go_0. }
  destruct (decide (n = 0)%N) as [->|Hnz]; [rewrite pretty_N_go_0; lia|].
  rewrite pretty_N_go_step by lia. rewrite Nat2N.inj_succ, N.pow_succ_r' in Hn.
  etrans; [apply IH; by apply N.Div0.div_lt_upper_bound|]. simpl. lia.
Qed.

Lemma dec_pad_length k n :
  (n < 10 ^ N.of_nat k)%N → k ≠ 0 → String.length (dec_pad k n) = k.
Proof.
  intros Hn Hk. unfold dec_pad. rewrite string_length_app, str_repeat_length.
  assert (String.length (pretty n) ≤ k); [|lia].
  unfold pretty, pretty_N. case_decide; [simpl; lia|].
  pose proof (pretty_N_go_length k n "" Hn). simpl in *. lia.
Qed.

(** * Hexadecimal request identifiers *)

Lemma hex_digits_length k n s :
  String.length (hex_digits k n s) = k + String.length s.
Proof.
  revert n s. induction k as [|k IH]; intros n s; [done|].
  cbn [hex_digits]. rewrite IH. simpl. lia.
Qed.

Lemma hex_digit_inj x y :
  (x < 16)%N → (y < 16)%N → hex_digit x = hex_digit y → x = y.
Proof.
  intros Hx Hy Heq. apply (f_equal N_of_ascii) in Heq. revert Heq.
  unfold hex_digit. repeat case_decide; rewrite !N_ascii_embedding by lia; lia.
Qed.

Lemma hex_digits_inj k m n s t :
  (m < 16 ^ N.of_nat k)%N → (n < 16 ^ N.of_nat k)%N →
  String.length s = String.length t →
  hex_digits k m s = hex_digits k n t → m = n ∧ s = t.
Proof.
  revert m n s t. induction k as [|k IH]; intros m n s t Hm Hn Hl Heq.
  { change (16 ^ N.of_nat 0)%N with 1%N in *. split; [lia|done]. }
  rewrite Nat2N.inj_succ, N.pow_succ_r' in Hm, Hn. cbn [hex_digits] in Heq.
  apply IH in Heq as [Hdiv Hs].
  - injection Hs as Hd ->. apply hex_digit_inj in Hd; [|by apply N.mod_lt..].
    split; [|done].
    rewrite (N.div_mod' m 16), (N.div_mod' n 16). by rewrite Hdiv, Hd.
  - by apply N.Div0.div_lt_upper_bound.
  - by apply N.Div0.div_lt_upper_bound.
  - simpl. by rewrite Hl.
Qed.

Lemma hex016_length n : String.length (hex016 n) = 16.
Proof. apply hex_digits_length. Qed.

Lemma hex016_inj m n :
  (m < u64_modulus)%N → (n < u64_modulus)%N → hex016 m = hex016 n → m = n.
Proof. intros Hm Hn Heq. by apply hex_digits_inj in Heq as [? _]. Qed.

(** * Visible ASCII text *)

(** Every character is between the space and the tilde. *)
Fixpoint visible_ascii (s : string) : bool :=
  match s with
  | "" => true
  | String a s => let n := nat_of_ascii a in bool_decide (32 ≤ n ∧ n < 127) && visible_ascii s
  end.

Lemma visible_ascii_app a b : visible_ascii (a +:+ b) = visible_ascii a && visible_ascii b.
Proof.
  induction a as [|x a IH]; [done|]. rewrite append_cons. simpl. by rewrite IH, andb_assoc.
Qed.

Lemma visible_digit d : (d < 10)%N → visible_ascii (String (pretty_N_char d) "") = true.
Proof.
  intros Hd. destruct d as [|p]; [done|].
  do 4 (destruct p as [p|p|]; [try lia..|done]); lia.
Qed.

Lemma visible_pretty_go n s : visible_ascii s = true → visible_ascii (pretty_N_go n s) = true.
Proof.
  revert s. induction (N.lt_wf_0 n) as [n _ IH]; intros s Hs.
  destruct (decide (n = 0)%N) as [->|Hnz]; [by rewrite pretty_N_go_0|].
  rewrite pretty_N_go_step by lia. apply IH; [by apply N.div_lt; lia|].
  change (visible_ascii (String (pretty_N_char (n `mod` 10)) "" +:+ s) = true).
  rewrite visible_ascii_app, Hs, visible_digit by (by apply N.mod_lt). done.
Qed.

Lemma visible_pretty n : visible_ascii (pretty (n : N)) = true.
Proof.
  unfold pretty, pretty_N. case_decide; [done|]. by apply visible_pretty_go.
Qed.

Lemma visible_hex_digit d : (d < 16)%N → visible_ascii (String (hex_digit d) "") = true.
Proof.
  intros Hd. destruct d as [|p]; [done|].
  do 4 (destruct p as [p|p|]; [try lia..|done]); lia.
Qed.

Lemma visible_hex_digits k n s : visible_ascii s = true → visible_ascii (hex_digits k n s) = true.
Proof.
  revert n s. induction k as [|k IH]; intros n s Hs; [done|]. cbn [hex_digits]. apply IH.
  change (visible_ascii (String (hex_digit (n `mod` 16)) "" +:+ s) = true).
  rewrite visible_ascii_app, Hs, visible_hex_digit by (by apply N.mod_lt). done.
Qed.

Lemma visible_hex016 n : visible_ascii (hex016 n) = true.
Proof. by apply visible_hex_digits. Qed.

#[export] Hint Resolve parse_u64_lt : ferrum.

Lemma as_u64_add x y : as_u64 (x + y) = u64_add (as_u64 x) y.
Proof. unfold as_u64, u64_add. by rewrite N.Div0.add_mod_idemp_l. Qed.

Lemma as_u64_add_both x y : as_u64 (x + y) = u64_add (as_u64 x) (as_u64 y).
Proof. unfold as_u64, u64_add. by rewrite N.Div0.add_mod. Qed.

Lemma as_u64_small x : (x < u64_modulus)%N → as_u64 x = x.
Proof. apply N.mod_small. Qed.
