(* ===== verification/Externals.v ===== *)
(** The interfaces of the code outside the repository that the model's definitions take as
    parameters, each as a class of operations and, where the theorems rely on the documented
    behaviour, a class of laws.  Nothing is defined here for code that is not under [src/]. *)

From Stdlib Require Import Ascii.
From S2P Require Import Prelude RustStd.
From stdpp Require Import options.

(** * The [url] crate: [Url] *)

Class UrlOps := {
  Url : Type;
  url_parse : string → result string Url; (** [Url::parse]; the error as its text *)
  url_scheme : Url → string;
  url_host_str : Url → option string;
  url_port : Url → option N;
  url_path : Url → string;
  url_query : Url → option string;
  url_set_path : string → Url → Url;
  url_set_query : option string → Url → Url;
  url_as_str : Url → string;
  (** how a path and a query of an http URL are written: percent-encoded, and a path also with
      its dot segments removed *)
  url_encode_path : string → string;
  url_encode_query : string → string;
}.

(** The values the crate can make. *)
Inductive url_built `{UrlOps} : Url → Prop :=
  | built_parse s u : url_parse s = Ok u → url_built u
  | built_set_path p u : url_built u → url_built (url_set_path p u)
  | built_set_query q u : url_built u → url_built (url_set_query q u).

(** Letters, digits and [- _ ~ . /]. *)
Definition plain_char (a : ascii) : bool :=
  let n := nat_of_ascii a in
  bool_decide (48 ≤ n ≤ 57 ∨ 65 ≤ n ≤ 90 ∨ 97 ≤ n ≤ 122)
  || contains_char a "-_~./".
(** A path from the root in plain characters, none of whose segments begins with a dot. *)
Definition plain_path (p : string) : bool :=
  starts_with p "/" && string_all plain_char p && negb (str_contains p "/.").
(** A query in plain characters and [= & % + : ,]. *)
Definition plain_query (q : string) : bool :=
  string_all (λ a, plain_char a || contains_char a "=&%+:,") q.

Class UrlLaws `{UrlOps} := {
  url_scheme_set_path p u : url_scheme (url_set_path p u) = url_scheme u;
  url_scheme_set_query q u : url_scheme (url_set_query q u) = url_scheme u;
  url_host_set_path p u : url_host_str (url_set_path p u) = url_host_str u;
  url_host_set_query q u : url_host_str (url_set_query q u) = url_host_str u;
  url_port_set_path p u : url_port (url_set_path p u) = url_port u;
  url_port_set_query q u : url_port (url_set_query q u) = url_port u;
  url_path_set_path p u :
    url_scheme u = "http" → url_path (url_set_path p u) = url_encode_path p;
  url_path_set_query q u : url_scheme u = "http" → url_path (url_set_query q u) = url_path u;
  url_query_set_query q u :
    url_scheme u = "http" → url_query (url_set_query q u) = url_encode_query <$> q;
  encode_plain_path p : plain_path p = true → url_encode_path p = p;
  encode_plain_query q : plain_query q = true → url_encode_query q = q;
}.

(** * Iteration over a [HashSet]: every element once, in an unspecified order *)

Class HashIter := {
  hash_iter {A} `{Countable A} : gset A → list A;
}.

Class HashIterLaws `{HashIter} := {
  hash_iter_perm {A} `{Countable A} (X : gset A) : hash_iter X ≡ₚ elements X;
}.

(** * The [http] crate: [Uri], [HeaderName], [HeaderValue] and [HeaderMap] *)

Class UriOps := {
  Uri : Type;
  uri_scheme : Uri → option string;
  uri_host : Uri → option string;
  uri_port : Uri → option N;
  uri_path : Uri → string;
  uri_query : Uri → option string;
  uri_parse : string → result string Uri; (** [str::parse::<Uri>]; the error as its text *)
}.

(** Reading the text of an http [Url] as a [Uri] gives the same parts, if it gives anything. *)
Class TargetLaws `{UrlOps, UriOps} := {
  uri_of_url u uri :
    url_built u → url_scheme u = "http" → uri_parse (url_as_str u) = Ok uri →
    uri_scheme uri = Some "http" ∧ uri_host uri = url_host_str u ∧ uri_port uri = url_port u ∧
    uri_path uri = url_path u ∧ uri_query uri = url_query u;
}.

Class HeaderOps := {
  HeaderName : Type;
  HeaderName_eq_dec :: EqDecision HeaderName;
  HeaderName_countable :: Countable HeaderName;
  HeaderValue : Type;
  HeaderMap : Type;
  name_from_static : string → HeaderName; (** the constants and [HeaderName::from_static] *)
  name_from_bytes : string → option HeaderName;
  value_from_str : string → option HeaderValue;
  value_to_str : HeaderValue → option string;
  headers_get_all : HeaderMap → HeaderName → list HeaderValue;
  headers_insert : HeaderName → HeaderValue → HeaderMap → HeaderMap;
  headers_remove : HeaderName → HeaderMap → HeaderMap;
  headers_empty : HeaderMap;
}.

(** [headers.get(name)] is the first of the values. *)
Definition headers_get `{HeaderOps} (m : HeaderMap) (n : HeaderName) : option HeaderValue :=
  head (headers_get_all m n).

Class HeaderLaws `{HeaderOps} := {
  insert_get_all n v m : headers_get_all (headers_insert n v m) n = [v];
  insert_get_all_ne n n' v m :
    n ≠ n' → headers_get_all (headers_insert n v m) n' = headers_get_all m n';
  remove_get_all n m : headers_get_all (headers_remove n m) n = [];
  remove_get_all_ne n n' m :
    n ≠ n' → headers_get_all (headers_remove n m) n' = headers_get_all m n';
  empty_get_all n : headers_get_all headers_empty n = [];
  value_from_to_str s v : value_from_str s = Some v → value_to_str v = Some s;
  (** [from_static] takes lowercase names, and distinct ones are distinct headers *)
  name_from_static_inj s s' :
    to_ascii_lowercase s = s → to_ascii_lowercase s' = s' →
    name_from_static s = name_from_static s' → s = s';
  (** [from_str] accepts visible ASCII, and whatever [to_str] gives *)
  value_from_visible s : visible_ascii s = true → is_Some (value_from_str s);
  value_to_from_str v s : value_to_str v = Some s → is_Some (value_from_str s);
}.

(** * [std::net::SocketAddr], as an opaque value with the text of its parts *)

Class AddrOps := {
  SocketAddr : Type;
  addr_ip : SocketAddr → string; (** [addr.ip().to_string()] *)
  addr_to_string : SocketAddr → string;
  addr_parse : string → result string SocketAddr;
}.

(** * The [hyper] client's errors *)

(** [std::io::ErrorKind], the kinds the source names and the others. *)
Inductive IoErrorKind := IoConnectionRefused | IoTimedOut | IoInvalidData | IoOther.
#[export] Instance IoErrorKind_eq_dec : EqDecision IoErrorKind.
Proof. solve_decision. Defined.

(** What the two [downcast_ref]s of the source can see of one error of a chain. *)
Record ErrorSource := {
  as_io : option IoErrorKind; (** an [std::io::Error] of this kind *)
  as_hyper : option (bool * bool); (** a [hyper::Error]: is it a parse error, is it incomplete *)
}.

Class ClientErrorOps := {
  ClientError : Type; (** [hyper_util::client::legacy::Error] *)
  client_is_connect : ClientError → bool;
  client_chain : ClientError → list ErrorSource; (** the error itself, then its sources *)
  client_to_string : ClientError → string;
}.

(** * Bodies *)

(** An item of the stream [body.into_data_stream().timeout(idle)]. *)
Inductive Polled :=
  | Chunk (data : string)
  | ReadError (err : string)
  | IdleElapsed.

(** [Body] is a body on the wire ([Incoming], or the [Full] of a buffered request); the
    stream of it under an idle timeout is a list of items, each with the time it took.  An
    endless body has no such list and is not covered. *)
Class BodyOps := {
  Body : Type;
  timed_items : Duration → Body → list (Duration * Polled);
  body_full : string → Body; (** [Full::new] *)
}.

Definition chunk_bytes (p : Polled) : string := match p with Chunk s => s | _ => "" end.
Definition items_bytes (l : list (Duration * Polled)) : string :=
  str_concat (chunk_bytes ∘ snd <$> l).

Class BodyLaws `{BodyOps} := {
  body_full_items d s :
    Forall (λ i, ∃ c, i.2 = Chunk c) (timed_items d (body_full s)) ∧
    items_bytes (timed_items d (body_full s)) = s;
}.

(** * Requests and responses ([http::Request], [http::Response]) *)

(** [Method] is its name; [StatusCode] its number; [Version] its text. *)
Abbreviation Method := string (only parsing).
Abbreviation StatusCode := N (only parsing).

Record Request `{UriOps, HeaderOps, AddrOps} (B : Type) := {
  req_method : Method;
  req_uri : Uri;
  req_version : string;
  req_headers : HeaderMap;
  req_remote_addr : option SocketAddr; (** the [ConnectionInfo] of the extensions *)
  req_body : B;
}.
Arguments req_method {_ _ _ B}.
Arguments req_uri {_ _ _ B}.
Arguments req_version {_ _ _ B}.
Arguments req_headers {_ _ _ B}.
Arguments req_remote_addr {_ _ _ B}.
Arguments req_body {_ _ _ B}.

Record Response `{HeaderOps} (B : Type) := {
  resp_status : StatusCode;
  resp_version : string;
  resp_headers : HeaderMap;
  resp_body : B;
}.
Arguments resp_status {_ B}.
Arguments resp_version {_ B}.
Arguments resp_headers {_ B}.
Arguments resp_body {_ B}.

(** [StatusCode::from_u16]: the three-digit numbers are status codes. *)
Class StatusOps := { status_from_u16 : N → option StatusCode }.

Class StatusLaws `{StatusOps} := {
  status_from_u16_valid n : (100 ≤ n < 1000)%N → status_from_u16 n = Some n;
  status_from_u16_invalid n : ¬ (100 ≤ n < 1000)%N → status_from_u16 n = None;
}.

(** * [tokio::sync::Semaphore] *)

Class SemaphoreOps := {
  Semaphore : Type;
  sem_new : N → Semaphore;
  sem_try_acquire : Semaphore → option Semaphore; (** the semaphore without the permit *)
  sem_release : Semaphore → Semaphore; (** the permit is dropped *)
  sem_available : Semaphore → N;
}.

Class SemaphoreLaws `{SemaphoreOps} := {
  sem_new_available n : sem_available (sem_new n) = n;
  sem_acquire_none s : sem_try_acquire s = None ↔ sem_available s = 0%N;
  sem_acquire_some s s' :
    sem_try_acquire s = Some s' → sem_available s = (sem_available s' + 1)%N;
  sem_release_available s : sem_available (sem_release s) = (sem_available s + 1)%N;
}.

(** * [tokio::sync::Notify] *)

Class NotifyOps := {
  Notify : Type;
  Notified : Type; (** the future [notify.notified()] *)
  notify_new : Notify;
  notify_notified : Notify → Notified;
  notify_waiters : Notify → Notify;
  notified_ready : Notify → Notified → bool; (** it completes when polled now *)
}.

(** A future completes once [notify_waiters] has been called after its creation, and not
    before: the call leaves no permit for futures created later. *)
Class NotifyLaws `{NotifyOps} := {
  notified_fresh n : notified_ready n (notify_notified n) = false;
  notified_woken n : notified_ready (notify_waiters n) (notify_notified n) = true;
  notified_stays n f : notified_ready n f = true → notified_ready (notify_waiters n) f = true;
}.

(** * All of them *)

Class Platform := {
  platform_url :: UrlOps;
  platform_uri :: UriOps;
  platform_headers :: HeaderOps;
  platform_addr :: AddrOps;
  platform_error :: ClientErrorOps;
  platform_body :: BodyOps;
  platform_semaphore :: SemaphoreOps;
  platform_iter :: HashIter;
}.
