(* ===== verification/Instances.v ===== *)
(** Concrete instances of the interfaces of [Externals], on which the witnesses of the
    theorems evaluate.  They are test doubles, not models of the crates. *)

From Stdlib Require Import Ascii.
From S2P Require Import Prelude RustStd Externals.
From stdpp Require Import options.

(** * A URL parser for [scheme://host[:port][/path][?query]] *)

Fixpoint split_once (c : ascii) (s : string) : option (string * string) :=
  match s with
  | "" => None
  | String a s =>
      if decide (a = c) then Some ("", s)
      else '(x, y) ← split_once c s; Some (String a x, y)
  end.

Record simple_url := SimpleUrl {
  su_scheme : string;
  su_host : option string;
  su_port : option N;
  su_path : string;
  su_query : option string;
}.

Definition split_query (s : string) : string * option string :=
  match split_once "?" s with Some (p, q) => (p, Some q) | None => (s, None) end.

Definition split_port (auth : string) : result string (string * option N) :=
  match split_once ":" auth with
  | Some (h, p) => match parse_u64 p with
                   | Some port => Ok (h, Some port)
                   | None => Err "invalid port number"
                   end
  | None => Ok (auth, None)
  end.

Definition simple_url_parse (s : string) : result string simple_url :=
  match split_once ":" s with
  | Some (scheme, String "/" (String "/" rest)) =>
      let (auth, target) := match split_once "/" rest with
                            | Some (a, p) => (a, String "/" p)
                            | None => (rest, "/")
                            end in
      let (path, query) := split_query target in
      '(host, port) ← split_port auth;
      if is_empty host then Err "empty host"
      else Ok (SimpleUrl scheme (Some host) port path query)
  | _ => Err "relative URL without a base"
  end.

Definition query_text (q : option string) : string :=
  match q with Some q => String "?" q | None => "" end.
Definition authority_text (host : option string) (port : option N) : string :=
  default "" host +:+ match port with Some p => String ":" (pretty p) | None => "" end.

Definition simple_url_as_str (u : simple_url) : string :=
  su_scheme u +:+ String ":" (String "/" (String "/"
    (authority_text (su_host u) (su_port u) +:+ su_path u +:+ query_text (su_query u)))).

(** A path begins with a slash and has no question mark. *)
Definition simple_encode_path (p : string) : string :=
  let p := replace_char "?" "%3F" p in if starts_with p "/" then p else "/" +:+ p.

#[local] Instance simple_url_ops : UrlOps := {|
  Url := simple_url;
  url_parse := simple_url_parse;
  url_scheme := su_scheme;
  url_host_str := su_host;
  url_port := su_port;
  url_path := su_path;
  url_query := su_query;
  url_set_path p u :=
    SimpleUrl (su_scheme u) (su_host u) (su_port u) (simple_encode_path p) (su_query u);
  url_set_query q u := SimpleUrl (su_scheme u) (su_host u) (su_port u) (su_path u) q;
  url_as_str := simple_url_as_str;
  url_encode_path := simple_encode_path;
  url_encode_query q := q;
|}.

Lemma replace_char_absent c t s : contains_char c s = false → replace_char c t s = s.
Proof.
  induction s as [|a s IH]; simpl; [done|]. case_decide; [done|]. intros Hs. by rewrite IH.
Qed.

Lemma string_all_absent c f s :
  f c = false → string_all f s = true → contains_char c s = false.
Proof.
  intros Hc. induction s as [|a s IH]; simpl; [done|]. rewrite andb_true_iff. intros [Ha Hs].
  rewrite decide_False; [by apply IH|]. intros ->. congruence.
Qed.

#[export] Instance simple_url_laws : UrlLaws.
Proof.
  split; try done.
  - intros q u _. simpl. by destruct q.
  - intros p. unfold plain_path. rewrite !andb_true_iff. intros [[Hs Hall] _]. simpl.
    unfold simple_encode_path. rewrite replace_char_absent, Hs; [done|].
    by apply (string_all_absent _ plain_char).
Qed.

(** * Set iteration in the order of [elements] *)

#[local] Instance elements_iter : HashIter := {| hash_iter A _ _ X := elements X |}.
#[export] Instance elements_iter_laws : HashIterLaws.
Proof. by split. Qed.

(** * Headers as an association list, with lowercase names and visible ASCII values *)

Definition simple_value (s : string) : option string :=
  if visible_ascii s then Some s else None.

#[local] Instance simple_header_ops : HeaderOps := {|
  HeaderName := string;
  HeaderValue := string;
  HeaderMap := list (string * string);
  name_from_static s := s;
  name_from_bytes s := if is_empty s then None else Some (to_ascii_lowercase s);
  value_from_str := simple_value;
  value_to_str := simple_value;
  headers_get_all m n := snd <$> filter (λ kv, kv.1 = n) m;
  headers_insert n v m := (n, v) :: filter (λ kv, kv.1 ≠ n) m;
  headers_remove n m := filter (λ kv, kv.1 ≠ n) m;
  headers_empty := [];
|}.

Lemma filter_filter_same (n n' : string) (m : list (string * string)) :
  n ≠ n' →
  filter (λ kv, kv.1 = n') (filter (λ kv, kv.1 ≠ n) m) = filter (λ kv, kv.1 = n') m.
Proof.
  intros Hne. induction m as [|[k v] m IH]; [done|].
  rewrite (filter_cons _ (_, _) m). case_decide; rewrite !filter_cons; simpl in *.
  - by rewrite IH.
  - rewrite IH. rewrite (decide_False (P := k = n')); [done|]. naive_solver.
Qed.

Lemma filter_filter_none (n : string) (m : list (string * string)) :
  filter (λ kv, kv.1 = n) (filter (λ kv, kv.1 ≠ n) m) = [].
Proof.
  induction m as [|[k v] m IH]; [done|].
  rewrite (filter_cons _ (_, _) m). case_decide; [|done]. by rewrite filter_cons, decide_False.
Qed.

#[export] Instance simple_header_laws : HeaderLaws.
Proof.
  split; simpl.
  - intros n v m. rewrite filter_cons, decide_True by done. by rewrite filter_filter_none.
  - intros n n' v m Hne. rewrite filter_cons, decide_False by done. by rewrite filter_filter_same.
  - intros n m. by rewrite filter_filter_none.
  - intros n n' m Hne. by rewrite filter_filter_same.
  - done.
  - intros s v. unfold simple_value. destruct (visible_ascii s) eqn:Hs; [|done].
    intros [= <-]. by rewrite Hs.
  - done.
  - intros s Hs. unfold simple_value. by rewrite Hs.
  - intros v s. unfold simple_value. destruct (visible_ascii v) eqn:Hv; [|done].
    intros [= <-]. by rewrite Hv.
Qed.

(** * Request targets, addresses, client errors and bodies *)

(** The scheme, host and port of the absolute form, the path and the query. *)
Record simple_uri := SimpleUri {
  suri_scheme : option string;
  suri_host : option string;
  suri_port : option N;
  suri_path : string;
  suri_query : option string;
}.
(** A request target that is a path. *)
Definition origin_form (path : string) (query : option string) : simple_uri :=
  SimpleUri None None None path query.

Definition simple_uri_parse (s : string) : result string simple_uri :=
  match s with
  | String "/" _ => let (path, query) := split_query s in Ok (origin_form path query)
  | _ =>
      u ← simple_url_parse s;
      Ok (SimpleUri (Some (su_scheme u)) (su_host u) (su_port u) (su_path u) (su_query u))
  end.
Definition suri_origin (u : simple_uri) : string :=
  match suri_scheme u with
  | Some scheme => scheme +:+ "://" +:+ authority_text (suri_host u) (suri_port u)
  | None => ""
  end.
Definition simple_uri_to_string (u : simple_uri) : string :=
  suri_origin u +:+ suri_path u +:+ query_text (suri_query u).

#[local] Instance simple_uri_ops : UriOps := {|
  Uri := simple_uri; uri_scheme := suri_scheme; uri_host := suri_host; uri_port := suri_port;
  uri_path := suri_path; uri_query := suri_query; uri_parse := simple_uri_parse;
|}.

(** ** The text of a URL parses back *)

Lemma split_once_app c s t :
  contains_char c s = false → split_once c (s +:+ String c t) = Some (s, t).
Proof.
  induction s as [|a s IH]; intros Hs.
  - rewrite append_nil_l. simpl. by rewrite decide_True.
  - rewrite append_cons. simpl in *. case_decide; [done|]. by rewrite IH.
Qed.

Lemma split_once_none c s : contains_char c s = false → split_once c s = None.
Proof. induction s as [|a s IH]; simpl; [done|]. case_decide; [done|]. intros Hs. by rewrite IH. Qed.

Lemma split_once_before c s x y : split_once c s = Some (x, y) → contains_char c x = false.
Proof.
  revert x. induction s as [|a s IH]; intros x; simpl; [done|].
  case_decide; [by intros [= <- <-]|]. destruct (split_once c s) as [[x' y']|]; simpl; [|done].
  intros [= <- <-]. simpl. rewrite decide_False by done. by apply IH.
Qed.

(** What parsing and the setters give. *)
Record simple_url_wf (u : simple_url) : Prop := {
  wf_scheme : contains_char ":" (su_scheme u) = false;
  wf_host : ∃ h, su_host u = Some h ∧ h ≠ "" ∧
    contains_char ":" h = false ∧ contains_char "/" h = false;
  wf_port p : su_port u = Some p → (p < u64_modulus)%N;
  wf_path : ∃ p, su_path u = String "/" p ∧ contains_char "?" p = false;
}.
Lemma split_query_text p q : contains_char "?" p = false → split_query (p +:+ query_text q) = (p, q).
Proof.
  intros Hp. unfold split_query. destruct q as [q|]; simpl.
  - by rewrite split_once_app.
  - by rewrite append_nil_r, split_once_none.
Qed.

Lemma split_port_text h p :
  contains_char ":" h = false → (∀ n, p = Some n → (n < u64_modulus)%N) →
  split_port (authority_text (Some h) p) = Ok (h, p).
Proof.
  intros Hh Hp. unfold split_port, authority_text. simpl. destruct p as [p|].
  - rewrite split_once_app by done. by rewrite parse_u64_pretty by auto.
  - by rewrite append_nil_r, split_once_none.
Qed.

Lemma authority_no_slash h p :
  contains_char "/" h = false → contains_char "/" (authority_text (Some h) p) = false.
Proof.
  intros Hh. unfold authority_text. simpl. rewrite contains_char_app, Hh. simpl.
  destruct p as [p|]; [|done]. simpl. by apply pretty_avoids.
Qed.

Lemma simple_url_roundtrip u : simple_url_wf u → simple_url_parse (simple_url_as_str u) = Ok u.
Proof.
  intros [Hs (h & Hh & Hne & Hc & Hl) Hport (p & Hp & Hq)].
  unfold simple_url_parse, simple_url_as_str. rewrite split_once_app by done.
  rewrite Hh, Hp, append_cons. rewrite split_once_app by by apply authority_no_slash.
  rewrite <-append_cons, split_query_text by done. rewrite split_port_text by done. simpl.
  destruct h; [done|]. simpl. destruct u; simpl in *; congruence.
Qed.

Lemma split_once_sound c s x y : split_once c s = Some (x, y) → s = x +:+ String c y.
Proof.
  revert x. induction s as [|a s IH]; intros x; simpl; [done|].
  case_decide; [by intros [= <- <-]; subst|]. destruct (split_once c s) as [[x' y']|]; simpl; [|done].
  intros [= <- <-]. rewrite append_cons. f_equal. by apply IH.
Qed.

Lemma split_once_absent c s : split_once c s = None → contains_char c s = false.
Proof.
  induction s as [|a s IH]; simpl; [done|]. case_decide; [done|].
  destruct (split_once c s) as [[]|]; [done|auto].
Qed.

Lemma split_query_rooted s p q :
  split_query (String "/" s) = (p, q) →
  ∃ p', p = String "/" p' ∧ contains_char "?" p' = false.
Proof.
  unfold split_query. simpl. destruct (split_once "?" s) as [[p' q']|] eqn:Hs; simpl;
    intros [= <- <-]; eexists; (split; [done|]).
  - by eapply split_once_before.
  - by apply split_once_absent.
Qed.

Lemma split_port_sound auth h p :
  split_port auth = Ok (h, p) → contains_char "/" auth = false →
  contains_char ":" h = false ∧ contains_char "/" h = false ∧
  ∀ n, p = Some n → (n < u64_modulus)%N.
Proof.
  unfold split_port. destruct (split_once ":" auth) as [[h' t]|] eqn:Hs.
  - destruct (parse_u64 t) as [n|] eqn:Hn; [|done]. intros [= <- <-] Ha.
    rewrite (split_once_sound _ _ _ _ Hs), contains_char_app, orb_false_iff in Ha.
    split; [by eapply split_once_before|]. split; [apply Ha|].
    intros ? [= <-]. by eapply parse_u64_lt.
  - intros [= <- <-] Ha. split; [by apply split_once_absent|]. done.
Qed.

Lemma simple_url_parse_wf s u : simple_url_parse s = Ok u → simple_url_wf u.
Proof.
  unfold simple_url_parse. destruct (split_once ":" s) as [[scheme text]|] eqn:Hs; [|done].
  destruct text as [|x1 [|x2 rest]]; [done|by destruct x1 as [[] [] [] [] [] [] [] []]|].
  destruct (decide (x1 = "/"%char)) as [->|]; [|by destruct x1 as [[] [] [] [] [] [] [] []]].
  destruct (decide (x2 = "/"%char)) as [->|]; [|by destruct x2 as [[] [] [] [] [] [] [] []]].
  set (parts := match split_once "/" rest with Some _ => _ | None => _ end).
  assert (contains_char "/" parts.1 = false ∧ ∃ t, parts.2 = String "/" t) as [Ha [t Ht]].
  { unfold parts. destruct (split_once "/" rest) as [[a p]|] eqn:Hr; simpl.
    - split; [by eapply split_once_before|]. by eexists.
    - split; [by apply split_once_absent|]. by eexists. }
  destruct parts as [auth target]. simpl in Ha, Ht. subst target.
  destruct (split_query (String "/" t)) as [path query] eqn:Hq. intros Hu.
  apply bind_Ok in Hu as ([h p] & Hp & Hu). destruct (is_empty h) eqn:He; [done|].
  injection Hu as <-. destruct (split_port_sound _ _ _ Hp Ha) as (Hc & Hl & Hport).
  split; simpl.
  - by eapply split_once_before.
  - exists h. split_and!; try done. by intros ->.
  - exact Hport.
  - by eapply split_query_rooted.
Qed.

Lemma replace_char_removes c t s :
  contains_char c t = false → contains_char c (replace_char c t s) = false.
Proof.
  intros Ht. induction s as [|a s IH]; simpl; [done|]. case_decide.
  - by rewrite contains_char_app, Ht.
  - simpl. by rewrite decide_False.
Qed.

Lemma simple_encode_path_rooted p :
  ∃ p', simple_encode_path p = String "/" p' ∧ contains_char "?" p' = false.
Proof.
  unfold simple_encode_path. cbv zeta.
  pose proof (replace_char_removes "?" "%3F" p eq_refl) as Hq.
  generalize dependent (replace_char "?" "%3F" p). clear p. intros p Hq.
  destruct (starts_with p "/") eqn:Hs; [|by exists p].
  apply starts_with_spec in Hs as [p' ->]. exists p'. split; [done|].
  by rewrite contains_char_app in Hq.
Qed.

Lemma simple_url_built_wf u : url_built u → simple_url_wf u.
Proof.
  induction 1 as [s u Hs|p u _ IH|q u _ IH].
  - by apply (simple_url_parse_wf s).
  - destruct IH. split; try done. apply simple_encode_path_rooted.
  - destruct IH. by split.
Qed.

#[export] Instance simple_target_laws : TargetLaws.
Proof.
  split. intros u uri Hb Hs Hp%eq_sym. simpl in Hs, Hp.
  pose proof (simple_url_roundtrip u (simple_url_built_wf u Hb)) as Hr.
  unfold simple_uri_parse in Hp. rewrite Hr in Hp. simpl in Hp.
  unfold simple_url_as_str in Hp. rewrite Hs in Hp. simpl in Hp. injection Hp as ->.
  done.
Qed.

#[local] Instance simple_addr_ops : AddrOps := {|
  SocketAddr := string * string;
  addr_ip := fst;
  addr_to_string a := a.1 +:+ ":" +:+ a.2;
  addr_parse s := match split_once ":" s with
                  | Some a => Ok a
                  | None => Err "invalid socket address syntax"
                  end;
|}.

Record simple_error := SimpleError { se_connect : bool; se_chain : list ErrorSource }.
#[local] Instance simple_error_ops : ClientErrorOps := {|
  ClientError := simple_error; client_is_connect := se_connect; client_chain := se_chain;
  client_to_string _ := "client error";
|}.

(** An item that takes longer than the idle timeout is preceded by [IdleElapsed]. *)
Definition simple_timed_items (idle : Duration) (b : list (Duration * Polled))
    : list (Duration * Polled) :=
  b ≫= λ '(d, p), if decide (d ≤ idle)%N then [(d, p)]
                  else [(idle, IdleElapsed); ((d - idle)%N, p)].

#[local] Instance simple_body_ops : BodyOps := {|
  Body := list (Duration * Polled);
  timed_items := simple_timed_items;
  body_full s := [(0%N, Chunk s)];
|}.
#[export] Instance simple_body_laws : BodyLaws.
Proof.
  split; intros d s. simpl. unfold simple_timed_items, items_bytes. simpl. rewrite decide_True by lia.
  split; [repeat constructor; eauto|]. simpl. apply append_nil_r.
Qed.

(** * A semaphore as its number of permits *)

#[local] Instance simple_semaphore_ops : SemaphoreOps := {|
  Semaphore := N; sem_new n := n;
  sem_try_acquire s := if decide (s = 0)%N then None else Some (s - 1)%N;
  sem_release s := (s + 1)%N; sem_available s := s;
|}.
#[export] Instance simple_semaphore_laws : SemaphoreLaws.
Proof.
  split; simpl; [done| |intros s s'; case_decide; [done|intros [= <-]; lia]|done].
  intros s. by case_decide.
Qed.

#[export] Instance simple_status_ops : StatusOps := {|
  status_from_u16 n := if decide (100 ≤ n < 1000)%N then Some n else None;
|}.
#[export] Instance simple_status_laws : StatusLaws.
Proof. split; simpl; intros n Hn; by case_decide. Qed.

(** A [Notify] as the number of calls of [notify_waiters], a future as the number at its
    creation. *)
#[export] Instance simple_notify_ops : NotifyOps := {|
  Notify := nat; Notified := nat; notify_new := 0; notify_notified n := n;
  notify_waiters n := S n; notified_ready n f := bool_decide (f < n);
|}.
#[export] Instance simple_notify_laws : NotifyLaws.
Proof.
  split; simpl; intros.
  - apply bool_decide_eq_false_2. lia.
  - apply bool_decide_eq_true_2. lia.
  - apply bool_decide_eq_true_2. apply bool_decide_eq_true_1 in H. lia.
Qed.

Definition simple_platform : Platform := {|
  platform_url := simple_url_ops; platform_uri := simple_uri_ops;
  platform_headers := simple_header_ops; platform_addr := simple_addr_ops;
  platform_error := simple_error_ops; platform_body := simple_body_ops;
  platform_semaphore := simple_semaphore_ops; platform_iter := elements_iter;
|}.
