(* ===== verification/Config.v ===== *)
(** [src/config/mod.rs]: the configuration records, their defaults, the validation of a
    configuration with its error messages, and loading.  [Config_ok] is the declarative
    reading of a valid configuration; the theorems show that validation decides it. *)

From Stdlib Require Import Ascii.
From S2P Require Import Prelude RustStd Externals.
From stdpp Require Import options.

(** * Data *)

Inductive BalancingStrategy := RoundRobin | FirstHealthy.
#[export] Instance BalancingStrategy_eq_dec : EqDecision BalancingStrategy.
Proof. solve_decision. Defined.

Record ServerConfig := {
  srv_port : N;
  srv_host : string;
  srv_graceful_shutdown_timeout_ms : N;
  srv_client_header_timeout_ms : N;
  srv_client_body_timeout_ms : N;
  srv_fail_on_startup_dead_pool : bool;
}.

Record RouteConfig := {
  rt_path_prefix : string;
  rt_backends : list string;
  rt_balancing : BalancingStrategy;
  rt_retry_on_statuses : list N;
  rt_passive_failure_statuses : list N;
  rt_health_check_endpoint : option string;
  rt_connect_timeout_ms : option N;
  rt_read_timeout_ms : option N;
  rt_client_body_timeout_ms : option N;
}.
#[export] Instance RouteConfig_eq_dec : EqDecision RouteConfig.
Proof. solve_decision. Defined.

Record HealthCheckConfig := {
  hc_interval_sec : N;
  hc_endpoint : string;
  hc_check_timeout_ms : N;
  hc_failure_threshold : N;
  hc_recovery_threshold : N;
  hc_ejection_duration_ms : N;
  hc_active_success_status_min : N;
  hc_active_success_status_max : N;
  hc_passive_failure_status_min : N;
  hc_passive_failure_status_max : N;
}.

Record UpstreamConfig := {
  up_connect_timeout_ms : N;
  up_read_timeout_ms : N;
  up_max_request_body_bytes : N;
  up_max_response_body_bytes : N;
  up_max_buffered_bodies : N;
}.

Record RetryConfig := {
  retry_max_attempts : N;
  retry_total_timeout_ms : N;
  retry_backoff_ms : N;
  retry_on_statuses : list N;
  retry_idempotent_methods : bool;
}.

Record DebugConfig := {
  dbg_expose_backend_health : bool;
  dbg_expose_metrics : bool;
  dbg_auth_token : option string;
}.

Record Config := {
  cfg_server : ServerConfig;
  cfg_routes : list RouteConfig;
  cfg_health_check : HealthCheckConfig;
  cfg_upstream : UpstreamConfig;
  cfg_retry : RetryConfig;
  cfg_debug : DebugConfig;
}.

Inductive ConfigError :=
  | Io (err : string)
  | Parse (err : string)
  | Validation (err : string).

(** [impl Display for ConfigError] *)
Definition ConfigError_fmt (e : ConfigError) : string :=
  match e with
  | Io err => "failed to read config file: " +:+ err
  | Parse err => "failed to parse config file: " +:+ err
  | Validation err => "invalid config: " +:+ err
  end.

(** [ServerConfig::socket_addr]; [str::parse::<SocketAddr>] is a parameter. *)
Definition ServerConfig_socket_addr {SocketAddr} (parse : string → result string SocketAddr)
    (c : ServerConfig) : result ConfigError SocketAddr :=
  match parse (srv_host c +:+ ":" +:+ pretty (srv_port c)) with
  | Ok addr => Ok addr
  | Err err =>
      Err (Validation ("server host/port must form a valid socket address: " +:+ err))
  end.

(** * Defaults *)

Definition default_connect_timeout_ms : N := 3000.
Definition default_read_timeout_ms : N := 15000.
Definition default_graceful_shutdown_timeout_ms : N := 30000.
Definition default_client_header_timeout_ms : N := 10000.
Definition default_client_body_timeout_ms : N := 15000.
Definition default_max_request_body_bytes : N := 16 * 1024 * 1024.
Definition default_max_response_body_bytes : N := 64 * 1024 * 1024.
Definition default_max_buffered_bodies : N := 100.
Definition default_check_timeout_ms : N := 5000.
Definition default_failure_threshold : N := 3.
Definition default_recovery_threshold : N := 2.
Definition default_ejection_duration_ms : N := 30000.
Definition default_active_success_status_min : N := 200.
Definition default_active_success_status_max : N := 399.
Definition default_passive_failure_status_min : N := 500.
Definition default_passive_failure_status_max : N := 599.
Definition default_retry_max_attempts : N := 1.
Definition default_retry_total_timeout_ms : N := 5000.
Definition default_retry_backoff_ms : N := 50.
Definition default_retry_on_statuses : list N := [502; 503; 504]%N.
Definition default_expose_backend_health : bool := true.
Definition default_expose_metrics : bool := true.

Definition HealthCheckConfig_default : HealthCheckConfig := {|
  hc_interval_sec := 10;
  hc_endpoint := "/health";
  hc_check_timeout_ms := default_check_timeout_ms;
  hc_failure_threshold := default_failure_threshold;
  hc_recovery_threshold := default_recovery_threshold;
  hc_ejection_duration_ms := default_ejection_duration_ms;
  hc_active_success_status_min := default_active_success_status_min;
  hc_active_success_status_max := default_active_success_status_max;
  hc_passive_failure_status_min := default_passive_failure_status_min;
  hc_passive_failure_status_max := default_passive_failure_status_max;
|}.

Definition ServerConfig_default : ServerConfig := {|
  srv_port := 8080;
  srv_host := "127.0.0.1";
  srv_graceful_shutdown_timeout_ms := default_graceful_shutdown_timeout_ms;
  srv_client_header_timeout_ms := default_client_header_timeout_ms;
  srv_client_body_timeout_ms := default_client_body_timeout_ms;
  srv_fail_on_startup_dead_pool := false;
|}.

Definition UpstreamConfig_default : UpstreamConfig := {|
  up_connect_timeout_ms := default_connect_timeout_ms;
  up_read_timeout_ms := default_read_timeout_ms;
  up_max_request_body_bytes := default_max_request_body_bytes;
  up_max_response_body_bytes := default_max_response_body_bytes;
  up_max_buffered_bodies := default_max_buffered_bodies;
|}.

Definition RetryConfig_default : RetryConfig := {|
  retry_max_attempts := default_retry_max_attempts;
  retry_total_timeout_ms := default_retry_total_timeout_ms;
  retry_backoff_ms := default_retry_backoff_ms;
  retry_on_statuses := default_retry_on_statuses;
  retry_idempotent_methods := false;
|}.

Definition DebugConfig_default : DebugConfig := {|
  dbg_expose_backend_health := default_expose_backend_health;
  dbg_expose_metrics := default_expose_metrics;
  dbg_auth_token := None;
|}.

(** * Validation *)

(** [Err(ConfigError::Validation(msg))] when the guard holds *)
Definition invalid_if (c : bool) (msg : string) : result ConfigError unit :=
  reject_if c (Validation msg).

Definition is_zero (n : N) : bool := bool_decide (n = 0)%N.

Definition ServerConfig_validate (c : ServerConfig) : result ConfigError unit :=
  _ ← invalid_if (is_zero (srv_port c)) "server.port must be greater than 0";
  _ ← invalid_if (is_empty (trim (srv_host c))) "server.host must not be empty";
  _ ← invalid_if (is_zero (srv_graceful_shutdown_timeout_ms c))
        "server.graceful_shutdown_timeout_ms must be greater than 0";
  _ ← invalid_if (is_zero (srv_client_header_timeout_ms c))
        "server.client_header_timeout_ms must be greater than 0";
  invalid_if (is_zero (srv_client_body_timeout_ms c))
        "server.client_body_timeout_ms must be greater than 0".

Definition is_zero_option (o : option N) : bool :=
  match o with Some t => is_zero t | None => false end.

Definition HealthCheckConfig_validate (c : HealthCheckConfig) : result ConfigError unit :=
  _ ← invalid_if (is_zero (hc_interval_sec c))
        "health_check.interval_sec must be greater than 0";
  _ ← invalid_if (negb (starts_with (hc_endpoint c) "/"))
        "health_check.endpoint must start with '/'";
  _ ← invalid_if (is_zero (hc_check_timeout_ms c))
        "health_check.check_timeout_ms must be greater than 0";
  _ ← invalid_if (is_zero (hc_failure_threshold c))
        "health_check.failure_threshold must be greater than 0";
  _ ← invalid_if (is_zero (hc_recovery_threshold c))
        "health_check.recovery_threshold must be greater than 0";
  _ ← invalid_if (is_zero (hc_ejection_duration_ms c))
        "health_check.ejection_duration_ms must be greater than 0";
  _ ← invalid_if (is_zero (hc_active_success_status_min c) ||
                  bool_decide (hc_active_success_status_max c
                               < hc_active_success_status_min c)%N)
        "health_check active success status range must be valid";
  invalid_if (is_zero (hc_passive_failure_status_min c) ||
              bool_decide (hc_passive_failure_status_max c
                           < hc_passive_failure_status_min c)%N)
        "health_check passive failure status range must be valid".

Definition UpstreamConfig_validate (c : UpstreamConfig) : result ConfigError unit :=
  _ ← invalid_if (is_zero (up_connect_timeout_ms c))
        "upstream.connect_timeout_ms must be greater than 0";
  _ ← invalid_if (is_zero (up_read_timeout_ms c))
        "upstream.read_timeout_ms must be greater than 0";
  _ ← invalid_if (is_zero (up_max_request_body_bytes c))
        "upstream.max_request_body_bytes must be greater than 0";
  _ ← invalid_if (is_zero (up_max_response_body_bytes c))
        "upstream.max_response_body_bytes must be greater than 0";
  invalid_if (is_zero (up_max_buffered_bodies c))
        "upstream.max_buffered_bodies must be greater than 0".

Definition RetryConfig_validate (c : RetryConfig) : result ConfigError unit :=
  _ ← invalid_if (is_zero (retry_max_attempts c))
        "retry.max_attempts must be greater than 0";
  _ ← invalid_if (is_zero (retry_total_timeout_ms c))
        "retry.total_timeout_ms must be greater than 0";
  for_each (λ status, invalid_if (bool_decide (status < 100)%N)
              ("retry.retry_on_statuses contains invalid status code '"
               +:+ pretty status +:+ "'"))
    (retry_on_statuses c).

Definition DebugConfig_validate (c : DebugConfig) : result ConfigError unit :=
  match dbg_auth_token c with
  | Some token => invalid_if (is_empty (trim token))
                    "debug.auth_token must not be empty when provided"
  | None => Ok tt
  end.

Section validation.
Context `{UrlOps}.

(** The body of the loop over [self.backends] in [RouteConfig::validate]. *)
Definition validate_backend (prefix backend : string) : result ConfigError unit :=
  match url_parse backend with
  | Err err => Err (Validation ("route '" +:+ prefix +:+ "' has invalid backend URL '"
                                +:+ backend +:+ "': " +:+ err))
  | Ok parsed =>
      _ ← (if decide (url_scheme parsed = "http") then Ok tt
           else if decide (url_scheme parsed = "https") then
             Err (Validation ("route '" +:+ prefix +:+ "' backend '" +:+ backend +:+
               "' uses https, but ferrum-proxy does not terminate or originate TLS yet; "
               +:+ "place it behind a trusted TLS-terminating proxy or use plain http upstreams"))
           else
             Err (Validation ("route '" +:+ prefix +:+ "' uses unsupported backend scheme '"
               +:+ url_scheme parsed +:+ "' in '" +:+ backend +:+ "'")));
      invalid_if (bool_decide (url_host_str parsed = None))
        ("route '" +:+ prefix +:+ "' backend '" +:+ backend +:+ "' must include a host")
  end.

Definition RouteConfig_validate (r : RouteConfig) : result ConfigError unit :=
  let prefix := rt_path_prefix r in
  _ ← invalid_if (negb (starts_with prefix "/"))
        ("route prefix '" +:+ prefix +:+ "' must start with '/'");
  _ ← invalid_if (bool_decide (rt_backends r = []))
        ("route '" +:+ prefix +:+ "' must define at least one backend");
  _ ← for_each (λ status, invalid_if (bool_decide (status < 100)%N)
        ("route '" +:+ prefix +:+ "' retry_on_statuses contains invalid status code '"
         +:+ pretty status +:+ "'")) (rt_retry_on_statuses r);
  _ ← for_each (λ status, invalid_if (bool_decide (status < 100)%N)
        ("route '" +:+ prefix +:+ "' passive_failure_statuses contains invalid status code '"
         +:+ pretty status +:+ "'")) (rt_passive_failure_statuses r);
  _ ← match rt_health_check_endpoint r with
      | Some endpoint => invalid_if (negb (starts_with endpoint "/"))
          ("route '" +:+ prefix +:+ "' health_check_endpoint must start with '/'")
      | None => Ok tt
      end;
  _ ← invalid_if (is_zero_option (rt_connect_timeout_ms r))
        ("route '" +:+ prefix +:+ "' connect_timeout_ms must be greater than 0");
  _ ← invalid_if (is_zero_option (rt_read_timeout_ms r))
        ("route '" +:+ prefix +:+ "' read_timeout_ms must be greater than 0");
  _ ← invalid_if (is_zero_option (rt_client_body_timeout_ms r))
        ("route '" +:+ prefix +:+ "' client_body_timeout_ms must be greater than 0");
  for_each (validate_backend prefix) (rt_backends r).

(** [route.health_check_endpoint.as_deref().unwrap_or(self.health_check.endpoint.as_str())] *)
Definition route_endpoint (c : Config) (r : RouteConfig) : string :=
  default (hc_endpoint (cfg_health_check c)) (rt_health_check_endpoint r).

(** The inner loop, over the backends of one route, on the map [endpoint_by_backend]. *)
Fixpoint override_backends (endpoint : string) (backends : list string)
    (m : gmap string string) : result ConfigError (gmap string string) :=
  match backends with
  | [] => Ok m
  | backend :: backends =>
      _ ← match m !! backend with
          | Some previous => invalid_if (bool_decide (previous ≠ endpoint))
              ("backend '" +:+ backend +:+
               "' is used by multiple routes with conflicting health check endpoints ('"
               +:+ previous +:+ "' vs '" +:+ endpoint +:+ "')")
          | None => Ok tt
          end;
      override_backends endpoint backends (<[backend:=endpoint]> m)
  end.
Fixpoint override_routes (c : Config) (routes : list RouteConfig)
    (m : gmap string string) : result ConfigError (gmap string string) :=
  match routes with
  | [] => Ok m
  | r :: routes =>
      m' ← override_backends (route_endpoint c r) (rt_backends r) m;
      override_routes c routes m'
  end.
Definition validate_route_health_endpoint_overrides (c : Config)
    : result ConfigError unit :=
  _ ← override_routes c (cfg_routes c) ∅; Ok tt.

(** The loop over the routes with the set [seen_prefixes]. *)
Fixpoint validate_routes (routes : list RouteConfig) (seen : gset string)
    : result ConfigError unit :=
  match routes with
  | [] => Ok tt
  | r :: routes =>
      _ ← RouteConfig_validate r;
      _ ← invalid_if (bool_decide (rt_path_prefix r ∈ seen))
            ("duplicate route prefix '" +:+ rt_path_prefix r +:+ "'");
      validate_routes routes ({[rt_path_prefix r]} ∪ seen)
  end.

Definition Config_validate (c : Config) : result ConfigError unit :=
  _ ← ServerConfig_validate (cfg_server c);
  _ ← invalid_if (bool_decide (cfg_routes c = []))
        "at least one route must be configured";
  _ ← validate_routes (cfg_routes c) ∅;
  _ ← HealthCheckConfig_validate (cfg_health_check c);
  _ ← UpstreamConfig_validate (cfg_upstream c);
  _ ← RetryConfig_validate (cfg_retry c);
  _ ← DebugConfig_validate (cfg_debug c);
  _ ← validate_route_health_endpoint_overrides c;
  Ok tt.

(** [Config::load_from_file]: reading the file and parsing YAML are parameters. *)
Definition load_from_file (read_to_string : string → result string string)
    (yaml_from_str : string → result string Config) (path : string)
    : result ConfigError Config :=
  contents ← match read_to_string path with Ok s => Ok s | Err e => Err (Io e) end;
  config ← match yaml_from_str contents with Ok c => Ok c | Err e => Err (Parse e) end;
  _ ← Config_validate config;
  Ok config.

End validation.

(** A route and a configuration for examples. *)
Definition sample_route (prefix : string) (backends : list string) : RouteConfig := {|
  rt_path_prefix := prefix; rt_backends := backends; rt_balancing := RoundRobin;
  rt_retry_on_statuses := []; rt_passive_failure_statuses := [];
  rt_health_check_endpoint := None; rt_connect_timeout_ms := None;
  rt_read_timeout_ms := None; rt_client_body_timeout_ms := None;
|}.
Definition sample_config (routes : list RouteConfig) : Config := {|
  cfg_server := ServerConfig_default; cfg_routes := routes;
  cfg_health_check := HealthCheckConfig_default; cfg_upstream := UpstreamConfig_default;
  cfg_retry := RetryConfig_default; cfg_debug := DebugConfig_default;
|}.

(** * The declarative reading of a valid configuration *)

Definition positive_option (o : option N) : Prop := ∀ t, o = Some t → (t ≠ 0)%N.
Definition rooted (s : string) : Prop := ∃ t, s = "/" +:+ t.

Definition ServerConfig_ok (c : ServerConfig) : Prop :=
  (srv_port c ≠ 0)%N ∧ trim (srv_host c) ≠ "" ∧
  (srv_graceful_shutdown_timeout_ms c ≠ 0)%N ∧
  (srv_client_header_timeout_ms c ≠ 0)%N ∧ (srv_client_body_timeout_ms c ≠ 0)%N.

Definition HealthCheckConfig_ok (c : HealthCheckConfig) : Prop :=
  (hc_interval_sec c ≠ 0)%N ∧ rooted (hc_endpoint c) ∧ (hc_check_timeout_ms c ≠ 0)%N ∧
  (hc_failure_threshold c ≠ 0)%N ∧ (hc_recovery_threshold c ≠ 0)%N ∧
  (hc_ejection_duration_ms c ≠ 0)%N ∧
  (0 < hc_active_success_status_min c ≤ hc_active_success_status_max c)%N ∧
  (0 < hc_passive_failure_status_min c ≤ hc_passive_failure_status_max c)%N.

Definition UpstreamConfig_ok (c : UpstreamConfig) : Prop :=
  (up_connect_timeout_ms c ≠ 0)%N ∧ (up_read_timeout_ms c ≠ 0)%N ∧
  (up_max_request_body_bytes c ≠ 0)%N ∧ (up_max_response_body_bytes c ≠ 0)%N ∧
  (up_max_buffered_bodies c ≠ 0)%N.

Definition RetryConfig_ok (c : RetryConfig) : Prop :=
  (retry_max_attempts c ≠ 0)%N ∧ (retry_total_timeout_ms c ≠ 0)%N ∧
  Forall (λ status, 100 ≤ status)%N (retry_on_statuses c).

Definition DebugConfig_ok (c : DebugConfig) : Prop :=
  ∀ token, dbg_auth_token c = Some token → trim token ≠ "".

Section valid.
Context `{UrlOps}.

Definition backend_ok (backend : string) : Prop :=
  ∃ u, url_parse backend = Ok u ∧ url_scheme u = "http" ∧ url_host_str u ≠ None.

Definition RouteConfig_ok (r : RouteConfig) : Prop :=
  rooted (rt_path_prefix r) ∧ rt_backends r ≠ [] ∧
  Forall (λ status, 100 ≤ status)%N (rt_retry_on_statuses r) ∧
  Forall (λ status, 100 ≤ status)%N (rt_passive_failure_statuses r) ∧
  (∀ e, rt_health_check_endpoint r = Some e → rooted e) ∧
  positive_option (rt_connect_timeout_ms r) ∧ positive_option (rt_read_timeout_ms r) ∧
  positive_option (rt_client_body_timeout_ms r) ∧ Forall backend_ok (rt_backends r).

(** Two routes that share a backend probe it on the same endpoint. *)
Definition endpoints_agree (c : Config) : Prop :=
  ∀ r1 r2 b, r1 ∈ cfg_routes c → r2 ∈ cfg_routes c →
    b ∈ rt_backends r1 → b ∈ rt_backends r2 → route_endpoint c r1 = route_endpoint c r2.

Definition Config_ok (c : Config) : Prop :=
  ServerConfig_ok (cfg_server c) ∧ cfg_routes c ≠ [] ∧
  Forall RouteConfig_ok (cfg_routes c) ∧ NoDup (rt_path_prefix <$> cfg_routes c) ∧
  HealthCheckConfig_ok (cfg_health_check c) ∧ UpstreamConfig_ok (cfg_upstream c) ∧
  RetryConfig_ok (cfg_retry c) ∧ DebugConfig_ok (cfg_debug c) ∧ endpoints_agree c.

End valid.

(** * Lemmas *)

Lemma is_zero_false n : is_zero n = false ↔ (n ≠ 0)%N.
Proof. unfold is_zero. by rewrite bool_decide_eq_false. Qed.
Lemma is_zero_option_false o : is_zero_option o = false ↔ positive_option o.
Proof.
  unfold positive_option. destruct o as [n|]; simpl; [rewrite is_zero_false|]; naive_solver.
Qed.
Lemma is_empty_false s : is_empty s = false ↔ s ≠ "".
Proof. destruct s; naive_solver. Qed.
Lemma not_rooted_false s : negb (starts_with s "/") = false ↔ rooted s.
Proof. rewrite negb_false_iff. apply starts_with_spec. Qed.

Lemma invalid_if_Ok c msg u : invalid_if c msg = Ok u ↔ c = false.
Proof. apply reject_if_Ok. Qed.
Lemma bind_invalid_if_Ok {A} c msg (k : unit → result ConfigError A) a :
  invalid_if c msg ≫= k = Ok a ↔ c = false ∧ k tt = Ok a.
Proof. apply bind_reject_if_Ok. Qed.
Lemma bind_unit_Ok {A} (r : result ConfigError unit) (k : unit → result ConfigError A) a :
  r ≫= k = Ok a ↔ r = Ok tt ∧ k tt = Ok a.
Proof. destruct r as [[]|]; simpl; naive_solver. Qed.

Lemma range_ok a b :
  is_zero a || bool_decide (b < a)%N = false ↔ (0 < a ≤ b)%N.
Proof. rewrite orb_false_iff, is_zero_false, bool_decide_eq_false. lia. Qed.

Create Rewrite HintDb validation.
#[export] Hint Rewrite @bind_invalid_if_Ok @invalid_if_Ok @bind_unit_Ok range_ok
  is_zero_option_false is_zero_false is_empty_false not_rooted_false
  bool_decide_eq_false @for_each_Ok : validation.

Lemma ServerConfig_validate_ok c : ServerConfig_validate c = Ok tt ↔ ServerConfig_ok c.
Proof. unfold ServerConfig_validate, ServerConfig_ok. by autorewrite with validation. Qed.

Lemma HealthCheckConfig_validate_ok c :
  HealthCheckConfig_validate c = Ok tt ↔ HealthCheckConfig_ok c.
Proof.
  unfold HealthCheckConfig_validate, HealthCheckConfig_ok. by autorewrite with validation.
Qed.

Lemma UpstreamConfig_validate_ok c : UpstreamConfig_validate c = Ok tt ↔ UpstreamConfig_ok c.
Proof. unfold UpstreamConfig_validate, UpstreamConfig_ok. by autorewrite with validation. Qed.

(** The loop that rejects status codes below 100. *)
Lemma statuses_ok (l : list N) (msg : N → string) :
  for_each (λ status, invalid_if (bool_decide (status < 100)%N) (msg status)) l = Ok tt
  ↔ Forall (λ status, 100 ≤ status)%N l.
Proof.
  rewrite for_each_Ok. apply Forall_iff. intros s.
  autorewrite with validation. lia.
Qed.

Lemma RetryConfig_validate_ok c : RetryConfig_validate c = Ok tt ↔ RetryConfig_ok c.
Proof.
  unfold RetryConfig_validate, RetryConfig_ok.
  rewrite !bind_invalid_if_Ok, statuses_ok. by autorewrite with validation.
Qed.

Lemma DebugConfig_validate_ok c : DebugConfig_validate c = Ok tt ↔ DebugConfig_ok c.
Proof.
  unfold DebugConfig_validate, DebugConfig_ok. destruct (dbg_auth_token c) as [t|].
  - autorewrite with validation. naive_solver.
  - naive_solver.
Qed.

Section lemmas.
Context `{UrlOps}.

Lemma validate_backend_ok p b : validate_backend p b = Ok tt ↔ backend_ok b.
Proof.
  unfold validate_backend, backend_ok. destruct (url_parse b) as [u|e]; [|naive_solver].
  rewrite bind_unit_Ok, invalid_if_Ok, bool_decide_eq_false.
  repeat case_decide; naive_solver.
Qed.

Lemma RouteConfig_validate_ok r : RouteConfig_validate r = Ok tt ↔ RouteConfig_ok r.
Proof.
  unfold RouteConfig_validate, RouteConfig_ok. rewrite !bind_unit_Ok, !statuses_ok, for_each_Ok.
  setoid_rewrite validate_backend_ok.
  assert (match rt_health_check_endpoint r with
          | Some e => invalid_if (negb (starts_with e "/"))
              ("route '" +:+ rt_path_prefix r +:+ "' health_check_endpoint must start with '/'")
          | None => Ok tt
          end = Ok tt ↔ ∀ e, rt_health_check_endpoint r = Some e → rooted e) as ->.
  { destruct (rt_health_check_endpoint r); [autorewrite with validation|]; naive_solver. }
  by autorewrite with validation.
Qed.

Lemma validate_routes_ok rs seen :
  validate_routes rs seen = Ok tt ↔
  Forall RouteConfig_ok rs ∧ NoDup (rt_path_prefix <$> rs) ∧
  (∀ r, r ∈ rs → rt_path_prefix r ∉ seen).
Proof.
  revert seen. induction rs as [|r rs IH]; intros seen; cbn [validate_routes].
  { split; [|done]. intros _. split; [done|]. split; [constructor|]. by intros ? ?%not_elem_of_nil. }
  rewrite bind_unit_Ok, bind_invalid_if_Ok, bool_decide_eq_false, IH.
  rewrite RouteConfig_validate_ok, Forall_cons, fmap_cons, NoDup_cons.
  setoid_rewrite elem_of_cons. setoid_rewrite not_elem_of_union.
  setoid_rewrite not_elem_of_singleton. rewrite list_elem_of_fmap. naive_solver.
Qed.

Lemma override_backends_ok e bs m :
  is_ok (override_backends e bs m) = true ↔
  ∀ b p, b ∈ bs → m !! b = Some p → p = e.
Proof.
  revert m. induction bs as [|b bs IH]; intros m; cbn [override_backends].
  { split; [|done]. by intros _ b p ?%not_elem_of_nil. }
  setoid_rewrite elem_of_cons. destruct (m !! b) as [q|] eqn:Hq; cbn [mbind result_bind].
  - unfold invalid_if. case_bool_decide as Hne; simpl; [naive_solver|].
    rewrite IH. setoid_rewrite lookup_insert. split.
    + intros Hall b' p [->|Hb] Hp; [congruence|].
      apply (Hall b' p Hb). case_decide; congruence.
    + intros Hall b' p Hb. case_decide; [congruence|]. eauto.
  - rewrite IH. setoid_rewrite lookup_insert. split.
    + intros Hall b' p [->|Hb] Hp; [congruence|].
      apply (Hall b' p Hb). case_decide; congruence.
    + intros Hall b' p Hb. case_decide; [congruence|]. eauto.
Qed.

Lemma override_backends_lookup e bs m m' b :
  override_backends e bs m = Ok m' →
  m' !! b = if decide (b ∈ bs) then Some e else m !! b.
Proof.
  revert m. induction bs as [|b' bs IH]; intros m; cbn [override_backends].
  { intros [= <-]. by rewrite decide_False by apply not_elem_of_nil. }
  rewrite bind_unit_Ok. intros [_ Hrest]. rewrite (IH _ Hrest), lookup_insert.
  repeat case_decide; set_solver.
Qed.

Lemma override_backends_is_ok e bs m :
  (∃ m', override_backends e bs m = Ok m') ↔ is_ok (override_backends e bs m) = true.
Proof. destruct (override_backends e bs m); naive_solver. Qed.

(** After the backends of one route, the map says what it said before or the route's endpoint. *)
Lemma override_routes_ok c rs m :
  (∃ m', override_routes c rs m = Ok m') ↔
  (∀ r b p, r ∈ rs → b ∈ rt_backends r → m !! b = Some p → p = route_endpoint c r) ∧
  (∀ r1 r2 b, r1 ∈ rs → r2 ∈ rs → b ∈ rt_backends r1 → b ∈ rt_backends r2 →
     route_endpoint c r1 = route_endpoint c r2).
Proof.
  revert m. induction rs as [|r rs IH]; intros m; cbn [override_routes].
  { split; [|eauto]. intros _.
    split; [by intros ??? ?%not_elem_of_nil|by intros ??? ?%not_elem_of_nil]. }
  transitivity (∃ m1, override_backends (route_endpoint c r) (rt_backends r) m = Ok m1 ∧
                ∃ m', override_routes c rs m1 = Ok m').
  { setoid_rewrite bind_Ok. naive_solver. }
  setoid_rewrite IH. setoid_rewrite elem_of_cons. split.
  - intros (m1 & Hm1 & Hseen & Hpair).
    assert (is_ok (override_backends (route_endpoint c r) (rt_backends r) m) = true) as Hok
      by by rewrite Hm1.
    rewrite override_backends_ok in Hok.
    assert (∀ b, m1 !! b = if decide (b ∈ rt_backends r) then Some (route_endpoint c r)
                           else m !! b) as Hlook
      by (intros b; by apply override_backends_lookup).
    assert (∀ r' b, r' ∈ rs → b ∈ rt_backends r → b ∈ rt_backends r' →
              route_endpoint c r = route_endpoint c r') as Hcross.
    { intros r' b Hr' Hb Hb'. apply (Hseen r' b); [done..|].
      by rewrite Hlook, decide_True. }
    split.
    + intros r' b p [->|Hr'] Hb Hp; [eauto|].
      destruct (decide (b ∈ rt_backends r)) as [Hbr|Hbr].
      * rewrite <-(Hcross r' b) by done. eauto.
      * apply (Hseen r' b); [done..|]. by rewrite Hlook, decide_False.
    + intros r1 r2 b [->|H1] [->|H2] Hb1 Hb2; eauto using eq_sym.
  - intros [Hseen Hpair].
    assert (is_ok (override_backends (route_endpoint c r) (rt_backends r) m) = true) as Hok.
    { rewrite override_backends_ok. eauto. }
    apply override_backends_is_ok in Hok as [m1 Hm1]. exists m1. split; [done|].
    split; [|eauto 10]. intros r' b p Hr' Hb Hp.
    rewrite (override_backends_lookup _ _ _ _ _ Hm1) in Hp.
    case_decide; simplify_eq; eauto.
Qed.

Lemma overrides_ok c :
  validate_route_health_endpoint_overrides c = Ok tt ↔ endpoints_agree c.
Proof.
  unfold validate_route_health_endpoint_overrides, endpoints_agree.
  transitivity (∃ m', override_routes c (cfg_routes c) ∅ = Ok m').
  { rewrite bind_Ok. naive_solver. }
  rewrite override_routes_ok. setoid_rewrite lookup_empty. naive_solver.
Qed.

Lemma Config_validate_ok c : Config_validate c = Ok tt ↔ Config_ok c.
Proof.
  unfold Config_validate, Config_ok. rewrite !bind_unit_Ok, !invalid_if_Ok.
  rewrite ServerConfig_validate_ok, HealthCheckConfig_validate_ok,
    UpstreamConfig_validate_ok, RetryConfig_validate_ok, DebugConfig_validate_ok,
    overrides_ok, validate_routes_ok, bool_decide_eq_false.
  assert (∀ r, r ∈ cfg_routes c → rt_path_prefix r ∉ (∅ : gset string))
    by (intros; apply not_elem_of_empty).
  naive_solver.
Qed.

(** Every failing check of validation reports a [ConfigError::Validation]. *)
Definition validation_error {A} (r : result ConfigError A) : Prop :=
  ∀ e, r = Err e → ∃ msg, e = Validation msg.

Lemma validation_error_bind {A B} (r : result ConfigError A) (k : A → result ConfigError B) :
  validation_error r → (∀ a, validation_error (k a)) → validation_error (r ≫= k).
Proof. unfold validation_error. destruct r; simpl; naive_solver. Qed.

Lemma validation_error_invalid_if c msg : validation_error (invalid_if c msg).
Proof. unfold validation_error, invalid_if. destruct c; naive_solver. Qed.

Lemma validation_error_Ok {A} (a : A) : validation_error (Ok a).
Proof. by unfold validation_error. Qed.

Lemma validation_error_Validation {A} msg : validation_error (@Err _ A (Validation msg)).
Proof. unfold validation_error. naive_solver. Qed.

Lemma validation_error_for_each {A} (f : A → result ConfigError unit) l :
  (∀ x, validation_error (f x)) → validation_error (for_each f l).
Proof.
  intros Hf. induction l; simpl;
    eauto using validation_error_bind, validation_error_Ok.
Qed.

End lemmas.

(** Walks through a sequence of checks. *)
Ltac validation_errors :=
  repeat first
    [ apply validation_error_invalid_if | apply validation_error_Ok
    | apply validation_error_Validation
    | apply validation_error_for_each; intros ?
    | apply validation_error_bind; [|intros ?]
    | case_match ].

Section errors.
Context `{UrlOps}.

Lemma RouteConfig_validate_error r : validation_error (RouteConfig_validate r).
Proof. unfold RouteConfig_validate, validate_backend. validation_errors. Qed.

Lemma override_backends_error e bs m : validation_error (override_backends e bs m).
Proof. revert m. induction bs; intros m; cbn [override_backends]; validation_errors; auto. Qed.

Lemma override_routes_error c rs m : validation_error (override_routes c rs m).
Proof.
  revert m. induction rs; intros m; cbn [override_routes]; [validation_errors|].
  apply validation_error_bind; auto using override_backends_error.
Qed.

Lemma validate_routes_error rs seen : validation_error (validate_routes rs seen).
Proof.
  revert seen. induction rs; intros seen; cbn [validate_routes]; [validation_errors|].
  apply validation_error_bind; [apply RouteConfig_validate_error|intros _].
  apply validation_error_bind; [validation_errors|auto].
Qed.

Lemma Config_validate_error c : validation_error (Config_validate c).
Proof.
  unfold Config_validate, ServerConfig_validate, HealthCheckConfig_validate,
    UpstreamConfig_validate, RetryConfig_validate, DebugConfig_validate,
    validate_route_health_endpoint_overrides.
  repeat first [apply validate_routes_error | apply override_routes_error
               | validation_errors | progress intros].
Qed.

(** * The correctness of validation and loading *)

(** C31: validation decides validity: it accepts a configuration exactly when every section
    is valid on its own, the route prefixes are distinct, every backend is an http URL with
    a host, and routes that share a backend agree on the endpoint that probes it. *)
Theorem validate_decides c : Config_validate c = Ok tt ↔ Config_ok c.
Proof. apply Config_validate_ok. Qed.

(** C32: [load_from_file] returns only valid configurations, and each of its errors says
    what went wrong: the file could not be read, its text could not be parsed, or it
    was read and parsed but the configuration is not valid. *)
Theorem load_from_file_exact read_to_string yaml_from_str path :
  match load_from_file read_to_string yaml_from_str path with
  | Ok c => Config_ok c ∧
      ∃ text, read_to_string path = Ok text ∧ yaml_from_str text = Ok c
  | Err (Io err) => read_to_string path = Err err
  | Err (Parse err) => ∃ text, read_to_string path = Ok text ∧ yaml_from_str text = Err err
  | Err (Validation _) => ∃ text c,
      read_to_string path = Ok text ∧ yaml_from_str text = Ok c ∧ ¬ Config_ok c
  end.
Proof.
  unfold load_from_file. destruct (read_to_string path) as [text|err]; simpl; [|done].
  destruct (yaml_from_str text) as [c|err] eqn:Hp; simpl; [|eauto].
  pose proof (Config_validate_ok c) as Hok. pose proof (Config_validate_error c) as Herr.
  destruct (Config_validate c) as [[]|e]; simpl.
  - split; [by apply Hok|eauto].
  - destruct (Herr e eq_refl) as [msg ->]. exists text, c.
    split; [done|]. split; [done|]. by rewrite <-Hok.
Qed.

End errors.
