(* ===== verification/Routing.v ===== *)
(** [src/routing/mod.rs]: longest-prefix route matching on path segments. *)

From Stdlib Require Import Ascii.
From S2P Require Import Prelude RustStd Externals Config.
From stdpp Require Import options.

(** The closure given to [filter]. *)
Definition route_matches (path : string) (route : RouteConfig) : bool :=
  let p := rt_path_prefix route in
  bool_decide (path = p) || starts_with path (p +:+ "/").

Definition match_route (path : string) (routes : list RouteConfig) : option RouteConfig :=
  max_by_key (λ route, str_len (rt_path_prefix route))
    (filter (λ route, route_matches path route = true) routes).

(** The specification: [p] covers [path] when [path] is [p] or continues [p] with a slash. *)
Definition covers (p path : string) : Prop := path = p ∨ ∃ rest, path = p +:+ "/" +:+ rest.

Lemma route_matches_spec path r :
  route_matches path r = true ↔ covers (rt_path_prefix r) path.
Proof.
  unfold route_matches, covers. rewrite orb_true_iff, bool_decide_eq_true, starts_with_spec.
  setoid_rewrite append_assoc. done.
Qed.

(** Prefixes of equal length that cover the same path are equal. *)
Lemma covers_length_inj p q path :
  covers p path → covers q path → str_len p = str_len q → p = q.
Proof.
  unfold str_len. intros Hp Hq Hlen%Nat2N.inj.
  assert (∃ s t, p +:+ s = q +:+ t) as (s & t & Heq).
  { assert (∀ p, covers p path → ∃ s, path = p +:+ s) as Hpre.
    { intros x [->|[s ->]]; [exists ""; by rewrite append_nil_r|eauto]. }
    apply Hpre in Hp as [s Hs], Hq as [t Ht]. exists s, t. congruence. }
  by apply append_inj_length in Heq as [? _].
Qed.

Lemma match_route_Some path routes r :
  match_route path routes = Some r →
  r ∈ routes ∧ covers (rt_path_prefix r) path ∧
  ∀ r', r' ∈ routes → covers (rt_path_prefix r') path →
    (str_len (rt_path_prefix r') ≤ str_len (rt_path_prefix r))%N.
Proof.
  intros [Hin Hmax]%max_by_key_Some. setoid_rewrite list_elem_of_filter in Hmax.
  apply list_elem_of_filter in Hin as [Hm Hin]. apply route_matches_spec in Hm.
  split; [done|]. split; [done|]. intros r' Hr' Hc%route_matches_spec. by apply Hmax.
Qed.

Lemma match_route_None path routes :
  match_route path routes = None ↔ ∀ r, r ∈ routes → ¬ covers (rt_path_prefix r) path.
Proof.
  unfold match_route. rewrite max_by_key_None. setoid_rewrite <-route_matches_spec. split.
  - intros Hnil r Hr Hm. eapply not_elem_of_nil. rewrite <-Hnil.
    by apply list_elem_of_filter.
  - intros Hno. apply elem_of_nil_inv. intros r [? ?]%list_elem_of_filter. by eapply Hno.
Qed.

(** Distinct prefixes leave one candidate of the greatest length. *)
Lemma match_route_unique path routes r r' :
  NoDup (rt_path_prefix <$> routes) → r ∈ routes → r' ∈ routes →
  covers (rt_path_prefix r) path → covers (rt_path_prefix r') path →
  str_len (rt_path_prefix r) = str_len (rt_path_prefix r') → r = r'.
Proof.
  intros Hnd Hr Hr' Hc Hc' Hlen.
  assert (rt_path_prefix r = rt_path_prefix r') as Heq by eauto using covers_length_inj.
  apply list_elem_of_lookup in Hr as [i Hi], Hr' as [j Hj].
  assert (i = j) as ->; [|congruence].
  apply (NoDup_lookup (rt_path_prefix <$> routes) i j (rt_path_prefix r)); [done|..];
    rewrite list_lookup_fmap, ?Hi, ?Hj; simpl; congruence.
Qed.

(** * Properties *)

(** C33: routing picks a configured route that covers the path and has the longest prefix of
    all that do; it finds no route only when none covers the path. *)
Theorem match_route_longest_prefix path routes :
  match match_route path routes with
  | Some r => r ∈ routes ∧ covers (rt_path_prefix r) path ∧
      ∀ r', r' ∈ routes → covers (rt_path_prefix r') path →
        (str_len (rt_path_prefix r') ≤ str_len (rt_path_prefix r))%N
  | None => ∀ r, r ∈ routes → ¬ covers (rt_path_prefix r) path
  end.
Proof.
  destruct (match_route path routes) as [r|] eqn:Hm.
  - by apply match_route_Some.
  - by apply match_route_None.
Qed.

(** With distinct prefixes, as validation demands, the order of the routes in the
    configuration does not matter. *)
Theorem match_route_order_independent path routes routes' :
  NoDup (rt_path_prefix <$> routes) → routes ≡ₚ routes' →
  match_route path routes = match_route path routes'.
Proof.
  intros Hnd Hperm. destruct (match_route path routes) as [r|] eqn:Hm.
  - destruct (match_route_Some _ _ _ Hm) as (Hr & Hc & Hmax).
    destruct (match_route path routes') as [r'|] eqn:Hm'.
    + destruct (match_route_Some _ _ _ Hm') as (Hr' & Hc' & Hmax').
      rewrite <-Hperm in Hr'. assert (r ∈ routes') by by rewrite <-Hperm.
      f_equal. apply (match_route_unique path routes); try done.
      apply N.le_antisymm; eauto.
    + rewrite match_route_None in Hm'. destruct (Hm' r); [by rewrite <-Hperm|done].
  - symmetry. apply match_route_None. intros r'. rewrite <-Hperm.
    by apply match_route_None.
Qed.

Lemma match_route_order_independent_witness :
  match_route "/api/admin/users" [sample_route "/api" []; sample_route "/api/admin" []]
  = match_route "/api/admin/users" [sample_route "/api/admin" []; sample_route "/api" []].
Proof.
  apply match_route_order_independent; [|constructor].
  apply (bool_decide_unpack _). vm_compute. exact I.
Defined.

(** A prefix that ends in a slash, such as "/", covers nothing below it but paths that go
    on with a second slash: a route "/" is no catch-all. *)
Theorem trailing_slash_misses_children route q a rest :
  rt_path_prefix route = q +:+ "/" → a ≠ "/"%char →
  match_route (rt_path_prefix route +:+ String a rest) [route] = None.
Proof.
  intros Hp Ha. apply match_route_None. intros r ->%list_elem_of_singleton [Hc|[t Hc]].
  - rewrite <-(append_nil_r (rt_path_prefix route)) in Hc at 2.
    by apply append_inj_length in Hc as [_ ?].
  - apply append_inj_length in Hc as [_ Hc]; [|done].
    by injection Hc as [= ->].
Qed.

Lemma trailing_slash_misses_children_witness :
  match_route "/users" [sample_route "/" []] = None.
Proof.
  apply (trailing_slash_misses_children (sample_route "/" []) "" "u"%char "sers");
    [reflexivity|done].
Defined.
