(* ===== verification/Balancing.v ===== *)
(** [src/balancing/mod.rs]: per-route backend selection with an atomic rotation counter.
    A call of [select_backend] performs at most one atomic operation ([fetch_add]), so the
    interleavings of concurrent calls are exactly the sequences of calls studied here. *)

From S2P Require Import Prelude RustStd Externals Config Routing.
From stdpp Require Import options.

(** * Data and operations *)

Record RouteBalancer := {
  rb_strategy : BalancingStrategy;
  rb_counter : N; (** an [AtomicU64] *)
}.

Record LoadBalancer := {
  lb_routes : gmap string RouteBalancer; (** a [HashMap] *)
}.

(** [collect] inserts from left to right, so the last route of a prefix counts. *)
Definition LoadBalancer_new (routes : list RouteConfig) : LoadBalancer := {|
  lb_routes := foldl (λ m route, <[rt_path_prefix route :=
                 {| rb_strategy := rt_balancing route; rb_counter := 0 |}]> m) ∅ routes;
|}.

(** [RouteBalancer::select]; its only caller passes a non-empty slice, so the remainder is
    by a non-zero length. *)
Definition RouteBalancer_select (rb : RouteBalancer) (backends : list string)
    : option string * RouteBalancer :=
  match rb_strategy rb with
  | RoundRobin =>
      let index := (rb_counter rb `mod` N.of_nat (length backends))%N in
      (backends !! N.to_nat index,
       {| rb_strategy := rb_strategy rb; rb_counter := u64_add (rb_counter rb) 1 |})
  | FirstHealthy => (head backends, rb)
  end.

Definition select_backend (lb : LoadBalancer) (route : RouteConfig) (backends : list string)
    : option string * LoadBalancer :=
  if decide (backends = []) then (None, lb)
  else match lb_routes lb !! rt_path_prefix route with
       | Some route_balancer =>
           let (choice, rb') := RouteBalancer_select route_balancer backends in
           (choice, {| lb_routes := <[rt_path_prefix route := rb']> (lb_routes lb) |})
       | None => (head backends, lb)
       end.

(** A sequence of selections, each for a route and the backends eligible at that moment. *)
Fixpoint select_all (lb : LoadBalancer) (calls : list (RouteConfig * list string))
    : list (option string) * LoadBalancer :=
  match calls with
  | [] => ([], lb)
  | (route, backends) :: calls =>
      let (choice, lb1) := select_backend lb route backends in
      let (choices, lb2) := select_all lb1 calls in
      (choice :: choices, lb2)
  end.

(** The backend that position [c] of the rotation designates. *)
Definition rotation (backends : list string) (c : N) : option string :=
  backends !! N.to_nat (c `mod` N.of_nat (length backends)).

(** * Lemmas *)

Lemma rotation_is_Some backends c : backends ≠ [] → is_Some (rotation backends c).
Proof.
  intros Hne. apply lookup_lt_is_Some.
  assert (length backends ≠ 0) by by destruct backends.
  pose proof (N.mod_lt c (N.of_nat (length backends)) ltac:(lia)). lia.
Qed.

Lemma head_elem_of {A} (l : list A) x : head l = Some x → x ∈ l.
Proof. destruct l; [done|]. intros [= ->]. by left. Qed.

Lemma select_backend_in lb route backends b lb' :
  select_backend lb route backends = (Some b, lb') → b ∈ backends.
Proof.
  unfold select_backend, RouteBalancer_select. case_decide; [done|].
  repeat case_match; intros; simplify_eq; eauto using head_elem_of, list_elem_of_lookup_2.
Qed.

Lemma select_backend_is_Some lb route backends :
  backends ≠ [] → is_Some (select_backend lb route backends).1.
Proof.
  intros Hne. unfold select_backend, RouteBalancer_select. rewrite decide_False by done.
  assert (is_Some (head backends)) by (destruct backends; eauto; done).
  repeat case_match; simplify_eq; try done. by apply rotation_is_Some.
Qed.

(** Selecting for one route leaves the balancers of the other prefixes alone. *)
Lemma select_backend_frame lb route backends p :
  p ≠ rt_path_prefix route → lb_routes (select_backend lb route backends).2 !! p = lb_routes lb !! p.
Proof.
  intros Hp. unfold select_backend. repeat case_match; simpl; try done.
  by rewrite lookup_insert_ne.
Qed.

(** The choice and the next balancer of a route depend on that route's balancer only. *)
Lemma select_backend_local lb1 lb2 route backends :
  lb_routes lb1 !! rt_path_prefix route = lb_routes lb2 !! rt_path_prefix route →
  (select_backend lb1 route backends).1 = (select_backend lb2 route backends).1 ∧
  lb_routes (select_backend lb1 route backends).2 !! rt_path_prefix route
  = lb_routes (select_backend lb2 route backends).2 !! rt_path_prefix route.
Proof.
  intros Heq. unfold select_backend. rewrite Heq.
  repeat case_match; simpl; split; rewrite ?lookup_insert_eq; congruence.
Qed.

Lemma select_backend_round_robin lb route backends c :
  backends ≠ [] →
  lb_routes lb !! rt_path_prefix route = Some {| rb_strategy := RoundRobin; rb_counter := c |} →
  select_backend lb route backends =
    (rotation backends c,
     {| lb_routes := <[rt_path_prefix route :=
          {| rb_strategy := RoundRobin; rb_counter := u64_add c 1 |}]> (lb_routes lb) |}).
Proof. intros Hne Hlb. unfold select_backend. by rewrite decide_False, Hlb. Qed.

Lemma LoadBalancer_new_lookup routes route :
  NoDup (rt_path_prefix <$> routes) → route ∈ routes →
  lb_routes (LoadBalancer_new routes) !! rt_path_prefix route
  = Some {| rb_strategy := rt_balancing route; rb_counter := 0 |}.
Proof.
  unfold LoadBalancer_new. cbn [lb_routes]. generalize (∅ : gmap string RouteBalancer).
  induction routes as [|r routes IH]; intros m; [by intros _ ?%not_elem_of_nil|].
  rewrite fmap_cons, NoDup_cons. intros [Hr Hnd] [->|Hin]%elem_of_cons; simpl; [|by apply IH].
  clear IH. revert m Hr. induction routes as [|r' routes IH]; intros m Hr; simpl.
  { by rewrite lookup_insert_eq. }
  rewrite fmap_cons, not_elem_of_cons in Hr. destruct Hr as [Hne Hr].
  rewrite fmap_cons, NoDup_cons in Hnd. destruct Hnd as [_ Hnd].
  rewrite insert_insert_ne by done. by apply IH.
Qed.

Lemma select_all_app lb calls1 calls2 :
  select_all lb (calls1 ++ calls2) =
    ((select_all lb calls1).1 ++ (select_all (select_all lb calls1).2 calls2).1,
     (select_all (select_all lb calls1).2 calls2).2).
Proof.
  revert lb. induction calls1 as [|[r bs] calls1 IH]; intros lb; simpl.
  { by destruct (select_all lb calls2). }
  destruct (select_backend lb r bs) as [c lb1]. rewrite IH.
  by destruct (select_all lb1 calls1).
Qed.

(** [k] selections in a row from the same backends walk the rotation. *)
Lemma select_all_replicate lb route backends c k :
  backends ≠ [] →
  lb_routes lb !! rt_path_prefix route = Some {| rb_strategy := RoundRobin; rb_counter := c |} →
  (c + N.of_nat k < u64_modulus)%N →
  (select_all lb (replicate k (route, backends))).1
  = (λ i, rotation backends (c + N.of_nat i)) <$> seq 0 k.
Proof.
  intros Hne. revert lb c. induction k as [|k IH]; intros lb c Hlb Hc; [done|].
  cbn [replicate select_all]. erewrite select_backend_round_robin by done.
  specialize (IH {| lb_routes := <[rt_path_prefix route :=
    {| rb_strategy := RoundRobin; rb_counter := u64_add c 1 |}]> (lb_routes lb) |} (u64_add c 1)).
  cbn [lb_routes] in IH. rewrite lookup_insert_eq in IH. rewrite u64_add_small in * by lia.
  specialize (IH eq_refl ltac:(lia)).
  destruct (select_all _ _) as [l lb2]. simpl in *. rewrite IH.
  f_equal; [by rewrite N.add_0_r|]. rewrite <-fmap_S_seq, <-list_fmap_compose.
  apply list_fmap_ext. intros i x _. simpl. f_equal. lia.
Qed.

(** One full turn of the rotation, from any position, visits every backend once. *)
Lemma rotation_turn backends c :
  (λ i, rotation backends (c + N.of_nat i)) <$> seq 0 (length backends)
  ≡ₚ Some <$> backends.
Proof.
  destruct (decide (backends = [])) as [->|Hne]; [done|].
  set (n := length backends).
  assert (n ≠ 0) as Hn by (by destruct backends).
  pose proof (N.mod_lt c (N.of_nat n) ltac:(lia)) as Hk.
  set (k := N.to_nat (c `mod` N.of_nat n)).
  assert (k < n) as Hkn by lia.
  assert (∀ i, i < n - k →
    rotation backends (c + N.of_nat i) = backends !! (k + i)) as Hlow.
  { intros i Hi. unfold rotation. fold n. f_equal.
    rewrite <-N.Div0.add_mod_idemp_l, N.mod_small by lia. lia. }
  assert (∀ i, i < k →
    rotation backends (c + N.of_nat (n - k + i)) = backends !! i) as Hhigh.
  { intros i Hi. unfold rotation. fold n. f_equal.
    rewrite <-N.Div0.add_mod_idemp_l.
    replace (c `mod` N.of_nat n + N.of_nat (n - k + i))%N
      with (N.of_nat i + 1 * N.of_nat n)%N by lia.
    rewrite N.Div0.mod_add, N.mod_small by lia. lia. }
  replace n with ((n - k) + k) at 1 by lia.
  rewrite seq_app, fmap_app. simpl.
  assert (((λ i, rotation backends (c + N.of_nat i)) <$> seq 0 (n - k))
          = Some <$> drop k backends) as ->.
  { apply list_eq. intros i. rewrite !list_lookup_fmap, lookup_drop.
    destruct (decide (i < n - k)).
    - rewrite lookup_seq_lt by done. simpl. rewrite Hlow by done.
      destruct (lookup_lt_is_Some_2 backends (k + i)) as [x ->]; [fold n; lia|done].
    - rewrite lookup_seq_ge by lia. by rewrite lookup_ge_None_2 by (fold n; lia). }
  assert (((λ i, rotation backends (c + N.of_nat i)) <$> seq (n - k) k)
          = Some <$> take k backends) as ->.
  { apply list_eq. intros i. rewrite !list_lookup_fmap.
    destruct (decide (i < k)).
    - rewrite lookup_seq_lt by done. simpl. rewrite Hhigh, lookup_take_lt by done.
      destruct (lookup_lt_is_Some_2 backends i) as [x ->]; [fold n; lia|done].
    - rewrite lookup_seq_ge by lia. by rewrite lookup_take_ge by lia. }
  rewrite Permutation_app_comm, <-fmap_app. by rewrite take_drop.
Qed.

(** [k] full turns from any position visit every backend [k] times. *)
Lemma rotation_turns backends c k :
  (λ i, rotation backends (c + N.of_nat i)) <$> seq 0 (k * length backends)
  ≡ₚ concat (replicate k (Some <$> backends)).
Proof.
  revert c. induction k as [|k IH]; intros c; [done|].
  cbn [replicate concat Nat.mul]. rewrite seq_app, fmap_app, rotation_turn.
  f_equiv. rewrite <-(IH (c + N.of_nat (length backends))%N). simpl.
  assert (∀ n, seq (length backends) n = Nat.add (length backends) <$> seq 0 n) as ->
    by (intros n; by rewrite fmap_add_seq, Nat.add_0_r).
  rewrite <-list_fmap_compose.
  apply reflexive_eq, list_fmap_ext. intros i x _. simpl. f_equal. lia.
Qed.

(** * Properties *)

(** Selection returns nothing exactly when no backend is eligible, and otherwise one of
    the eligible backends, for every counter value, the wrapped ones included. *)
Theorem select_backend_sound lb route backends :
  match (select_backend lb route backends).1 with
  | Some b => b ∈ backends
  | None => backends = []
  end.
Proof.
  destruct (select_backend lb route backends) as [[b|] lb'] eqn:Hs; simpl.
  - eauto using select_backend_in.
  - destruct (decide (backends = [])) as [|Hne]; [done|].
    destruct (select_backend_is_Some lb route backends Hne) as [? Hx].
    rewrite Hs in Hx. done.
Qed.

(** C34: round robin is fair: [k] full turns of consecutive selections over the same backends
    serve each of them exactly [k] times, from any position of the counter. *)
Theorem round_robin_fair lb route backends c k :
  backends ≠ [] →
  lb_routes lb !! rt_path_prefix route = Some {| rb_strategy := RoundRobin; rb_counter := c |} →
  (c + N.of_nat (k * length backends) < u64_modulus)%N →
  (select_all lb (replicate (k * length backends) (route, backends))).1
  ≡ₚ concat (replicate k (Some <$> backends)).
Proof.
  intros Hne Hlb Hc. erewrite select_all_replicate by done. apply rotation_turns.
Qed.

Lemma round_robin_fair_witness :
  (select_all (LoadBalancer_new [sample_route "/api" ["a"; "b"; "c"]])
     (replicate (2 * 3) (sample_route "/api" ["a"; "b"; "c"], ["a"; "b"; "c"]))).1
  ≡ₚ [Some "a"; Some "b"; Some "c"; Some "a"; Some "b"; Some "c"].
Proof.
  apply (round_robin_fair _ (sample_route "/api" ["a"; "b"; "c"]) ["a"; "b"; "c"] 0 2);
    [done|vm_compute; reflexivity|vm_compute; reflexivity].
Defined.

(** Rotation is independent per route: in any interleaving of selections for several
    routes, the selections for one prefix choose as if they ran alone. *)
Theorem rotation_independent_per_route lb calls p :
  snd <$> filter (λ x, rt_path_prefix x.1.1 = p) (zip calls (select_all lb calls).1)
  = (select_all lb (filter (λ call, rt_path_prefix call.1 = p) calls)).1.
Proof.
  enough (∀ lb', lb_routes lb' !! p = lb_routes lb !! p →
    snd <$> filter (λ x, rt_path_prefix x.1.1 = p) (zip calls (select_all lb calls).1)
    = (select_all lb' (filter (λ call, rt_path_prefix call.1 = p) calls)).1) by eauto.
  revert lb. induction calls as [|[r bs] calls IH]; intros lb lb' Heq; [done|].
  cbn [select_all]. destruct (select_backend lb r bs) as [c lb1] eqn:Hs.
  specialize (IH lb1). destruct (select_all lb1 calls) as [cs lb2] eqn:Ha.
  cbn [fst zip zip_with] in *. rewrite !filter_cons. cbn [fst snd].
  case_decide as Hp; subst.
  - destruct (select_backend_local lb lb' r bs (eq_sym Heq)) as [Hc Hl].
    rewrite Hs in Hc, Hl. cbn [select_all].
    destruct (select_backend lb' r bs) as [c' lb1']. cbn [fst snd] in *.
    specialize (IH lb1' (eq_sym Hl)).
    destruct (select_all lb1' _) as [cs' lb2']. cbn [fst snd] in *.
    rewrite fmap_cons. cbn [snd]. congruence.
  - apply IH. rewrite Heq. pose proof (select_backend_frame lb r bs p) as Hf.
    rewrite Hs in Hf. simpl in Hf. by rewrite Hf.
Qed.
