(* ===== verification/Telemetry.v ===== *)
(** [src/telemetry/mod.rs]: the in-memory counters, the bounded log of health transitions,
    the structured log lines and the Prometheus exposition.

    Each counter is updated by one atomic operation or under its own mutex, so concurrent
    recordings are sequences of the operations below.  [t_stderr] is the output channel of
    [log]: the lines written so far, as level, event and fields; the time stamp and the
    quoting of the field values are left out. *)

From Stdlib Require Import Ascii.
From S2P Require Import Prelude RustStd Externals Config.
From stdpp Require Import options.

(** * Data *)

Definition MAX_TRANSITIONS : nat := 32.

Record HealthTransition := {
  tr_backend : string;
  tr_from : string;
  tr_to : string;
  tr_reason : string;
}.

Record LogLine := {
  log_level : string;
  log_event : string;
  log_fields : list (string * string);
}.

Record Telemetry := {
  request_count : N;
  upstream_latency_count : N;
  upstream_latency_total_micros : N;
  backend_failures : gmap string N;
  health_transitions_total : N;
  response_statuses : gmap N N;
  proxy_errors : gmap string N;
  health_transitions : list HealthTransition;
  t_stderr : list LogLine;
}.

(** * Recording *)

(** [map.entry(key).or_insert_with(|| v)] *)
Definition or_insert {V} (v : V) (m : gmap string V) (key : string) : gmap string V :=
  match m !! key with Some _ => m | None => <[key := v]> m end.

(** The two loops of [Telemetry::new]: every backend of every route starts at zero. *)
Definition new_backend_failures (routes : list RouteConfig) : gmap string N :=
  foldl (or_insert 0%N) ∅ (routes ≫= rt_backends).

Definition Telemetry_new (routes : list RouteConfig) : Telemetry := {|
  request_count := 0;
  upstream_latency_count := 0;
  upstream_latency_total_micros := 0;
  backend_failures := new_backend_failures routes;
  health_transitions_total := 0;
  response_statuses := ∅;
  proxy_errors := ∅;
  health_transitions := [];
  t_stderr := [];
|}.

Definition record_request (t : Telemetry) : Telemetry := {|
  request_count := u64_add (request_count t) 1;
  upstream_latency_count := upstream_latency_count t;
  upstream_latency_total_micros := upstream_latency_total_micros t;
  backend_failures := backend_failures t;
  health_transitions_total := health_transitions_total t;
  response_statuses := response_statuses t;
  proxy_errors := proxy_errors t;
  health_transitions := health_transitions t;
  t_stderr := t_stderr t;
|}.

Definition record_upstream_latency (latency : Duration) (t : Telemetry) : Telemetry := {|
  request_count := request_count t;
  upstream_latency_count := u64_add (upstream_latency_count t) 1;
  upstream_latency_total_micros :=
    u64_add (upstream_latency_total_micros t) (as_u64 (as_micros latency));
  backend_failures := backend_failures t;
  health_transitions_total := health_transitions_total t;
  response_statuses := response_statuses t;
  proxy_errors := proxy_errors t;
  health_transitions := health_transitions t;
  t_stderr := t_stderr t;
|}.

Definition record_backend_failure (backend : string) (t : Telemetry) : Telemetry := {|
  request_count := request_count t;
  upstream_latency_count := upstream_latency_count t;
  upstream_latency_total_micros := upstream_latency_total_micros t;
  backend_failures :=
    match backend_failures t !! backend with
    | Some counter => <[backend := u64_add counter 1]> (backend_failures t)
    | None => backend_failures t
    end;
  health_transitions_total := health_transitions_total t;
  response_statuses := response_statuses t;
  proxy_errors := proxy_errors t;
  health_transitions := health_transitions t;
  t_stderr := t_stderr t;
|}.

(** [*map.entry(key).or_insert(0) += 1] *)
Definition count_entry {K} `{Countable K} (key : K) (m : gmap K N) : gmap K N :=
  <[key := u64_add (default 0%N (m !! key)) 1]> m.

Definition record_response_status (status : N) (t : Telemetry) : Telemetry := {|
  request_count := request_count t;
  upstream_latency_count := upstream_latency_count t;
  upstream_latency_total_micros := upstream_latency_total_micros t;
  backend_failures := backend_failures t;
  health_transitions_total := health_transitions_total t;
  response_statuses := count_entry status (response_statuses t);
  proxy_errors := proxy_errors t;
  health_transitions := health_transitions t;
  t_stderr := t_stderr t;
|}.

Definition record_proxy_error (kind : string) (t : Telemetry) : Telemetry := {|
  request_count := request_count t;
  upstream_latency_count := upstream_latency_count t;
  upstream_latency_total_micros := upstream_latency_total_micros t;
  backend_failures := backend_failures t;
  health_transitions_total := health_transitions_total t;
  response_statuses := response_statuses t;
  proxy_errors := count_entry kind (proxy_errors t);
  health_transitions := health_transitions t;
  t_stderr := t_stderr t;
|}.

Definition log (level event : string) (fields : list (string * string)) (t : Telemetry)
    : Telemetry := {|
  request_count := request_count t;
  upstream_latency_count := upstream_latency_count t;
  upstream_latency_total_micros := upstream_latency_total_micros t;
  backend_failures := backend_failures t;
  health_transitions_total := health_transitions_total t;
  response_statuses := response_statuses t;
  proxy_errors := proxy_errors t;
  health_transitions := health_transitions t;
  t_stderr := t_stderr t ++ [{| log_level := level; log_event := event;
                                log_fields := fields |}];
|}.

(** [if transitions.len() >= MAX_TRANSITIONS { pop_front() } push_back(transition)] *)
Definition push_transition (tr : HealthTransition) (l : list HealthTransition)
    : list HealthTransition :=
  (if decide (MAX_TRANSITIONS ≤ length l) then tail l else l) ++ [tr].

Definition record_health_transition (backend from to reason : string) (t : Telemetry)
    : Telemetry :=
  let transition := {| tr_backend := backend; tr_from := from; tr_to := to;
                       tr_reason := reason |} in
  let t := log "INFO" "health_transition"
             [("backend", backend); ("from", from); ("to", to); ("reason", reason)] t in
  {|
    request_count := request_count t;
    upstream_latency_count := upstream_latency_count t;
    upstream_latency_total_micros := upstream_latency_total_micros t;
    backend_failures := backend_failures t;
    health_transitions_total := u64_add (health_transitions_total t) 1;
    response_statuses := response_statuses t;
    proxy_errors := proxy_errors t;
    health_transitions := push_transition transition (health_transitions t);
    t_stderr := t_stderr t;
  |}.

(** * Log lines *)

Definition log_server_start (bind_addr : string) (route_count : N) : Telemetry → Telemetry :=
  log "INFO" "server_start" [("bind_addr", bind_addr); ("route_count", pretty route_count)].

Definition log_shutdown_started (timeout : Duration) : Telemetry → Telemetry :=
  log "INFO" "shutdown_started" [("drain_timeout_ms", pretty (as_millis timeout))].

Definition log_shutdown_complete (drained : bool) (remaining_connections : N)
    : Telemetry → Telemetry :=
  log "INFO" "shutdown_complete"
    [("drained", if drained then "true" else "false");
     ("remaining_connections", pretty remaining_connections)].

Definition log_connection_error (remote_addr err : string) : Telemetry → Telemetry :=
  log "ERROR" "connection_error" [("remote_addr", remote_addr); ("error", err)].

Definition log_background_task_failure (task err : string) : Telemetry → Telemetry :=
  log "ERROR" "background_task_failed" [("task", task); ("error", err)].

Definition log_startup_warning (route reason : string) : Telemetry → Telemetry :=
  log "WARN" "startup_warning" [("route", route); ("reason", reason)].

Definition log_retry_attempt (method path backend : string) (attempt : N) (reason : string)
    : Telemetry → Telemetry :=
  log "INFO" "retry_attempt"
    [("method", method); ("path", path); ("backend", backend);
     ("attempt", pretty attempt); ("reason", reason)].

Definition log_control_signal (signal action : string) : Telemetry → Telemetry :=
  log "INFO" "control_signal" [("signal", signal); ("action", action)].

Definition log_request_complete (method path : string) (backend : option string) (status : N)
    (latency : Duration) (error_kind : option string) (request_id : string)
    : Telemetry → Telemetry :=
  log "INFO" "request_complete"
    [("request_id", request_id); ("method", method); ("path", path);
     ("backend", default "-" backend); ("status", pretty status);
     ("latency_ms", pretty (as_millis latency)); ("error_kind", default "-" error_kind)].

(** * The Prometheus exposition *)

Definition dquote : ascii := "034".
Definition backslash : ascii := "092".

(** [value.replace('\\', "\\\\").replace('"', "\\\"")] *)
Definition escape_label_value (value : string) : string :=
  replace_char dquote (String backslash (String dquote ""))
    (replace_char backslash (String backslash (String backslash "")) value).

(** [writeln!(output, ...)]: the lines are joined with a newline after each. *)
Definition render_lines (lines : list string) : string :=
  str_concat ((λ line, line +:+ newline) <$> lines).

(** [name{label="value"} sample] *)
Definition labelled_line (name label value sample : string) : string :=
  name +:+ "{" +:+ label +:+ "=" +:+ String dquote (value +:+ String dquote ("} " +:+ sample)).

Definition key_le {A} (x y : string * A) : Prop := String.le x.1 y.1.
#[export] Instance key_le_dec {A} : RelDecision (@key_le A).
Proof. intros x y. apply String.le_dec. Defined.
#[export] Instance key_le_total {A} : Total (@key_le A).
Proof. intros x y. unfold key_le. apply (total String.le). Qed.
Definition status_le {A} (x y : N * A) : Prop := (x.1 ≤ y.1)%N.
#[export] Instance status_le_dec {A} : RelDecision (@status_le A).
Proof. intros x y. apply N.le_dec. Defined.

Definition render_prometheus (backend_statuses : list (string * bool)) (t : Telemetry)
    : string :=
  render_lines (
    ["# HELP ferrum_proxy_requests_total Total HTTP requests handled by the proxy.";
     "# TYPE ferrum_proxy_requests_total counter";
     "ferrum_proxy_requests_total " +:+ pretty (request_count t);
     "# HELP ferrum_proxy_upstream_request_duration_microseconds Total upstream request latency in microseconds.";
     "# TYPE ferrum_proxy_upstream_request_duration_microseconds summary";
     "ferrum_proxy_upstream_request_duration_microseconds_sum "
       +:+ pretty (upstream_latency_total_micros t);
     "ferrum_proxy_upstream_request_duration_microseconds_count "
       +:+ pretty (upstream_latency_count t);
     "# HELP ferrum_proxy_health_transitions_total Total health state transitions.";
     "# TYPE ferrum_proxy_health_transitions_total counter";
     "ferrum_proxy_health_transitions_total " +:+ pretty (health_transitions_total t);
     "# HELP ferrum_proxy_backend_failures_total Total passive or active backend failures.";
     "# TYPE ferrum_proxy_backend_failures_total counter"]
    ++ ((λ '(backend, count),
           labelled_line "ferrum_proxy_backend_failures_total" "backend"
             (escape_label_value backend) (pretty (count : N)))
        <$> merge_sort key_le (map_to_list (backend_failures t)))
    ++ ["# HELP ferrum_proxy_backend_healthy Current backend health state.";
        "# TYPE ferrum_proxy_backend_healthy gauge"]
    ++ ((λ '(backend, healthy),
           labelled_line "ferrum_proxy_backend_healthy" "backend"
             (escape_label_value backend) (if healthy : bool then "1" else "0"))
        <$> backend_statuses)
    ++ ["# HELP ferrum_proxy_responses_total Total responses sent by status code.";
        "# TYPE ferrum_proxy_responses_total counter"]
    ++ ((λ '(status, count),
           labelled_line "ferrum_proxy_responses_total" "status_code"
             (pretty (status : N)) (pretty (count : N)))
        <$> merge_sort status_le (map_to_list (response_statuses t)))
    ++ ["# HELP ferrum_proxy_errors_total Total proxy errors by classification.";
        "# TYPE ferrum_proxy_errors_total counter"]
    ++ ((λ '(kind, count),
           labelled_line "ferrum_proxy_errors_total" "kind"
             (escape_label_value kind) (pretty (count : N)))
        <$> merge_sort key_le (map_to_list (proxy_errors t)))).

(** A label value as a scraper reads it, up to the closing quote: backslash escapes of a
    backslash, a quote and a line feed, and no raw line feed.  The value and what follows. *)
Definition line_feed : ascii := "010".
Fixpoint read_label (s : string) : option (string * string) :=
  match s with
  | "" => None
  | String a s =>
      if decide (a = dquote) then Some ("", s)
      else if decide (a = backslash) then
        match s with
        | "" => None
        | String b s =>
            c ← (if decide (b = "n"%char) then Some line_feed
                 else if decide (b = backslash ∨ b = dquote) then Some b else None);
            '(v, rest) ← read_label s; Some (String c v, rest)
        end
      else if decide (a = line_feed) then None
      else '(v, rest) ← read_label s; Some (String a v, rest)
  end.

(** * The specification: the metrics as functions of the recorded events *)

Inductive TeleEvent :=
  | EvRequest
  | EvLatency (latency : Duration)
  | EvBackendFailure (backend : string)
  | EvStatus (status : N)
  | EvError (kind : string)
  | EvTransition (tr : HealthTransition).

Definition tele_event (t : Telemetry) (e : TeleEvent) : Telemetry :=
  match e with
  | EvRequest => record_request t
  | EvLatency latency => record_upstream_latency latency t
  | EvBackendFailure backend => record_backend_failure backend t
  | EvStatus status => record_response_status status t
  | EvError kind => record_proxy_error kind t
  | EvTransition tr =>
      record_health_transition (tr_backend tr) (tr_from tr) (tr_to tr) (tr_reason tr) t
  end.

Definition is_request (e : TeleEvent) : bool := match e with EvRequest => true | _ => false end.
Definition latency_of (e : TeleEvent) : option Duration :=
  match e with EvLatency d => Some d | _ => None end.
Definition failure_of (e : TeleEvent) : option string :=
  match e with EvBackendFailure b => Some b | _ => None end.
Definition status_of (e : TeleEvent) : option N :=
  match e with EvStatus s => Some s | _ => None end.
Definition error_of (e : TeleEvent) : option string :=
  match e with EvError k => Some k | _ => None end.
Definition transition_of (e : TeleEvent) : option HealthTransition :=
  match e with EvTransition tr => Some tr | _ => None end.

(** The number of events that [f] classifies as [x], on 64 bits. *)
Definition occurrences {A} `{EqDecision A} (f : TeleEvent → option A) (x : A)
    (es : list TeleEvent) : N :=
  as_u64 (N.of_nat (length (filter (λ e, f e = Some x) es))).
Definition sum_micros (ds : list Duration) : N :=
  foldr (λ d s, as_micros d + s)%N 0%N ds.

(** What the state says after the events [es], oldest first. *)
Record tele_spec (routes : list RouteConfig) (es : list TeleEvent) (t : Telemetry) : Prop := {
  spec_requests :
    request_count t = as_u64 (N.of_nat (length (filter (λ e, is_request e = true) es)));
  spec_latency_count :
    upstream_latency_count t = as_u64 (N.of_nat (length (omap latency_of es)));
  spec_latency_total :
    upstream_latency_total_micros t = as_u64 (sum_micros (omap latency_of es));
  spec_failures b :
    backend_failures t !! b = if decide (b ∈ routes ≫= rt_backends)
                              then Some (occurrences failure_of b es) else None;
  spec_statuses s :
    default 0%N (response_statuses t !! s) = occurrences status_of s es;
  spec_errors k :
    default 0%N (proxy_errors t !! k) = occurrences error_of k es;
  spec_transitions_total :
    health_transitions_total t = as_u64 (N.of_nat (length (omap transition_of es)));
  spec_transitions :
    health_transitions t =
      drop (length (omap transition_of es) - MAX_TRANSITIONS) (omap transition_of es);
}.

(** * Machine types *)

(** Every number of the telemetry fits its type, and the transition log its capacity. *)
Record tele_typed (t : Telemetry) : Prop := {
  typed_request_count : (request_count t < u64_modulus)%N;
  typed_latency_count : (upstream_latency_count t < u64_modulus)%N;
  typed_latency_total : (upstream_latency_total_micros t < u64_modulus)%N;
  typed_backend_failures : map_Forall (λ _ n, n < u64_modulus)%N (backend_failures t);
  typed_transitions_total : (health_transitions_total t < u64_modulus)%N;
  typed_statuses : map_Forall (λ _ n, n < u64_modulus)%N (response_statuses t);
  typed_errors : map_Forall (λ _ n, n < u64_modulus)%N (proxy_errors t);
  typed_transitions : length (health_transitions t) ≤ MAX_TRANSITIONS;
}.

(** * Lemmas *)

Lemma count_entry_typed {K} `{Countable K} (k : K) (m : gmap K N) :
  map_Forall (λ _ n, n < u64_modulus)%N m → map_Forall (λ _ n, n < u64_modulus)%N (count_entry k m).
Proof. intros Hm. apply map_Forall_insert_2; [apply u64_add_lt|done]. Qed.

Lemma push_transition_length tr l : length l ≤ MAX_TRANSITIONS → length (push_transition tr l) ≤ MAX_TRANSITIONS.
Proof.
  unfold push_transition. case_decide; rewrite length_app; simpl; [|lia]. unfold MAX_TRANSITIONS in *. destruct l; simpl in *; lia.
Qed.

#[local] Hint Resolve u64_add_lt count_entry_typed push_transition_length : core.

Lemma tele_event_typed e t : tele_typed t → tele_typed (tele_event t e).
Proof.
  intros []. destruct e; split; simpl; auto.
  case_match; [|done]. by apply map_Forall_insert_2.
Qed.

Lemma occurrences_snoc {A} `{EqDecision A} (f : TeleEvent → option A) x es e :
  occurrences f x (es ++ [e]) =
    if decide (f e = Some x) then u64_add (occurrences f x es) 1 else occurrences f x es.
Proof.
  unfold occurrences. rewrite filter_app, filter_cons, filter_nil, length_app.
  case_decide; simpl; [|by rewrite Nat.add_0_r].
  by rewrite Nat2N.inj_add, as_u64_add.
Qed.

Lemma sum_micros_app ds1 ds2 : sum_micros (ds1 ++ ds2) = (sum_micros ds1 + sum_micros ds2)%N.
Proof. induction ds1; simpl; lia. Qed.

Lemma default_count_entry {K} `{Countable K} (k k' : K) m :
  default 0%N (count_entry k m !! k') =
    if decide (k = k') then u64_add (default 0%N (m !! k')) 1 else default 0%N (m !! k').
Proof. unfold count_entry. rewrite lookup_insert. by case_decide; subst. Qed.

(** The bounded log keeps the last [MAX_TRANSITIONS] entries. *)
Lemma push_transition_last tr l :
  push_transition tr (drop (length l - MAX_TRANSITIONS) l)
  = drop (length l + 1 - MAX_TRANSITIONS) (l ++ [tr]).
Proof.
  unfold push_transition. rewrite length_drop. case_decide as Hfull.
  - replace (length l + 1 - MAX_TRANSITIONS) with (S (length l - MAX_TRANSITIONS)) by lia.
    rewrite drop_app_le by (unfold MAX_TRANSITIONS in *; lia). f_equal.
    apply list_eq. intros i. rewrite lookup_tail, !lookup_drop. f_equal. lia.
  - replace (length l + 1 - MAX_TRANSITIONS) with 0 by lia.
    replace (length l - MAX_TRANSITIONS) with 0 by lia. done.
Qed.

Lemma foldl_or_insert_lookup {V} (v : V) l b :
  foldl (or_insert v) ∅ l !! b = if decide (b ∈ l) then Some v else None.
Proof.
  induction l as [|x l IH] using rev_ind.
  { rewrite decide_False by apply not_elem_of_nil. apply lookup_empty. }
  rewrite foldl_snoc. unfold or_insert at 1.
  assert (b ∈ l ++ [x] ↔ b ∈ l ∨ b = x) as Hiff
    by by rewrite elem_of_app, list_elem_of_singleton.
  rewrite (decide_ext _ _ _ _ Hiff). destruct (decide (x = b)) as [->|Hne].
  - rewrite (decide_True (P := b ∈ l ∨ b = b)) by auto.
    destruct (foldl (or_insert v) ∅ l !! b) eqn:Hb; [|by rewrite lookup_insert_eq].
    rewrite Hb. case_decide; congruence.
  - assert (b ∈ l ∨ b = x ↔ b ∈ l) as Hiff' by naive_solver.
    rewrite (decide_ext _ _ _ _ Hiff'), <-IH.
    destruct (_ !! x); [done|]. by rewrite lookup_insert_ne.
Qed.

Lemma map_Forall_or_insert {V} (P : V → Prop) (v : V) l :
  P v → map_Forall (λ _, P) (foldl (or_insert v) ∅ l).
Proof. intros Hv b x. rewrite foldl_or_insert_lookup. case_decide; [|done]. by intros [= <-]. Qed.

Lemma Telemetry_new_typed routes : tele_typed (Telemetry_new routes).
Proof.
  split; simpl; [done|done|done|by apply map_Forall_or_insert|done|apply map_Forall_empty..|].
  unfold MAX_TRANSITIONS. lia.
Qed.

Lemma tele_events_typed t es : tele_typed t → tele_typed (foldl tele_event t es).
Proof. apply foldl_preserves. intros. by apply tele_event_typed. Qed.

Lemma tele_spec_new routes : tele_spec routes [] (Telemetry_new routes).
Proof. split; try done; simpl. intros b.
  unfold new_backend_failures. by rewrite foldl_or_insert_lookup. Qed.

Lemma tele_spec_step routes es t e :
  tele_spec routes es t → tele_spec routes (es ++ [e]) (tele_event t e).
Proof.
  intros []. destruct e; split; intros; simpl;
    rewrite ?filter_app, ?filter_cons, ?filter_nil, ?omap_app, ?occurrences_snoc; simpl;
    rewrite ?app_nil_r, ?length_app, ?default_count_entry; simpl;
    rewrite ?Nat2N.inj_add, ?as_u64_add; change (N.of_nat 1) with 1%N;
    first [congruence | apply spec_failures0 | idtac].
  - rewrite spec_latency_total0, sum_micros_app. simpl.
    by rewrite N.add_0_r, as_u64_add_both.
  - destruct (backend_failures t !! backend) as [n|] eqn:Hn.
    + rewrite lookup_insert. repeat case_decide; simplify_eq/=; rewrite ?spec_failures0 in *;
        repeat case_decide; simplify_eq/=; congruence.
    + rewrite spec_failures0 in *. repeat case_decide; simplify_eq/=; done.
  - rewrite spec_statuses0. repeat case_decide; simplify_eq/=; congruence.
  - rewrite spec_errors0. repeat case_decide; simplify_eq/=; congruence.
  - rewrite spec_transitions0. destruct tr. apply push_transition_last.
Qed.

Definition escape_char (a : ascii) : string :=
  if decide (a = backslash) then String backslash (String backslash "")
  else if decide (a = dquote) then String backslash (String dquote "")
  else String a "".

Lemma replace_char_app c t s1 s2 :
  replace_char c t (s1 +:+ s2) = replace_char c t s1 +:+ replace_char c t s2.
Proof.
  induction s1 as [|a s1 IH]; [done|]. rewrite append_cons. simpl. rewrite IH.
  case_decide; [by rewrite append_assoc|done].
Qed.

Lemma escape_label_value_cons a v :
  escape_label_value (String a v) = escape_char a +:+ escape_label_value v.
Proof.
  unfold escape_label_value, escape_char. simpl.
  case_decide; subst; [|simpl; by repeat case_decide; subst].
  rewrite replace_char_app. done.
Qed.

Lemma read_escaped value rest :
  read_label (escape_label_value value +:+ String dquote rest)
  = if contains_char line_feed value then None else Some (value, rest).
Proof.
  induction value as [|a v IH]; [done|].
  rewrite escape_label_value_cons, append_assoc. unfold escape_char. simpl.
  repeat case_decide; subst; rewrite !append_cons, append_nil_l; simpl; rewrite ?IH;
    repeat case_decide; simplify_eq; try done; by destruct (contains_char _ _).
Qed.

(** * Properties *)

(** C37: the counters, the per-key tables and the bounded log are exactly what the recorded
    events amount to: counts and sums modulo 2^64, failures of configured backends only, and
    the last 32 health transitions in order. *)
Theorem telemetry_exact routes es :
  tele_spec routes es (foldl tele_event (Telemetry_new routes) es).
Proof.
  induction es as [|e es IH] using rev_ind; [apply tele_spec_new|].
  rewrite foldl_snoc. by apply tele_spec_step.
Qed.

(** A label value written by the exposition reads back as itself, whatever follows the
    closing quote, exactly when it holds no line feed; line feeds are not escaped. *)
Theorem label_value_roundtrip value rest :
  read_label (escape_label_value value +:+ String dquote rest)
  = if contains_char line_feed value then None else Some (value, rest).
Proof. apply read_escaped. Qed.
