(* ===== verification/Exposition.v ===== *)
(** The text that [render_prometheus] ([src/telemetry/mod.rs]) writes, read back by a scraper:
    a parser of the Prometheus text format for the samples the proxy exposes, written from the
    format's description, and the round trip through it. *)

From Stdlib Require Import Ascii.
From S2P Require Import Prelude RustStd Externals Config Telemetry.
From stdpp Require Import options.

(** * The scraper *)

Record Sample := {
  sm_name : string;
  sm_label : option (string * string);
  sm_value : N;
}.

(** The longest prefix without a character of [stops], and the rest. *)
Fixpoint span_until (stops : list ascii) (s : string) : string * string :=
  match s with
  | "" => ("", "")
  | String a s' =>
      if decide (a ∈ stops) then ("", s)
      else let (x, y) := span_until stops s' in (String a x, y)
  end.

Definition strip_char (c : ascii) (s : string) : option string :=
  match s with
  | "" => None
  | String a s => if decide (a = c) then Some s else None
  end.

(** A line of the text: a comment or an empty line, which gives no sample, or
    [name value] or [name{label="text"} value]. *)
Definition parse_line (line : string) : option (option Sample) :=
  if is_empty line || starts_with line "#" then Some None
  else
    let (name, rest) := span_until ["{"; " "]%char line in
    match strip_char " " rest with
    | Some rest =>
        n ← parse_u64 rest;
        Some (Some {| sm_name := name; sm_label := None; sm_value := n |})
    | None =>
        rest ← strip_char "{" rest;
        let (label, rest) := span_until ["="]%char rest in
        rest ← strip_char "=" rest;
        rest ← strip_char dquote rest;
        '(text, rest) ← read_label rest;
        rest ← strip_char "}" rest;
        rest ← strip_char " " rest;
        n ← parse_u64 rest;
        Some (Some {| sm_name := name; sm_label := Some (label, text); sm_value := n |})
    end.

Definition parse_exposition (text : string) : option (list Sample) :=
  omap id <$> mapM parse_line (split_char line_feed text).

(** The value of a sample in what was scraped. *)
Definition scraped (samples : list Sample) (name : string) (label : option (string * string))
    : option N :=
  sm_value ∘ snd <$> list_find (λ s, sm_name s = name ∧ sm_label s = label) samples.

(** * What the proxy exposes *)

Definition gauge (b : bool) : N := if b then 1%N else 0%N.

Definition plain (name : string) (n : N) : Sample :=
  {| sm_name := name; sm_label := None; sm_value := n |}.
Definition family (name label : string) (entries : list (string * N)) : list Sample :=
  (λ e, {| sm_name := name; sm_label := Some (label, e.1); sm_value := e.2 |}) <$> entries.

Definition requests_total := "ferrum_proxy_requests_total".
Definition duration_sum := "ferrum_proxy_upstream_request_duration_microseconds_sum".
Definition duration_count := "ferrum_proxy_upstream_request_duration_microseconds_count".
Definition transitions_total := "ferrum_proxy_health_transitions_total".
Definition failures_total := "ferrum_proxy_backend_failures_total".
Definition backend_healthy := "ferrum_proxy_backend_healthy".
Definition responses_total := "ferrum_proxy_responses_total".
Definition errors_total := "ferrum_proxy_errors_total".

Definition samples (statuses : list (string * bool)) (t : Telemetry) : list Sample :=
  [plain requests_total (request_count t);
   plain duration_sum (upstream_latency_total_micros t);
   plain duration_count (upstream_latency_count t);
   plain transitions_total (health_transitions_total t)]
  ++ family failures_total "backend" (merge_sort key_le (map_to_list (backend_failures t)))
  ++ family backend_healthy "backend" (prod_map id gauge <$> statuses)
  ++ family responses_total "status_code"
       (prod_map pretty id <$> merge_sort status_le (map_to_list (response_statuses t)))
  ++ family errors_total "kind" (merge_sort key_le (map_to_list (proxy_errors t))).

(** No name that becomes a label holds a line feed. *)
Definition one_line (s : string) : Prop := contains_char line_feed s = false.
Record labels_one_line (statuses : list (string * bool)) (t : Telemetry) : Prop := {
  one_line_failures : map_Forall (λ b _, one_line b) (backend_failures t);
  one_line_statuses : Forall (λ e, one_line e.1) statuses;
  one_line_errors : map_Forall (λ k _, one_line k) (proxy_errors t);
}.

(** * Lemmas *)

(** ** Lines *)

Lemma split_render_lines lines :
  Forall one_line lines → split_char line_feed (render_lines lines) = lines ++ [""].
Proof.
  unfold render_lines. induction 1 as [|l lines Hl _ IH]; [done|].
  rewrite fmap_cons. cbn [str_concat foldr]. rewrite append_assoc.
  unfold newline at 1. rewrite append_cons, append_nil_l. rewrite split_char_app by done.
  simpl. f_equal. exact IH.
Qed.

Lemma span_until_app stops s a t :
  Forall (λ c, contains_char c s = false) stops → a ∈ stops →
  span_until stops (s +:+ String a t) = (s, String a t).
Proof.
  intros Hs Ha. induction s as [|x s IH].
  - rewrite append_nil_l. simpl. by rewrite decide_True.
  - rewrite append_cons. simpl. rewrite decide_False; [rewrite IH; [done|]|].
    + eapply Forall_impl; [exact Hs|]. intros c. simpl. by case_decide.
    + intros Hin. rewrite Forall_forall in Hs. specialize (Hs x Hin). simpl in Hs.
      by rewrite decide_True in Hs.
Qed.

Lemma strip_char_same c s : strip_char c (String c s) = Some s.
Proof. simpl. by rewrite decide_True. Qed.

Lemma escape_one_line v : one_line (escape_label_value v) ↔ one_line v.
Proof.
  unfold one_line. induction v as [|a v IH]; [done|]. rewrite escape_label_value_cons.
  rewrite contains_char_app. unfold escape_char. simpl.
  repeat case_decide; subst; simpl; repeat case_decide; try done; tauto.
Qed.

Lemma pretty_one_line (n : N) : one_line (pretty n).
Proof. by apply pretty_avoids. Qed.

Lemma one_line_app s t : one_line (s +:+ t) ↔ one_line s ∧ one_line t.
Proof. unfold one_line. by rewrite contains_char_app, orb_false_iff. Qed.

(** The names of metrics and labels: no character of the syntax. *)
Definition plain_name (s : string) : bool :=
  forallb (λ c, negb (contains_char c s)) ["{"; " "; "="; line_feed]%char
  && negb (starts_with s "#") && negb (is_empty s).

Lemma plain_name_spec s :
  plain_name s = true →
  Forall (λ c, contains_char c s = false) ["{"; " "]%char ∧
  Forall (λ c, contains_char c s = false) ["="]%char ∧
  one_line s ∧ ∀ t, is_empty (s +:+ t) || starts_with (s +:+ t) "#" = false.
Proof.
  unfold plain_name. rewrite !andb_true_iff. simpl. rewrite !andb_true_iff, !negb_true_iff.
  intros [[(? & ? & ? & ? & _) Hh] He]. split_and!; try done; [by repeat constructor..|].
  destruct s as [|a s]; [done|]. intros t. apply orb_false_iff. split; [done|].
  apply not_true_iff_false. intros (u & Hu)%starts_with_spec.
  rewrite !append_cons in Hu. injection Hu as -> _.
  apply not_true_iff_false in Hh. apply Hh, starts_with_spec. by exists s.
Qed.

Lemma parse_plain_line name n :
  plain_name name = true → (n < u64_modulus)%N →
  parse_line (name +:+ " " +:+ pretty n) = Some (Some (plain name n)).
Proof.
  intros (H1 & _ & _ & Hne)%plain_name_spec Hn. unfold parse_line. rewrite Hne.
  rewrite append_cons, append_nil_l.
  rewrite span_until_app by (done || (right; by left)).
  rewrite strip_char_same, parse_u64_pretty by done. done.
Qed.

Lemma parse_labelled_line name label v n :
  plain_name name = true → plain_name label = true → one_line v → (n < u64_modulus)%N →
  parse_line (labelled_line name label (escape_label_value v) (pretty n))
  = Some (Some {| sm_name := name; sm_label := Some (label, v); sm_value := n |}).
Proof.
  intros (H1 & _ & _ & Hne)%plain_name_spec (_ & H2 & _ & _)%plain_name_spec Hv Hn.
  unfold parse_line, labelled_line. rewrite Hne.
  rewrite !append_cons, !append_nil_l.
  rewrite span_until_app by (done || by left).
  change (strip_char " " (String "{" ?s)) with (@None string).
  rewrite strip_char_same. cbn [mbind option_bind].
  rewrite span_until_app by (done || by left).
  rewrite strip_char_same. cbn [mbind option_bind]. rewrite strip_char_same. cbn [mbind option_bind].
  rewrite read_escaped, Hv. cbn [mbind option_bind].
  rewrite strip_char_same. cbn [mbind option_bind]. rewrite strip_char_same. cbn [mbind option_bind].
  by rewrite parse_u64_pretty.
Qed.

Lemma labelled_one_line name label v n :
  plain_name name = true → plain_name label = true → one_line v →
  one_line (labelled_line name label (escape_label_value v) (pretty (n : N))).
Proof.
  intros (_ & _ & H1 & _)%plain_name_spec (_ & _ & H2 & _)%plain_name_spec Hv.
  unfold labelled_line. rewrite !one_line_app. split_and!; try done.
  change (one_line (String dquote "" +:+ escape_label_value v +:+ String dquote ("} " +:+ pretty n))).
  rewrite !one_line_app. split_and!; [done|by apply escape_one_line|].
  change (one_line (String dquote "} " +:+ pretty n)). rewrite one_line_app.
  split; [done|apply pretty_one_line].
Qed.

(** ** Texts *)

(** The lines hold these samples, in this order. *)
Definition reads (lines : list string) (l : list Sample) : Prop :=
  Forall one_line lines ∧
  ∃ k, Forall2 (λ line o, parse_line line = Some o) lines k ∧ omap id k = l.

Lemma reads_nil : reads [] [].
Proof. split; [done|]. by exists []. Qed.

Lemma reads_app lines1 lines2 l1 l2 :
  reads lines1 l1 → reads lines2 l2 → reads (lines1 ++ lines2) (l1 ++ l2).
Proof.
  intros [H1 (k1 & Hk1 & <-)] [H2 (k2 & Hk2 & <-)]. split; [by apply Forall_app|].
  exists (k1 ++ k2). split; [by apply Forall2_app|apply omap_app].
Qed.

Lemma reads_comment line lines l :
  one_line line → parse_line line = Some None → reads lines l → reads (line :: lines) l.
Proof.
  intros Hl Hp [H (k & Hk & <-)]. split; [by constructor|].
  exists (None :: k). split; [by constructor|done].
Qed.

Lemma reads_plain name n lines l :
  plain_name name = true → (n < u64_modulus)%N → reads lines l →
  reads ((name +:+ " " +:+ pretty n) :: lines) (plain name n :: l).
Proof.
  intros Hname Hn [H (k & Hk & <-)]. split.
  - constructor; [|done]. rewrite !one_line_app.
    apply plain_name_spec in Hname as (_ & _ & ? & _). split_and!; [done|done|apply pretty_one_line].
  - exists (Some (plain name n) :: k). split; [|done].
    constructor; [by apply parse_plain_line|done].
Qed.

(** A family whose lines [f] writes, with the label and the value [g]. *)
Lemma reads_family {X} name label (f : X → string) (g : X → string * N) (xs : list X) :
  plain_name name = true → plain_name label = true →
  Forall (λ x, one_line (g x).1 ∧ (g x).2 < u64_modulus ∧
    f x = labelled_line name label (escape_label_value (g x).1) (pretty (g x).2))%N xs →
  reads (f <$> xs) (family name label (g <$> xs)).
Proof.
  intros Hname Hlabel. induction 1 as [|x xs (Hk & Hn & Hf) _ IH]; [apply reads_nil|].
  rewrite fmap_cons, Hf. apply (reads_app [_] _ [_] _); [|exact IH].
  split; [constructor; [by apply labelled_one_line|done]|].
  eexists [_]. split; [constructor; [by apply parse_labelled_line|done]|done].
Qed.

Lemma reads_parse lines l :
  reads lines l → parse_exposition (render_lines lines) = Some l.
Proof.
  intros [Hlines (k & Hk & <-)]. unfold parse_exposition. rewrite split_render_lines by done.
  assert (mapM parse_line (lines ++ [""]) = Some (k ++ [None])) as ->.
  { apply mapM_Some. apply Forall2_app; [done|]. by repeat constructor. }
  simpl. rewrite omap_app. by rewrite app_nil_r.
Qed.

Lemma escape_untouched v :
  contains_char dquote v = false → contains_char backslash v = false → escape_label_value v = v.
Proof.
  induction v as [|a v IH]; [done|]. simpl. intros Hq Hb.
  rewrite escape_label_value_cons. unfold escape_char.
  repeat case_decide; try done. rewrite append_cons, append_nil_l. by rewrite IH.
Qed.

(** What holds of the entries of a map holds of them in the order they are written in. *)
Lemma Forall_sorted_map {K A} `{Countable K} (R : K * A → K * A → Prop) `{!RelDecision R}
    (P : K * A → Prop) (m : gmap K A) :
  (∀ k a, m !! k = Some a → P (k, a)) → Forall P (merge_sort R (map_to_list m)).
Proof.
  intros Hm. rewrite merge_sort_Permutation. apply Forall_forall.
  intros [k a] Ha%elem_of_map_to_list. by apply Hm.
Qed.

Lemma render_reads statuses t :
  tele_typed t → labels_one_line statuses t →
  parse_exposition (render_prometheus statuses t) = Some (samples statuses t).
Proof.
  intros Ht Hl. apply reads_parse. unfold samples.
  repeat (apply reads_comment; [done|done|]).
  apply (reads_plain requests_total); [done|apply Ht|]. repeat (apply reads_comment; [done|done|]).
  apply (reads_plain duration_sum); [done|apply Ht|].
  apply (reads_plain duration_count); [done|apply Ht|]. repeat (apply reads_comment; [done|done|]).
  apply (reads_plain transitions_total); [done|apply Ht|].
  repeat (apply reads_comment; [done|done|]).
  apply reads_app.
  { rewrite <-(list_fmap_id (merge_sort _ (map_to_list (backend_failures t)))) at 2.
    apply (reads_family _ _ _ id); [done|done|].
    apply Forall_sorted_map. intros b n Hb. split_and!; [|by apply (typed_backend_failures _ Ht b n)|done].
    by apply (one_line_failures _ _ Hl b n). }
  cbn [app]. repeat (apply reads_comment; [done|done|]).
  apply reads_app.
  { apply reads_family; [done|done|]. eapply Forall_impl; [apply Hl|].
    intros [b h] Hb. split_and!; [done|by destruct h; vm_compute|].
    simpl. f_equal. destruct h; by vm_compute. }
  cbn [app]. repeat (apply reads_comment; [done|done|]).
  apply reads_app.
  { apply reads_family; [done|done|]. apply Forall_sorted_map. intros s n Hs.
    split_and!; [apply pretty_one_line|by apply (typed_statuses _ Ht s n)|].
    simpl. by rewrite escape_untouched by by apply pretty_avoids. }
  cbn [app]. repeat (apply reads_comment; [done|done|]).
  rewrite <-(list_fmap_id (merge_sort _ (map_to_list (proxy_errors t)))) at 2.
  apply (reads_family _ _ _ id); [done|done|].
  apply Forall_sorted_map. intros k n Hk. split_and!; [|by apply (typed_errors _ Ht k n)|done].
  by apply (one_line_errors _ _ Hl k n).
Qed.

(** ** Looking up samples *)

Lemma scraped_cons s l name label :
  scraped (s :: l) name label =
    if decide (sm_name s = name ∧ sm_label s = label) then Some (sm_value s)
    else scraped l name label.
Proof.
  unfold scraped. simpl. case_decide; [done|]. by destruct (list_find _ l) as [[i x]|].
Qed.

Lemma scraped_skip l1 l2 name label :
  Forall (λ s, sm_name s ≠ name) l1 → scraped (l1 ++ l2) name label = scraped l2 name label.
Proof.
  induction 1 as [|s l1 Hs _ IH]; [done|]. simpl. rewrite scraped_cons, decide_False; tauto.
Qed.

Lemma family_other name name' label entries :
  name' ≠ name → Forall (λ s, sm_name s ≠ name) (family name' label entries).
Proof. intros Hne. apply Forall_fmap, Forall_true. by intros. Qed.

(** The sample of the label [k] in a family, whatever comes after it. *)
Lemma scraped_family name label entries l k :
  Forall (λ s, sm_name s ≠ name) l →
  scraped (family name label entries ++ l) name (Some (label, k))
  = snd <$> (snd <$> list_find (λ e, e.1 = k) entries).
Proof.
  intros Hl. induction entries as [|[k' n] entries IH].
  - simpl. unfold scraped. induction Hl as [|s l Hs _ IH]; [done|]. simpl.
    rewrite decide_False by tauto. by destruct (list_find _ l) as [[]|].
  - simpl. rewrite scraped_cons. simpl. rewrite IH.
    destruct (decide (k' = k)) as [->|Hne].
    + by rewrite !decide_True.
    + rewrite !decide_False by naive_solver. by destruct (list_find _ entries) as [[]|].
Qed.

Lemma list_find_key {K A} `{EqDecision K} (l : list (K * A)) k a :
  NoDup l.*1 → (k, a) ∈ l → snd <$> (snd <$> list_find (λ e, e.1 = k) l) = Some a.
Proof.
  induction l as [|[k' a'] l IH]; [by intros _ ?%not_elem_of_nil|].
  rewrite fmap_cons, NoDup_cons. intros [Hk' Hnd] [[= -> ->]|Hin]%elem_of_cons; simpl.
  - by rewrite decide_True.
  - rewrite decide_False.
    + rewrite <-IH by done. by destruct (list_find _ l) as [[]|].
    + intros ->. apply Hk'. apply list_elem_of_fmap. by exists (k, a).
Qed.

Lemma list_find_no_key {K A} `{EqDecision K} (l : list (K * A)) k :
  k ∉ l.*1 → snd <$> (snd <$> list_find (λ e, e.1 = k) l) = None.
Proof.
  induction l as [|[k' a'] l IH]; [done|]. rewrite fmap_cons, not_elem_of_cons. simpl.
  intros [Hne Hk]. rewrite decide_False by congruence. specialize (IH Hk).
  by destruct (list_find _ l) as [[]|].
Qed.

(** The entries of a map under an injective renaming of the keys, in any order. *)
Lemma list_find_map {K A} `{Countable K} (f : K → string) `{!Inj (=) (=) f} (m : gmap K A)
    (l : list (K * A)) k :
  l ≡ₚ map_to_list m →
  snd <$> (snd <$> list_find (λ e, e.1 = f k) (prod_map f id <$> l)) = m !! k.
Proof.
  intros Hl.
  assert ((prod_map f (@id A) <$> l).*1 = f <$> l.*1) as Hkeys
    by by rewrite <-!list_fmap_compose.
  assert (NoDup (prod_map f (@id A) <$> l).*1) as Hnd.
  { rewrite Hkeys, Hl. apply NoDup_fmap; [done|]. apply NoDup_fst_map_to_list. }
  destruct (m !! k) as [a|] eqn:Hk.
  - apply list_find_key; [done|]. apply list_elem_of_fmap. exists (k, a). split; [done|].
    rewrite Hl. by apply elem_of_map_to_list.
  - apply list_find_no_key. rewrite Hkeys, Hl. intros (k' & Hf & Hin)%list_elem_of_fmap.
    apply (inj f) in Hf as <-. apply list_elem_of_fmap in Hin as ([k' a] & -> & Hin).
    apply elem_of_map_to_list in Hin. simpl in Hk. congruence.
Qed.

Lemma list_find_sorted {K A} `{Countable K} (R : K * A → K * A → Prop) `{!RelDecision R}
    (m : gmap K A) (f : K → string) `{!Inj (=) (=) f} k :
  snd <$> (snd <$> list_find (λ e, e.1 = f k) (prod_map f id <$> merge_sort R (map_to_list m)))
  = m !! k.
Proof. apply list_find_map; [done|]. apply merge_sort_Permutation. Qed.

Lemma prod_map_id {A B} (l : list (A * B)) : prod_map id id <$> l = l.
Proof. induction l as [|[a b] l IH]; [done|]. rewrite fmap_cons. f_equal. exact IH. Qed.

(** * The round trip *)

(** C15: the metrics survive the trip to a scraper.  Unless a name holds a line feed, the text
    parses, and every number of the telemetry and the state of every backend are read back
    from it under their own name and label, and nothing else is. *)
Theorem exposition_roundtrip statuses t :
  tele_typed t → labels_one_line statuses t → NoDup statuses.*1 →
  ∃ l, parse_exposition (render_prometheus statuses t) = Some l ∧
    scraped l requests_total None = Some (request_count t) ∧
    scraped l duration_sum None = Some (upstream_latency_total_micros t) ∧
    scraped l duration_count None = Some (upstream_latency_count t) ∧
    scraped l transitions_total None = Some (health_transitions_total t) ∧
    (∀ b, scraped l failures_total (Some ("backend", b)) = backend_failures t !! b) ∧
    (∀ b h, (b, h) ∈ statuses →
       scraped l backend_healthy (Some ("backend", b)) = Some (gauge h)) ∧
    (∀ s, scraped l responses_total (Some ("status_code", pretty s)) = response_statuses t !! s) ∧
    (∀ k, scraped l errors_total (Some ("kind", k)) = proxy_errors t !! k).
Proof.
  intros Ht Hl Hnd. exists (samples statuses t). split; [by apply render_reads|].
  unfold samples. split_and!; [done..| | | |]; intros k.
  - rewrite scraped_skip by by repeat constructor.
    rewrite scraped_family by by rewrite !Forall_app; split_and!; apply family_other.
    rewrite <-(prod_map_id (merge_sort _ _)). by apply (list_find_sorted key_le _ id).
  - intros h Hin. rewrite scraped_skip by by repeat constructor.
    rewrite scraped_skip by by apply family_other.
    rewrite scraped_family by by rewrite !Forall_app; split_and!; apply family_other.
    apply list_find_key.
    + rewrite <-list_fmap_compose. by rewrite (list_fmap_ext _ fst) by done.
    + apply list_elem_of_fmap. by exists (k, h).
  - rewrite scraped_skip by by repeat constructor.
    do 2 rewrite scraped_skip by by apply family_other.
    rewrite scraped_family by by apply family_other.
    by apply (list_find_sorted status_le _ pretty).
  - rewrite scraped_skip by by repeat constructor.
    do 3 rewrite scraped_skip by by apply family_other.
    rewrite <-(app_nil_r (family _ _ _)), scraped_family by done.
    rewrite <-(prod_map_id (merge_sort _ _)). by apply (list_find_sorted key_le _ id).
Qed.

(** A backend name with a quote and a backslash. *)
Definition odd_name : string := "http://a" +:+ String dquote (String backslash "b").
Definition odd_telemetry : Telemetry :=
  foldl tele_event (Telemetry_new [sample_route "/" [odd_name]])
    [EvRequest; EvBackendFailure odd_name; EvStatus 502; EvError "connect_failed"].

Lemma exposition_roundtrip_witness :
  ∃ l, parse_exposition (render_prometheus [(odd_name, false)] odd_telemetry) = Some l ∧
    scraped l requests_total None = Some 1%N ∧
    scraped l failures_total (Some ("backend", odd_name)) = Some 1%N ∧
    scraped l backend_healthy (Some ("backend", odd_name)) = Some 0%N.
Proof.
  destruct (exposition_roundtrip [(odd_name, false)] odd_telemetry)
    as (l & Hp & Hreq & _ & _ & _ & Hf & Hh & _).
  - apply tele_events_typed, Telemetry_new_typed.
  - split; [|by repeat constructor|];
      intros k n Hk%elem_of_map_to_list; vm_compute in Hk;
      by apply list_elem_of_singleton in Hk as [= -> ->].
  - by apply NoDup_singleton.
  - exists l. split; [exact Hp|]. split; [exact Hreq|]. rewrite Hf. split; [by vm_compute|].
    apply (Hh _ false). by left.
Defined.
