(* ===== verification/Health.v ===== *)
(** [src/health/mod.rs], the state: per-backend health with failure and recovery counters,
    ejection with a deadline and the half-open probing window.

    The manager and the telemetry it shares with the rest of the proxy
    ([Option<Arc<Telemetry>>]) are the two parts of the state [HealthState]; the option is
    the flag [has_telemetry].  A call runs at one instant [now].  The operations are those of
    one call running alone; calls that interleave inside are the subject of [HealthConc]. *)

From S2P Require Import Prelude RustStd Externals Config Telemetry.
From stdpp Require Import options.

(** * Data *)

Record BackendHealth := {
  healthy : bool;
  consecutive_failures : N;
  consecutive_successes : N;
  ejected_until : option Instant;
  probing : bool; (** true in the half-open window after an ejection expires *)
}.

Definition BackendHealth_healthy : BackendHealth := {|
  healthy := true; consecutive_failures := 0; consecutive_successes := 0;
  ejected_until := None; probing := false;
|}.

Definition set_healthy (b : bool) (st : BackendHealth) : BackendHealth :=
  {| healthy := b; consecutive_failures := consecutive_failures st;
     consecutive_successes := consecutive_successes st;
     ejected_until := ejected_until st; probing := probing st |}.
Definition set_failures (n : N) (st : BackendHealth) : BackendHealth :=
  {| healthy := healthy st; consecutive_failures := n;
     consecutive_successes := consecutive_successes st;
     ejected_until := ejected_until st; probing := probing st |}.
Definition set_successes (n : N) (st : BackendHealth) : BackendHealth :=
  {| healthy := healthy st; consecutive_failures := consecutive_failures st;
     consecutive_successes := n;
     ejected_until := ejected_until st; probing := probing st |}.
Definition set_ejected (u : option Instant) (st : BackendHealth) : BackendHealth :=
  {| healthy := healthy st; consecutive_failures := consecutive_failures st;
     consecutive_successes := consecutive_successes st;
     ejected_until := u; probing := probing st |}.
Definition set_probing (b : bool) (st : BackendHealth) : BackendHealth :=
  {| healthy := healthy st; consecutive_failures := consecutive_failures st;
     consecutive_successes := consecutive_successes st;
     ejected_until := ejected_until st; probing := b |}.

Record HealthManager := {
  backend_health : gmap string BackendHealth;
  has_telemetry : bool;
  failure_threshold : N;
  recovery_threshold : N;
  ejection_duration : Duration;
  active_success_status_min : N;
  active_success_status_max : N;
  passive_failure_status_min : N;
  passive_failure_status_max : N;
}.

Definition set_backend_health (bh : gmap string BackendHealth) (m : HealthManager)
    : HealthManager := {|
  backend_health := bh;
  has_telemetry := has_telemetry m;
  failure_threshold := failure_threshold m;
  recovery_threshold := recovery_threshold m;
  ejection_duration := ejection_duration m;
  active_success_status_min := active_success_status_min m;
  active_success_status_max := active_success_status_max m;
  passive_failure_status_min := passive_failure_status_min m;
  passive_failure_status_max := passive_failure_status_max m;
|}.
Definition put_backend (backend : string) (st : BackendHealth) (m : HealthManager)
    : HealthManager :=
  set_backend_health (<[backend := st]> (backend_health m)) m.

Definition HealthState : Type := HealthManager * Telemetry.

(** * Operations *)

Definition HealthManager_with_telemetry (routes : list RouteConfig)
    (failure_threshold recovery_threshold : N) (ejection_duration : Duration)
    (active_min active_max passive_min passive_max : N) (telemetry : bool)
    : HealthManager := {|
  backend_health := foldl (or_insert BackendHealth_healthy) ∅ (routes ≫= rt_backends);
  has_telemetry := telemetry;
  failure_threshold := failure_threshold;
  recovery_threshold := recovery_threshold;
  ejection_duration := ejection_duration;
  active_success_status_min := active_min;
  active_success_status_max := active_max;
  passive_failure_status_min := passive_min;
  passive_failure_status_max := passive_max;
|}.

(** [HealthManager::new], the defaults the tests use *)
Definition HealthManager_new (routes : list RouteConfig) : HealthManager :=
  HealthManager_with_telemetry routes 3 2 (from_secs 30) 200 399 500 599 false.

Definition is_backend_probing (backend : string) (m : HealthManager) : bool :=
  match backend_health m !! backend with Some s => probing s | None => false end.

Definition is_backend_healthy (backend : string) (m : HealthManager) : bool :=
  match backend_health m !! backend with Some s => healthy s | None => false end.

Definition record_transition (backend from to reason : string) (s : HealthState)
    : HealthState :=
  let (m, t) := s in
  (m, if has_telemetry m then record_health_transition backend from to reason t else t).

Definition eject_backend (backend : string) (now : Instant) (m : HealthManager)
    : HealthManager :=
  match backend_health m !! backend with
  | Some state => put_backend backend (set_ejected (Some (now + ejection_duration m)%N) state) m
  | None => m
  end.

(** The side effect: an expired ejection is cleared and the probing window opens. *)
Definition is_backend_ejected (backend : string) (now : Instant) (m : HealthManager)
    : bool * HealthManager :=
  match backend_health m !! backend with
  | None => (false, m)
  | Some state =>
      match ejected_until state with
      | Some until =>
          if decide (now < until)%N then (true, m)
          else (false, put_backend backend (set_probing true (set_ejected None state)) m)
      | None => (false, m)
      end
  end.

(** [backends.iter().filter(...).collect()], with the effects of the closure in order *)
Fixpoint filter_healthy (now : Instant) (backends : list string) (m : HealthManager)
    : list string * HealthManager :=
  match backends with
  | [] => ([], m)
  | backend :: backends =>
      let (ejected, m) := is_backend_ejected backend now m in
      let keep := negb ejected && (is_backend_healthy backend m || is_backend_probing backend m) in
      let (rest, m) := filter_healthy now backends m in
      (if keep then backend :: rest else rest, m)
  end.
Definition healthy_backends (route : RouteConfig) (now : Instant) (m : HealthManager)
    : list string * HealthManager :=
  filter_healthy now (rt_backends route) m.

(** The closure of [backend_statuses] over the entries of the map; the order of the map is
    unspecified, and the sort makes the result independent of it. *)
Fixpoint statuses_of (now : Instant) (backends : list string) (m : HealthManager)
    : list (string * bool) * HealthManager :=
  match backends with
  | [] => ([], m)
  | backend :: backends =>
      let (ejected, m) := is_backend_ejected backend now m in
      let healthy := is_backend_healthy backend m && negb ejected in
      let probing := is_backend_probing backend m && negb ejected in
      let (rest, m) := statuses_of now backends m in
      ((backend, healthy || probing) :: rest, m)
  end.
Definition backend_statuses (now : Instant) (m : HealthManager)
    : list (string * bool) * HealthManager :=
  let (statuses, m) := statuses_of now (map_to_list (backend_health m)).*1 m in
  (merge_sort key_le statuses, m).

Definition record_success (backend : string) (s : HealthState) : HealthState :=
  let (m, t) := s in
  match backend_health m !! backend with
  | None => (m, t)
  | Some state =>
      let state := set_failures 0 state in
      if probing state then
        let state := set_successes 0 (set_healthy true (set_probing false state)) in
        record_transition backend "probing" "healthy" "probe_succeeded"
          (put_backend backend state m, t)
      else
        let successes := u64_add (consecutive_successes state) 1 in
        let state := set_successes successes state in
        if negb (healthy state) && bool_decide (recovery_threshold m ≤ successes)%N then
          let state := set_successes 0 (set_healthy true state) in
          record_transition backend "unhealthy" "healthy" "success_threshold"
            (put_backend backend state m, t)
        else (put_backend backend state m, t)
  end.

Definition record_failure (backend : string) (now : Instant) (s : HealthState) : HealthState :=
  let (m, t) := s in
  match backend_health m !! backend with
  | None => (m, t)
  | Some state =>
      let state := set_successes 0 state in
      let t := if has_telemetry m then record_backend_failure backend t else t in
      if probing state then
        let m := eject_backend backend now (put_backend backend (set_probing false state) m) in
        record_transition backend "probing" "ejected" "probe_failed" (m, t)
      else
        let failures := u64_add (consecutive_failures state) 1 in
        let state := set_failures failures state in
        if healthy state && bool_decide (failure_threshold m ≤ failures)%N then
          let state := set_failures 0 (set_healthy false state) in
          let m := eject_backend backend now (put_backend backend state m) in
          record_transition backend "healthy" "unhealthy" "failure_threshold" (m, t)
        else (put_backend backend state m, t)
  end.

(** [routes.iter().filter(|route| self.healthy_backends(route).is_empty()).map(...)] *)
Fixpoint startup_dead_pools (routes : list RouteConfig) (now : Instant) (m : HealthManager)
    : list string * HealthManager :=
  match routes with
  | [] => ([], m)
  | route :: routes =>
      let (alive, m) := healthy_backends route now m in
      let (rest, m) := startup_dead_pools routes now m in
      (if bool_decide (alive = []) then rt_path_prefix route :: rest else rest, m)
  end.

Definition is_passive_failure_status (status : N) (m : HealthManager) : bool :=
  bool_decide (passive_failure_status_min m ≤ status)%N
  && bool_decide (status ≤ passive_failure_status_max m)%N.

Definition is_active_success_status (status : N) (m : HealthManager) : bool :=
  bool_decide (active_success_status_min m ≤ status)%N
  && bool_decide (status ≤ active_success_status_max m)%N.

(** * Events and well-formedness *)

(** What the rest of the proxy does to the health of a backend. *)
Inductive HealthEvent :=
  | HSuccess (backend : string)
  | HFailure (backend : string) (now : Instant)
  | HObserve (backend : string) (now : Instant).

Definition event_backend (e : HealthEvent) : string :=
  match e with HSuccess b | HFailure b _ | HObserve b _ => b end.

Definition observe (backend : string) (now : Instant) (s : HealthState) : HealthState :=
  ((is_backend_ejected backend now s.1).2, s.2).

Definition health_step (s : HealthState) (e : HealthEvent) : HealthState :=
  match e with
  | HSuccess b => record_success b s
  | HFailure b now => record_failure b now s
  | HObserve b now => observe b now s
  end.

(** The public operations on the health of the backends, and what they do to its state. *)
Inductive HealthOp :=
  | OpSuccess (backend : string)
  | OpFailure (backend : string) (now : Instant)
  | OpHealthyBackends (route : RouteConfig) (now : Instant)
  | OpStatuses (now : Instant)
  | OpDeadPools (routes : list RouteConfig) (now : Instant).

Definition op_step (s : HealthState) (op : HealthOp) : HealthState :=
  match op with
  | OpSuccess b => record_success b s
  | OpFailure b now => record_failure b now s
  | OpHealthyBackends route now => ((healthy_backends route now s.1).2, s.2)
  | OpStatuses now => ((backend_statuses now s.1).2, s.2)
  | OpDeadPools routes now => ((startup_dead_pools routes now s.1).2, s.2)
  end.

(** A backend is never both ejected and probing, an unhealthy one is ejected or probing, and
    each counter stays below the threshold that would act on it. *)
Record bh_wf (ft rt : N) (st : BackendHealth) : Prop := {
  wf_exclusive : is_Some (ejected_until st) → probing st = false;
  wf_unhealthy : healthy st = false → is_Some (ejected_until st) ∨ probing st = true;
  wf_failures : healthy st = true → (consecutive_failures st < ft)%N;
  wf_successes : healthy st = false → (consecutive_successes st < rt)%N;
}.

Record hm_wf (m : HealthManager) : Prop := {
  hm_failure_pos : (0 < failure_threshold m)%N;
  hm_recovery_pos : (0 < recovery_threshold m)%N;
  hm_backends : map_Forall (λ _, bh_wf (failure_threshold m) (recovery_threshold m))
                  (backend_health m);
}.

(** * The specification: a circuit breaker per backend *)

Inductive Breaker :=
  | Closed (failures : N)
  | Open (until : Instant)
  | HalfOpen.

(** One step of the breaker with failure threshold [ft] and ejection time [d].  A backend
    that recovers by active checks while it is open can be tripped again before the
    deadline, which moves the deadline. *)
Inductive breaker_step (ft : N) (d : Duration) : HealthEvent → Breaker → Breaker → Prop :=
  | step_success_closed b f : breaker_step ft d (HSuccess b) (Closed f) (Closed 0)
  | step_success_probe b : breaker_step ft d (HSuccess b) HalfOpen (Closed 0)
  | step_success_open b u : breaker_step ft d (HSuccess b) (Open u) (Open u)
  | step_failure_count b now f :
      (f + 1 < ft)%N → breaker_step ft d (HFailure b now) (Closed f) (Closed (f + 1))
  | step_failure_trip b now f :
      (ft ≤ f + 1)%N → breaker_step ft d (HFailure b now) (Closed f) (Open (now + d))
  | step_failure_probe b now : breaker_step ft d (HFailure b now) HalfOpen (Open (now + d))
  | step_failure_open b now u : breaker_step ft d (HFailure b now) (Open u) (Open u)
  | step_failure_reopen b now u : breaker_step ft d (HFailure b now) (Open u) (Open (now + d))
  | step_observe_expired b now u :
      (u ≤ now)%N → breaker_step ft d (HObserve b now) (Open u) HalfOpen
  | step_observe_open b now u :
      (now < u)%N → breaker_step ft d (HObserve b now) (Open u) (Open u)
  | step_observe_closed b now f : breaker_step ft d (HObserve b now) (Closed f) (Closed f)
  | step_observe_half b now : breaker_step ft d (HObserve b now) HalfOpen HalfOpen.

(** The abstraction function. *)
Definition breaker_of (st : BackendHealth) : Breaker :=
  match ejected_until st with
  | Some until => Open until
  | None => if probing st then HalfOpen else Closed (consecutive_failures st)
  end.
Definition breaker (m : HealthManager) (backend : string) : option Breaker :=
  breaker_of <$> backend_health m !! backend.

(** The breaker lets requests through at [now]. *)
Definition admits (now : Instant) (b : Breaker) : bool :=
  match b with Open until => bool_decide (until ≤ now)%N | _ => true end.
Definition admitted (now : Instant) (m : HealthManager) (backend : string) : bool :=
  match breaker m backend with Some b => admits now b | None => false end.

(** * Lemmas: the effect of an event on one backend *)

Definition success_state (rt : N) (st : BackendHealth) : BackendHealth :=
  if probing st then
    {| healthy := true; consecutive_failures := 0; consecutive_successes := 0;
       ejected_until := ejected_until st; probing := false |}
  else if negb (healthy st) && bool_decide (rt ≤ u64_add (consecutive_successes st) 1)%N then
    {| healthy := true; consecutive_failures := 0; consecutive_successes := 0;
       ejected_until := ejected_until st; probing := false |}
  else
    {| healthy := healthy st; consecutive_failures := 0;
       consecutive_successes := u64_add (consecutive_successes st) 1;
       ejected_until := ejected_until st; probing := false |}.

Definition failure_state (ft : N) (d : Duration) (now : Instant) (st : BackendHealth)
    : BackendHealth :=
  if probing st then
    {| healthy := healthy st; consecutive_failures := consecutive_failures st;
       consecutive_successes := 0; ejected_until := Some (now + d)%N; probing := false |}
  else if healthy st && bool_decide (ft ≤ u64_add (consecutive_failures st) 1)%N then
    {| healthy := false; consecutive_failures := 0; consecutive_successes := 0;
       ejected_until := Some (now + d)%N; probing := false |}
  else
    {| healthy := healthy st; consecutive_failures := u64_add (consecutive_failures st) 1;
       consecutive_successes := 0; ejected_until := ejected_until st; probing := false |}.

Definition observe_state (now : Instant) (st : BackendHealth) : BackendHealth :=
  match ejected_until st with
  | Some until => if decide (now < until)%N then st else set_probing true (set_ejected None st)
  | None => st
  end.

Definition event_state (m : HealthManager) (e : HealthEvent) (st : BackendHealth)
    : BackendHealth :=
  match e with
  | HSuccess _ => success_state (recovery_threshold m) st
  | HFailure _ now => failure_state (failure_threshold m) (ejection_duration m) now st
  | HObserve _ now => observe_state now st
  end.

Lemma put_backend_twice b st1 st2 m :
  put_backend b st2 (put_backend b st1 m) = put_backend b st2 m.
Proof. unfold put_backend, set_backend_health. simpl. by rewrite insert_insert_eq. Qed.

Lemma put_backend_id b st m : backend_health m !! b = Some st → put_backend b st m = m.
Proof.
  intros. unfold put_backend, set_backend_health. rewrite insert_id by done. by destruct m.
Qed.

Lemma eject_put b now st m :
  eject_backend b now (put_backend b st m)
  = put_backend b (set_ejected (Some (now + ejection_duration m)%N) st) m.
Proof.
  unfold eject_backend. simpl. rewrite lookup_insert_eq. apply put_backend_twice.
Qed.

(** Every event is the update of one backend by a function of its own state. *)
Lemma health_step_manager s e :
  (health_step s e).1 =
    match backend_health s.1 !! event_backend e with
    | Some st => put_backend (event_backend e) (event_state s.1 e st) s.1
    | None => s.1
    end.
Proof.
  destruct s as [m t], e as [b|b now|b now]; simpl.
  - unfold record_success, success_state. destruct (backend_health m !! b) as [st|]; [|done].
    simpl. destruct (probing st) eqn:Hp; [done|].
    case_match; simpl; unfold set_successes, set_failures, set_healthy; simpl; by rewrite ?Hp.
  - unfold record_failure, failure_state. destruct (backend_health m !! b) as [st|]; [|done].
    simpl. destruct (probing st) eqn:Hp; [by rewrite eject_put|].
    case_match; simpl; rewrite ?eject_put;
      unfold set_ejected, set_successes, set_failures, set_healthy; simpl; by rewrite ?Hp.
  - unfold is_backend_ejected, observe_state.
    destruct (backend_health m !! b) as [st|] eqn:Hb; [|done].
    destruct (ejected_until st); [case_decide|]; simpl; try done; by rewrite put_backend_id.
Qed.

Lemma bh_wf_healthy ft rt : (0 < ft)%N → bh_wf ft rt BackendHealth_healthy.
Proof. intros. by split. Qed.

(** A well-formedness goal: its four conditions follow from those in the context. *)
Ltac wf_solver := split; simpl; intros; first [done | lia | naive_solver].

Lemma event_state_wf m e st :
  (0 < failure_threshold m)%N → (0 < recovery_threshold m)%N →
  bh_wf (failure_threshold m) (recovery_threshold m) st →
  bh_wf (failure_threshold m) (recovery_threshold m) (event_state m e st).
Proof.
  intros Hft Hrt [He Hu Hf Hs]. destruct e; simpl;
    unfold success_state, failure_state, observe_state.
  - destruct (probing st) eqn:Hp; [by split|].
    destruct (healthy st) eqn:Hh; simpl; [wf_solver|].
    case_bool_decide; wf_solver.
  - destruct (probing st) eqn:Hp; [wf_solver|].
    destruct (healthy st) eqn:Hh; simpl; [|wf_solver].
    case_bool_decide; wf_solver.
  - destruct (ejected_until st) as [u|] eqn:Hj; [case_decide|]; split; simpl; rewrite ?Hj;
      naive_solver.
Qed.

Lemma health_step_limits s e : (health_step s e).1 =
  set_backend_health (backend_health (health_step s e).1) s.1.
Proof.
  rewrite health_step_manager. destruct (backend_health s.1 !! _); [done|].
  by destruct s as [[] t].
Qed.

Lemma health_step_lookup s e b :
  backend_health (health_step s e).1 !! b =
    if decide (event_backend e = b) then event_state s.1 e <$> backend_health s.1 !! b
    else backend_health s.1 !! b.
Proof.
  rewrite health_step_manager. destruct (backend_health s.1 !! event_backend e) eqn:Hb; simpl.
  - rewrite lookup_insert. case_decide; subst; [by rewrite Hb|done].
  - case_decide; subst; by rewrite ?Hb.
Qed.

Lemma health_step_wf s e : hm_wf s.1 → hm_wf (health_step s e).1.
Proof.
  intros [Hft Hrt Hall]. rewrite health_step_limits. split; simpl; [done..|].
  intros b st. rewrite health_step_lookup. case_decide; [|apply Hall].
  intros (st0 & Hst0 & ->)%fmap_Some. apply event_state_wf; [done..|]. by eapply Hall.
Qed.

(** ** Refinement, for one backend *)
Lemma event_state_refines m e st :
  (failure_threshold m < u64_modulus)%N →
  bh_wf (failure_threshold m) (recovery_threshold m) st →
  breaker_step (failure_threshold m) (ejection_duration m) e
    (breaker_of st) (breaker_of (event_state m e st)).
Proof.
  intros Hmax [He Hu Hf Hs]. unfold breaker_of.
  destruct e; simpl; unfold success_state, failure_state, observe_state.
  - destruct (ejected_until st) as [u|] eqn:Hj.
    + rewrite He by done. destruct (_ && _); simpl; rewrite ?Hj; constructor.
    + destruct (probing st) eqn:Hp; simpl; rewrite ?Hj; [constructor|].
      destruct (_ && _); simpl; rewrite ?Hj; constructor.
  - destruct (ejected_until st) as [u|] eqn:Hj.
    + rewrite He by done. destruct (_ && _); simpl; rewrite ?Hj; constructor.
    + destruct (probing st) eqn:Hp; simpl; rewrite ?Hj; [constructor|].
      destruct (healthy st) eqn:Hh; [|naive_solver].
      specialize (Hf eq_refl). rewrite u64_add_small by lia. simpl.
      case_bool_decide; simpl; rewrite ?Hj; constructor; lia.
  - destruct (ejected_until st) as [u|] eqn:Hj.
    + case_decide; simpl; rewrite ?Hj; constructor; lia.
    + rewrite ?Hj. destruct (probing st); constructor.
Qed.

(** ** Observation: [is_backend_ejected] and the loops that call it *)

Definition observe_manager (now : Instant) (m : HealthManager) (backend : string)
    : HealthManager := (is_backend_ejected backend now m).2.

Lemma observe_manager_step now m t b :
  observe_manager now m b = (health_step (m, t) (HObserve b now)).1.
Proof. done. Qed.

Lemma observe_manager_lookup now m b b' :
  backend_health (observe_manager now m b) !! b' =
    if decide (b = b') then observe_state now <$> backend_health m !! b'
    else backend_health m !! b'.
Proof.
  rewrite (observe_manager_step now m (Telemetry_new []) b). apply health_step_lookup.
Qed.

Lemma observe_manager_wf now m b : hm_wf m → hm_wf (observe_manager now m b).
Proof.
  intros. rewrite (observe_manager_step now m (Telemetry_new []) b). by apply health_step_wf.
Qed.

Lemma observe_state_idemp now st : observe_state now (observe_state now st) = observe_state now st.
Proof.
  unfold observe_state. destruct (ejected_until st) as [u|] eqn:Hu; [|by rewrite Hu].
  case_decide; [by rewrite Hu, decide_True|done].
Qed.

Lemma admits_observe now st :
  admits now (breaker_of (observe_state now st)) = admits now (breaker_of st).
Proof.
  unfold breaker_of, observe_state. destruct (ejected_until st) as [u|] eqn:Hu; [|by rewrite Hu].
  case_decide; simpl; rewrite ?Hu; [done|]. symmetry. apply bool_decide_eq_true_2. lia.
Qed.

Lemma admitted_observe now m b b' :
  admitted now (observe_manager now m b) b' = admitted now m b'.
Proof.
  unfold admitted, breaker. rewrite observe_manager_lookup. case_decide; [|done].
  destruct (backend_health m !! b'); simpl; [apply admits_observe|done].
Qed.

(** The condition of the [filter] closure: not ejected, and healthy or probing. *)
Lemma is_backend_ejected_admitted b now m :
  hm_wf m →
  let (ejected, m') := is_backend_ejected b now m in
  negb ejected && (is_backend_healthy b m' || is_backend_probing b m') = admitted now m b.
Proof.
  intros [_ _ Hall]. unfold is_backend_ejected, admitted, breaker, breaker_of.
  destruct (backend_health m !! b) as [st|] eqn:Hb.
  2: { unfold is_backend_healthy, is_backend_probing. by rewrite Hb. }
  destruct (Hall b st Hb) as [He Hu _ _]. simpl.
  destruct (ejected_until st) as [u|] eqn:Hu'; [case_decide|];
    unfold is_backend_healthy, is_backend_probing; simpl; rewrite ?lookup_insert_eq, ?Hb; simpl.
  - symmetry. apply bool_decide_eq_false_2. lia.
  - rewrite orb_true_r. symmetry. apply bool_decide_eq_true_2. lia.
  - destruct (healthy st), (probing st); try done. destruct Hu as [[? ?]|?]; done.
Qed.

Lemma filter_healthy_spec now bs m :
  hm_wf m →
  (filter_healthy now bs m).1 = filter (λ b, admitted now m b = true) bs ∧
  (filter_healthy now bs m).2 = foldl (observe_manager now) m bs.
Proof.
  revert m. induction bs as [|b bs IH]; intros m Hwf; [done|].
  pose proof (is_backend_ejected_admitted b now m Hwf) as Hadm.
  pose proof (observe_manager_wf now m b Hwf) as Hwf'.
  assert (∀ b', admitted now (observe_manager now m b) b' = admitted now m b') as Hobs
    by (intros; apply admitted_observe).
  unfold observe_manager in Hwf', Hobs.
  cbn [filter_healthy foldl]. unfold observe_manager at 2.
  destruct (is_backend_ejected b now m) as [e m'] eqn:Ho. cbn [snd] in *.
  destruct (IH m' Hwf') as [IH1 IH2].
  destruct (filter_healthy now bs m') as [rest m'']. cbn [fst snd] in *.
  rewrite Hadm. split; [|done]. rewrite filter_cons, IH1.
  rewrite (list_filter_iff _ (λ b, admitted now m b = true) bs) by (intros; by rewrite Hobs).
  by destruct (admitted now m b).
Qed.

Lemma observe_all_wf now bs m : hm_wf m → hm_wf (foldl (observe_manager now) m bs).
Proof. intros. apply foldl_preserves; [|done]. intros. by apply observe_manager_wf. Qed.

Lemma observe_all_admitted now bs m b :
  admitted now (foldl (observe_manager now) m bs) b = admitted now m b.
Proof.
  revert m. induction bs as [|b' bs IH]; intros m; [done|]. simpl.
  by rewrite IH, admitted_observe.
Qed.

Lemma observe_all_lookup now bs m b :
  backend_health (foldl (observe_manager now) m bs) !! b =
    if decide (b ∈ bs) then observe_state now <$> backend_health m !! b
    else backend_health m !! b.
Proof.
  revert m. induction bs as [|b' bs IH]; intros m; cbn [foldl].
  { by rewrite decide_False by apply not_elem_of_nil. }
  rewrite IH, observe_manager_lookup. pose proof (elem_of_cons bs b b') as Hiff.
  repeat case_decide; subst; try done; try naive_solver.
  destruct (backend_health m !! _); simpl; by rewrite ?observe_state_idemp.
Qed.

Lemma statuses_of_spec now bs m :
  hm_wf m →
  (statuses_of now bs m).1 = (λ b, (b, admitted now m b)) <$> bs ∧
  (statuses_of now bs m).2 = foldl (observe_manager now) m bs.
Proof.
  revert m. induction bs as [|b bs IH]; intros m Hwf; [done|].
  pose proof (is_backend_ejected_admitted b now m Hwf) as Hadm.
  pose proof (observe_manager_wf now m b Hwf) as Hwf'.
  assert (∀ b', admitted now (observe_manager now m b) b' = admitted now m b') as Hobs
    by (intros; apply admitted_observe).
  unfold observe_manager in Hwf', Hobs.
  cbn [statuses_of foldl]. unfold observe_manager at 2.
  destruct (is_backend_ejected b now m) as [e m'] eqn:Ho. cbn [snd] in *.
  destruct (IH m' Hwf') as [IH1 IH2].
  destruct (statuses_of now bs m') as [rest m'']. cbn [fst snd] in *.
  split; [|done]. rewrite fmap_cons, <-Hadm, IH1. setoid_rewrite Hobs.
  f_equal. f_equal. by destruct e, (is_backend_healthy b m'), (is_backend_probing b m').
Qed.

Lemma startup_dead_pools_spec now routes m :
  hm_wf m →
  (startup_dead_pools routes now m).1 =
    rt_path_prefix <$> filter (λ r, filter (λ b, admitted now m b = true) (rt_backends r) = []) routes
  ∧ (startup_dead_pools routes now m).2
    = foldl (observe_manager now) m (routes ≫= rt_backends).
Proof.
  revert m. induction routes as [|r routes IH]; intros m Hwf; [done|].
  cbn [startup_dead_pools]. unfold healthy_backends.
  destruct (filter_healthy_spec now (rt_backends r) m Hwf) as [Halive Hm'].
  destruct (filter_healthy now (rt_backends r) m) as [alive m'] eqn:Hf. cbn [fst snd] in *.
  assert (hm_wf m') as Hwf' by (subst m'; by apply observe_all_wf).
  destruct (IH m' Hwf') as [IH1 IH2].
  destruct (startup_dead_pools routes now m') as [rest m'']. cbn [fst snd] in *.
  rewrite filter_cons, bind_cons, foldl_app, <-Hm', <-Halive. split; [|done].
  assert (∀ bs : list string, filter (λ b, admitted now m' b = true) bs = filter (λ b, admitted now m b = true) bs)
    as Hobs.
  { intros bs. apply list_filter_iff. intros b. by rewrite Hm', observe_all_admitted. }
  rewrite IH1, (list_filter_iff _
    (λ r, filter (λ b, admitted now m b = true) (rt_backends r) = []) routes)
    by (intros; by rewrite Hobs).
  case_bool_decide; case_decide; try done.
Qed.

(** Every operation is a sequence of events. *)
Definition op_events (s : HealthState) (op : HealthOp) : list HealthEvent :=
  match op with
  | OpSuccess b => [HSuccess b]
  | OpFailure b now => [HFailure b now]
  | OpHealthyBackends route now => (λ b, HObserve b now) <$> rt_backends route
  | OpStatuses now => (λ b, HObserve b now) <$> (map_to_list (backend_health s.1)).*1
  | OpDeadPools routes now => (λ b, HObserve b now) <$> (routes ≫= rt_backends)
  end.

Lemma foldl_observe now bs s :
  foldl health_step s ((λ b, HObserve b now) <$> bs) = (foldl (observe_manager now) s.1 bs, s.2).
Proof.
  revert s. induction bs as [|b bs IH]; intros [m t]; [done|]. simpl. by rewrite IH.
Qed.

Lemma op_step_events s op : hm_wf s.1 → op_step s op = foldl health_step s (op_events s op).
Proof.
  intros Hwf. destruct op as [b|b now|r now|now|rs now]; try done; cbn [op_step op_events];
    rewrite foldl_observe; f_equal.
  - by apply filter_healthy_spec.
  - unfold backend_statuses. rewrite <-(proj2 (statuses_of_spec now _ _ Hwf)).
    by destruct (statuses_of _ _ _).
  - by apply startup_dead_pools_spec.
Qed.

Lemma health_steps_wf s es : hm_wf s.1 → hm_wf (foldl health_step s es).1.
Proof. apply (foldl_preserves (λ s, hm_wf s.1)). intros. by apply health_step_wf. Qed.

Lemma op_steps_wf s ops : hm_wf s.1 → hm_wf (foldl op_step s ops).1.
Proof.
  apply (foldl_preserves (λ s, hm_wf s.1)). intros s' op Hwf.
  rewrite op_step_events by done. by apply health_steps_wf.
Qed.

Lemma with_telemetry_wf routes ft rt d a1 a2 p1 p2 tele :
  (0 < ft)%N → (0 < rt)%N →
  hm_wf (HealthManager_with_telemetry routes ft rt d a1 a2 p1 p2 tele).
Proof.
  intros Hft Hrt. split; simpl; [done..|]. intros b st.
  rewrite foldl_or_insert_lookup. case_decide; [|done]. intros [= <-]. by apply bh_wf_healthy.
Qed.

Lemma health_step_refines s e b :
  hm_wf s.1 → (failure_threshold s.1 < u64_modulus)%N →
  match breaker s.1 b, breaker (health_step s e).1 b with
  | Some x, Some y =>
      if decide (event_backend e = b)
      then breaker_step (failure_threshold s.1) (ejection_duration s.1) e x y else x = y
  | None, None => True
  | _, _ => False
  end.
Proof.
  intros [_ _ Hall] Hmax. unfold breaker. rewrite health_step_lookup.
  destruct (backend_health s.1 !! b) as [st|] eqn:Hb; simpl; [|by case_decide].
  case_decide; simpl; [|done]. apply event_state_refines; [done|]. by eapply Hall.
Qed.

Lemma record_failure_closed b now s f :
  hm_wf s.1 → (failure_threshold s.1 < u64_modulus)%N → breaker s.1 b = Some (Closed f) →
  breaker (record_failure b now s).1 b =
    Some (if decide (f + 1 < failure_threshold s.1)%N then Closed (f + 1)
          else Open (now + ejection_duration s.1)).
Proof.
  intros Hwf Hmax Hb. pose proof (health_step_refines s (HFailure b now) b Hwf Hmax) as Hr.
  rewrite Hb in Hr. cbn [health_step event_backend] in Hr.
  destruct (breaker (record_failure b now s).1 b) as [y|]; [|done].
  rewrite decide_True in Hr by done.
  inv Hr; case_decide; first [done|lia].
Qed.

Lemma health_step_thresholds s e :
  failure_threshold (health_step s e).1 = failure_threshold s.1 ∧
  ejection_duration (health_step s e).1 = ejection_duration s.1.
Proof. by rewrite health_step_limits. Qed.

(** Failures below the threshold are counted. *)
Lemma record_failures_closed b s f ts :
  hm_wf s.1 → (failure_threshold s.1 < u64_modulus)%N → breaker s.1 b = Some (Closed f) →
  (f + N.of_nat (length ts) < failure_threshold s.1)%N →
  let s' := foldl (λ s now, record_failure b now s) s ts in
  hm_wf s'.1 ∧ breaker s'.1 b = Some (Closed (f + N.of_nat (length ts))) ∧
  failure_threshold s'.1 = failure_threshold s.1 ∧
  ejection_duration s'.1 = ejection_duration s.1.
Proof.
  revert s f. induction ts as [|t ts IH]; intros s f Hwf Hmax Hb Hlt; simpl.
  { by rewrite N.add_0_r. }
  simpl in Hlt. destruct (health_step_thresholds s (HFailure b t)) as [Hft Hd].
  cbn [health_step] in Hft, Hd.
  assert (hm_wf (record_failure b t s).1) as Hwf1 by (by apply (health_step_wf s (HFailure b t))).
  assert (breaker (record_failure b t s).1 b = Some (Closed (f + 1))) as Hb1
    by (rewrite (record_failure_closed b t s f) by done; by rewrite decide_True by lia).
  destruct (IH (record_failure b t s) (f + 1)%N Hwf1 ltac:(by rewrite Hft) Hb1
    ltac:(rewrite Hft; lia)) as (Hwf' & Hb' & Hft' & Hd').
  rewrite Hb', Hft', Hd', Hft, Hd. split; [done|]. split; [|done].
  f_equal. f_equal. lia.
Qed.

(** ** The deadline of every ejection *)
Definition failures_until (T : Instant) (e : HealthEvent) : Prop :=
  match e with HFailure _ now => (now ≤ T)%N | _ => True end.
Definition ejections_until (T : Instant) (m : HealthManager) : Prop :=
  map_Forall (λ _ st, ∀ u, ejected_until st = Some u → (u ≤ T)%N) (backend_health m).

Lemma ejections_until_step T s e :
  failures_until T e → ejections_until (T + ejection_duration s.1) s.1 →
  ejections_until (T + ejection_duration s.1) (health_step s e).1.
Proof.
  intros He Hall b st'. rewrite health_step_lookup. case_decide; [|apply Hall].
  intros (st & Hst & ->)%fmap_Some u. specialize (Hall b st Hst).
  destruct e as [b'|b' now|b' now]; simpl in *;
    unfold success_state, failure_state, observe_state.
  - repeat case_match; simpl; eauto.
  - repeat case_match; simpl; eauto; intros [= <-]; lia.
  - destruct (ejected_until st) eqn:Hj; [case_decide|]; simpl; rewrite ?Hj; eauto; done.
Qed.

Lemma ejections_until_steps T s es :
  Forall (failures_until T) es → ejections_until (T + ejection_duration s.1) s.1 →
  ejections_until (T + ejection_duration s.1) (foldl health_step s es).1.
Proof.
  revert s. induction es as [|e es IH]; intros s; [done|].
  rewrite Forall_cons. intros [He Hes] Hall. simpl.
  rewrite <-(proj2 (health_step_thresholds s e)). apply IH; [done|].
  rewrite (proj2 (health_step_thresholds s e)). by apply ejections_until_step.
Qed.

Lemma health_steps_dom s es : dom (backend_health (foldl health_step s es).1)
  = dom (backend_health s.1).
Proof.
  revert s. induction es as [|e es IH]; intros s; [done|]. simpl. rewrite IH.
  apply set_eq. intros b. rewrite !elem_of_dom, health_step_lookup.
  case_decide; [by rewrite fmap_is_Some|done].
Qed.

Lemma filter_all {A} (P : A → Prop) `{∀ x, Decision (P x)} (l : list A) :
  (∀ x, x ∈ l → P x) → filter P l = l.
Proof.
  induction l as [|x l IH]; intros HP; [done|]. rewrite filter_cons.
  rewrite decide_True by (apply HP; left). f_equal. apply IH. intros y Hy. apply HP. by right.
Qed.

(** ** Runs of the breaker *)
Inductive breaker_run (ft : N) (d : Duration) : list HealthEvent → Breaker → Breaker → Prop :=
  | run_nil x : breaker_run ft d [] x x
  | run_cons e es x y z :
      breaker_step ft d e x y → breaker_run ft d es y z → breaker_run ft d (e :: es) x z.

(** The events of a sequence of operations. *)
Fixpoint ops_events (s : HealthState) (ops : list HealthOp) : list HealthEvent :=
  match ops with
  | [] => []
  | op :: ops => op_events s op ++ ops_events (op_step s op) ops
  end.

Lemma op_steps_events s ops :
  hm_wf s.1 → foldl op_step s ops = foldl health_step s (ops_events s ops).
Proof.
  revert s. induction ops as [|op ops IH]; intros s Hwf; [done|].
  cbn [foldl ops_events]. rewrite foldl_app, <-op_step_events by done.
  apply IH. apply (op_steps_wf s [op] Hwf).
Qed.

Lemma health_steps_run s es b x :
  hm_wf s.1 → (failure_threshold s.1 < u64_modulus)%N → breaker s.1 b = Some x →
  ∃ y, breaker (foldl health_step s es).1 b = Some y ∧
    breaker_run (failure_threshold s.1) (ejection_duration s.1)
      (filter (λ e, event_backend e = b) es) x y.
Proof.
  revert s x. induction es as [|e es IH]; intros s x Hwf Hmax Hx.
  { exists x. split; [done|constructor]. }
  pose proof (health_step_refines s e b Hwf Hmax) as Hr. rewrite Hx in Hr.
  destruct (breaker (health_step s e).1 b) as [x'|] eqn:Hx'; [|done].
  destruct (health_step_thresholds s e) as [Hft Hd].
  destruct (IH (health_step s e) x') as (y & Hy & Hrun);
    [by apply health_step_wf|by rewrite Hft|done|].
  rewrite Hft, Hd in Hrun. exists y. split; [done|]. rewrite filter_cons.
  case_decide; [by econstructor|by subst].
Qed.

(** ** What an observation does to the breaker *)
Lemma breaker_observe_all now bs m b :
  breaker (foldl (observe_manager now) m bs) b =
    match breaker m b with
    | Some (Open u) => Some (if decide (b ∈ bs ∧ (u ≤ now)%N) then HalfOpen else Open u)
    | x => x
    end.
Proof.
  unfold breaker, breaker_of. rewrite observe_all_lookup.
  destruct (backend_health m !! b) as [st|]; simpl; [|by case_decide].
  unfold observe_state. destruct (ejected_until st) as [u|] eqn:Hu.
  - destruct (decide (b ∈ bs)); simpl.
    + case_decide; simpl; rewrite ?Hu; f_equal; case_decide; try done; naive_solver lia.
    + rewrite Hu. rewrite decide_False by tauto. done.
  - case_decide; simpl; rewrite Hu; by destruct (probing st).
Qed.

Lemma healthy_backends_half_open route now m b :
  hm_wf m → b ∈ rt_backends route → breaker m b = Some HalfOpen →
  b ∈ (healthy_backends route now m).1 ∧
  breaker (healthy_backends route now m).2 b = Some HalfOpen ∧
  hm_wf (healthy_backends route now m).2.
Proof.
  intros Hwf Hin Hb. destruct (filter_healthy_spec now (rt_backends route) m Hwf) as [H1 H2].
  unfold healthy_backends. rewrite H1, H2, breaker_observe_all, Hb. split; [|split; [done|]].
  - apply list_elem_of_filter. split; [|done]. unfold admitted. by rewrite Hb.
  - by apply observe_all_wf.
Qed.

(** * The correctness of the health manager *)

(** The invariant.  A manager built with positive thresholds, as a validated
    configuration gives, stays well-formed under every sequence of operations: no backend is
    ejected and probing at once, none is unhealthy without an ejection that will expire or a
    probing window, and every counter is below the threshold that acts on it. *)
Theorem health_invariant routes ft rt d amin amax pmin pmax tele t ops :
  (0 < ft)%N → (0 < rt)%N →
  hm_wf (foldl op_step
           (HealthManager_with_telemetry routes ft rt d amin amax pmin pmax tele, t) ops).1.
Proof. intros. apply op_steps_wf. by apply with_telemetry_wf. Qed.

(** C5: every sequence of operations is, for each backend, a run of the circuit breaker on
    exactly the events of that sequence which concern that backend. *)
Theorem health_refines_breaker s ops b x :
  hm_wf s.1 → (failure_threshold s.1 < u64_modulus)%N → breaker s.1 b = Some x →
  ∃ y, breaker (foldl op_step s ops).1 b = Some y ∧
    breaker_run (failure_threshold s.1) (ejection_duration s.1)
      (filter (λ e, event_backend e = b) (ops_events s ops)) x y.
Proof. intros. rewrite op_steps_events by done. by apply health_steps_run. Qed.

(** C20: [healthy_backends] returns the backends of the route whose breaker admits requests
    at that instant, in the route's order and with its multiplicity; its only effect is that
    the expired ejections of those backends become half-open. *)
Theorem healthy_backends_exact route now m :
  hm_wf m →
  (healthy_backends route now m).1 = filter (λ b, admitted now m b = true) (rt_backends route) ∧
  ∀ b, breaker (healthy_backends route now m).2 b =
    match breaker m b with
    | Some (Open u) =>
        Some (if decide (b ∈ rt_backends route ∧ (u ≤ now)%N) then HalfOpen else Open u)
    | x => x
    end.
Proof.
  intros Hwf. destruct (filter_healthy_spec now (rt_backends route) m Hwf) as [H1 H2].
  unfold healthy_backends. split; [done|]. intros b. rewrite H2. apply breaker_observe_all.
Qed.

(** C21: an outage is bounded.  If no failure is recorded after [T], then from
    [T + ejection_duration] on every configured backend of a route is offered again,
    whatever happened before. *)
Theorem ejection_bounded routes ft rt d amin amax pmin pmax tele t ops T now route :
  (0 < ft)%N → (0 < rt)%N →
  let s := (HealthManager_with_telemetry routes ft rt d amin amax pmin pmax tele, t) in
  Forall (failures_until T) (ops_events s ops) →
  (T + d ≤ now)%N → route ∈ routes →
  (healthy_backends route now (foldl op_step s ops).1).1 = rt_backends route.
Proof.
  intros Hft Hrt s Hes Hnow Hroute.
  assert (hm_wf s.1) as Hwf by (by apply with_telemetry_wf).
  unfold healthy_backends. rewrite (proj1 (filter_healthy_spec _ _ _ (op_steps_wf s ops Hwf))).
  rewrite op_steps_events by done. apply filter_all. intros b Hb.
  assert (ejections_until (T + d) s.1) as Hinit.
  { intros b' st. simpl. rewrite foldl_or_insert_lookup. case_decide; [|done]. by intros [= <-]. }
  pose proof (ejections_until_steps T s (ops_events s ops) Hes Hinit) as Hend.
  assert (b ∈ dom (backend_health (foldl health_step s (ops_events s ops)).1)) as Hdom.
  { rewrite health_steps_dom, elem_of_dom. simpl. rewrite foldl_or_insert_lookup.
    rewrite decide_True; [done|]. apply list_elem_of_bind. eauto. }
  apply elem_of_dom in Hdom as [st Hst]. unfold admitted, breaker. rewrite Hst. simpl.
  unfold breaker_of, admits. specialize (Hend b st Hst). cbv beta in Hend.
  destruct (ejected_until st) as [u|] eqn:Hu; [|by destruct (probing st)].
  apply bool_decide_eq_true_2. specialize (Hend u eq_refl). simpl in Hend. lia.
Qed.

(** C22: the breaker trips at the threshold and not before.  From a closed breaker without
    failures, fewer than [failure_threshold] failures in a row leave the backend admitted;
    the next one opens the breaker until [ejection_duration] after it, and nothing is
    admitted before that deadline. *)
Theorem trips_at_threshold b s ts last now :
  hm_wf s.1 → (failure_threshold s.1 < u64_modulus)%N → breaker s.1 b = Some (Closed 0) →
  (N.of_nat (length ts) + 1 = failure_threshold s.1)%N →
  let s1 := foldl (λ s now, record_failure b now s) s ts in
  let s2 := record_failure b last s1 in
  admitted now s1.1 b = true ∧
  breaker s2.1 b = Some (Open (last + ejection_duration s.1)) ∧
  admitted now s2.1 b = bool_decide (last + ejection_duration s.1 ≤ now)%N.
Proof.
  intros Hwf Hmax Hb Hlen s1 s2.
  destruct (record_failures_closed b s 0 ts Hwf Hmax Hb ltac:(lia)) as (Hwf1 & Hb1 & Hft1 & Hd1).
  fold s1 in Hwf1, Hb1, Hft1, Hd1.
  assert (breaker s2.1 b = Some (Open (last + ejection_duration s.1))) as Hb2.
  { unfold s2. rewrite (record_failure_closed b last s1 _ Hwf1 ltac:(by rewrite Hft1) Hb1).
    rewrite Hft1, Hd1. by rewrite decide_False by lia. }
  unfold admitted. rewrite Hb2, Hb1. done.
Qed.

(** C36: the readiness endpoint's data.  [backend_statuses] lists every configured backend
    exactly once, in the order of the names, each with the flag that says whether
    [healthy_backends] would offer it at that instant. *)
Theorem backend_statuses_exact now m :
  hm_wf m →
  let l := (backend_statuses now m).1 in
  Sorted key_le l ∧ NoDup l.*1 ∧
  ∀ b f, (b, f) ∈ l ↔ is_Some (backend_health m !! b) ∧ f = admitted now m b.
Proof.
  intros Hwf l. set (bs := (map_to_list (backend_health m)).*1).
  assert (l = merge_sort key_le ((λ b, (b, admitted now m b)) <$> bs)) as ->.
  { unfold l, backend_statuses. rewrite <-(proj1 (statuses_of_spec now bs m Hwf)).
    unfold bs. by destruct (statuses_of now _ m). }
  split; [apply (Sorted_merge_sort _)|].
  pose proof (merge_sort_Permutation key_le ((λ b, (b, admitted now m b)) <$> bs)) as Hperm.
  split.
  - rewrite Hperm, <-list_fmap_compose. rewrite (list_fmap_ext _ id) by done.
    rewrite list_fmap_id. apply NoDup_fst_map_to_list.
  - intros b f. rewrite Hperm, list_elem_of_fmap. split.
    + intros (b' & [= -> ->] & Hin). split; [|done].
      apply list_elem_of_fmap in Hin as ([b'' st] & -> & Hin). simpl.
      apply elem_of_map_to_list in Hin. eauto.
    + intros [[st Hst] ->]. exists b. split; [done|].
      apply list_elem_of_fmap. exists (b, st). split; [done|]. by apply elem_of_map_to_list.
Qed.

(** The half-open window does not limit the probes: while no outcome is recorded, a
    half-open backend is offered to every one of any number of requests. *)
Theorem half_open_admits_all b (requests : list (RouteConfig * Instant)) m :
  hm_wf m → breaker m b = Some HalfOpen →
  Forall (λ r, b ∈ rt_backends r.1) requests →
  Forall (λ offered, b ∈ offered)
    (foldl (λ '(os, m) r, let (o, m) := healthy_backends r.1 r.2 m in (os ++ [o], m))
       ([], m) requests).1.
Proof.
  intros Hwf Hb Hrs.
  cut (∀ os, Forall (λ offered, b ∈ offered) os →
    Forall (λ offered, b ∈ offered)
      (foldl (λ '(os, m) r, let (o, m) := healthy_backends r.1 r.2 m in (os ++ [o], m))
         (os, m) requests).1); [intros Hgen; by apply Hgen|].
  revert m Hwf Hb. induction Hrs as [|[r now] rs Hr Hrs IH]; intros m Hwf Hb os Hos; [done|].
  destruct (healthy_backends_half_open r now m b Hwf Hr Hb) as (H1 & H2 & H3).
  cbn [foldl fst snd]. destruct (healthy_backends r now m) as [o m'].
  apply IH; [done..|]. apply Forall_app. by rewrite Forall_singleton.
Qed.

(** ** Witnesses *)

Definition two_routes : list RouteConfig :=
  [sample_route "/api" ["http://a"; "http://b"]; sample_route "/web" ["http://b"]].
(** Failure threshold 2, recovery threshold 1, ejection for ten nanoseconds. *)
Definition two_failures : HealthManager :=
  HealthManager_with_telemetry two_routes 2 1 10 200 399 500 599 false.
Definition no_telemetry : Telemetry := Telemetry_new two_routes.

Lemma two_failures_wf : hm_wf two_failures.
Proof. by apply with_telemetry_wf. Qed.

Lemma health_invariant_witness :
  hm_wf (foldl op_step (two_failures, no_telemetry)
           [OpFailure "http://a" 1; OpFailure "http://a" 2; OpStatuses 20]).1.
Proof. apply (health_invariant two_routes 2 1); done. Defined.

Lemma health_refines_breaker_witness :
  ∃ y, breaker (foldl op_step (two_failures, no_telemetry)
                  [OpFailure "http://a" 1; OpFailure "http://a" 2]).1 "http://a" = Some y ∧
    breaker_run 2 10 [HFailure "http://a" 1; HFailure "http://a" 2] (Closed 0) y.
Proof.
  apply (health_refines_breaker (two_failures, no_telemetry)
           [OpFailure "http://a" 1; OpFailure "http://a" 2]);
    [apply two_failures_wf|reflexivity|vm_compute; reflexivity].
Defined.

Lemma healthy_backends_exact_witness :
  (healthy_backends (sample_route "/api" ["http://a"; "http://c"]) 5 two_failures).1
  = ["http://a"].
Proof.
  destruct (healthy_backends_exact (sample_route "/api" ["http://a"; "http://c"]) 5
              two_failures two_failures_wf) as [-> _].
  vm_compute. reflexivity.
Defined.

Lemma ejection_bounded_witness :
  (healthy_backends (sample_route "/web" ["http://b"]) 12
     (foldl op_step (two_failures, no_telemetry)
        [OpFailure "http://b" 1; OpFailure "http://b" 2]).1).1 = ["http://b"].
Proof.
  apply (ejection_bounded two_routes 2 1 10 200 399 500 599 false no_telemetry
           [OpFailure "http://b" 1; OpFailure "http://b" 2] 2 12
           (sample_route "/web" ["http://b"])); try done.
  - repeat constructor; simpl; lia.
  - right. by left.
Defined.

Lemma trips_at_threshold_witness :
  let s2 := record_failure "http://a" 7 (record_failure "http://a" 5 (two_failures, no_telemetry)) in
  admitted 16 s2.1 "http://a" = false ∧ admitted 17 s2.1 "http://a" = true.
Proof.
  split.
  - apply (trips_at_threshold "http://a" (two_failures, no_telemetry) [5%N] 7 16);
      [apply two_failures_wf|done|vm_compute; reflexivity|done].
  - apply (trips_at_threshold "http://a" (two_failures, no_telemetry) [5%N] 7 17);
      [apply two_failures_wf|done|vm_compute; reflexivity|done].
Defined.

Lemma backend_statuses_exact_witness :
  ("http://b", true) ∈ (backend_statuses 5 two_failures).1.
Proof.
  apply (backend_statuses_exact 5 two_failures two_failures_wf).
  split; [vm_compute; eauto|vm_compute; reflexivity].
Defined.

Definition half_open_a : HealthManager :=
  put_backend "http://a" (set_probing true (set_healthy false BackendHealth_healthy)) two_failures.

Lemma half_open_admits_all_witness :
  breaker half_open_a "http://a" = Some HalfOpen ∧
  Forall (λ offered, "http://a" ∈ offered)
    (foldl (λ '(os, m) r, let (o, m) := healthy_backends r.1 r.2 m in (os ++ [o], m))
       ([], half_open_a)
       [(sample_route "/api" ["http://a"], 3%N); (sample_route "/api" ["http://a"], 4%N)]).1.
Proof.
  split; [vm_compute; reflexivity|].
  apply (half_open_admits_all "http://a"); [|vm_compute; reflexivity|repeat constructor].
  split; [done..|]. apply map_Forall_insert_2; [|apply two_failures_wf].
  split; simpl; [by intros [? ?]|auto|done|done].
Defined.
