(* ===== verification/HealthConc.v ===== *)
(** [src/health/mod.rs], the calls that interleave: the methods of the health manager on one
    backend as programs of atomic operations, run by any number of threads.

    [Health] treats a method as one step.  Here each load, store and [fetch_add] of the
    source is a step of its own, and so is each critical section on the mutex of
    [ejected_until], but for the one of [is_backend_ejected], whose store to [probing] is not
    protected from the threads that do not take the lock.  The telemetry calls are left out:
    they touch no field of the backend.  Run without interleaving, the programs are the
    methods of [Health]; with it, a backend can still never get stuck out of rotation. *)

From S2P Require Import Prelude RustStd Externals Config Telemetry Health.
From stdpp Require Import options.

(** * The programs *)

(** Where a thread is: before the named operation. *)
Inductive Pc :=
  (* record_success *)
  | SuccClearFailures
  | SuccLoadProbing
  | SuccStopProbing
  | SuccSetHealthy
  | SuccResetProbed
  | SuccCount
  | SuccLoadHealthy (successes : N)
  | SuccRestore
  | SuccResetRestored
  (* record_failure *)
  | FailClearSuccesses
  | FailLoadProbing
  | FailStopProbing
  | FailCount
  | FailLoadHealthy (failures : N)
  | FailSetUnhealthy
  | FailResetFailures
  | FailEject
  (* is_backend_ejected *)
  | ObsCheck
  | ObsStartProbing. (** the lock is held *)

Section programs.
Context (failure_threshold recovery_threshold : N) (ejection_duration : Duration).

(** One operation at time [now]: the backend after it, and where the thread goes on, or
    [None] for its return.  [locked] says that another thread holds the lock; the result is
    [None] when the operation has to wait for it. *)
Definition pc_step (now : Instant) (locked : bool) (pc : Pc) (st : BackendHealth)
    : option (BackendHealth * option Pc) :=
  match pc with
  | SuccClearFailures => Some (set_failures 0 st, Some SuccLoadProbing)
  | SuccLoadProbing => Some (st, Some (if probing st then SuccStopProbing else SuccCount))
  | SuccStopProbing => Some (set_probing false st, Some SuccSetHealthy)
  | SuccSetHealthy => Some (set_healthy true st, Some SuccResetProbed)
  | SuccResetProbed => Some (set_successes 0 st, None)
  | SuccCount =>
      let successes := u64_add (consecutive_successes st) 1 in
      Some (set_successes successes st, Some (SuccLoadHealthy successes))
  | SuccLoadHealthy successes =>
      Some (st, if negb (healthy st) && bool_decide (recovery_threshold ≤ successes)%N
                then Some SuccRestore else None)
  | SuccRestore => Some (set_healthy true st, Some SuccResetRestored)
  | SuccResetRestored => Some (set_successes 0 st, None)
  | FailClearSuccesses => Some (set_successes 0 st, Some FailLoadProbing)
  | FailLoadProbing => Some (st, Some (if probing st then FailStopProbing else FailCount))
  | FailStopProbing => Some (set_probing false st, Some FailEject)
  | FailCount =>
      let failures := u64_add (consecutive_failures st) 1 in
      Some (set_failures failures st, Some (FailLoadHealthy failures))
  | FailLoadHealthy failures =>
      Some (st, if healthy st && bool_decide (failure_threshold ≤ failures)%N
                then Some FailSetUnhealthy else None)
  | FailSetUnhealthy => Some (set_healthy false st, Some FailResetFailures)
  | FailResetFailures => Some (set_failures 0 st, Some FailEject)
  | FailEject =>
      if locked then None
      else Some (set_ejected (Some (now + ejection_duration)%N) st, None)
  | ObsCheck =>
      if locked then None
      else match ejected_until st with
           | Some until => if decide (now < until)%N then Some (st, None)
                           else Some (set_ejected None st, Some ObsStartProbing)
           | None => Some (st, None)
           end
  | ObsStartProbing => Some (set_probing true st, None)
  end.

(** Where the call of an event starts. *)
Definition pc_start (e : HealthEvent) : Pc :=
  match e with
  | HSuccess _ => SuccClearFailures
  | HFailure _ _ => FailClearSuccesses
  | HObserve _ _ => ObsCheck
  end.

(** A thread running alone at [now], for at most [fuel] operations. *)
Fixpoint run_alone (fuel : nat) (now : Instant) (pc : option Pc) (st : BackendHealth)
    : BackendHealth * option Pc :=
  match fuel, pc with
  | S fuel, Some pc =>
      match pc_step now false pc st with
      | Some (st, pc) => run_alone fuel now pc st
      | None => (st, Some pc)
      end
  | _, _ => (st, pc)
  end.

(** * Threads *)

(** The backend and the calls in progress. *)
Record Threads := { th_backend : BackendHealth; th_pcs : list Pc }.

Definition holds_lock (pc : Pc) : bool :=
  match pc with ObsStartProbing => true | _ => false end.

(** A call begins, or a thread does its next operation, at any time [now]. *)
Inductive conc_step : Threads → Threads → Prop :=
  | conc_call e st pcs :
      conc_step {| th_backend := st; th_pcs := pcs |}
        {| th_backend := st; th_pcs := pc_start e :: pcs |}
  | conc_run now st pcs1 pc pcs2 st' next :
      pc_step now (existsb holds_lock (pcs1 ++ pcs2)) pc st = Some (st', next) →
      conc_step {| th_backend := st; th_pcs := pcs1 ++ pc :: pcs2 |}
        {| th_backend := st'; th_pcs := pcs1 ++ option_list next ++ pcs2 |}.

Definition conc_initial : Threads := {| th_backend := BackendHealth_healthy; th_pcs := [] |}.
Definition conc_reachable : Threads → Prop := rtc conc_step conc_initial.

(** * Lemmas *)

(** A thread that is about to bring the backend back: to set it healthy, to eject it, or to
    open the probing window. *)
Definition will_recover (pc : Pc) : bool :=
  match pc with
  | SuccSetHealthy | FailResetFailures | FailEject | ObsStartProbing => true
  | _ => false
  end.

Definition on_the_way (st : BackendHealth) : Prop :=
  healthy st = true ∨ is_Some (ejected_until st) ∨ probing st = true.

(** The backend is healthy, or on its way back, or a thread will put it there. *)
Definition not_lost (s : Threads) : Prop :=
  on_the_way (th_backend s) ∨ ∃ pc, pc ∈ th_pcs s ∧ will_recover pc = true.

(** An operation that takes the backend off the way is followed by one that brings it back. *)
Lemma pc_step_on_the_way now locked pc st st' next :
  pc_step now locked pc st = Some (st', next) → on_the_way st ∨ will_recover pc = true →
  on_the_way st' ∨ ∃ pc', next = Some pc' ∧ will_recover pc' = true.
Proof.
  unfold on_the_way. destruct pc; simpl; intros Hstep Hway; repeat case_match; simplify_eq/=;
    naive_solver eauto.
Qed.

Lemma conc_step_not_lost s s' : conc_step s s' → not_lost s → not_lost s'.
Proof.
  unfold not_lost. destruct 1 as [e st pcs|now st pcs1 pc pcs2 st' next Hstep]; simpl;
    intros Hinv.
  - destruct Hinv as [?|(pc & ? & ?)]; [by left|right]. exists pc. split; [by right|done].
  - destruct (decide (on_the_way st ∨ will_recover pc = true)) as [Hway|Hway].
    + destruct (pc_step_on_the_way _ _ _ _ _ _ Hstep Hway) as [?|(pc' & -> & Hpc')]; [by left|].
      right. exists pc'. split; [|done]. simpl. rewrite elem_of_app, elem_of_cons. auto.
    + right. destruct Hinv as [?|(pc' & Hin & Hpc')]; [tauto|]. exists pc'. split; [|done].
      rewrite elem_of_app, elem_of_cons in Hin. rewrite !elem_of_app.
      destruct Hin as [?|[->|?]]; tauto.
Qed.

Lemma conc_reachable_not_lost s : conc_reachable s → not_lost s.
Proof.
  unfold conc_reachable. intros Hr.
  assert (∀ s0, rtc conc_step s0 s → not_lost s0 → not_lost s) as Hgen
    by (induction 1; eauto using conc_step_not_lost).
  apply (Hgen _ Hr). left. by left.
Qed.

(** A call that runs alone to its end is a sequence of steps. *)
Lemma run_alone_reachable fuel now pc st st' :
  run_alone fuel now (Some pc) st = (st', None) →
  rtc conc_step {| th_backend := st; th_pcs := [pc] |} {| th_backend := st'; th_pcs := [] |}.
Proof.
  revert pc st. induction fuel as [|fuel IH]; intros pc st; simpl; [done|].
  destruct (pc_step now false pc st) as [[st1 next]|] eqn:Hstep; [|done]. intros Hrun.
  eapply rtc_l; [apply (conc_run now st [] pc [] st1 next Hstep)|]. simpl.
  destruct next as [pc1|]; simpl; [by apply IH|].
  destruct fuel; simpl in Hrun; injection Hrun as ->; constructor.
Qed.

Lemma call_reachable e now st st' :
  run_alone 8 now (Some (pc_start e)) st = (st', None) →
  rtc conc_step {| th_backend := st; th_pcs := [] |} {| th_backend := st'; th_pcs := [] |}.
Proof.
  intros Hrun. eapply rtc_l; [apply (conc_call e)|]. by eapply run_alone_reachable.
Qed.

(** * The correctness of the interleaved methods *)

(** C19: no interleaving of calls, of any number of threads, loses a backend: whenever no call
    is in progress, a backend that is not healthy is ejected, until a deadline that an
    observation will find expired, or it is in the probing window. *)
Theorem no_backend_is_lost s :
  conc_reachable s → th_pcs s = [] →
  healthy (th_backend s) = false →
  is_Some (ejected_until (th_backend s)) ∨ probing (th_backend s) = true.
Proof.
  intros Hr Hpcs Hun.
  destruct (conc_reachable_not_lost s Hr) as [[Hh|?]|(pc & Hin & _)]; [congruence|done|].
  rewrite Hpcs in Hin. by apply not_elem_of_nil in Hin.
Qed.

(** Without interleaving, the programs are the methods: a call that runs alone ends, and
    its effect on the backend is that of the method as one step. *)
Theorem run_alone_is_the_method m e now st :
  failure_threshold = Health.failure_threshold m →
  recovery_threshold = Health.recovery_threshold m →
  ejection_duration = Health.ejection_duration m →
  (∀ b t, e = HFailure b t ∨ e = HObserve b t → t = now) →
  run_alone 8 now (Some (pc_start e)) st = (event_state m e st, None).
Proof.
  intros Hft Hrt Hd Hnow.
  destruct st as [h f sc u p].
  destruct e as [b|b t|b t]; [|rewrite (Hnow b t) by auto..];
    simpl; unfold success_state, failure_state, observe_state; simpl; rewrite <-?Hft, <-?Hrt, <-?Hd.
  - destruct p; [done|]. simpl. destruct h; simpl; [done|]. by case_bool_decide.
  - destruct p; [done|]. simpl. destruct h; simpl; [|done]. by case_bool_decide.
  - destruct u as [u|]; [|done]. by case_decide.
Qed.

End programs.

(** ** Witnesses *)

Definition ejected_backend : BackendHealth := {|
  healthy := false; consecutive_failures := 0; consecutive_successes := 0;
  ejected_until := Some 17%N; probing := false;
|}.

Lemma no_backend_is_lost_witness :
  is_Some (ejected_until ejected_backend) ∨ probing ejected_backend = true.
Proof.
  apply (no_backend_is_lost 1 1 10 {| th_backend := ejected_backend; th_pcs := [] |});
    [|done|done].
  by apply (call_reachable 1 1 10 (HFailure "http://a" 7) 7).
Defined.

Lemma run_alone_is_the_method_witness :
  run_alone 2 1 10 8 3 (Some FailClearSuccesses) BackendHealth_healthy
  = (event_state two_failures (HFailure "http://a" 3) BackendHealth_healthy, None).
Proof.
  apply (run_alone_is_the_method 2 1 10 two_failures (HFailure "http://a" 3) 3); try done.
  intros b t [Heq|Heq]; congruence.
Defined.
