(* ===== verification/Runtime.v ===== *)
(** The asynchronous runtime as the model sees it: the state that the tasks of the proxy
    share, one task's view of the world, and the environment it runs in.

    A task of the proxy is a computation in [App].  Every access to the shared state and
    every reading of the clock is one atomic step; before it, the environment lets any amount
    of time pass ([env_delay]) and lets the other tasks do anything to the shared state
    ([env_others]).  A theorem about a task for every environment therefore covers every
    interleaving of its steps with those of the other requests, the health checks and the
    hooks of bodies in flight.  The network's answers are part of the environment as well. *)

From S2P Require Import Prelude RustStd Externals Config Telemetry Health Balancing.
From stdpp Require Import options.

Section runtime.
Context `{Platform}.

(** * Bodies with a limit ([ProxyBody]) *)

(** The two closures [forward_request] passes to [UpstreamClient::forward]. *)
Inductive ErrorHook :=
  | RequestErrorHook
  | ResponseErrorHook (backend : string).

(** The body built by [limit_body_stream]: the stream it wraps and the captured variables. *)
Record LimitedBody := {
  lb_items : list (Duration * Polled);
  lb_max_bytes : N;
  lb_idle_timeout : Duration;
  lb_context : string;
  lb_hook : option ErrorHook;
}.

Inductive ProxyBody :=
  | FullBody (data : string) (** [full_body] *)
  | StreamBody (body : LimitedBody).

(** * State *)

(** The state behind the [Arc]s of [AppState], and the static request counter. *)
Record Shared := {
  sh_balancer : LoadBalancer;
  sh_health : HealthState; (** the health manager and the telemetry *)
  sh_semaphore : Semaphore;
  sh_request_id : N;
}.

(** A request handed to the HTTP client. *)
Record Sent := {
  sent_backend : string;
  sent_at : Instant;
  sent_request : Request ProxyBody;
}.

(** One task's world: the clock, the steps done so far, the shared state and the requests
    this task has sent to backends, in order. *)
Record World := {
  w_now : Instant;
  w_tick : nat;
  w_shared : Shared;
  w_sent : list Sent;
}.

(** The outcome of [client.request(...)]: how long it takes, how many items of the request's
    body are polled meanwhile, and the response or the error. *)
Record Reply := {
  reply_after : Duration;
  reply_polled : nat;
  reply_result : result ClientError (Response Body);
}.

Class Environment := {
  env_delay : nat → Duration;
  env_others : nat → Shared → Shared;
  env_reply : nat → Request ProxyBody → Reply;
  (** the probe of a health endpoint: duration, and the status or an error *)
  env_probe : nat → Uri → Duration * option StatusCode;
}.

Context `{!Environment}.

Abbreviation App := (stateM World) (only parsing).

(** * Primitive steps *)

(** The world at the moment the next step of the task happens, [d] later at least. *)
Definition pass (d : Duration) (w : World) : World := {|
  w_now := (w_now w + d + env_delay (w_tick w))%N;
  w_tick := S (w_tick w);
  w_shared := env_others (w_tick w) (w_shared w);
  w_sent := w_sent w;
|}.

Definition set_shared (s : Shared) (w : World) : World :=
  {| w_now := w_now w; w_tick := w_tick w; w_shared := s; w_sent := w_sent w |}.

(** One atomic access to the shared state. *)
Definition atomically {A} (f : Instant → Shared → A * Shared) : App A := λ w,
  let w := pass 0 w in
  let (a, s) := f (w_now w) (w_shared w) in
  (a, set_shared s w).

(** [Instant::now()] *)
Definition instant_now : App Instant := atomically (λ now s, (now, s)).

(** [tokio::time::sleep(d).await] *)
Definition sleep (d : Duration) : App unit := λ w, (tt, pass d w).

(** Updates of the parts of the shared state. *)
Definition set_balancer (b : LoadBalancer) (s : Shared) : Shared :=
  {| sh_balancer := b; sh_health := sh_health s; sh_semaphore := sh_semaphore s;
     sh_request_id := sh_request_id s |}.
Definition set_health (h : HealthState) (s : Shared) : Shared :=
  {| sh_balancer := sh_balancer s; sh_health := h; sh_semaphore := sh_semaphore s;
     sh_request_id := sh_request_id s |}.
Definition set_semaphore (p : Semaphore) (s : Shared) : Shared :=
  {| sh_balancer := sh_balancer s; sh_health := sh_health s; sh_semaphore := p;
     sh_request_id := sh_request_id s |}.
Definition set_request_id (n : N) (s : Shared) : Shared :=
  {| sh_balancer := sh_balancer s; sh_health := sh_health s;
     sh_semaphore := sh_semaphore s; sh_request_id := n |}.

Definition on_telemetry (f : Telemetry → Telemetry) : App unit :=
  atomically (λ _ s, (tt, set_health ((sh_health s).1, f (sh_health s).2) s)).
Definition on_health (f : Instant → HealthState → HealthState) : App unit :=
  atomically (λ now s, (tt, set_health (f now (sh_health s)) s)).
(** A query of the health manager, with its effects on the manager. *)
Definition query_health {A} (f : Instant → HealthManager → A * HealthManager) : App A :=
  atomically (λ now s, let (a, m) := f now (sh_health s).1 in
                       (a, set_health (m, (sh_health s).2) s)).

(** * Silence: computations that send nothing *)

Definition silent {A} (m : App A) : Prop := ∀ w, w_sent (m w).2 = w_sent w.

Lemma silent_ret {A} (a : A) : silent (mret a).
Proof. done. Qed.

Lemma silent_bind {A B} (m : App A) (k : A → App B) :
  silent m → (∀ a, silent (k a)) → silent (m ≫= k).
Proof. intros Hm Hk w. unfold mbind, stateM_bind. cbv zeta. by rewrite Hk, Hm. Qed.

Lemma silent_fmap {A B} (f : A → B) (m : App A) : silent m → silent (f <$> m).
Proof. intros Hm w. apply Hm. Qed.

Lemma silent_atomically {A} (f : Instant → Shared → A * Shared) : silent (atomically f).
Proof. intros w. unfold atomically. cbv zeta. by destruct (f _ _). Qed.

Lemma silent_sleep d : silent (sleep d).
Proof. done. Qed.

Lemma silent_forM {A} (l : list A) (f : A → App unit) :
  (∀ x, silent (f x)) → silent (forM l f).
Proof. intros Hf. induction l; simpl; [apply silent_ret|]. by apply silent_bind. Qed.

(** * Time never runs backwards *)

Definition forward_in_time {A} (m : App A) : Prop := ∀ w, (w_now w ≤ w_now (m w).2)%N.

Lemma forward_ret {A} (a : A) : forward_in_time (mret a).
Proof. by intros w. Qed.

Lemma forward_bind {A B} (m : App A) (k : A → App B) :
  forward_in_time m → (∀ a, forward_in_time (k a)) → forward_in_time (m ≫= k).
Proof. intros Hm Hk w. unfold mbind, stateM_bind. cbv zeta. etrans; [apply Hm|apply Hk]. Qed.

Lemma forward_atomically {A} (f : Instant → Shared → A * Shared) :
  forward_in_time (atomically f).
Proof. intros w. unfold atomically. cbv zeta. destruct (f _ _); simpl. lia. Qed.

(** * Invariants of the shared state under interference *)

(** An invariant may depend on the step of the task, as what the others hold does. *)
Class Stable (I : nat → Shared → Prop) : Prop :=
  stable : ∀ n s, I n s → I (S n) (env_others n s).

Definition keeps {A} (I : nat → Shared → Prop) (m : App A) : Prop :=
  preserves (λ w, I (w_tick w) (w_shared w)) m.

Lemma keeps_atomically {A} (I : nat → Shared → Prop) `{!Stable I}
    (f : Instant → Shared → A * Shared) :
  (∀ n now s, I n s → I n (f now s).2) → keeps I (atomically f).
Proof.
  intros Hf w Hw. unfold atomically. cbv zeta.
  pose proof (Hf (w_tick (pass 0 w)) (w_now (pass 0 w)) (w_shared (pass 0 w)) (stable _ _ Hw)) as Hw'.
  destruct (f _ _). done.
Qed.

Lemma keeps_sleep (I : nat → Shared → Prop) `{!Stable I} d : keeps I (sleep d).
Proof. intros w Hw. by apply stable. Qed.

End runtime.

#[export] Hint Resolve @silent_ret @silent_bind @silent_fmap @silent_atomically @silent_sleep @silent_forM
  : ferrum.
#[export] Hint Unfold instant_now on_telemetry on_health query_health : ferrum.
