(* ===== verification/Scenario.v ===== *)
(** A concrete platform and environment, on which the witnesses of the theorems about tasks
    evaluate: no time passes between steps, no other task interferes, and the answers of the
    network are given by a function. *)

From S2P Require Import Prelude RustStd Externals Instances Config Telemetry Health Balancing.
From S2P Require Import Runtime.
From stdpp Require Import options.

#[export] Existing Instance simple_platform.

Definition calm (reply : nat → Request ProxyBody → Reply)
    (probe : nat → Uri → Duration * option StatusCode) : Environment := {|
  env_delay _ := 0%N;
  env_others _ s := s;
  env_reply := reply;
  env_probe := probe;
|}.

(** A backend that answers every request with the same status and a one-chunk body. *)
Definition answer (status : StatusCode) (body : string) : Reply := {|
  reply_after := 1000000%N;
  reply_polled := 1;
  reply_result := Ok {| resp_status := status; resp_version := "HTTP/1.1";
                        resp_headers := headers_empty; resp_body := body_full body |};
|}.
Definition refused : Reply := {|
  reply_after := 1000000%N;
  reply_polled := 0;
  reply_result := Err (SimpleError true [{| as_io := Some IoConnectionRefused;
                                            as_hyper := None |}]);
|}.

Definition all_answer (status : StatusCode) : Environment :=
  calm (λ _ _, answer status "hello") (λ _ _, (1%N, Some status)).

(** Two routes that share the backend [http://b], three backends in all. *)
Definition scenario_routes : list RouteConfig :=
  [sample_route "/api" ["http://a"; "http://b"; "http://c"]; sample_route "/web" ["http://b"]].
Definition scenario_config : Config := sample_config scenario_routes.

Definition scenario_manager : HealthManager :=
  HealthManager_with_telemetry scenario_routes 3 2 (from_millis 30000) 200 399 500 599 true.
Definition scenario_shared : Shared := {|
  sh_balancer := LoadBalancer_new scenario_routes;
  sh_health := (scenario_manager, Telemetry_new scenario_routes);
  sh_semaphore := sem_new 100;
  sh_request_id := 1;
|}.
Definition scenario_world : World :=
  {| w_now := 0; w_tick := 0; w_shared := scenario_shared; w_sent := [] |}.

Lemma scenario_manager_wf : hm_wf scenario_manager.
Proof. by apply with_telemetry_wf. Qed.

Lemma scenario_config_ok : Config_ok scenario_config.
Proof. apply Config_validate_ok. by vm_compute. Qed.

(** A request of the client, from the address 9.9.9.9. *)
Definition client_request_to (method path : string) (headers : list (string * string))
    (body : string) : Request Body := {|
  req_method := method;
  req_uri := origin_form path None : @Uri (@platform_uri simple_platform);
  req_version := "HTTP/1.1";
  req_headers := headers : @HeaderMap (@platform_headers simple_platform);
  req_remote_addr := Some ("9.9.9.9", "4242");
  req_body := body_full body;
|}.
