(* ===== verification/HealthChecks.v ===== *)
(** [src/health/mod.rs], the active health checks: the set of backends to probe, one probe,
    one pass over all backends, and the background loop that runs the passes.

    A panic ends the task that runs the passes; it is the outcome [Panicked].  The client of
    the probes ([health_client]) is part of the environment. *)

From S2P Require Import Prelude RustStd Externals Config Telemetry Health Balancing Runtime.
From stdpp Require Import options.

(** How a task ended, or [Running] when it waits for its next event. *)
Inductive TaskState := Finished | Panicked | Running.
#[export] Instance TaskState_eq_dec : EqDecision TaskState.
Proof. solve_decision. Defined.

(** What wakes the loop of [spawn_active_checks]: the interval, or a change of the shutdown
    channel; [changed] is the error of [shutdown.changed()] or the value then borrowed. *)
Inductive Wake :=
  | IntervalTick
  | ShutdownChanged (is_err value : bool).

Section checks.
Context `{Platform}.

(** * What is probed *)

(** The two loops that insert into the [HashSet]. *)
Definition insert_checks (c : Config) (checks : gset (string * string)) (r : RouteConfig)
    : gset (string * string) :=
  let endpoint := route_endpoint c r in
  foldl (λ checks backend, {[(backend, endpoint)]} ∪ checks) checks (rt_backends r).
Definition unique_backend_checks (c : Config) : list (string * string) :=
  hash_iter (foldl (insert_checks c) ∅ (cfg_routes c)).

(** [None] when the [expect] panics. *)
Definition build_healthcheck_uri (backend endpoint : string) : option (result string Uri) :=
  match url_parse backend with
  | Err e => Some (Err e)
  | Ok url =>
      let url := url_set_query None (url_set_path endpoint url) in
      match uri_parse (url_as_str url) with
      | Ok uri => Some (Ok uri)
      | Err _ => None
      end
  end.

(** * Probing *)

Context `{!Environment}.

(** The probe of [uri], given up after [check_timeout]. *)
Definition probe (check_timeout : Duration) (uri : Uri) : stateM World StatusCode := λ w,
  let (after, outcome) := env_probe (w_tick w) uri in
  if decide (after ≤ check_timeout)%N
  then (default 502%N outcome, pass after w)
  else (502%N, pass check_timeout w).

(** [None] when the probe panics. *)
Definition check_backend (backend endpoint : string) (check_timeout : Duration)
    : stateM World (option StatusCode) :=
  match build_healthcheck_uri backend endpoint with
  | None => mret None
  | Some (Err _) => mret (Some 502%N)
  | Some (Ok uri) => status ← probe check_timeout uri; mret (Some status)
  end.

(** The loop of [run_active_check_pass_with_client] over the checks. *)
Fixpoint run_checks (check_timeout : Duration) (checks : list (string * string))
    : stateM World TaskState :=
  match checks with
  | [] => mret Finished
  | (backend, endpoint) :: checks =>
      check_backend_status ← check_backend backend endpoint check_timeout;
      match check_backend_status with
      | None => mret Panicked
      | Some status =>
          _ ← on_health (λ now s,
                if is_active_success_status status s.1
                then record_success backend s else record_failure backend now s);
          run_checks check_timeout checks
      end
  end.
Definition run_active_check_pass_with_client (c : Config) (check_timeout : Duration)
    : stateM World TaskState :=
  run_checks check_timeout (unique_backend_checks c).

Definition run_active_check_pass (c : Config) : stateM World TaskState :=
  let check_timeout := from_millis (hc_check_timeout_ms (cfg_health_check c)) in
  run_active_check_pass_with_client c check_timeout.

(** The background task, on the events that wake it. *)
Fixpoint spawn_active_checks (c : Config) (wakes : list Wake) : stateM World TaskState :=
  let check_timeout := from_millis (hc_check_timeout_ms (cfg_health_check c)) in
  match wakes with
  | [] => mret Running
  | IntervalTick :: wakes =>
      outcome ← run_active_check_pass_with_client c check_timeout;
      match outcome with
      | Panicked => mret Panicked
      | _ => spawn_active_checks c wakes
      end
  | ShutdownChanged is_err value :: wakes =>
      if is_err || value then mret Finished else spawn_active_checks c wakes
  end.

(** * Lemmas on the set of checks *)

Lemma insert_checks_elem c checks r b e :
  (b, e) ∈ insert_checks c checks r ↔
  (b, e) ∈ checks ∨ b ∈ rt_backends r ∧ e = route_endpoint c r.
Proof.
  unfold insert_checks. revert checks. induction (rt_backends r) as [|b' bs IH]; intros checks.
  { cbn [foldl]. pose proof (not_elem_of_nil b). naive_solver. }
  cbn [foldl]. rewrite IH, elem_of_union, elem_of_singleton, elem_of_cons. naive_solver.
Qed.

Lemma checks_set_elem c b e :
  (b, e) ∈ foldl (insert_checks c) ∅ (cfg_routes c) ↔
  ∃ r, r ∈ cfg_routes c ∧ b ∈ rt_backends r ∧ e = route_endpoint c r.
Proof.
  assert (∀ rs checks, (b, e) ∈ foldl (insert_checks c) checks rs ↔
    (b, e) ∈ checks ∨ ∃ r, r ∈ rs ∧ b ∈ rt_backends r ∧ e = route_endpoint c r) as Hgen.
  { induction rs as [|r rs IH]; intros checks; cbn [foldl].
    - pose proof (not_elem_of_nil (A := RouteConfig)). naive_solver.
    - rewrite IH, insert_checks_elem. setoid_rewrite elem_of_cons. naive_solver. }
  rewrite Hgen. pose proof (not_elem_of_empty (C := gset (string * string)) (b, e)).
  naive_solver.
Qed.

Lemma unique_backend_checks_elem `{!HashIterLaws} c b e :
  (b, e) ∈ unique_backend_checks c ↔
  ∃ r, r ∈ cfg_routes c ∧ b ∈ rt_backends r ∧ e = route_endpoint c r.
Proof.
  unfold unique_backend_checks. by rewrite hash_iter_perm, elem_of_elements, checks_set_elem.
Qed.

(** When the routes agree on the endpoints, every configured backend is checked once. *)
Lemma unique_backend_checks_once `{!HashIterLaws} c :
  endpoints_agree c →
  NoDup (unique_backend_checks c).*1 ∧
  ∀ b, b ∈ (unique_backend_checks c).*1 ↔ ∃ r, r ∈ cfg_routes c ∧ b ∈ rt_backends r.
Proof.
  intros Hagree. split.
  - assert (NoDup (unique_backend_checks c)) as Hnd.
    { unfold unique_backend_checks. rewrite hash_iter_perm. apply NoDup_elements. }
    apply NoDup_fmap_2_strong; [|done]. intros [b e] [b' e'] Hx Hy Hb. simpl in Hb. subst b'.
    apply unique_backend_checks_elem in Hx as (r & Hr & Hb & ->).
    apply unique_backend_checks_elem in Hy as (r' & Hr' & Hb' & ->).
    f_equal. by apply (Hagree r r' b).
  - intros b. rewrite list_elem_of_fmap. split.
    + intros ([b' e] & -> & (r & ? & ? & _)%unique_backend_checks_elem). eauto.
    + intros (r & Hr & Hb). exists (b, route_endpoint c r). split; [done|].
      apply unique_backend_checks_elem. eauto.
Qed.

(** * Lemmas on a pass *)

(** The event that a check with this status is for the health of the backend. *)
Definition check_event (m : HealthManager) (now : Instant) (backend : string)
    (status : StatusCode) : HealthEvent :=
  if is_active_success_status status m then HSuccess backend else HFailure backend now.

Lemma check_step m backend status now s :
  active_success_status_min s.1 = active_success_status_min m →
  active_success_status_max s.1 = active_success_status_max m →
  (if is_active_success_status status s.1
   then record_success backend s else record_failure backend now s)
  = health_step s (check_event m now backend status).
Proof.
  intros Hmin Hmax. unfold check_event, is_active_success_status. rewrite Hmin, Hmax.
  by case_match.
Qed.

Lemma health_step_active s e :
  active_success_status_min (health_step s e).1 = active_success_status_min s.1 ∧
  active_success_status_max (health_step s e).1 = active_success_status_max s.1.
Proof. by rewrite health_step_limits. Qed.

Lemma check_backend_shared b e t w :
  (∀ n s, env_others n s = s) → w_shared (check_backend b e t w).2 = w_shared w.
Proof.
  intros Hund. unfold check_backend. destruct (build_healthcheck_uri b e) as [[uri|]|]; [|done..].
  unfold mbind, stateM_bind, probe. cbv zeta. destruct (env_probe _ _).
  case_decide; simpl; by rewrite Hund.
Qed.

(** The state after a completed list of checks: one event per check, in order. *)
Lemma run_checks_events t checks w :
  (∀ n s, env_others n s = s) →
  (run_checks t checks w).1 = Finished →
  ∃ outcomes : list (StatusCode * Instant), length outcomes = length checks ∧
    sh_health (w_shared (run_checks t checks w).2) =
      foldl health_step (sh_health (w_shared w))
        (zip_with (λ c o, check_event (sh_health (w_shared w)).1 o.2 c.1 o.1) checks outcomes).
Proof.
  intros Hund. revert w. induction checks as [|[b e] checks IH]; intros w Hfin.
  { by exists []. }
  cbn [run_checks] in Hfin |- *. unfold mbind, stateM_bind in Hfin |- *. cbv zeta in Hfin |- *.
  pose proof (check_backend_shared b e t w Hund) as Hw1.
  destruct (check_backend b e t w) as [[status|] w1]; [|done]. cbn [fst snd] in *.
  unfold on_health, atomically in *. cbv zeta in *. cbn [fst snd] in *.
  set (w2 := set_shared _ _) in *.
  destruct (IH w2 Hfin) as (outcomes & Hlen & Heq).
  exists ((status, w_now (pass 0 w1)) :: outcomes). split; [simpl; by rewrite Hlen|].
  rewrite Heq. cbn [zip_with foldl fst snd].
  assert (sh_health (w_shared w2) = health_step (sh_health (w_shared w))
            (check_event (sh_health (w_shared w)).1 (w_now (pass 0 w1)) b status)) as ->.
  { subst w2. cbn [w_shared set_shared sh_health set_health pass]. rewrite Hund, Hw1.
    by apply check_step. }
  f_equal. apply zip_with_ext; [|done|done].
  intros [b' e'] [st' now']. unfold check_event at 1 3, is_active_success_status.
  cbn [fst snd].
  by destruct (health_step_active (sh_health (w_shared w))
    (check_event (sh_health (w_shared w)).1 (w_now (pass 0 w1)) b status)) as [-> ->].
Qed.

Lemma check_event_backends m (checks : list (string * string)) (outcomes : list (StatusCode * Instant)) :
  length outcomes = length checks →
  event_backend <$> zip_with (λ c o, check_event m o.2 c.1 o.1) checks outcomes = checks.*1.
Proof.
  revert outcomes. induction checks as [|[b e] checks IH]; intros [|[st now] outcomes] Hlen;
    try done. simpl in *. rewrite IH by lia. f_equal. unfold check_event. by case_match.
Qed.

(** Well-formedness survives every step of the checks, whatever the other tasks do. *)
Definition shared_health_wf (s : Shared) : Prop := hm_wf (sh_health s).1.

Lemma keeps_bind {A B} (I : nat → Shared → Prop) (m : stateM World A) (k : A → stateM World B) :
  keeps I m → (∀ a, keeps I (k a)) → keeps I (m ≫= k).
Proof. apply preserves_bind. Qed.

Lemma check_backend_keeps (I : nat → Shared → Prop) b e t : Stable I → keeps I (check_backend b e t).
Proof.
  intros HI. unfold check_backend. destruct (build_healthcheck_uri b e) as [[uri|]|];
    [|apply preserves_ret..].
  apply keeps_bind; [|intros; apply preserves_ret].
  intros w Hw. unfold probe. destruct (env_probe _ _). by case_decide; apply stable.
Qed.

Lemma run_checks_keeps t checks :
  Stable (λ _, shared_health_wf) → keeps (λ _, shared_health_wf) (run_checks t checks).
Proof.
  intros HI. induction checks as [|[b e] checks IH]; cbn [run_checks]; [apply preserves_ret|].
  apply keeps_bind; [by apply check_backend_keeps|]. intros [status|]; [|apply preserves_ret].
  apply keeps_bind; [|done]. apply keeps_atomically; [done|]. intros n now s Hs.
  unfold shared_health_wf in *. cbn [sh_health set_health snd].
  rewrite (check_step (sh_health s).1 b status now (sh_health s)) by done.
  by apply health_step_wf.
Qed.

(** * The correctness of the active checks *)

(** C23: with a valid configuration, a completed pass gives every configured backend exactly
    one verdict, in some order: the health of the backends is the one before, after one
    success or failure event per backend. *)
Theorem active_pass_checks_each_backend_once `{!HashIterLaws} c w :
  Config_ok c → (∀ n s, env_others n s = s) →
  (run_active_check_pass c w).1 = Finished →
  ∃ es, sh_health (w_shared (run_active_check_pass c w).2)
          = foldl health_step (sh_health (w_shared w)) es ∧
    NoDup (event_backend <$> es) ∧
    (∀ b, b ∈ event_backend <$> es ↔ ∃ r, r ∈ cfg_routes c ∧ b ∈ rt_backends r) ∧
    Forall (λ e, (∃ b, e = HSuccess b) ∨ ∃ b now, e = HFailure b now) es.
Proof.
  intros Hok Hund Hfin. unfold run_active_check_pass, run_active_check_pass_with_client in *.
  destruct (run_checks_events _ _ _ Hund Hfin) as (outcomes & Hlen & Heq).
  destruct (unique_backend_checks_once c) as [Hnd Hin]; [apply Hok|].
  eexists. split; [exact Heq|]. rewrite check_event_backends by done.
  split; [done|]. split; [done|].
  apply Forall_forall. intros e. rewrite elem_of_lookup_zip_with.
  intros (i & [b ep] & [st now] & -> & _). unfold check_event. case_match; eauto.
Qed.

(** While other tasks keep the health state well-formed, a pass does so too, even if it
    panics half way. *)
Theorem active_pass_keeps_invariant c w :
  (∀ n s, shared_health_wf s → shared_health_wf (env_others n s)) →
  shared_health_wf (w_shared w) → shared_health_wf (w_shared (run_active_check_pass c w).2).
Proof. intros HI. by apply (run_checks_keeps _ _ HI). Qed.

(** The background task ends with the shutdown signal: once the channel says so, it runs
    no further pass and touches nothing, unless a pass has panicked before. *)
Theorem active_checks_stop c before after is_err value w :
  is_err || value = true →
  let stopped := spawn_active_checks c (before ++ ShutdownChanged is_err value :: after) w in
  stopped = spawn_active_checks c (before ++ [ShutdownChanged is_err value]) w ∧
  stopped.1 ≠ Running.
Proof.
  intros Hstop. cbv zeta. revert w. induction before as [|wk before IH]; intros w.
  { simpl. by rewrite Hstop. }
  destruct wk as [|e v]; simpl; unfold mbind, stateM_bind; cbv zeta.
  - destruct (run_active_check_pass_with_client _ _ w) as [[] w1]; simpl; [|done|]; apply IH.
  - destruct (e || v); [done|]. apply IH.
Qed.

End checks.

(** ** Witnesses *)

From S2P Require Import Instances Scenario.

Lemma active_pass_checks_each_backend_once_witness :
  let E := all_answer 200 in
  ∃ es, sh_health (w_shared (run_active_check_pass scenario_config scenario_world).2)
          = foldl health_step (scenario_manager, Telemetry_new scenario_routes) es ∧
    NoDup (event_backend <$> es) ∧ "http://b" ∈ event_backend <$> es.
Proof.
  intros E.
  destruct (active_pass_checks_each_backend_once scenario_config scenario_world
    scenario_config_ok) as (es & Heq & Hnd & Hin & _);
    [by intros|vm_compute; reflexivity|].
  exists es. split; [exact Heq|]. split; [exact Hnd|]. apply Hin.
  exists (sample_route "/web" ["http://b"]). split; [right; by left|by left].
Defined.

Lemma active_pass_keeps_invariant_witness :
  let E := all_answer 503 in
  shared_health_wf (w_shared (run_active_check_pass scenario_config scenario_world).2).
Proof.
  intros E. apply (active_pass_keeps_invariant scenario_config scenario_world); [by intros|].
  apply scenario_manager_wf.
Defined.

Lemma active_checks_stop_witness :
  let E := all_answer 200 in
  (spawn_active_checks scenario_config
     ([IntervalTick] ++ ShutdownChanged false true :: [IntervalTick]) scenario_world).1 ≠ Running.
Proof.
  intros E. by apply (active_checks_stop scenario_config [IntervalTick] [IntervalTick] false true
    scenario_world).
Defined.
