(* ===== verification/SharedSteps.v ===== *)
(** The steps the tasks of the proxy take on the state they share, as a relation, and the
    invariants that survive them.

    [shared_step] lists every atomic update outside the semaphore: recording in the
    telemetry, an operation on the health of the backends, a selection, a new request
    identifier.  [Ordinary] is the interface between the code that takes these steps and the
    invariants proved of it: the theorems about the handlers hold for every [Ordinary]
    property, and an invariant is [Ordinary] once it survives each step and the other tasks.
    It may depend on how many steps the task has done, as what the others hold does. *)

From S2P Require Import Prelude RustStd Externals Config Telemetry Health Balancing.
From S2P Require Import Runtime HealthChecks.
From stdpp Require Import options.

(** * Recording in the telemetry *)

(** What the proxy records outside the health manager: the counters and the log. *)
Inductive TeleOp :=
  | RecordRequest
  | RecordLatency (latency : Duration)
  | RecordStatus (status : N)
  | RecordError (kind : string)
  | WriteLog (level event : string) (fields : list (string * string)).

Definition tele_op (op : TeleOp) : Telemetry → Telemetry :=
  match op with
  | RecordRequest => record_request
  | RecordLatency latency => record_upstream_latency latency
  | RecordStatus status => record_response_status status
  | RecordError kind => record_proxy_error kind
  | WriteLog level event fields => log level event fields
  end.

(** The methods of [Telemetry] that are such operations. *)
Class Records (f : Telemetry → Telemetry) : Prop := records : ∃ op, f = tele_op op.

#[export] Instance records_request : Records record_request.
Proof. by exists RecordRequest. Qed.
#[export] Instance records_latency d : Records (record_upstream_latency d).
Proof. by exists (RecordLatency d). Qed.
#[export] Instance records_status s : Records (record_response_status s).
Proof. by exists (RecordStatus s). Qed.
#[export] Instance records_error k : Records (record_proxy_error k).
Proof. by exists (RecordError k). Qed.
#[export] Instance records_log level event fields : Records (log level event fields).
Proof. by exists (WriteLog level event fields). Qed.
#[export] Instance records_request_complete method path backend status latency kind id :
  Records (log_request_complete method path backend status latency kind id).
Proof. apply records_log. Qed.
#[export] Instance records_retry_attempt method path backend attempt reason :
  Records (log_retry_attempt method path backend attempt reason).
Proof. apply records_log. Qed.
#[export] Instance records_startup_warning route reason : Records (log_startup_warning route reason).
Proof. apply records_log. Qed.
#[export] Instance records_background_failure task err :
  Records (log_background_task_failure task err).
Proof. apply records_log. Qed.

Section steps.
Context `{Platform}.

(** * The steps *)

Inductive shared_step (s : Shared) : Shared → Prop :=
  | step_telemetry op :
      shared_step s (set_health ((sh_health s).1, tele_op op (sh_health s).2) s)
  | step_health op : shared_step s (set_health (op_step (sh_health s) op) s)
  | step_select route eligible :
      shared_step s (set_balancer (select_backend (sh_balancer s) route eligible).2 s)
  | step_request_id : shared_step s (set_request_id (u64_add (sh_request_id s) 1) s).

Context `{!Environment}.

(** [I] survives the steps of this task and whatever the other tasks do. *)
Class Ordinary (I : nat → Shared → Prop) : Prop := {
  ordinary_stable n s : I n s → I (S n) (env_others n s);
  ordinary_step n s s' : shared_step s s' → I n s → I n s';
}.

#[export] Instance ordinary_is_stable I `{!Ordinary I} : Stable I.
Proof. intros n s. apply ordinary_stable. Qed.

(** Acquiring a permit leads from [I] to [J], dropping it leads back. *)
Class Guarded (I J : nat → Shared → Prop) : Prop := {
  guarded_free :: Ordinary I;
  guarded_held :: Ordinary J;
  guarded_acquire n s sem :
    sem_try_acquire (sh_semaphore s) = Some sem → I n s → J n (set_semaphore sem s);
  guarded_release n s : J n s → I n (set_semaphore (sem_release (sh_semaphore s)) s);
}.

(** * Computations that keep an invariant *)

Lemma keeps_fmap {A B} (I : nat → Shared → Prop) (f : A → B) (m : stateM World A) :
  keeps I m → keeps I (f <$> m).
Proof. apply preserves_fmap. Qed.

Lemma keeps_ret {A} (I : nat → Shared → Prop) (a : A) : keeps I (mret (M := stateM World) a).
Proof. apply preserves_ret. Qed.

Lemma keeps_forM {A} (I : nat → Shared → Prop) (l : list A) (f : A → stateM World unit) :
  (∀ x, keeps I (f x)) → keeps I (forM l f).
Proof. intros Hf. apply preserves_forM. intros x _. apply Hf. Qed.

Section ordinary.
#[local] Set Default Proof Using "Type*".
Context (I : nat → Shared → Prop) `{!Ordinary I}.

(** An atomic access that leaves the state alone or takes one step. *)
Lemma keeps_step {A} (f : Instant → Shared → A * Shared) :
  (∀ now s, (f now s).2 = s ∨ shared_step s (f now s).2) → keeps I (atomically f).
Proof.
  intros Hf. apply keeps_atomically; [apply _|]. intros n now s Hs.
  destruct (Hf now s) as [->|Hstep]; [done|]. by eapply ordinary_step.
Qed.

Lemma keeps_pause d : keeps I (sleep d).
Proof. apply keeps_sleep. apply _. Qed.

Lemma keeps_instant_now : keeps I instant_now.
Proof. apply keeps_step. by left. Qed.

Lemma keeps_on_telemetry f `{!Records f} : keeps I (on_telemetry f).
Proof.
  apply keeps_step. intros now s. right. destruct (records (f := f)) as [op ->].
  apply (step_telemetry s op).
Qed.

Lemma keeps_on_health f :
  (∀ now h, ∃ op, f now h = op_step h op) → keeps I (on_health f).
Proof.
  intros Hf. apply keeps_step. intros now s. right.
  destruct (Hf now (sh_health s)) as [op Hop]. cbn [snd]. rewrite Hop. apply step_health.
Qed.

(** A query whose effect on the manager is the operation [op]. *)
Lemma keeps_query {A} (f : Instant → HealthManager → A * HealthManager) (op : Instant → HealthOp) :
  (∀ now s, op_step s (op now) = ((f now s.1).2, s.2)) → keeps I (query_health f).
Proof.
  intros Hf. apply keeps_step. intros now s. right.
  pose proof (step_health s (op now)) as Hstep. rewrite Hf in Hstep.
  by destruct (f now (sh_health s).1).
Qed.

Lemma keeps_query_statuses : keeps I (query_health backend_statuses).
Proof. by apply (keeps_query _ OpStatuses). Qed.

Lemma keeps_query_healthy route : keeps I (query_health (healthy_backends route)).
Proof. by apply (keeps_query _ (OpHealthyBackends route)). Qed.

Lemma keeps_query_dead_pools routes : keeps I (query_health (λ now, startup_dead_pools routes now)).
Proof. by apply (keeps_query _ (OpDeadPools routes)). Qed.

(** ** The active checks *)

Lemma keeps_run_checks t checks : keeps I (run_checks t checks).
Proof.
  induction checks as [|[b e] checks IH]; cbn [run_checks]; [apply keeps_ret|].
  apply keeps_bind; [apply check_backend_keeps, _|]. intros [status|]; [|apply keeps_ret].
  apply keeps_bind; [|done]. apply keeps_on_health. intros now h.
  case_match; [by exists (OpSuccess b)|by exists (OpFailure b now)].
Qed.

Lemma keeps_spawn_active_checks c wakes : keeps I (spawn_active_checks c wakes).
Proof.
  induction wakes as [|[|is_err value] wakes IH]; cbn [spawn_active_checks]; [apply keeps_ret|..].
  - apply keeps_bind; [apply keeps_run_checks|]. intros []; [done|apply keeps_ret|done].
  - case_match; [apply keeps_ret|done].
Qed.

End ordinary.

End steps.

(** Decomposes a computation into the steps above. *)
Ltac keeps_tac :=
  repeat
    match goal with
    | |- keeps _ (mret _) => apply keeps_ret
    | |- keeps _ (_ <$> _) => apply keeps_fmap
    | |- keeps _ (_ ≫= _) => apply keeps_bind; [|intros ?]
    | |- keeps _ instant_now => by apply keeps_instant_now
    | |- keeps _ (on_telemetry _) => by apply keeps_on_telemetry; apply _
    | |- keeps _ (sleep _) => by apply keeps_pause
    | |- keeps _ (query_health backend_statuses) => by apply keeps_query_statuses
    | |- keeps _ (query_health (healthy_backends _)) => by apply keeps_query_healthy
    | |- keeps _ (match _ with _ => _ end) => case_match
    | |- keeps _ (if _ then _ else _) => case_match
    end.
