(* ===== verification/Upstream.v ===== *)
(** [src/upstream/mod.rs]: forwarding a request to a backend.  The errors and their texts, the
    headers that are stripped and set, the body stream with its size limit and idle timeout,
    and the call of the HTTP client under a timeout. *)

From Stdlib Require Import Ascii.
From S2P Require Import Prelude RustStd Externals Config Telemetry Health Balancing Runtime.
From stdpp Require Import options.

Section upstream.
Context `{Platform}.

(** * Data *)

Definition X_FORWARDED_FOR : HeaderName := name_from_static "x-forwarded-for".
Definition X_FORWARDED_PROTO : HeaderName := name_from_static "x-forwarded-proto".
Definition FORWARDED : HeaderName := name_from_static "forwarded".
Definition PROXY_CONNECTION : HeaderName := name_from_static "proxy-connection".
Definition KEEP_ALIVE : HeaderName := name_from_static "keep-alive".
(** constants of [hyper::header] *)
Definition HOST : HeaderName := name_from_static "host".
Definition CONNECTION : HeaderName := name_from_static "connection".
Definition CONTENT_LENGTH : HeaderName := name_from_static "content-length".

(** The HTTP client itself is the environment's [env_reply]. *)
Record UpstreamClient := {
  max_request_body_bytes : N;
  max_response_body_bytes : N;
}.

Inductive UpstreamError :=
  | InvalidBackendUrl (err : string)
  | InvalidUri (err : string)
  | ConnectTimeout (duration : Duration)
  | ConnectionRefused (err : ClientError)
  | InvalidResponse (err : ClientError)
  | RequestFailed (err : ClientError)
  | ResponseTooLarge (limit content_length : N).

Definition UpstreamError_kind (e : UpstreamError) : string :=
  match e with
  | InvalidBackendUrl _ => "invalid_backend_url"
  | InvalidUri _ => "invalid_upstream_uri"
  | ConnectTimeout _ => "upstream_connect_timeout"
  | ConnectionRefused _ => "upstream_connection_refused"
  | InvalidResponse _ => "invalid_upstream_response"
  | RequestFailed _ => "upstream_request_failed"
  | ResponseTooLarge _ _ => "response_body_too_large"
  end.

Definition UpstreamError_fmt (e : UpstreamError) : string :=
  match e with
  | InvalidBackendUrl err => "invalid backend URL: " +:+ err
  | InvalidUri err => "invalid upstream request URI: " +:+ err
  | ConnectTimeout duration =>
      "upstream connect or response-header timeout after "
      +:+ pretty (as_millis duration) +:+ " ms"
  | ConnectionRefused _ => "upstream connection refused"
  | InvalidResponse _ => "upstream sent an invalid HTTP response"
  | RequestFailed err => "upstream request failed: " +:+ client_to_string err
  | ResponseTooLarge limit content_length =>
      "upstream response body exceeds limit: content-length " +:+ pretty content_length
      +:+ " bytes over " +:+ pretty limit +:+ " byte limit"
  end.

Definition UpstreamClient_new (c : UpstreamConfig) : UpstreamClient := {|
  max_request_body_bytes := up_max_request_body_bytes c;
  max_response_body_bytes := up_max_response_body_bytes c;
|}.

Definition UpstreamClient_default : UpstreamClient := UpstreamClient_new UpstreamConfig_default.

Definition full_body (body : string) : ProxyBody := FullBody body.

(** [Response::builder().status(status).body(body)] *)
Definition build_response (status : StatusCode) (body : ProxyBody) : Response ProxyBody := {|
  resp_status := status; resp_version := "HTTP/1.1"; resp_headers := headers_empty;
  resp_body := body;
|}.

Definition bad_gateway_response (err : UpstreamError) : Response ProxyBody :=
  let status := match err with ConnectTimeout _ => 504%N | _ => 502%N end in
  build_response status (full_body ("bad gateway: " +:+ UpstreamError_fmt err +:+ newline)).

(** * Targets and errors *)

Definition build_upstream_uri (backend : Url) (request_uri : Uri) : result UpstreamError Uri :=
  let url := url_set_path (uri_path request_uri) backend in
  let url := url_set_query (uri_query request_uri) url in
  match uri_parse (url_as_str url) with
  | Ok uri => Ok uri
  | Err err => Err (InvalidUri err)
  end.

(** The [while let Some(source) = current] loops, on the chain of sources. *)
Fixpoint source_has_io_kind (chain : list ErrorSource) (expected : IoErrorKind) : bool :=
  match chain with
  | [] => false
  | source :: chain =>
      match as_io source with
      | Some kind => if decide (kind = expected) then true else source_has_io_kind chain expected
      | None => source_has_io_kind chain expected
      end
  end.
Fixpoint source_has_invalid_response (chain : list ErrorSource) : bool :=
  match chain with
  | [] => false
  | source :: chain =>
      match as_hyper source with
      | Some (is_parse, is_incomplete_message) =>
          if is_parse || is_incomplete_message then true else source_has_invalid_response chain
      | None => source_has_invalid_response chain
      end
  end.

Definition classify_request_error (err : ClientError) : UpstreamError :=
  if client_is_connect err && source_has_io_kind (client_chain err) IoConnectionRefused
  then ConnectionRefused err
  else if negb (client_is_connect err) || source_has_invalid_response (client_chain err)
  then InvalidResponse err
  else RequestFailed err.

(** * Headers *)

Definition format_forwarded_for (value : string) : string :=
  if contains_char ":" value
  then String dquote ("[" +:+ value +:+ "]" +:+ String dquote "") else value.

Definition backend_authority (backend_url : Url) : option string :=
  host ← url_host_str backend_url;
  Some (match url_port backend_url with
        | Some port => host +:+ ":" +:+ pretty port
        | None => host
        end).

(** [if let Ok(value) = HeaderValue::from_str(text) { headers.insert(name, value); }] *)
Definition insert_text (name : HeaderName) (text : string) (headers : HeaderMap) : HeaderMap :=
  match value_from_str text with
  | Some value => headers_insert name value headers
  | None => headers
  end.

Definition apply_forwarding_headers (headers : HeaderMap) (backend_url : Url)
    (client_addr : option SocketAddr) : HeaderMap :=
  let headers := headers_remove HOST headers in
  let headers := headers_remove X_FORWARDED_FOR headers in
  let headers := headers_remove X_FORWARDED_PROTO headers in
  let headers := headers_remove FORWARDED headers in
  let headers := match backend_authority backend_url with
                 | Some authority => insert_text HOST authority headers
                 | None => headers
                 end in
  match client_addr with
  | Some client_addr =>
      let client_ip := addr_ip client_addr in
      let headers := insert_text X_FORWARDED_FOR client_ip headers in
      let headers := insert_text X_FORWARDED_PROTO "http" headers in
      let forwarded := "for=" +:+ format_forwarded_for client_ip +:+ ";proto=http" in
      insert_text FORWARDED forwarded headers
  | None => headers
  end.

(** The names stripped from every message. *)
Definition hop_by_hop_names : list HeaderName :=
  [CONNECTION; KEEP_ALIVE; name_from_static "proxy-authenticate";
   name_from_static "proxy-authorization"; name_from_static "te";
   name_from_static "trailer"; name_from_static "transfer-encoding";
   name_from_static "upgrade"; PROXY_CONNECTION].

(** The names listed in the value of [Connection]. *)
Definition connection_tokens (value : string) : list HeaderName :=
  omap (λ token, name_from_bytes (to_ascii_lowercase (trim token))) (split_char "," value).

Definition sanitize_hop_by_hop_headers (headers : HeaderMap) : HeaderMap :=
  let strip_names : gset HeaderName := list_to_set hop_by_hop_names in
  let strip_names :=
    match headers_get headers CONNECTION with
    | Some value =>
        match value_to_str value with
        | Some value =>
            foldl (λ names name, {[name]} ∪ names) strip_names (connection_tokens value)
        | None => strip_names
        end
    | None => strip_names
    end in
  foldl (λ headers name, headers_remove name headers) headers (hash_iter strip_names).

Definition content_length_exceeds (headers : HeaderMap) (limit : N) : option N :=
  value ← headers_get headers CONTENT_LENGTH;
  text ← value_to_str value;
  content_length ← parse_u64 text;
  if decide (limit < content_length)%N then Some content_length else None.

(** * Bodies *)

Definition timeout_error (duration : Duration) (context : string) : string :=
  context +:+ " idle timeout: no data received for " +:+ pretty (as_millis duration) +:+ " ms".
Definition size_limit_error (limit : N) (context : string) : string :=
  context +:+ " exceeded " +:+ pretty limit +:+ " byte limit".

Definition timeout_kind (context : string) : string :=
  if decide (context = "client request body") then "client_body_timeout"
  else if decide (context = "upstream response body") then "upstream_response_body_timeout"
  else "stream_timeout".
Definition read_failure_kind (context : string) : string :=
  if decide (context = "client request body") then "client_request_body_read_failed"
  else if decide (context = "upstream response body") then "upstream_response_body_read_failed"
  else "stream_read_failed".
Definition size_limit_kind (context : string) : string :=
  if decide (context = "client request body") then "request_body_too_large"
  else if decide (context = "upstream response body") then "response_body_too_large"
  else "stream_too_large".

Definition limit_body_stream (body : Body) (max_bytes : N) (idle_timeout : Duration)
    (context : string) (error_hook : option ErrorHook) : ProxyBody :=
  StreamBody {| lb_items := timed_items idle_timeout body; lb_max_bytes := max_bytes;
                lb_idle_timeout := idle_timeout; lb_context := context;
                lb_hook := error_hook |}.

(** What the consumer of a body receives from one poll. *)
Inductive Frame := Data (bytes : string) | BodyError (err : string).

(** The closure of [map]: the new [seen], the kind of error it notifies, and the frame. *)
Definition limit_item (b : LimitedBody) (seen : N) (item : Polled)
    : N * option string * Frame :=
  match item with
  | Chunk data =>
      let seen := u64_add seen (str_len data) in
      if decide (lb_max_bytes b < seen)%N
      then (seen, Some (size_limit_kind (lb_context b)),
            BodyError (size_limit_error (lb_max_bytes b) (lb_context b)))
      else (seen, None, Data data)
  | ReadError err => (seen, Some (read_failure_kind (lb_context b)), BodyError err)
  | IdleElapsed =>
      (seen, Some (timeout_kind (lb_context b)),
       BodyError (timeout_error (lb_idle_timeout b) (lb_context b)))
  end.

(** The polls of the stream, from [seen] bytes on. *)
Fixpoint limit_polls (b : LimitedBody) (seen : N) (items : list (Duration * Polled))
    : list (option string * Frame) :=
  match items with
  | [] => []
  | (_, item) :: items =>
      let '(seen, kind, frame) := limit_item b seen item in
      (kind, frame) :: limit_polls b seen items
  end.
Definition body_polls (b : LimitedBody) : list (option string * Frame) :=
  limit_polls b 0 (lb_items b).

Definition frame_bytes (f : Frame) : string := match f with Data s => s | BodyError _ => "" end.

Context `{!Environment}.

(** The effect of a closure passed as hook, which [forward_request] builds. *)
Definition run_hook (hook : ErrorHook) (kind : string) : stateM World unit :=
  match hook with
  | RequestErrorHook => on_telemetry (record_proxy_error kind)
  | ResponseErrorHook backend =>
      _ ← on_telemetry (record_proxy_error kind);
      on_health (record_failure backend)
  end.

Definition notify_error (hook : option ErrorHook) (kind : string) : stateM World unit :=
  match hook with Some hook => run_hook hook kind | None => mret tt end.

(** The effects of the first [n] polls of a body. *)
Definition poll_body (n : nat) (body : ProxyBody) : stateM World unit :=
  match body with
  | FullBody _ => mret tt
  | StreamBody b =>
      forM (take n (body_polls b)) (λ poll,
        match poll.1 with Some kind => notify_error (lb_hook b) kind | None => mret tt end)
  end.

(** * Forwarding *)

(** [timeout(limit, self.client.request(request)).await]; [None] is the timeout. *)
Definition client_request (limit : Duration) (backend : string) (request : Request ProxyBody)
    : stateM World (option (result ClientError (Response Body))) :=
  reply ← (λ w, (env_reply (w_tick w) request,
                 {| w_now := w_now w; w_tick := w_tick w; w_shared := w_shared w;
                    w_sent := w_sent w ++ [{| sent_backend := backend; sent_at := w_now w;
                                              sent_request := request |}] |}));
  _ ← poll_body (reply_polled reply) (req_body request);
  if decide (reply_after reply ≤ limit)%N
  then _ ← sleep (reply_after reply); mret (Some (reply_result reply))
  else _ ← sleep limit; mret None.

(** The request that goes upstream; the extensions are not copied. *)
Definition upstream_request (client : UpstreamClient) (backend_url : Url) (upstream_uri : Uri)
    (request : Request Body) (client_addr : option SocketAddr)
    (client_body_timeout : Duration) (request_error_hook : option ErrorHook)
    : Request ProxyBody := {|
  req_method := req_method request;
  req_uri := upstream_uri;
  req_version := req_version request;
  req_headers := apply_forwarding_headers
    (sanitize_hop_by_hop_headers (req_headers request)) backend_url client_addr;
  req_remote_addr := None;
  req_body := limit_body_stream (req_body request) (max_request_body_bytes client)
    client_body_timeout "client request body" request_error_hook;
|}.

(** What becomes of the outcome of the call. *)
Definition finish_forward (client : UpstreamClient) (connect_timeout read_timeout : Duration)
    (response_error_hook : option ErrorHook)
    (outcome : option (result ClientError (Response Body)))
    : result UpstreamError (Response ProxyBody) :=
  match outcome with
  | None => Err (ConnectTimeout connect_timeout)
  | Some (Err err) => Err (classify_request_error err)
  | Some (Ok response) =>
      match content_length_exceeds (resp_headers response) (max_response_body_bytes client) with
      | Some content_length =>
          Err (ResponseTooLarge (max_response_body_bytes client) content_length)
      | None => Ok {|
          resp_status := resp_status response;
          resp_version := resp_version response;
          resp_headers := sanitize_hop_by_hop_headers (resp_headers response);
          resp_body := limit_body_stream (resp_body response) (max_response_body_bytes client)
            read_timeout "upstream response body" response_error_hook;
        |}
      end
  end.

Definition forward (client : UpstreamClient) (backend : string) (request : Request Body)
    (client_addr : option SocketAddr) (connect_timeout read_timeout : Duration)
    (client_body_timeout : Duration) (request_error_hook response_error_hook : option ErrorHook)
    : stateM World (result UpstreamError (Response ProxyBody)) :=
  match url_parse backend with
  | Err err => mret (Err (InvalidBackendUrl err))
  | Ok backend_url =>
      match build_upstream_uri backend_url (req_uri request) with
      | Err err => mret (Err err)
      | Ok upstream_uri =>
          outcome ← client_request connect_timeout backend
            (upstream_request client backend_url upstream_uri request client_addr
               client_body_timeout request_error_hook);
          mret (finish_forward client connect_timeout read_timeout response_error_hook outcome)
      end
  end.

(** * Lemmas: what a task sends *)

Lemma silent_run_hook hook kind : silent (run_hook hook kind).
Proof.
  destruct hook; simpl; [apply silent_atomically|].
  apply silent_bind; [|intros _]; apply silent_atomically.
Qed.

Lemma silent_poll_body n body : silent (poll_body n body).
Proof.
  destruct body as [s|b]; simpl; [apply silent_ret|]. apply silent_forM. intros [[kind|] f]; simpl;
    [|apply silent_ret]. destruct (lb_hook b); simpl; auto using silent_run_hook, silent_ret.
Qed.

(** The client is called once, with this request, at the current time. *)
Lemma client_request_sent limit backend request w :
  w_sent (client_request limit backend request w).2 =
    w_sent w ++ [{| sent_backend := backend; sent_at := w_now w; sent_request := request |}].
Proof.
  unfold client_request, mbind, stateM_bind. cbv zeta. cbn [fst snd].
  case_decide; cbn [fst snd sleep w_sent pass mret stateM_ret];
    rewrite silent_poll_body; done.
Qed.

(** [forward] sends at most one request, and sends nothing when the target is invalid. *)
Lemma forward_sent client backend request addr ct rt bt h1 h2 w :
  w_sent (forward client backend request addr ct rt bt h1 h2 w).2 =
    w_sent w ++
    match url_parse backend with
    | Ok url =>
        match build_upstream_uri url (req_uri request) with
        | Ok uri => [{| sent_backend := backend; sent_at := w_now w;
                        sent_request := upstream_request client url uri request addr bt h1 |}]
        | Err _ => []
        end
    | Err _ => []
    end.
Proof.
  unfold forward. destruct (url_parse backend) as [url|]; [|by rewrite app_nil_r].
  destruct (build_upstream_uri url (req_uri request)) as [uri|]; [|by rewrite app_nil_r].
  unfold mbind, stateM_bind. cbv zeta. apply client_request_sent.
Qed.

(** * Lemmas on header maps *)

Lemma remove_all_get headers names n :
  HeaderLaws →
  headers_get_all (foldl (λ headers name, headers_remove name headers) headers names) n =
    if decide (n ∈ names) then [] else headers_get_all headers n.
Proof.
  intros HL. revert headers. induction names as [|n' names IH]; intros headers; cbn [foldl].
  { by rewrite decide_False by apply not_elem_of_nil. }
  rewrite IH. pose proof (elem_of_cons names n n') as Hiff.
  destruct (decide (n = n')) as [->|Hne].
  - rewrite remove_get_all. rewrite (decide_True (P := n' ∈ n' :: names)) by left.
    by case_decide.
  - rewrite remove_get_all_ne by done. repeat case_decide; naive_solver.
Qed.

Lemma insert_text_get name text headers :
  HeaderLaws →
  ∀ n, headers_get_all (insert_text name text headers) n =
    match value_from_str text with
    | Some v => if decide (n = name) then [v] else headers_get_all headers n
    | None => headers_get_all headers n
    end.
Proof.
  intros HL n. unfold insert_text. destruct (value_from_str text); [|done].
  case_decide; subst; [apply insert_get_all|]. by apply insert_get_all_ne.
Qed.

Lemma insert_text_get_ne name text headers n :
  HeaderLaws → n ≠ name →
  headers_get_all (insert_text name text headers) n = headers_get_all headers n.
Proof. intros. rewrite insert_text_get by done. case_match; [by rewrite decide_False|done]. Qed.

(** Inserting under a name without values. *)
Lemma insert_text_get_eq name text headers :
  HeaderLaws → headers_get_all headers name = [] →
  headers_get_all (insert_text name text headers) name = option_list (value_from_str text).
Proof. intros. rewrite insert_text_get by done. case_match; [by rewrite decide_True|done]. Qed.

Lemma strip_names_elem names tokens (n : HeaderName) :
  n ∈ foldl (λ (names : gset HeaderName) name, {[name]} ∪ names) names tokens ↔
  n ∈ names ∨ n ∈ tokens.
Proof.
  revert names. induction tokens as [|t tokens IH]; intros names; cbn [foldl].
  - pose proof (not_elem_of_nil n). naive_solver.
  - rewrite IH, elem_of_union, elem_of_singleton, elem_of_cons. naive_solver.
Qed.

(** The names that [Connection] lists, when its first value is text. *)
Definition listed_names (headers : HeaderMap) : list HeaderName :=
  match headers_get headers CONNECTION ≫= value_to_str with
  | Some value => connection_tokens value
  | None => []
  end.

Lemma sanitize_get headers n :
  HeaderLaws → HashIterLaws →
  headers_get_all (sanitize_hop_by_hop_headers headers) n =
    if decide (n ∈ hop_by_hop_names ++ listed_names headers) then []
    else headers_get_all headers n.
Proof.
  intros HL HI. unfold sanitize_hop_by_hop_headers. rewrite remove_all_get by done.
  set (names := match headers_get headers CONNECTION with Some _ => _ | None => _ end).
  assert (n ∈ hash_iter names ↔ n ∈ hop_by_hop_names ++ listed_names headers) as Hiff.
  { rewrite hash_iter_perm, elem_of_elements, elem_of_app. unfold names, listed_names.
    pose proof (not_elem_of_nil n). rewrite <-(elem_of_list_to_set (C := gset HeaderName)).
    destruct (headers_get headers CONNECTION) as [v|]; simpl; [|naive_solver].
    destruct (value_to_str v); simpl; [apply strip_names_elem|naive_solver]. }
  repeat case_decide; naive_solver.
Qed.

(** The headers that belong to one connection: the nine of this list, and each one that the
    first [Connection] value names between its commas, in any case and with spaces around. *)
Definition hop_by_hop (headers : HeaderMap) (n : HeaderName) : Prop :=
  n ∈ name_from_static <$> ["connection"; "keep-alive"; "proxy-authenticate";
        "proxy-authorization"; "te"; "trailer"; "transfer-encoding"; "upgrade";
        "proxy-connection"] ∨
  ∃ field rest value item,
    headers_get_all headers (name_from_static "connection") = field :: rest ∧
    value_to_str field = Some value ∧ item ∈ split_char "," value ∧
    name_from_bytes (to_ascii_lowercase (trim item)) = Some n.

Lemma listed_names_elem headers n :
  n ∈ listed_names headers ↔
  ∃ field rest value item,
    headers_get_all headers (name_from_static "connection") = field :: rest ∧
    value_to_str field = Some value ∧ item ∈ split_char "," value ∧
    name_from_bytes (to_ascii_lowercase (trim item)) = Some n.
Proof.
  unfold listed_names, headers_get, CONNECTION, connection_tokens.
  destruct (headers_get_all headers _) as [|field rest]; simpl.
  { split; [by intros ?%not_elem_of_nil|]. by intros (? & ? & ? & ? & ? & _). }
  destruct (value_to_str field) as [value|] eqn:Hv.
  - rewrite list_elem_of_omap. split; [intros (item & Hin & Hn); by eexists _, _, _, _|].
    intros (? & ? & ? & item & [= <- <-] & Hv' & Hin & Hn). simplify_eq. by exists item.
  - split; [by intros ?%not_elem_of_nil|]. intros (? & ? & ? & ? & [= <- <-] & ? & _). congruence.
Qed.

Lemma hop_by_hop_elem headers n :
  n ∈ hop_by_hop_names ++ listed_names headers ↔ hop_by_hop headers n.
Proof. rewrite elem_of_app, listed_names_elem. done. Qed.

(** The target of a client's request at a backend: the backend's scheme and authority, and the
    client's path and query as the URL writes them, which is unchanged when they are plain. *)
Definition client_target (backend : Url) (request_uri target : Uri) : Prop :=
  uri_scheme target = Some "http" ∧ uri_host target = url_host_str backend ∧
  uri_port target = url_port backend ∧
  uri_path target = url_encode_path (uri_path request_uri) ∧
  uri_query target = url_encode_query <$> uri_query request_uri ∧
  (plain_path (uri_path request_uri) = true → uri_path target = uri_path request_uri) ∧
  (∀ q, uri_query request_uri = Some q → plain_query q = true → uri_query target = Some q).

Lemma build_upstream_uri_target s backend request_uri target :
  UrlLaws → TargetLaws → url_parse s = Ok backend → url_scheme backend = "http" →
  build_upstream_uri backend request_uri = Ok target → client_target backend request_uri target.
Proof.
  intros HU HT Hs Hh. unfold build_upstream_uri. cbv zeta.
  set (url := url_set_query _ _). destruct (uri_parse (url_as_str url)) as [uri|] eqn:Hp; [|done].
  intros [= <-].
  assert (url_built url) as Hb by (by eapply built_set_query, built_set_path, built_parse).
  assert (url_scheme url = "http") as Hsch
    by (unfold url; by rewrite url_scheme_set_query, url_scheme_set_path).
  destruct (uri_of_url url uri Hb Hsch Hp) as (Hscheme & Hhost & Hport & Hpath & Hquery).
  unfold url in Hhost, Hport, Hpath, Hquery.
  rewrite url_host_set_query, url_host_set_path in Hhost.
  rewrite url_port_set_query, url_port_set_path in Hport.
  rewrite url_path_set_query, url_path_set_path in Hpath by (by rewrite ?url_scheme_set_path).
  rewrite url_query_set_query in Hquery by (by rewrite url_scheme_set_path).
  split_and!; try done.
  - intros Hplain. by rewrite Hpath, encode_plain_path.
  - intros q Hq Hplain. rewrite Hquery, Hq. simpl. by rewrite encode_plain_query.
Qed.

Lemma static_name_ne s s' :
  HeaderLaws → to_ascii_lowercase s = s → to_ascii_lowercase s' = s' → s ≠ s' →
  name_from_static s ≠ name_from_static s'.
Proof. intros HL Hs Hs' Hne Heq. by apply Hne, name_from_static_inj. Qed.

(** The value of [Host], and those of the forwarding headers for a peer. *)
Definition host_value (url : Url) : option HeaderValue :=
  authority ← backend_authority url; value_from_str authority.
Definition forwarded_value (addr : SocketAddr) (n : HeaderName) : option HeaderValue :=
  value_from_str
    (if decide (n = X_FORWARDED_FOR) then addr_ip addr
     else if decide (n = X_FORWARDED_PROTO) then "http"
     else "for=" +:+ format_forwarded_for (addr_ip addr) +:+ ";proto=http").

(** Goals [name_from_static "..." ≠ name_from_static "..."]. *)
Ltac static_names := apply static_name_ne; [done|reflexivity|reflexivity|done].

(** * The correctness of forwarding *)

(** The bytes of the data frames among the polls. *)
Definition data_sent (polls : list (option string * Frame)) : string :=
  str_concat (frame_bytes ∘ snd <$> polls).

Lemma str_concat_cons a l : str_concat (a :: l) = a +:+ str_concat l.
Proof. done. Qed.

Lemma str_len_app a b : str_len (a +:+ b) = (str_len a + str_len b)%N.
Proof. unfold str_len. rewrite string_length_app. lia. Qed.

(** From [seen] bytes on: no wrap-around, so the counter is the sum, and it bounds the data. *)
Lemma limit_polls_bounded b seen items :
  (seen + str_len (items_bytes items) < u64_modulus)%N → (seen ≤ lb_max_bytes b)%N →
  (seen + str_len (data_sent (limit_polls b seen items)) ≤ lb_max_bytes b)%N.
Proof.
  intros Hlt Hseen.
  cut (∀ items seen, (seen + str_len (items_bytes items) < u64_modulus)%N →
    (str_len (data_sent (limit_polls b seen items)) ≤ lb_max_bytes b - seen)%N).
  { intros Hgen. specialize (Hgen items seen Hlt). lia. }
  clear. induction items as [|[d item] items IH]; intros seen Hlt; [simpl; unfold str_len; simpl; lia|].
  unfold items_bytes in Hlt. rewrite fmap_cons, str_concat_cons, str_len_app in Hlt.
  fold (items_bytes items) in Hlt. simpl in Hlt.
  cbn [limit_polls]. destruct item as [data|err|]; cbn [limit_item chunk_bytes] in *.
  - rewrite u64_add_small by lia. specialize (IH (seen + str_len data)%N ltac:(lia)).
    case_decide; unfold data_sent; rewrite fmap_cons, str_concat_cons, str_len_app;
      fold (data_sent (limit_polls b (seen + str_len data) items)); simpl;
      change (str_len "") with 0%N; lia.
  - change (str_len "") with 0%N in Hlt. by apply IH.
  - change (str_len "") with 0%N in Hlt. by apply IH.
Qed.

(** C9: the size limit holds: however often the stream is polled, also after an error, the
    data passed on is at most [max_bytes] in total.  The stream has less than [2^64] bytes,
    where the counter would wrap around. *)
Theorem limit_body_bounded b n :
  (str_len (items_bytes (lb_items b)) < u64_modulus)%N →
  (str_len (data_sent (take n (body_polls b))) ≤ lb_max_bytes b)%N.
Proof.
  intros Hlt. etrans; [|apply (limit_polls_bounded b 0 (lb_items b)); [done|lia]].
  rewrite N.add_0_l. fold (body_polls b).
  rewrite <-(take_drop n (body_polls b)) at 2. unfold data_sent.
  rewrite fmap_app. generalize (frame_bytes ∘ snd <$> take n (body_polls b)) as l.
  intros l. induction l as [|x l IH]; simpl; [unfold str_len; simpl; lia|].
  rewrite !str_len_app. simpl in IH. lia.
Qed.

Lemma limit_polls_transparent b seen items :
  Forall (λ i, ∃ c, i.2 = Chunk c) items →
  (seen + str_len (items_bytes items) ≤ lb_max_bytes b)%N →
  (lb_max_bytes b < u64_modulus)%N →
  limit_polls b seen items = (λ i, (None, Data (chunk_bytes i.2))) <$> items.
Proof.
  intros Hall. revert seen. induction Hall as [|[d item] items [c Hc] Hall IH];
    intros seen Hle Hmax; [done|]. simpl in Hc. subst item.
  unfold items_bytes in Hle. rewrite fmap_cons, str_concat_cons, str_len_app in Hle.
  fold (items_bytes items) in Hle. simpl in Hle.
  cbn [limit_polls limit_item]. rewrite u64_add_small by lia.
  rewrite decide_False by lia. simpl. f_equal. apply IH; [lia|done].
Qed.

(** A stream of non-empty chunks of at most [largest] bytes, which need not end. *)
Definition endless_chunks (largest : N) (stream : nat → Duration * Polled) : Prop :=
  ∀ i, ∃ data, (stream i).2 = Chunk data ∧ (0 < str_len data ≤ largest)%N.

(** What a consumer sees of such a stream: [i] chunks from number [start] on, and the error. *)
Definition cut_polls (b : LimitedBody) (stream : nat → Duration * Polled) (start i : nat)
    : list (option string * Frame) :=
  ((λ j, (None, Data (chunk_bytes (stream j).2))) <$> seq start i)
  ++ [(Some (size_limit_kind (lb_context b)),
       BodyError (size_limit_error (lb_max_bytes b) (lb_context b)))].

Lemma limit_polls_cut b stream largest k seen start :
  endless_chunks largest stream → (lb_max_bytes b + largest < u64_modulus)%N →
  (seen ≤ lb_max_bytes b)%N → (lb_max_bytes b - seen < N.of_nat k)%N →
  ∃ i, i < k ∧ limit_polls b seen (stream <$> seq start (S i)) = cut_polls b stream start i.
Proof.
  intros Hstream Hmax. revert seen start. induction k as [|k IH]; intros seen start Hseen Hk; [lia|].
  destruct (Hstream start) as (data & Hdata & Hlen). unfold cut_polls.
  destruct (decide (lb_max_bytes b < seen + str_len data)%N) as [Hover|Hin].
  - exists 0. split; [lia|]. simpl. destruct (stream start) as [d item]. simpl in Hdata. subst item.
    simpl. rewrite u64_add_small by lia. by rewrite decide_True.
  - destruct (IH (seen + str_len data)%N (S start) ltac:(lia) ltac:(lia)) as (i & Hi & Heq).
    exists (S i). split; [lia|]. change (seq start (S (S i))) with (start :: seq (S start) (S i)).
    rewrite fmap_cons. change (seq start (S i)) with (start :: seq (S start) i). rewrite fmap_cons.
    destruct (stream start) as [d item]. simpl in Hdata. subst item. cbn [limit_polls limit_item].
    rewrite u64_add_small, decide_False by lia. rewrite Heq. done.
Qed.

(** C16: A body within the limit that arrives without errors passes unchanged, chunk by
    chunk, and notifies nothing. *)
Theorem limit_body_transparent b :
  Forall (λ i, ∃ c, i.2 = Chunk c) (lb_items b) →
  (str_len (items_bytes (lb_items b)) ≤ lb_max_bytes b)%N → (lb_max_bytes b < u64_modulus)%N →
  body_polls b = (λ i, (None, Data (chunk_bytes i.2))) <$> lb_items b.
Proof. intros Hall Hle Hmax. by apply limit_polls_transparent. Qed.

(** C10: an endless body is cut: however long a stream of non-empty chunks goes on, the consumer
    gets the error after at most [max_bytes] chunks, and the chunks before it unchanged. *)
Theorem endless_body_is_cut b stream largest :
  endless_chunks largest stream → (lb_max_bytes b + largest < u64_modulus)%N →
  ∃ i, (N.of_nat i ≤ lb_max_bytes b)%N ∧
    limit_polls b 0 (stream <$> seq 0 (S i)) = cut_polls b stream 0 i.
Proof.
  intros Hstream Hmax.
  destruct (limit_polls_cut b stream largest (S (N.to_nat (lb_max_bytes b))) 0 0)
    as (i & Hi & Heq); [done|done|lia..|]. exists i. split; [lia|done].
Qed.

(** A poll that fails notifies the hook with its kind, and only such a poll does; nothing
    is dropped silently. *)
Theorem limit_body_reports b :
  length (body_polls b) = length (lb_items b) ∧
  Forall (λ poll, is_Some poll.1 ↔ ∃ err, poll.2 = BodyError err) (body_polls b).
Proof.
  unfold body_polls. generalize 0%N as seen. induction (lb_items b) as [|[d item] items IH];
    intros seen; simpl; [by split|].
  destruct (limit_item b seen item) as [[seen' kind] frame] eqn:Hi. simpl.
  destruct (IH seen') as [Hlen Hall]. split; [by rewrite Hlen|].
  constructor; [|done]. simpl. destruct item; simpl in Hi; repeat case_decide; simplify_eq;
    naive_solver.
Qed.

(** C17: the headers stripped from a message are exactly the nine hop-by-hop headers and those
    that the first [Connection] value names; every other header keeps all its values, in
    order. *)
Theorem sanitize_exact headers n :
  HeaderLaws → HashIterLaws →
  (hop_by_hop headers n → headers_get_all (sanitize_hop_by_hop_headers headers) n = []) ∧
  (¬ hop_by_hop headers n →
   headers_get_all (sanitize_hop_by_hop_headers headers) n = headers_get_all headers n).
Proof.
  intros HL HI. rewrite sanitize_get, <-hop_by_hop_elem by done. by case_decide.
Qed.

(** Contradictory or trivial cases of an analysis by header name. *)
Ltac name_cases :=
  try done; try intros ?; exfalso; rewrite ?elem_of_cons, ?elem_of_nil in *; intuition congruence.

(** C14: clients cannot spoof the forwarding headers.  Of [X-Forwarded-For],
    [X-Forwarded-Proto] and [Forwarded] the backend sees the values the proxy makes from the
    peer's address, or none when there is no address; [Host] is the backend's authority; and
    every other header is left alone. *)
Theorem forwarding_headers_exact headers url addr n :
  HeaderLaws →
  headers_get_all (apply_forwarding_headers headers url addr) n =
    if decide (n = HOST) then option_list (host_value url)
    else if decide (n ∈ [X_FORWARDED_FOR; X_FORWARDED_PROTO; FORWARDED]) then
      match addr with Some a => option_list (forwarded_value a n) | None => [] end
    else headers_get_all headers n.
Proof.
  intros HL. unfold apply_forwarding_headers.
  assert (HOST ≠ X_FORWARDED_FOR) by static_names.
  assert (HOST ≠ X_FORWARDED_PROTO) by static_names.
  assert (HOST ≠ FORWARDED) by static_names.
  assert (X_FORWARDED_FOR ≠ X_FORWARDED_PROTO) by static_names.
  assert (X_FORWARDED_FOR ≠ FORWARDED) by static_names.
  assert (X_FORWARDED_PROTO ≠ FORWARDED) by static_names.
  set (removed := headers_remove FORWARDED _).
  assert (headers_get_all removed n = if decide (n ∈ [HOST; X_FORWARDED_FOR;
    X_FORWARDED_PROTO; FORWARDED]) then [] else headers_get_all headers n) as Hrem.
  { apply (remove_all_get headers [HOST; X_FORWARDED_FOR; X_FORWARDED_PROTO; FORWARDED] n HL). }
  set (hosted := match backend_authority url with Some _ => _ | None => _ end).
  assert (headers_get_all hosted n =
    if decide (n = HOST) then option_list (host_value url)
    else headers_get_all removed n) as Hhost.
  { unfold hosted, host_value. destruct (backend_authority url) as [a|]; simpl.
    - rewrite insert_text_get by done. destruct (value_from_str a); simpl; [by repeat case_decide|].
      rewrite Hrem. repeat case_decide; name_cases.
    - rewrite Hrem. repeat case_decide; name_cases. }
  assert (n ≠ HOST → headers_get_all hosted n = headers_get_all removed n) as Hne
    by (intros; by rewrite Hhost, decide_False).
  destruct addr as [a|]; simpl; [|rewrite Hhost, Hrem; repeat case_decide; name_cases].
  unfold forwarded_value. destruct (decide (n = HOST)) as [->|Hn].
  { by rewrite !insert_text_get_ne by done. }
  specialize (Hne Hn). rewrite Hrem in Hne.
  destruct (decide (n ∈ [X_FORWARDED_FOR; X_FORWARDED_PROTO; FORWARDED])) as [Hin|Hin].
  2: { rewrite decide_False in Hne by name_cases. rewrite !not_elem_of_cons in Hin.
       destruct Hin as (? & ? & ? & _). by rewrite !insert_text_get_ne by done. }
  rewrite decide_True in Hne by (by right).
  destruct (decide (n = X_FORWARDED_FOR)) as [->|Hf].
  { rewrite !insert_text_get_ne by done. by apply insert_text_get_eq. }
  destruct (decide (n = X_FORWARDED_PROTO)) as [->|Hp].
  { rewrite insert_text_get_ne by done. apply insert_text_get_eq; [done|].
    by rewrite insert_text_get_ne. }
  assert (n = FORWARDED) as -> by (rewrite !elem_of_cons, elem_of_nil in Hin; tauto).
  apply insert_text_get_eq; [done|]. by rewrite !insert_text_get_ne.
Qed.

(** Some link of the error's chain of sources is an I/O error of this kind; some link is an
    error of the HTTP parser, or says that the message was incomplete. *)
Definition chain_has_io (e : ClientError) (kind : IoErrorKind) : Prop :=
  ∃ source, source ∈ client_chain e ∧ as_io source = Some kind.
Definition chain_is_malformed (e : ClientError) : Prop :=
  ∃ source is_parse is_incomplete, source ∈ client_chain e ∧
    as_hyper source = Some (is_parse, is_incomplete) ∧ (is_parse = true ∨ is_incomplete = true).

Lemma source_has_io_kind_spec chain kind :
  source_has_io_kind chain kind = true ↔
  ∃ source, source ∈ chain ∧ as_io source = Some kind.
Proof.
  induction chain as [|source chain IH]; simpl.
  { split; [done|]. by intros (? & ?%not_elem_of_nil & _). }
  setoid_rewrite elem_of_cons. destruct (as_io source) as [k|] eqn:Hk; [case_decide|];
    rewrite ?IH; naive_solver.
Qed.

Lemma source_has_invalid_response_spec chain :
  source_has_invalid_response chain = true ↔
  ∃ source p i, source ∈ chain ∧ as_hyper source = Some (p, i) ∧ (p = true ∨ i = true).
Proof.
  induction chain as [|source chain IH]; simpl.
  { split; [done|]. by intros (? & ? & ? & ?%not_elem_of_nil & _). }
  setoid_rewrite elem_of_cons. destruct (as_hyper source) as [[[] []]|] eqn:Hk; simpl;
    rewrite ?IH; naive_solver.
Qed.

(** C35: the error of a failed call is classified by the whole chain of its sources.  A
    connection that could not be made is a refused one when some link of the chain is a
    refused connection; else it is an invalid response when some link shows a malformed or
    incomplete message, and a failed request when none does.  Every failure after the
    connection was made is an invalid response.  A response is an error only when it declares
    more bytes than the limit.  Only a timeout answers 504, every other error 502. *)
Theorem upstream_errors_classified client ct rt hook outcome err :
  finish_forward client ct rt hook outcome = Err err →
  match outcome with
  | None => err = ConnectTimeout ct
  | Some (Err e) =>
      (client_is_connect e = true ∧ chain_has_io e IoConnectionRefused ∧
         err = ConnectionRefused e) ∨
      (client_is_connect e = true ∧ ¬ chain_has_io e IoConnectionRefused ∧
         chain_is_malformed e ∧ err = InvalidResponse e) ∨
      (client_is_connect e = true ∧ ¬ chain_has_io e IoConnectionRefused ∧
         ¬ chain_is_malformed e ∧ err = RequestFailed e) ∨
      (client_is_connect e = false ∧ err = InvalidResponse e)
  | Some (Ok response) => ∃ n, err = ResponseTooLarge (max_response_body_bytes client) n ∧
      (max_response_body_bytes client < n < u64_modulus)%N ∧
      (v ← headers_get (resp_headers response) (name_from_static "content-length");
       value_to_str v ≫= parse_u64) = Some n
  end ∧
  resp_status (bad_gateway_response err) = (if outcome is Some _ then 502 else 504)%N.
Proof.
  unfold finish_forward. destruct outcome as [[response|e]|].
  - unfold content_length_exceeds, CONTENT_LENGTH.
    destruct (headers_get (resp_headers response) _) as [v|]; simpl; [|done].
    destruct (value_to_str v) as [t|]; simpl; [|done].
    destruct (parse_u64 t) as [n|] eqn:Hp; simpl; [|done].
    case_decide; [|done]. intros [= <-]. split; [|done]. exists n. split; [done|].
    split; [|done]. split; [done|]. by eapply parse_u64_lt.
  - intros [= <-]. unfold classify_request_error, chain_has_io, chain_is_malformed.
    rewrite <-source_has_io_kind_spec, <-source_has_invalid_response_spec.
    destruct (client_is_connect e); simpl; [|split; [auto|done]].
    destruct (source_has_io_kind _ _); [split; [auto|done]|].
    destruct (source_has_invalid_response _); (split; [|done]); naive_solver.
  - by intros [= <-].
Qed.

End upstream.

(** ** Witnesses *)

From S2P Require Import Instances Scenario.

Definition three_chunks (limit : N) : LimitedBody := {|
  lb_items := [(0%N, Chunk "abc"); (5%N, Chunk "de"); (1%N, Chunk "f")];
  lb_max_bytes := limit; lb_idle_timeout := 10;
  lb_context := "client request body"; lb_hook := None;
|}.

(** Five bytes fit, the sixth does not. *)
Lemma limit_body_bounded_witness :
  data_sent (body_polls (three_chunks 5)) = "abcde" ∧
  (str_len (data_sent (take 3 (body_polls (three_chunks 5)))) ≤ 5)%N.
Proof. split; [reflexivity|]. by apply (limit_body_bounded (three_chunks 5) 3). Defined.

(** Five bytes at a time, without end. *)
Lemma endless_body_is_cut_witness :
  ∃ i, (N.of_nat i ≤ 12)%N ∧
    limit_polls (three_chunks 12) 0 ((λ _, (1%N, Chunk "hello")) <$> seq 0 (S i))
    = cut_polls (three_chunks 12) (λ _, (1%N, Chunk "hello")) 0 i.
Proof.
  apply (endless_body_is_cut (three_chunks 12) (λ _, (1%N, Chunk "hello")) 5); [|done].
  intros i. exists "hello". done.
Defined.

Lemma limit_body_transparent_witness :
  body_polls (three_chunks 6) = [(None, Data "abc"); (None, Data "de"); (None, Data "f")].
Proof.
  refine (limit_body_transparent (three_chunks 6) _ _ _); [|done|done].
  repeat constructor; eauto.
Defined.

Definition sample_headers : @HeaderMap (@platform_headers simple_platform) :=
  [("connection", "x-secret,  X-Upper , Keep-Alive"); ("x-secret", "1"); ("te", "trailers");
   ("x-upper", "2"); ("x-forwarded-for", "6.6.6.6"); ("accept", "text/html");
   ("accept", "text/plain")].

Lemma sanitize_exact_witness :
  headers_get_all (sanitize_hop_by_hop_headers sample_headers) "x-upper" = [] ∧
  headers_get_all (sanitize_hop_by_hop_headers sample_headers) "te" = [] ∧
  headers_get_all (sanitize_hop_by_hop_headers sample_headers) "accept"
  = ["text/html"; "text/plain"].
Proof.
  split_and!.
  - apply (sanitize_exact sample_headers "x-upper"); [apply _..|]. right.
    eexists _, _, _, "  X-Upper ". split; [reflexivity|]. split; [reflexivity|].
    split; [apply (bool_decide_unpack _); vm_compute; exact I|reflexivity].
  - apply (sanitize_exact sample_headers "te"); [apply _..|]. left.
    apply (bool_decide_unpack _). vm_compute. exact I.
  - etrans; [apply (sanitize_exact sample_headers "accept"); [apply _..|]|reflexivity].
    rewrite <-hop_by_hop_elem. apply (bool_decide_unpack _). vm_compute. exact I.
Defined.

Definition sample_url : @Url (@platform_url simple_platform) :=
  SimpleUrl "http" (Some "a") (Some 81%N) "/" None.

Lemma forwarding_headers_exact_witness :
  headers_get_all (apply_forwarding_headers sample_headers sample_url
    (Some ("::1", "443"))) "forwarded"
  = ["for=" +:+ String dquote ("[::1]" +:+ String dquote ";proto=http")] ∧
  headers_get_all (apply_forwarding_headers sample_headers sample_url
    (Some ("9.9.9.9", "443")))
    "x-forwarded-for" = ["9.9.9.9"].
Proof.
  split.
  - etrans; [apply (forwarding_headers_exact sample_headers _ _ "forwarded"); apply _|].
    vm_compute. reflexivity.
  - etrans; [apply (forwarding_headers_exact sample_headers _ _ "x-forwarded-for"); apply _|].
    vm_compute. reflexivity.
Defined.

(** An error whose own link says nothing, and whose source is [inner]. *)
Definition wrapped_error (connect : bool) (inner : ErrorSource)
    : @ClientError (@platform_error simple_platform) :=
  SimpleError connect [{| as_io := None; as_hyper := None |}; inner].
Definition refused_link : ErrorSource :=
  {| as_io := Some IoConnectionRefused; as_hyper := None |}.
Definition timed_out_link : ErrorSource := {| as_io := Some IoTimedOut; as_hyper := None |}.
Definition incomplete_link : ErrorSource :=
  {| as_io := None; as_hyper := Some (false, true) |}.

(** The classified error of a call that failed with [e]. *)
Definition classified (e : ClientError) (err : UpstreamError) : Prop :=
  finish_forward UpstreamClient_default 0 0 None (Some (Err e)) = Err err.

Lemma upstream_errors_classified_witness :
  resp_status (bad_gateway_response (ConnectTimeout (from_millis 3000))) = 504%N ∧
  (∃ err, classified (wrapped_error true refused_link) err ∧
     err = ConnectionRefused (wrapped_error true refused_link)) ∧
  (∃ err, classified (wrapped_error true incomplete_link) err ∧
     err = InvalidResponse (wrapped_error true incomplete_link)) ∧
  (∃ err, classified (wrapped_error true timed_out_link) err ∧
     err = RequestFailed (wrapped_error true timed_out_link)) ∧
  (∃ err, classified (wrapped_error false timed_out_link) err ∧
     err = InvalidResponse (wrapped_error false timed_out_link)).
Proof.
  split; [by apply (upstream_errors_classified UpstreamClient_default (from_millis 3000) 0 None None)|].
  split_and!; (eexists; split; [reflexivity|]);
    match goal with |- classify_request_error ?e = _ =>
      destruct (upstream_errors_classified UpstreamClient_default 0 0 None (Some (Err e)) _ eq_refl)
      as [[(? & Hio & ->)|[(? & Hio & Hm & ->)|[(? & Hio & Hm & ->)|(? & ->)]]] _] end;
    try done; exfalso.
  all: unfold chain_has_io, chain_is_malformed in *.
  all: rewrite <-?source_has_io_kind_spec, <-?source_has_invalid_response_spec in *.
  all: first [by apply Hio|by apply Hm|done].
Defined.
