(* ===== verification/Http.v ===== *)
(** [src/http/mod.rs]: the life of a request.  Request identifiers, the internal endpoints,
    the checks before a backend is contacted, buffering of the body under a permit, the
    choice of a backend, forwarding with the feedback to health and telemetry, and retries.

    A computation returns [None] only where the fuel of the retry loop runs out; the theorems
    show that it never does. *)

From Stdlib Require Import Ascii.
From S2P Require Import Prelude RustStd Externals Config Routing Telemetry Health Balancing.
From S2P Require Import Runtime HealthChecks Upstream.
From stdpp Require Import options.

Section http.
Context `{Platform}.

(** * Application state *)

(** The immutable part of [AppState]; the rest is behind [Arc]s, in [Shared]. *)
Record AppState := {
  app_config : Config;
  app_upstream : UpstreamClient;
}.

Definition AppState_new (config : Config) : AppState * Shared :=
  let hc := cfg_health_check config in
  let telemetry := Telemetry_new (cfg_routes config) in
  let balancer := LoadBalancer_new (cfg_routes config) in
  let health := HealthManager_with_telemetry (cfg_routes config)
    (hc_failure_threshold hc) (hc_recovery_threshold hc)
    (from_millis (hc_ejection_duration_ms hc))
    (hc_active_success_status_min hc) (hc_active_success_status_max hc)
    (hc_passive_failure_status_min hc) (hc_passive_failure_status_max hc) true in
  ({| app_config := config; app_upstream := UpstreamClient_new (cfg_upstream config) |},
   {| sh_balancer := balancer; sh_health := (health, telemetry);
      sh_semaphore := sem_new (up_max_buffered_bodies (cfg_upstream config));
      sh_request_id := 1 |}).

Definition shutdown_timeout (st : AppState) : Duration :=
  from_millis (srv_graceful_shutdown_timeout_ms (cfg_server (app_config st))).
Definition client_header_timeout (st : AppState) : Duration :=
  from_millis (srv_client_header_timeout_ms (cfg_server (app_config st))).
Definition route_client_body_timeout (st : AppState) (route : RouteConfig) : Duration :=
  from_millis (default (srv_client_body_timeout_ms (cfg_server (app_config st)))
                 (rt_client_body_timeout_ms route)).
Definition route_connect_timeout (st : AppState) (route : RouteConfig) : Duration :=
  from_millis (default (up_connect_timeout_ms (cfg_upstream (app_config st)))
                 (rt_connect_timeout_ms route)).
Definition route_read_timeout (st : AppState) (route : RouteConfig) : Duration :=
  from_millis (default (up_read_timeout_ms (cfg_upstream (app_config st)))
                 (rt_read_timeout_ms route)).

Definition should_retry_status (st : AppState) (route : RouteConfig) (status : StatusCode)
    : bool :=
  let retry_on_statuses :=
    if decide (rt_retry_on_statuses route = [])
    then retry_on_statuses (cfg_retry (app_config st)) else rt_retry_on_statuses route in
  bool_decide (status ∈ retry_on_statuses).

(** [AppState::is_passive_failure_status] *)
Definition route_passive_failure (m : HealthManager) (route : RouteConfig)
    (status : StatusCode) : bool :=
  if decide (rt_passive_failure_statuses route = [])
  then is_passive_failure_status status m
  else bool_decide (status ∈ rt_passive_failure_statuses route).

Definition should_retry_response (st : AppState) (route : RouteConfig) (status : StatusCode)
    : bool := should_retry_status st route status.

(** * Methods *)

Definition should_prebuffer_request (method : Method) : bool :=
  negb (bool_decide (method ∈ ["GET"; "HEAD"; "OPTIONS"; "TRACE"])).

Definition is_retryable_method (method : Method) (retry_idempotent : bool) : bool :=
  bool_decide (method ∈ ["GET"; "HEAD"; "OPTIONS"; "TRACE"])
  || (retry_idempotent && bool_decide (method ∈ ["PUT"; "DELETE"])).

Definition should_retry_request (st : AppState) (method : Method) : bool :=
  bool_decide (1 < retry_max_attempts (cfg_retry (app_config st)))%N
  && is_retryable_method method (retry_idempotent_methods (cfg_retry (app_config st))).

(** * Responses *)

Definition text_response (status : StatusCode) (body : string) : Response ProxyBody :=
  build_response status (full_body body).

Definition X_REQUEST_ID : HeaderName := name_from_static "x-request-id".
Definition AUTHORIZATION : HeaderName := name_from_static "authorization".
Definition CONTENT_TYPE : HeaderName := name_from_static "content-type".

(** [builder.header(name, text)] *)
Definition with_header (name : HeaderName) (text : string) (r : Response ProxyBody)
    : Response ProxyBody := {|
  resp_status := resp_status r; resp_version := resp_version r;
  resp_headers := insert_text name text (resp_headers r); resp_body := resp_body r;
|}.

Definition root_response (st : AppState) : Response ProxyBody :=
  text_response 200 ("ferrum-proxy is running with "
    +:+ pretty (N.of_nat (length (cfg_routes (app_config st))))
    +:+ " configured route(s)" +:+ newline).

Definition unauthorized_debug_response : Response ProxyBody :=
  with_header (name_from_static "www-authenticate") "Bearer"
    (build_response 401
       (full_body ("debug endpoint requires bearer authentication" +:+ newline))).

Definition debug_request_authorized {B} (request : Request B) (st : AppState) : bool :=
  match dbg_auth_token (cfg_debug (app_config st)) with
  | None => true
  | Some expected_token =>
      let expected := "Bearer " +:+ expected_token in
      bool_decide (headers_get (req_headers request) AUTHORIZATION ≫= value_to_str
                   = Some expected)
  end.

Context `{!Environment}.

Definition backend_health_response : stateM World (Response ProxyBody) :=
  statuses ← query_health backend_statuses;
  mret (text_response 200 (str_concat
    ((λ '(backend, healthy), backend +:+ " " +:+
        (if healthy : bool then "healthy" else "unhealthy") +:+ newline) <$> statuses))).

Definition metrics_response : stateM World (Response ProxyBody) :=
  statuses ← query_health backend_statuses;
  text ← atomically (λ _ s, (render_prometheus statuses (sh_health s).2, s));
  mret (with_header CONTENT_TYPE "text/plain; version=0.0.4"
          (build_response 200 (full_body text))).

Definition handle_internal_route {B} (request : Request B) (st : AppState)
    : stateM World (option (Response ProxyBody)) :=
  let debug := cfg_debug (app_config st) in
  if decide (req_method request = "GET") then
    let path := uri_path (req_uri request) in
    if decide (path = "/") then mret (Some (root_response st))
    else if decide (path = "/health") then mret (Some (text_response 200 ("ok" +:+ newline)))
    else if decide (path = "/health/backends") then
      if negb (dbg_expose_backend_health debug) then mret None
      else if negb (debug_request_authorized request st)
      then mret (Some unauthorized_debug_response)
      else r ← backend_health_response; mret (Some r)
    else if decide (path = "/metrics") then
      if negb (dbg_expose_metrics debug) then mret None
      else if negb (debug_request_authorized request st)
      then mret (Some unauthorized_debug_response)
      else r ← metrics_response; mret (Some r)
    else mret None
  else mret None.

(** * Identifiers and completion *)

Definition next_request_id : stateM World string :=
  id ← atomically (λ _ s, (sh_request_id s, set_request_id (u64_add (sh_request_id s) 1) s));
  mret (hex016 id).

Definition complete_request (method : Method) (path : string) (backend : option string)
    (started : Instant) (response : Response ProxyBody) (error_kind : option string)
    (request_id : string) : stateM World (Response ProxyBody) :=
  let status := resp_status response in
  _ ← on_telemetry (record_response_status status);
  now ← instant_now;
  _ ← on_telemetry (log_request_complete method path backend status (elapsed now started)
                      error_kind request_id);
  mret (with_header X_REQUEST_ID request_id response).

Definition no_healthy_backends_response (method : Method) (path request_id : string)
    : stateM World (Response ProxyBody) :=
  _ ← on_telemetry (record_proxy_error "no_healthy_backends");
  now ← instant_now;
  complete_request method path None now
    (text_response 503 ("no healthy backends available" +:+ newline))
    (Some "no_healthy_backends") request_id.

(** * Choosing a backend *)

Definition http_select_backend (route : RouteConfig)
    (attempted_backends : option (gset string)) : stateM World (option string) :=
  healthy_backends ← query_health (healthy_backends route);
  let eligible := match attempted_backends with
                  | Some attempted => filter (λ backend, backend ∉ attempted) healthy_backends
                  | None => healthy_backends
                  end in
  atomically (λ _ s, let (choice, lb) := select_backend (sh_balancer s) route eligible in
                     (choice, set_balancer lb s)).

(** * Buffering *)

Inductive RequestBufferError :=
  | TooLarge (limit : N)
  | TimedOut (timeout : Duration)
  | ReadFailed (err : string).

Definition RequestBufferError_kind (e : RequestBufferError) : string :=
  match e with
  | TooLarge _ => "request_body_too_large"
  | TimedOut _ => "client_body_timeout"
  | ReadFailed _ => "client_request_body_read_failed"
  end.

Definition RequestBufferError_into_response (e : RequestBufferError) : Response ProxyBody :=
  match e with
  | TooLarge limit =>
      text_response 413 ("request body exceeded " +:+ pretty limit +:+ " byte limit" +:+ newline)
  | TimedOut timeout =>
      text_response 408 ("client request body idle timeout after "
        +:+ pretty (as_millis timeout) +:+ " ms" +:+ newline)
  | ReadFailed err =>
      text_response 400 ("failed to read client request body: " +:+ err +:+ newline)
  end.

Definition with_body {B C} (request : Request B) (body : C) : Request C := {|
  req_method := req_method request; req_uri := req_uri request;
  req_version := req_version request; req_headers := req_headers request;
  req_remote_addr := req_remote_addr request; req_body := body;
|}.

(** The loop [while let Some(result) = stream.next().await]. *)
Fixpoint buffer_items (max_bytes : N) (idle_timeout : Duration) (buffered : string)
    (items : list (Duration * Polled)) : stateM World (result RequestBufferError string) :=
  match items with
  | [] => mret (Ok buffered)
  | (after, item) :: items =>
      _ ← sleep after;
      match item with
      | Chunk chunk =>
          let next_len := u64_add (str_len buffered) (str_len chunk) in
          if decide (max_bytes < next_len)%N then mret (Err (TooLarge max_bytes))
          else buffer_items max_bytes idle_timeout (buffered +:+ chunk) items
      | ReadError err => mret (Err (ReadFailed err))
      | IdleElapsed => mret (Err (TimedOut idle_timeout))
      end
  end.

Definition buffer_request_body (request : Request Body) (max_bytes : N)
    (idle_timeout : Duration) : stateM World (result RequestBufferError (Request string)) :=
  r ← buffer_items max_bytes idle_timeout "" (timed_items idle_timeout (req_body request));
  mret (match r with
        | Ok buffered => Ok (with_body request buffered)
        | Err e => Err e
        end).

(** [buffer_semaphore.try_acquire()], and the drop of the permit. *)
Definition try_acquire : stateM World bool :=
  atomically (λ _ s, match sem_try_acquire (sh_semaphore s) with
                     | Some sem => (true, set_semaphore sem s)
                     | None => (false, s)
                     end).
Definition release : stateM World unit :=
  atomically (λ _ s, (tt, set_semaphore (sem_release (sh_semaphore s)) s)).

Record ReplayableRequest := {
  rr_method : Method;
  rr_uri : Uri;
  rr_version : string;
  rr_headers : HeaderMap;
  rr_body : string;
}.

Definition ReplayableRequest_from (request : Request string) : ReplayableRequest := {|
  rr_method := req_method request; rr_uri := req_uri request;
  rr_version := req_version request; rr_headers := req_headers request;
  rr_body := req_body request;
|}.

Definition to_request (r : ReplayableRequest) : Request Body := {|
  req_method := rr_method r;
  req_uri := rr_uri r;
  req_version := rr_version r;
  req_headers := insert_text CONTENT_LENGTH (pretty (str_len (rr_body r))) (rr_headers r);
  req_remote_addr := None;
  req_body := body_full (rr_body r);
|}.

(** * Forwarding *)

Definition forward_request (st : AppState) (method : Method) (path : string)
    (route : RouteConfig) (backend : string) (request : Request Body)
    (client_addr : option SocketAddr) (started : Instant) (client_body_timeout : Duration)
    (request_id : string) : stateM World (Response ProxyBody) :=
  outcome ← forward (app_upstream st) backend request client_addr
    (route_connect_timeout st route) (route_read_timeout st route) client_body_timeout
    (Some RequestErrorHook) (Some (ResponseErrorHook backend));
  now ← instant_now;
  _ ← on_telemetry (record_upstream_latency (elapsed now started));
  match outcome with
  | Ok response =>
      _ ← on_health (λ now s, if route_passive_failure s.1 route (resp_status response)
                              then record_failure backend now s else record_success backend s);
      complete_request method path (Some backend) started response None request_id
  | Err err =>
      _ ← on_health (record_failure backend);
      _ ← on_telemetry (record_proxy_error (UpstreamError_kind err));
      complete_request method path (Some backend) started (bad_gateway_response err)
        (Some (UpstreamError_kind err)) request_id
  end.

(** The backoff before attempt [attempt + 1]. *)
Definition retry_backoff (base_backoff_ms attempt : N) : Duration :=
  from_millis (u64_saturating_mul base_backoff_ms (N.shiftl 1 (N.min (attempt - 1) 10))).

(** The [loop] of [forward_with_retries]. *)
Fixpoint retry_loop (fuel : nat) (st : AppState) (route : RouteConfig) (method : Method)
    (path : string) (replayable : ReplayableRequest) (client_addr : option SocketAddr)
    (started : Instant) (client_body_timeout : Duration) (request_id : string)
    (attempted_backends : gset string) (attempt : N)
    : stateM World (option (Response ProxyBody)) :=
  let retry := cfg_retry (app_config st) in
  let total_timeout := from_millis (retry_total_timeout_ms retry) in
  match fuel with
  | O => mret None
  | S fuel =>
      now ← instant_now;
      if decide (total_timeout ≤ elapsed now started)%N then
        _ ← on_telemetry (record_proxy_error "retry_budget_exhausted");
        Some <$> complete_request method path None started
          (text_response 504 ("retry budget exhausted before a successful upstream response"
                              +:+ newline))
          (Some "retry_budget_exhausted") request_id
      else
        choice ← http_select_backend route (Some attempted_backends);
        match choice with
        | None =>
            if decide (attempt = 1)%N
            then Some <$> no_healthy_backends_response method path request_id
            else
              _ ← on_telemetry (record_proxy_error "retry_exhausted");
              Some <$> complete_request method path None started
                (text_response 503
                   ("retry attempts exhausted with no healthy backends remaining" +:+ newline))
                (Some "retry_exhausted") request_id
        | Some backend =>
            let attempted_backends := {[backend]} ∪ attempted_backends in
            response ← forward_request st method path route backend (to_request replayable)
              client_addr started client_body_timeout request_id;
            if negb (should_retry_response st route (resp_status response))
               || bool_decide (retry_max_attempts retry ≤ attempt)%N
            then mret (Some response)
            else
              now ← instant_now;
              if decide (total_timeout ≤ elapsed now started)%N then mret (Some response)
              else
                _ ← on_telemetry (log_retry_attempt method path backend (attempt + 1)
                                    "retryable_status");
                let next := retry_loop fuel st route method path replayable client_addr started
                  client_body_timeout request_id attempted_backends (attempt + 1) in
                if decide (0 < retry_backoff_ms retry)%N then
                  let backoff := retry_backoff (retry_backoff_ms retry) attempt in
                  now ← instant_now;
                  let remaining := (total_timeout - elapsed now started)%N in
                  if decide (remaining ≤ backoff)%N then mret (Some response)
                  else _ ← sleep backoff; next
                else next
        end
  end.

Definition forward_with_retries (st : AppState) (route : RouteConfig) (method : Method)
    (path : string) (request : Request string) (client_addr : option SocketAddr)
    (started : Instant) (client_body_timeout : Duration) (request_id : string)
    : stateM World (option (Response ProxyBody)) :=
  retry_loop (S (N.to_nat (retry_max_attempts (cfg_retry (app_config st))))) st route method
    path (ReplayableRequest_from request) client_addr started client_body_timeout request_id
    ∅ 1.

(** * The request handler *)

(** The identifier the client sent, or a new one. *)
Definition request_id_of (request : Request Body) : stateM World string :=
  match headers_get (req_headers request) X_REQUEST_ID ≫= value_to_str with
  | Some id => mret id
  | None => next_request_id
  end.

Definition with_request_id (request_id : string) (request : Request Body) : Request Body := {|
  req_method := req_method request; req_uri := req_uri request;
  req_version := req_version request;
  req_headers := insert_text X_REQUEST_ID request_id (req_headers request);
  req_remote_addr := req_remote_addr request; req_body := req_body request;
|}.

(** The answer when no permit is left. *)
Definition buffer_capacity_response (method : Method) (path : string) (backend : option string)
    (started : Instant) (request_id : string) : stateM World (Response ProxyBody) :=
  _ ← on_telemetry (record_proxy_error "buffer_capacity_exceeded");
  complete_request method path backend started
    (text_response 503 ("too many concurrent buffered requests" +:+ newline))
    (Some "buffer_capacity_exceeded") request_id.

(** The answer to a body that could not be buffered. *)
Definition buffer_error_response (method : Method) (path : string) (backend : option string)
    (started : Instant) (request_id : string) (err : RequestBufferError)
    : stateM World (Response ProxyBody) :=
  let kind := RequestBufferError_kind err in
  _ ← on_telemetry (record_proxy_error kind);
  complete_request method path backend started (RequestBufferError_into_response err)
    (Some kind) request_id.

(** The part of [handle_request] after routing: the three ways to forward. *)
Definition handle_routed (st : AppState) (request : Request Body) (route : RouteConfig)
    (method : Method) (path request_id : string) : stateM World (option (Response ProxyBody)) :=
  let client_addr := req_remote_addr request in
  started ← instant_now;
  let client_body_timeout := route_client_body_timeout st route in
  let max_bytes := max_request_body_bytes (app_upstream st) in
  if should_retry_request st method then
    permit ← try_acquire;
    if negb permit then Some <$> buffer_capacity_response method path None started request_id
    else
      outcome ← buffer_request_body request max_bytes client_body_timeout;
      match outcome with
      | Ok buffered =>
          _ ← release;
          forward_with_retries st route method path buffered client_addr started
            client_body_timeout request_id
      | Err err =>
          r ← buffer_error_response method path None started request_id err;
          _ ← release;
          mret (Some r)
      end
  else if should_prebuffer_request method then
    choice ← http_select_backend route None;
    match choice with
    | None => Some <$> no_healthy_backends_response method path request_id
    | Some backend =>
        permit ← try_acquire;
        if negb permit
        then Some <$> buffer_capacity_response method path (Some backend) started request_id
        else
          outcome ← buffer_request_body request max_bytes client_body_timeout;
          match outcome with
          | Ok buffered =>
              _ ← release;
              Some <$> forward_request st method path route backend
                (with_body buffered (body_full (req_body buffered))) client_addr started
                client_body_timeout request_id
          | Err err =>
              r ← buffer_error_response method path (Some backend) started request_id err;
              _ ← release;
              mret (Some r)
          end
    end
  else
    choice ← http_select_backend route None;
    match choice with
    | None => Some <$> no_healthy_backends_response method path request_id
    | Some backend =>
        Some <$> forward_request st method path route backend request client_addr started
          client_body_timeout request_id
    end.

Definition handle_request (request : Request Body) (st : AppState)
    : stateM World (option (Response ProxyBody)) :=
  _ ← on_telemetry record_request;
  request_id ← request_id_of request;
  let request := with_request_id request_id request in
  let method := req_method request in
  let path := uri_path (req_uri request) in
  let max_bytes := max_request_body_bytes (app_upstream st) in
  internal ← handle_internal_route request st;
  match internal with
  | Some response =>
      now ← instant_now;
      Some <$> complete_request method path None now response None request_id
  | None =>
      match content_length_exceeds (req_headers request) max_bytes with
      | Some content_length =>
          _ ← on_telemetry (record_proxy_error "request_body_too_large");
          now ← instant_now;
          Some <$> complete_request method path None now
            (text_response 413 ("request body too large: content-length "
               +:+ pretty content_length +:+ " exceeds " +:+ pretty max_bytes
               +:+ " byte limit" +:+ newline))
            (Some "request_body_too_large") request_id
      | None =>
          match match_route path (cfg_routes (app_config st)) with
          | None =>
              now ← instant_now;
              Some <$> complete_request method path None now
                (text_response 404 ("no route matched request path" +:+ newline)) None request_id
          | Some route => handle_routed st request route method path request_id
          end
      end
  end.

(** * Startup *)

(** [None] when the pass panics. *)
Definition run_startup_health_check (st : AppState)
    : stateM World (option (result string unit)) :=
  outcome ← run_active_check_pass (app_config st);
  match outcome with
  | Panicked => mret None
  | _ =>
      dead_pools ← query_health (λ now, startup_dead_pools (cfg_routes (app_config st)) now);
      _ ← forM dead_pools (λ pool,
            on_telemetry (log_startup_warning pool "all_backends_unavailable"));
      mret (Some (
        if srv_fail_on_startup_dead_pool (cfg_server (app_config st))
           && negb (bool_decide (dead_pools = []))
        then Err ("startup aborted: " +:+ pretty (N.of_nat (length dead_pools))
               +:+ " route(s) have no reachable backends: " +:+ str_join ", " dead_pools)
        else Ok tt))
  end.

(** [spawn_background_tasks]: the health checks, and the log line if they panic. *)
Definition spawn_background_tasks (st : AppState) (panic : string) (wakes : list Wake)
    : stateM World TaskState :=
  outcome ← spawn_active_checks (app_config st) wakes;
  match outcome with
  | Panicked => _ ← on_telemetry (log_background_task_failure "health_checks" panic);
                mret Finished
  | _ => mret outcome
  end.

End http.
