(* ===== verification/HttpSafety.v ===== *)
(** What a request may do to the backends and to the shared state ([src/http/mod.rs]), for
    every environment: termination, the number and the targets of the attempts, the requests
    that contact no backend, permits, and the invariant of the health state. *)

From S2P Require Import Prelude RustStd Externals Config Routing Telemetry Health Balancing.
From S2P Require Import Runtime HealthChecks Upstream Http.
From stdpp Require Import options.

Section safety.
Context `{Platform, !Environment}.

(** * Silence of the parts that only answer *)

(** Decomposes a computation down to its primitive steps. *)
Ltac silent_tac :=
  repeat first
    [ apply silent_ret | apply silent_fmap | apply silent_atomically | apply silent_sleep
    | apply silent_forM; intros ? | apply silent_bind; [|intros ?] | progress case_match ].

Lemma silent_complete_request method path backend started r kind id :
  silent (complete_request method path backend started r kind id).
Proof. unfold complete_request, on_telemetry, instant_now. silent_tac. Qed.

Lemma silent_no_healthy_backends method path id :
  silent (no_healthy_backends_response method path id).
Proof.
  unfold no_healthy_backends_response, on_telemetry, instant_now.
  do 2 (apply silent_bind; [silent_tac|intros ?]). apply silent_complete_request.
Qed.

Lemma silent_select route attempted : silent (http_select_backend route attempted).
Proof. unfold http_select_backend, query_health. silent_tac. Qed.

Lemma silent_internal {B} (request : Request B) st : silent (handle_internal_route request st).
Proof.
  unfold handle_internal_route, backend_health_response, metrics_response, query_health.
  silent_tac.
Qed.

Lemma silent_buffer_items max idle buffered items :
  silent (buffer_items max idle buffered items).
Proof.
  revert buffered. induction items as [|[d item] items IH]; intros buffered; simpl;
    [apply silent_ret|].
  apply silent_bind; [apply silent_sleep|intros _]. destruct item; [case_decide|..];
    auto using silent_ret.
Qed.

Lemma silent_buffer request max idle : silent (buffer_request_body request max idle).
Proof.
  unfold buffer_request_body. apply silent_bind; [apply silent_buffer_items|].
  intros. apply silent_ret.
Qed.

Lemma silent_try_acquire : silent try_acquire.
Proof. apply silent_atomically. Qed.
Lemma silent_release : silent release.
Proof. apply silent_atomically. Qed.

Lemma silent_capacity method path backend started id :
  silent (buffer_capacity_response method path backend started id).
Proof.
  unfold buffer_capacity_response, on_telemetry.
  apply silent_bind; [silent_tac|intros _]. apply silent_complete_request.
Qed.

Lemma silent_buffer_error method path backend started id err :
  silent (buffer_error_response method path backend started id err).
Proof.
  unfold buffer_error_response, on_telemetry.
  apply silent_bind; [silent_tac|intros _]. apply silent_complete_request.
Qed.

Lemma silent_request_id request : silent (request_id_of request).
Proof. unfold request_id_of, next_request_id. silent_tac. Qed.

Lemma silent_on_telemetry f : silent (on_telemetry f).
Proof. apply silent_atomically. Qed.
Lemma silent_instant_now : silent instant_now.
Proof. apply silent_atomically. Qed.

(** * What a computation sends *)

Definition sends {A} (P : list Sent → Prop) (m : stateM World A) : Prop :=
  ∀ w, ∃ l, w_sent (m w).2 = w_sent w ++ l ∧ P l.

Lemma sends_silent {A} P (m : stateM World A) : P [] → silent m → sends P m.
Proof. intros HP Hm w. exists []. by rewrite Hm, app_nil_r. Qed.

Lemma sends_fmap {A B} P (f : A → B) (m : stateM World A) : sends P m → sends P (f <$> m).
Proof. intros Hm w. apply Hm. Qed.

Lemma sends_mono {A} (P Q : list Sent → Prop) (m : stateM World A) :
  (∀ l, P l → Q l) → sends P m → sends Q m.
Proof. intros HPQ Hm w. destruct (Hm w) as (l & ? & ?). eauto. Qed.

Lemma sends_bind {A B} P Q (m : stateM World A) (k : A → stateM World B) :
  sends Q m → (∀ w l, Q l → sends (λ l', P (l ++ l')) (k (m w).1)) → sends P (m ≫= k).
Proof.
  intros Hm Hk w. destruct (Hm w) as (l & Hl & HQ).
  destruct (Hk w l HQ (m w).2) as (l' & Hl' & HP).
  exists (l ++ l'). split; [|done]. unfold mbind, stateM_bind. cbv zeta.
  by rewrite Hl', Hl, app_assoc.
Qed.

(** After a silent prefix, whose value may be used. *)
Lemma sends_after {A B} P (m : stateM World A) (k : A → stateM World B) :
  silent m → (∀ w, sends P (k (m w).1)) → sends P (m ≫= k).
Proof.
  intros Hm Hk. apply (sends_bind P (λ l, l = [])); [by apply sends_silent|].
  intros w l ->. apply Hk.
Qed.

(** * Choosing a backend *)

Lemma filter_healthy_subset now backends m :
  (filter_healthy now backends m).1 ⊆ backends.
Proof.
  revert m. induction backends as [|b backends IH]; intros m; [done|]. cbn [filter_healthy].
  destruct (is_backend_ejected b now m) as [e m1].
  pose proof (IH m1) as Hsub. destruct (filter_healthy now backends m1) as [rest m2].
  cbn [fst] in *. case_match; set_solver.
Qed.

(** The choice is a backend of the route that has not been attempted. *)
Lemma select_backend_eligible route attempted w b :
  (http_select_backend route attempted w).1 = Some b →
  b ∈ rt_backends route ∧ ∀ X, attempted = Some X → b ∉ X.
Proof.
  unfold http_select_backend, mbind, stateM_bind, query_health, atomically. cbv zeta.
  destruct (healthy_backends route _ _) as [hs m] eqn:Hh. cbn [fst snd].
  pose proof (filter_healthy_subset (w_now (pass 0 w)) (rt_backends route)
                (sh_health (w_shared (pass 0 w))).1) as Hsub.
  unfold healthy_backends in Hh. rewrite Hh in Hsub. cbn [fst] in Hsub.
  destruct (Balancing.select_backend _ route _) as [c lb] eqn:Hc. cbn [fst]. intros ->.
  apply select_backend_in in Hc. destruct attempted as [X|].
  - apply list_elem_of_filter in Hc as [HX Hc]. split; [by apply Hsub|]. by intros ? [= <-].
  - split; [by apply Hsub|done].
Qed.

(** * One attempt *)

(** The requests an attempt at [backend] may send: none or one, to that backend. *)
Definition one_attempt (R : Sent → Prop) (backend : string) (l : list Sent) : Prop :=
  l = [] ∨ ∃ s, l = [s] ∧ sent_backend s = backend ∧ R s.

(** The request upstream that [forward] makes of a request. *)
Definition prepared (st : AppState) (request : Request Body) (addr : option SocketAddr)
    (body_timeout : Duration) (s : Sent) : Prop :=
  ∃ url uri, url_parse (sent_backend s) = Ok url ∧
    build_upstream_uri url (req_uri request) = Ok uri ∧
    sent_request s = upstream_request (app_upstream st) url uri request addr body_timeout
                       (Some RequestErrorHook).

Lemma sends_forward_request st method path route backend request addr started bt id :
  sends (one_attempt (prepared st request addr bt) backend)
    (forward_request st method path route backend request addr started bt id).
Proof.
  unfold forward_request.
  apply (sends_bind _ (one_attempt (prepared st request addr bt) backend)).
  - intros w. eexists. split; [apply forward_sent|].
    destruct (url_parse backend) as [url|] eqn:Hu; [|by left].
    destruct (build_upstream_uri url (req_uri request)) as [uri|] eqn:Hb; [|by left].
    right. eexists. split; [done|]. split; [done|]. exists url, uri. done.
  - intros w l Hl. apply sends_silent; [by rewrite app_nil_r|].
    apply silent_bind; [apply silent_instant_now|intros now].
    apply silent_bind; [apply silent_on_telemetry|intros _].
    destruct (forward _ _ _ _ _ _ _ _ _ w).1; unfold on_health, on_telemetry; silent_tac;
      apply silent_complete_request.
Qed.

(** * Retries *)

(** The attempts of a loop that may make [n] more, away from the backends in [X]. *)
Definition attempts (R : Sent → Prop) (backends : list string) (n : N)
    (X : gset string) (l : list Sent) : Prop :=
  (N.of_nat (length l) ≤ n)%N ∧ NoDup (sent_backend <$> l) ∧
  Forall (λ s, sent_backend s ∈ backends ∧ (sent_backend s ∉ X) ∧ R s) l.

Lemma attempts_nil R backends n X : attempts R backends n X [].
Proof. split; [simpl; lia|]. split; constructor. Qed.

Lemma attempts_first R backends n X b l :
  one_attempt R b l → b ∈ backends → b ∉ X → (0 < n)%N → attempts R backends n X l.
Proof.
  intros [->|(s & -> & <- & Hs)] Hb HX Hn; [apply attempts_nil|].
  split; [simpl; lia|]. split; [apply NoDup_singleton|]. by repeat constructor.
Qed.

Lemma attempts_app R backends n X b l l' :
  one_attempt R b l → b ∈ backends → b ∉ X → (0 < n)%N →
  attempts R backends (n - 1) ({[b]} ∪ X) l' → attempts R backends n X (l ++ l').
Proof.
  intros Hone Hb HX Hn (Hlen & Hnd & Hall).
  assert (Forall (λ s, sent_backend s ∈ backends ∧ (sent_backend s ∉ X) ∧ R s) l')
    as Hall' by (eapply Forall_impl; [done|]; set_solver).
  destruct Hone as [->|(s & -> & Hs & HR)]; simpl.
  { split; [lia|done]. }
  split; [simpl; lia|]. split.
  - rewrite fmap_cons, NoDup_cons. split; [|done]. rewrite list_elem_of_fmap.
    intros (s' & Heq & Hs'). rewrite Forall_forall in Hall.
    destruct (Hall s' Hs') as (_ & Hni & _). set_solver.
  - constructor; [|done]. by rewrite Hs.
Qed.

Lemma sends_retry_loop fuel st route method path rr addr started bt id X attempt :
  (1 ≤ attempt)%N →
  sends (attempts (prepared st (to_request rr) addr bt) (rt_backends route)
           (N.max 1 (1 + retry_max_attempts (cfg_retry (app_config st)) - attempt)) X)
    (retry_loop fuel st route method path rr addr started bt id X attempt).
Proof.
  set (R := prepared st (to_request rr) addr bt).
  set (max := retry_max_attempts (cfg_retry (app_config st))).
  revert X attempt. induction fuel as [|fuel IH]; intros X attempt Hattempt.
  { apply sends_silent; [apply attempts_nil|apply silent_ret]. }
  cbn [retry_loop]. apply sends_after; [apply silent_instant_now|]. intros w.
  case_decide.
  { apply sends_after; [apply silent_on_telemetry|]. intros _.
    apply sends_silent; [apply attempts_nil|]. apply silent_fmap, silent_complete_request. }
  apply sends_after; [apply silent_select|]. intros w1.
  destruct (http_select_backend route (Some X) w1).1 as [b|] eqn:Hb.
  2: { case_decide.
       - apply sends_silent; [apply attempts_nil|]. apply silent_fmap, silent_no_healthy_backends.
       - apply sends_after; [apply silent_on_telemetry|]. intros _.
         apply sends_silent; [apply attempts_nil|]. apply silent_fmap, silent_complete_request. }
  apply select_backend_eligible in Hb as [Hb HX]. specialize (HX X eq_refl).
  eapply sends_bind; [apply sends_forward_request|]. fold R. intros w2 l Hl.
  set (r := (forward_request _ _ _ _ _ _ _ _ _ _ w2).1).
  assert (∀ m : stateM World (option (Response ProxyBody)), silent m →
    sends (λ l', attempts R (rt_backends route) (N.max 1 (1 + max - attempt)) X (l ++ l')) m)
    as Hstop.
  { intros m Hm. apply sends_silent; [|done]. rewrite app_nil_r.
    apply (attempts_first _ _ _ _ b); [done..|lia]. }
  destruct (negb _ || _) eqn:Hmax; [apply Hstop, silent_ret|].
  apply orb_false_iff in Hmax as [_ Hmax%bool_decide_eq_false].
  apply sends_after; [apply silent_instant_now|]. intros w3.
  case_decide; [apply Hstop, silent_ret|].
  apply sends_after; [apply silent_on_telemetry|]. intros _.
  assert (sends (λ l', attempts R (rt_backends route) (N.max 1 (1 + max - attempt)) X (l ++ l'))
    (retry_loop fuel st route method path rr addr started bt id ({[b]} ∪ X) (attempt + 1)))
    as Hnext.
  { eapply sends_mono; [|apply IH; lia]. intros l' Hl'.
    apply (attempts_app _ _ _ _ b); [done..|lia|].
    replace (N.max 1 (1 + max - (attempt + 1))) with (N.max 1 (1 + max - attempt) - 1)%N
      in Hl' by lia. done. }
  case_decide; [|done].
  apply sends_after; [apply silent_instant_now|]. intros w4.
  case_decide; [apply Hstop, silent_ret|].
  apply sends_after; [apply silent_sleep|]. done.
Qed.

(** * The handler *)

(** The requests that reach [forward_request]: the client's, with its body buffered or not,
    and replayed ones. *)
Definition buffered_body (max : N) (idle : Duration) (request : Request Body) (data : string)
    : Prop :=
  ∃ w, (buffer_request_body request max idle w).1 = Ok (with_body request data).

Definition forwarded (st : AppState) (request : Request Body) (route : RouteConfig) (s : Sent)
    : Prop :=
  let idle := route_client_body_timeout st route in
  ∃ request', prepared st request' (req_remote_addr request) idle s ∧
    (request' = request ∨
     ∃ data, buffered_body (max_request_body_bytes (app_upstream st)) idle request data ∧
       (request' = with_body request (body_full data) ∨
        request' = to_request (ReplayableRequest_from (with_body request data)))).

(** The number of attempts a request is entitled to. *)
Definition allowed_attempts (st : AppState) (method : Method) : N :=
  if should_retry_request st method then retry_max_attempts (cfg_retry (app_config st)) else 1.

Lemma buffer_request_body_Ok request max idle w buffered :
  (buffer_request_body request max idle w).1 = Ok buffered →
  buffered = with_body request (req_body buffered).
Proof.
  unfold buffer_request_body, mbind, stateM_bind. cbv zeta.
  destruct (buffer_items _ _ _ _ w).1; simpl; [|done]. by intros [= <-].
Qed.

Lemma attempts_mono R R' backends n X l :
  (∀ s, R s → R' s) → attempts R backends n X l → attempts R' backends n X l.
Proof.
  intros HR (? & ? & Hall). split; [done|]. split; [done|].
  eapply Forall_impl; [exact Hall|]. naive_solver.
Qed.

(** Acquiring a permit, buffering, and going on with the buffered request. *)
Lemma sends_buffered {A B} (wrap : B → A) P request max idle (capacity : stateM World A)
    (continue : Request string → stateM World A)
    (fail : RequestBufferError → stateM World B) :
  P [] → silent capacity → (∀ e, silent (fail e)) →
  (∀ data, buffered_body max idle request data → sends P (continue (with_body request data))) →
  sends P (permit ← try_acquire;
           if negb permit then capacity
           else outcome ← buffer_request_body request max idle;
                match outcome with
                | Ok buffered => _ ← release; continue buffered
                | Err err => r ← fail err; _ ← release; mret (wrap r)
                end).
Proof.
  intros HP Hcap Hfail Hcont. apply sends_after; [apply silent_try_acquire|]. intros w1.
  destruct (negb (try_acquire w1).1); [by apply sends_silent|].
  apply sends_after; [apply silent_buffer|]. intros w2.
  destruct (buffer_request_body request max idle w2).1 as [buffered|err] eqn:Hbuf.
  - apply sends_after; [apply silent_release|]. intros _.
    pose proof (buffer_request_body_Ok _ _ _ _ _ Hbuf) as Hbody. rewrite Hbody in Hbuf |- *.
    apply Hcont. by exists w2.
  - apply sends_silent; [done|]. apply silent_bind; [done|intros r].
    apply silent_bind; [apply silent_release|intros _; apply silent_ret].
Qed.

Lemma allowed_attempts_pos st method : (0 < allowed_attempts st method)%N.
Proof.
  unfold allowed_attempts, should_retry_request. case_match; [|lia].
  rewrite andb_true_iff, bool_decide_eq_true in *. lia.
Qed.

(** A single attempt at a backend of the route with one of the forwarded requests. *)
Lemma sends_single st request route path id b request' started n :
  b ∈ rt_backends route → (0 < n)%N →
  (∀ s, prepared st request' (req_remote_addr request) (route_client_body_timeout st route) s →
        forwarded st request route s) →
  sends (attempts (forwarded st request route) (rt_backends route) n ∅)
    (Some <$> forward_request st (req_method request) path route b request'
       (req_remote_addr request) started (route_client_body_timeout st route) id).
Proof.
  intros Hb Hn Hprep. apply sends_fmap. eapply sends_mono; [|apply sends_forward_request].
  intros l Hl. eapply attempts_mono; [exact Hprep|].
  apply (attempts_first _ _ _ _ b); [done..|apply not_elem_of_empty|done].
Qed.

Lemma sends_handle_routed st request route path id :
  sends (attempts (forwarded st request route) (rt_backends route)
           (allowed_attempts st (req_method request)) ∅)
    (handle_routed st request route (req_method request) path id).
Proof.
  pose proof (allowed_attempts_pos st (req_method request)) as Hn.
  unfold handle_routed. apply sends_after; [apply silent_instant_now|]. intros w0.
  generalize (instant_now w0).1 as started. intros started.
  destruct (should_retry_request st (req_method request)) eqn:Hretry;
    [|destruct (should_prebuffer_request (req_method request))].
  - apply (sends_buffered Some); [apply attempts_nil|apply silent_fmap, silent_capacity
      |intros; apply silent_buffer_error|]. intros data Hdata.
    eapply sends_mono; [|apply sends_retry_loop; lia]. intros l Hl.
    unfold allowed_attempts in *. rewrite Hretry in *.
    replace (N.max 1 (1 + retry_max_attempts (cfg_retry (app_config st)) - 1))
      with (retry_max_attempts (cfg_retry (app_config st))) in Hl by lia.
    eapply attempts_mono; [|exact Hl]. intros s Hs. eexists. split; [exact Hs|].
    right. exists data. split; [done|by right].
  - apply sends_after; [apply silent_select|]. intros w1.
    destruct (http_select_backend route None w1).1 as [b|] eqn:Hb.
    2: { apply sends_silent; [apply attempts_nil|]. apply silent_fmap, silent_no_healthy_backends. }
    apply select_backend_eligible in Hb as [Hb _].
    apply (sends_buffered Some); [apply attempts_nil|apply silent_fmap, silent_capacity
      |intros; apply silent_buffer_error|]. intros data Hdata.
    apply sends_single; [done..|]. intros s Hs. eexists. split; [exact Hs|].
    right. exists data. split; [done|by left].
  - apply sends_after; [apply silent_select|]. intros w1.
    destruct (http_select_backend route None w1).1 as [b|] eqn:Hb.
    2: { apply sends_silent; [apply attempts_nil|]. apply silent_fmap, silent_no_healthy_backends. }
    apply select_backend_eligible in Hb as [Hb _].
    apply sends_single; [done..|]. intros s Hs. exists request. split; [done|by left].
Qed.

Lemma sends_handle_request request st :
  sends (λ l, l = [] ∨ ∃ route id,
      match_route (uri_path (req_uri request)) (cfg_routes (app_config st)) = Some route ∧
      content_length_exceeds (req_headers (with_request_id id request))
        (max_request_body_bytes (app_upstream st)) = None ∧
      attempts (forwarded st (with_request_id id request) route) (rt_backends route)
        (allowed_attempts st (req_method request)) ∅ l)
    (handle_request request st).
Proof.
  unfold handle_request.
  apply sends_after; [apply silent_on_telemetry|intros _].
  apply sends_after; [apply silent_request_id|intros w1].
  generalize (request_id_of request w1).1 as id. intros id.
  cbn [with_request_id req_method req_uri req_headers].
  apply sends_after; [apply silent_internal|intros w2].
  destruct (handle_internal_route _ st w2).1 as [r|].
  { apply sends_after; [apply silent_instant_now|intros ?].
    apply sends_silent; [by left|]. apply silent_fmap, silent_complete_request. }
  destruct (content_length_exceeds _ _) as [cl|] eqn:Hcl.
  { apply sends_after; [apply silent_on_telemetry|intros _].
    apply sends_after; [apply silent_instant_now|intros ?].
    apply sends_silent; [by left|]. apply silent_fmap, silent_complete_request. }
  destruct (match_route _ _) as [route|] eqn:Hroute.
  2: { apply sends_after; [apply silent_instant_now|intros ?].
       apply sends_silent; [by left|]. apply silent_fmap, silent_complete_request. }
  eapply sends_mono; [|apply (sends_handle_routed st (with_request_id id request))].
  intros l Hl. right. exists route, id. done.
Qed.

(** * Termination *)

Lemma retry_loop_returns fuel st route method path rr addr started bt id X attempt w :
  0 < fuel → (retry_max_attempts (cfg_retry (app_config st)) < attempt + N.of_nat fuel)%N →
  is_Some (retry_loop fuel st route method path rr addr started bt id X attempt w).1.
Proof.
  revert X attempt w. induction fuel as [|fuel IH]; intros X attempt w Hpos Hlt; [lia|].
  cbn [retry_loop]. unfold mbind, stateM_bind, fmap, stateM_fmap. cbv zeta.
  destruct (instant_now w) as [now w1]. cbn [fst snd]. case_decide; [eauto|].
  destruct (http_select_backend route (Some X) w1) as [[b|] w2]; cbn [fst snd];
    [|case_decide; eauto].
  destruct (forward_request _ _ _ _ _ _ _ _ _ _ w2) as [r w3]. cbn [fst snd].
  destruct (negb _ || _) eqn:Hmax; [eauto|].
  apply orb_false_iff in Hmax as [_ Hmax%bool_decide_eq_false].
  destruct (instant_now w3) as [now' w4]. cbn [fst snd]. case_decide; [eauto|].
  destruct (on_telemetry _ w4) as [u w5]. cbn [fst snd].
  case_decide; [|apply IH; lia].
  destruct (instant_now w5) as [now'' w6]. cbn [fst snd]. case_decide; [eauto|apply IH; lia].
Qed.

Lemma handle_routed_returns st request route method path id w :
  is_Some (handle_routed st request route method path id w).1.
Proof.
  unfold handle_routed, forward_with_retries, mbind, stateM_bind, fmap, stateM_fmap.
  cbv zeta. repeat first [case_match | apply retry_loop_returns; lia | by eexists].
Qed.

(** * The correctness of the handler towards the backends *)

(** C2: every request is answered, in every environment: the retry loop ends, and no other
    part of the handler can fail to return. *)
Theorem handle_request_responds request st w : is_Some (handle_request request st w).1.
Proof.
  unfold handle_request, mbind, stateM_bind, fmap, stateM_fmap. cbv zeta.
  repeat first [case_match | apply handle_routed_returns | by eexists].
Qed.

(** C1: the number and the targets of the attempts.  A request reaches only backends of the
    route that matches it, each of them at most once, at most [max_attempts] of them when its
    method may be retried, and at most one otherwise: a POST is never sent twice. *)
Theorem attempts_bounded request st w :
  ∃ l, w_sent (handle_request request st w).2 = w_sent w ++ l ∧
    (N.of_nat (length l) ≤ if should_retry_request st (req_method request)
                           then retry_max_attempts (cfg_retry (app_config st)) else 1)%N ∧
    NoDup (sent_backend <$> l) ∧
    ∀ s, s ∈ l → ∃ route,
      match_route (uri_path (req_uri request)) (cfg_routes (app_config st)) = Some route ∧
      sent_backend s ∈ rt_backends route.
Proof.
  destruct (sends_handle_request request st w)
    as (l & Hl & [->|(route & id & Hroute & _ & Hlen & Hnd & Hall)]).
  { exists []. split; [done|]. split; [simpl; lia|]. split; [constructor|].
    by intros s ?%not_elem_of_nil. }
  exists l. split; [done|]. split; [exact Hlen|]. split; [done|]. intros s Hs.
  exists route. split; [done|]. rewrite Forall_forall in Hall. by apply Hall.
Qed.

Lemma with_request_id_content_length id request n :
  HeaderLaws →
  content_length_exceeds (req_headers (with_request_id id request)) n
  = content_length_exceeds (req_headers request) n.
Proof.
  intros HL. unfold content_length_exceeds, headers_get, with_request_id. cbn [req_headers].
  rewrite insert_text_get_ne; [done..|]. apply static_name_ne; done.
Qed.

(** Requests that match no route, or that announce a body over the limit, are answered
    without contacting a backend. *)
Theorem rejected_requests_stay_local request st w :
  HeaderLaws →
  match_route (uri_path (req_uri request)) (cfg_routes (app_config st)) = None ∨
    content_length_exceeds (req_headers request)
      (max_request_body_bytes (app_upstream st)) ≠ None →
  w_sent (handle_request request st w).2 = w_sent w.
Proof.
  intros HL Hrej.
  destruct (sends_handle_request request st w)
    as (l & -> & [->|(route & id & Hroute & Hcl & _)]); [apply app_nil_r|].
  rewrite with_request_id_content_length in Hcl by done. naive_solver.
Qed.

End safety.

(** ** Witnesses *)

From S2P Require Import Instances Scenario.

Definition scenario_app : AppState := (AppState_new scenario_config).1.

(** A request for a path without route: nothing is sent, whatever the answer would be. *)
Lemma rejected_requests_stay_local_witness :
  let E := all_answer 200 in
  w_sent (handle_request (client_request_to "GET" "/other" [] "") scenario_app
            scenario_world).2 = [].
Proof.
  intros E. apply (rejected_requests_stay_local (client_request_to "GET" "/other" [] "")
                     scenario_app scenario_world); [apply _|].
  left. vm_compute. reflexivity.
Defined.
