(* ===== verification/HttpState.v ===== *)
(** What a request leaves behind in the shared state ([src/http/mod.rs]): invariants under
    interference, permits, the verdicts on backends, identifiers, the protection of the debug
    endpoints, buffering, and the check at startup. *)

From S2P Require Import Prelude RustStd Externals Config Routing Telemetry Health Balancing.
From S2P Require Import Runtime HealthChecks SharedSteps Upstream Http HttpSafety.
From stdpp Require Import options.

Section state.
Context `{Platform, !Environment}.

(** * The handlers keep every [Ordinary] property *)

Lemma keeps_complete_request (I : nat → Shared → Prop) `{!Ordinary I} method path backend started r kind id :
  keeps I (complete_request method path backend started r kind id).
Proof. unfold complete_request. keeps_tac. Qed.

Lemma keeps_no_healthy_backends (I : nat → Shared → Prop) `{!Ordinary I} method path id :
  keeps I (no_healthy_backends_response method path id).
Proof.
  unfold no_healthy_backends_response. keeps_tac. by apply keeps_complete_request.
Qed.

Lemma keeps_internal {B} (I : nat → Shared → Prop) `{!Ordinary I} (request : Request B) st :
  keeps I (handle_internal_route request st).
Proof.
  unfold handle_internal_route, backend_health_response, metrics_response. keeps_tac.
  apply keeps_step; [done|]. by left.
Qed.

Lemma keeps_select (I : nat → Shared → Prop) `{!Ordinary I} route attempted :
  keeps I (http_select_backend route attempted).
Proof.
  unfold http_select_backend. keeps_tac; (apply keeps_step; [done|]); intros now s; right;
    match goal with |- context [select_backend ?lb ?r ?el] =>
      pose proof (step_select s r el); by destruct (select_backend lb r el) end.
Qed.

Lemma keeps_poll_body (I : nat → Shared → Prop) `{!Ordinary I} n body : keeps I (poll_body n body).
Proof.
  destruct body as [data|b]; simpl; [apply keeps_ret|]. apply keeps_forM.
  intros [[kind|] f]; simpl; [|apply keeps_ret]. unfold notify_error, run_hook. keeps_tac.
  apply keeps_on_health; [done|]. intros now h. by exists (OpFailure backend now).
Qed.

Lemma keeps_client_request (I : nat → Shared → Prop) `{!Ordinary I} limit backend request :
  keeps I (client_request limit backend request).
Proof.
  unfold client_request. apply keeps_bind; [by intros w Hw|]. intros reply.
  apply keeps_bind; [by apply keeps_poll_body|]. intros _. keeps_tac.
Qed.

Lemma keeps_forward_request (I : nat → Shared → Prop) `{!Ordinary I} st method path route backend
    request addr started bt id :
  keeps I (forward_request st method path route backend request addr started bt id).
Proof.
  unfold forward_request, forward. apply keeps_bind.
  - keeps_tac. by apply keeps_client_request.
  - intros [r|err]; keeps_tac; try (by apply keeps_complete_request);
      apply keeps_on_health; try done; intros now h.
    + case_match; [by exists (OpFailure backend now)|by exists (OpSuccess backend)].
    + by exists (OpFailure backend now).
Qed.

Lemma keeps_retry_loop (I : nat → Shared → Prop) `{!Ordinary I} fuel st route method path rr addr
    started bt id X attempt :
  keeps I (retry_loop fuel st route method path rr addr started bt id X attempt).
Proof.
  revert X attempt. induction fuel as [|fuel IH]; intros X attempt; [apply keeps_ret|].
  cbn [retry_loop]. keeps_tac;
    auto using keeps_complete_request, keeps_no_healthy_backends, keeps_select,
      keeps_forward_request.
Qed.

Lemma keeps_buffer (I : nat → Shared → Prop) `{!Ordinary I} request max idle :
  keeps I (buffer_request_body request max idle).
Proof.
  unfold buffer_request_body. apply keeps_bind; [|intros; apply keeps_ret].
  generalize "" as buffered. induction (timed_items idle (req_body request)) as [|[d item] items IH];
    intros buffered; simpl; [apply keeps_ret|].
  apply keeps_bind; [by apply keeps_pause|]. intros _. destruct item; [case_decide|..];
    auto using keeps_ret.
Qed.

Lemma keeps_capacity (I : nat → Shared → Prop) `{!Ordinary I} method path backend started id :
  keeps I (buffer_capacity_response method path backend started id).
Proof. unfold buffer_capacity_response. keeps_tac. by apply keeps_complete_request. Qed.

Lemma keeps_buffer_error (I : nat → Shared → Prop) `{!Ordinary I} method path backend started id err :
  keeps I (buffer_error_response method path backend started id err).
Proof. unfold buffer_error_response. keeps_tac. by apply keeps_complete_request. Qed.

(** ** Holding a permit *)

(** [m] leads from states with [I] to states with [J]. *)
Definition leads {A} (I J : nat → Shared → Prop) (m : stateM World A) : Prop :=
  ∀ w, I (w_tick w) (w_shared w) → J (w_tick (m w).2) (w_shared (m w).2).

Lemma leads_bind {A B} I J K (m : stateM World A) (k : A → stateM World B) :
  leads I J m → (∀ a, leads J K (k a)) → leads I K (m ≫= k).
Proof. intros Hm Hk w Hw. by apply Hk, Hm. Qed.

Lemma leads_release I J `{!Guarded I J} : leads J I release.
Proof.
  intros w Hw. unfold release, atomically. cbv zeta. cbn [fst snd w_shared set_shared].
  apply guarded_release. by apply ordinary_stable.
Qed.

Lemma keeps_acquire {A} I J `{!Guarded I J} (k : bool → stateM World A) :
  keeps I (k false) → leads J I (k true) → keeps I (try_acquire ≫= k).
Proof.
  intros Hfalse Htrue w Hw. unfold mbind, stateM_bind, try_acquire, atomically. cbv zeta.
  assert (I (w_tick (pass 0 w)) (w_shared (pass 0 w))) as Hw1 by by apply ordinary_stable.
  destruct (sem_try_acquire _) as [sem|] eqn:Hs; cbn [fst snd].
  - apply Htrue. by eapply guarded_acquire.
  - by apply Hfalse.
Qed.

(** The body is buffered under the permit, which is dropped on every way out. *)
Lemma keeps_buffered {A B} (wrap : B → A) I J `{!Guarded I J} request max idle
    (capacity : stateM World A) (continue : Request string → stateM World A)
    (fail : RequestBufferError → stateM World B) :
  keeps I capacity → (∀ r, keeps I (continue r)) → (∀ e, keeps J (fail e)) →
  keeps I (permit ← try_acquire;
           if negb permit then capacity
           else outcome ← buffer_request_body request max idle;
                match outcome with
                | Ok buffered => _ ← release; continue buffered
                | Err err => r ← fail err; _ ← release; mret (wrap r)
                end).
Proof.
  intros Hcap Hcont Hfail. apply (keeps_acquire I J); simpl; [done|].
  apply (leads_bind _ J); [by apply keeps_buffer; apply _|]. intros [buffered|err].
  - apply (leads_bind _ I); [by apply leads_release|]. intros _. apply Hcont.
  - apply (leads_bind _ J); [apply Hfail|]. intros r.
    apply (leads_bind _ I); [by apply leads_release|]. intros _. apply keeps_ret.
Qed.

Lemma keeps_handle_routed I J `{!Guarded I J} st request route method path id :
  keeps I (handle_routed st request route method path id).
Proof.
  pose proof guarded_free as HI. pose proof guarded_held as HJ.
  unfold handle_routed. apply keeps_bind; [by apply keeps_instant_now|]. intros started.
  case_match; [|case_match].
  - apply (keeps_buffered Some I J); [by apply keeps_fmap, keeps_capacity|intros r|intros e];
      [by apply keeps_retry_loop|by apply keeps_buffer_error].
  - apply keeps_bind; [by apply keeps_select|]. intros [backend|].
    + apply (keeps_buffered Some I J); [by apply keeps_fmap, keeps_capacity|intros r|intros e];
        [by apply keeps_fmap, keeps_forward_request|by apply keeps_buffer_error].
    + apply keeps_fmap. by apply keeps_no_healthy_backends.
  - apply keeps_bind; [by apply keeps_select|]. intros [backend|]; apply keeps_fmap;
      [by apply keeps_forward_request|by apply keeps_no_healthy_backends].
Qed.

Lemma keeps_handle_request I J `{!Guarded I J} request st :
  keeps I (handle_request request st).
Proof.
  pose proof guarded_free as HI. unfold handle_request.
  apply keeps_bind; [apply keeps_on_telemetry; apply _|intros _].
  apply keeps_bind.
  { unfold request_id_of, next_request_id. case_match; [apply keeps_ret|].
    apply keeps_bind; [|intros; apply keeps_ret]. apply keeps_step; [done|].
    intros now s. right. apply step_request_id. }
  intros id. apply keeps_bind; [by apply keeps_internal|]. intros internal.
  keeps_tac; first [by apply keeps_complete_request|by eapply keeps_handle_routed].
Qed.

Lemma keeps_startup I `{!Ordinary I} st : keeps I (run_startup_health_check st).
Proof.
  unfold run_startup_health_check, run_active_check_pass, run_active_check_pass_with_client.
  apply keeps_bind; [by apply keeps_run_checks|]. intros [].
  1, 3: apply keeps_bind; [by apply keeps_query_dead_pools|]; intros pools;
    apply keeps_bind; [apply keeps_forM; intros pool; keeps_tac|intros; apply keeps_ret].
  apply keeps_ret.
Qed.

Lemma keeps_background I `{!Ordinary I} st panic wakes :
  keeps I (spawn_background_tasks st panic wakes).
Proof.
  unfold spawn_background_tasks. apply keeps_bind; [by apply keeps_spawn_active_checks|].
  intros []; keeps_tac.
Qed.

(** ** The two instances *)

Lemma health_guarded :
  (∀ n s, shared_health_wf s → shared_health_wf (env_others n s)) →
  Guarded (λ _, shared_health_wf) (λ _, shared_health_wf).
Proof.
  intros Hothers. assert (Ordinary (λ _, shared_health_wf)).
  { split; [done|]. intros _ s s' []; unfold shared_health_wf; simpl; [done| |done..].
    intros Hs. by apply (op_steps_wf (sh_health s) [op]). }
  split; [done..|done|done].
Qed.

Definition available (s : Shared) : N := sem_available (sh_semaphore s).

Lemma permits_guarded c :
  SemaphoreLaws → (∀ n s, available (env_others n s) = available s) →
  Guarded (λ _ s, available s = c) (λ _ s, (available s + 1)%N = c).
Proof.
  intros HL Hothers.
  split; [split; [intros n s; by rewrite Hothers|by intros n s s' []]..| |].
  - intros n s sem Hs. unfold available. simpl. apply sem_acquire_some in Hs. lia.
  - intros n s Hs. unfold available in *. simpl. rewrite sem_release_available. lia.
Qed.

(** * The correctness of the handler towards the shared state *)

(** Whatever the other tasks do, as long as they too keep the health state well-formed, a
    request keeps it so on every path, and so does every hook that runs meanwhile. *)
Theorem handle_request_keeps_health request st w :
  (∀ n s, shared_health_wf s → shared_health_wf (env_others n s)) →
  shared_health_wf (w_shared w) → shared_health_wf (w_shared (handle_request request st w).2).
Proof.
  intros Hothers. pose proof (health_guarded Hothers).
  by apply (keeps_handle_request (λ _, shared_health_wf) (λ _, shared_health_wf)).
Qed.

(** C8: no permit is leaked.  When the others leave the semaphore alone, as many permits are
    available after a request as before, on every path: refusals, buffering errors,
    timeouts, retries. *)
Theorem permits_returned request st w :
  SemaphoreLaws → (∀ n s, available (env_others n s) = available s) →
  available (w_shared (handle_request request st w).2) = available (w_shared w).
Proof.
  intros HL Hothers. pose proof (permits_guarded (available (w_shared w)) HL Hothers) as HG.
  by apply (keeps_handle_request (λ _ s, available s = available (w_shared w)) _ request st w).
Qed.

(** C18: the debug endpoints are protected.  With a token configured, a request for one of
    them without exactly that bearer token gets the 401 response when the endpoint is exposed
    and is not an internal request otherwise; nothing of the shared state is even read. *)
Theorem debug_endpoints_protected {B} (request : Request B) st token w :
  dbg_auth_token (cfg_debug (app_config st)) = Some token →
  headers_get (req_headers request) AUTHORIZATION ≫= value_to_str
    ≠ Some ("Bearer " +:+ token) →
  uri_path (req_uri request) = "/health/backends" ∨ uri_path (req_uri request) = "/metrics" →
  ∃ exposed, handle_internal_route request st w
             = (if exposed : bool then Some unauthorized_debug_response else None, w).
Proof.
  intros Htoken Hauth Hpath.
  assert (debug_request_authorized request st = false) as Hno.
  { unfold debug_request_authorized. rewrite Htoken. by apply bool_decide_eq_false. }
  unfold handle_internal_route. rewrite Hno. case_decide; [|by exists false].
  destruct Hpath as [-> | ->]; simpl; case_match; solve [by exists true | by exists false].
Qed.

(** ** Buffering *)

Definition is_chunk (i : Duration * Polled) : Prop := ∃ c, i.2 = Chunk c.

(** What the first items of a body come to: the outcome of buffering, declaratively. *)
Definition buffer_outcome (max : N) (idle : Duration) (items : list (Duration * Polled))
    (r : result RequestBufferError string) : Prop :=
  match r with
  | Ok data => Forall is_chunk items ∧ data = items_bytes items ∧ (str_len data ≤ max)%N
  | Err e => ∃ pre item post, items = pre ++ item :: post ∧ Forall is_chunk pre ∧
      (str_len (items_bytes pre) ≤ max)%N ∧
      match e with
      | TooLarge limit => limit = max ∧ is_chunk item ∧
          (max < str_len (items_bytes (pre ++ [item])))%N
      | TimedOut timeout => timeout = idle ∧ item.2 = IdleElapsed
      | ReadFailed err => item.2 = ReadError err
      end
  end.

Lemma items_bytes_app l l' : items_bytes (l ++ l') = items_bytes l +:+ items_bytes l'.
Proof.
  unfold items_bytes. rewrite fmap_app. induction (chunk_bytes ∘ snd <$> l) as [|x xs IH];
    simpl; [done|]. by rewrite IH, append_assoc.
Qed.

Lemma items_bytes_snoc l d c : items_bytes (l ++ [(d, Chunk c)]) = items_bytes l +:+ c.
Proof. rewrite items_bytes_app. unfold items_bytes at 2. simpl. by rewrite append_nil_r. Qed.

Lemma buffer_items_outcome max idle pre items w :
  Forall is_chunk pre → (str_len (items_bytes pre) ≤ max)%N →
  (str_len (items_bytes (pre ++ items)) < u64_modulus)%N →
  buffer_outcome max idle (pre ++ items) (buffer_items max idle (items_bytes pre) items w).1.
Proof.
  revert pre w. induction items as [|[d item] items IH]; intros pre w Hpre Hle Hlt.
  { rewrite app_nil_r. done. }
  cbn [buffer_items]. unfold mbind, stateM_bind. cbv zeta.
  destruct (sleep d w) as [u w1]. cbn [fst snd]. destruct item as [c|err|].
  - assert (pre ++ (d, Chunk c) :: items = (pre ++ [(d, Chunk c)]) ++ items) as Hitems
      by by rewrite <-app_assoc.
    assert (str_len (items_bytes (pre ++ [(d, Chunk c)])) < u64_modulus)%N as Hlt1.
    { rewrite Hitems, items_bytes_app, str_len_app in Hlt. lia. }
    rewrite items_bytes_snoc, str_len_app in Hlt1.
    rewrite u64_add_small by done. case_decide as Hmax.
    + exists pre, (d, Chunk c), items. repeat split; try done; [by exists c|].
      rewrite items_bytes_snoc, str_len_app. done.
    + rewrite <-(items_bytes_snoc pre d c).
      rewrite Hitems in Hlt |- *. apply IH; [|rewrite items_bytes_snoc, str_len_app; lia|done].
      apply Forall_app. split; [done|]. constructor; [by exists c|constructor].
  - by exists pre, (d, ReadError err), items.
  - by exists pre, (d, IdleElapsed), items.
Qed.

(** C13: buffering returns the whole body, unchanged, exactly when it arrives without errors
    and fits the limit; otherwise the error is the first thing that went wrong. *)
Theorem buffer_request_body_exact request max idle w :
  (str_len (items_bytes (timed_items idle (req_body request))) < u64_modulus)%N →
  buffer_outcome max idle (timed_items idle (req_body request))
    (match (buffer_request_body request max idle w).1 with
     | Ok r => Ok (req_body r) | Err e => Err e end).
Proof.
  intros Hlt. pose proof (buffer_items_outcome max idle [] (timed_items idle (req_body request))
    w (Forall_nil_2 _)) as Hout.
  specialize (Hout (N.le_0_l max) Hlt). change (items_bytes []) with "" in Hout.
  rewrite app_nil_l in Hout. unfold buffer_request_body, mbind, stateM_bind. cbv zeta.
  by destruct (buffer_items max idle "" _ w) as [[data|e] w1].
Qed.

(** ** Identifiers *)

(** The identifiers of the next [n] requests that need one. *)
Fixpoint next_ids (n : nat) : stateM World (list string) :=
  match n with
  | O => mret []
  | S n => id ← next_request_id; ids ← next_ids n; mret (id :: ids)
  end.

Lemma next_ids_counter n w c :
  (∀ k s, sh_request_id (env_others k s) = sh_request_id s) →
  sh_request_id (w_shared w) = as_u64 c →
  (next_ids n w).1 = (λ i, hex016 (as_u64 (c + N.of_nat i))) <$> seq 0 n.
Proof.
  intros Hothers. revert w c. induction n as [|n IH]; intros w c Hc; [done|].
  cbn [next_ids]. unfold mbind, stateM_bind, next_request_id, mbind, stateM_bind, atomically.
  cbv zeta. cbn [fst snd mret stateM_ret].
  rewrite (IH _ (c + 1)%N).
  - rewrite <-cons_seq, fmap_cons. simpl. rewrite Hothers, Hc, N.add_0_r. f_equal.
    rewrite <-fmap_S_seq, <-list_fmap_compose. apply list_fmap_ext. intros _ i _. simpl.
    do 2 f_equal. lia.
  - simpl. by rewrite Hothers, Hc, as_u64_add.
Qed.

(** C26: generated request identifiers are distinct: of any number of identifiers up to [2^64]
    that the shared counter hands out in a row, to whatever requests, no two are equal. *)
Theorem request_ids_distinct n w :
  (∀ k s, sh_request_id (env_others k s) = sh_request_id s) →
  (sh_request_id (w_shared w) < u64_modulus)%N → (N.of_nat n ≤ u64_modulus)%N →
  NoDup (next_ids n w).1.
Proof.
  intros Hothers Hlt Hn.
  rewrite (next_ids_counter n w (sh_request_id (w_shared w))) by (done || by rewrite as_u64_small).
  apply NoDup_fmap_2_strong; [|apply NoDup_seq].
  intros i j Hi%elem_of_seq Hj%elem_of_seq Heq.
  apply hex016_inj in Heq; [|by apply N.mod_lt..].
  unfold as_u64 in Heq. revert Hlt Hn Heq. generalize (sh_request_id (w_shared w)) as c.
  generalize u64_modulus as M. intros M c Hlt Hn Heq.
  pose proof (N.div_mod' (c + N.of_nat i) M) as Hdi.
  pose proof (N.div_mod' (c + N.of_nat j) M) as Hdj.
  rewrite Heq in Hdi. revert Hdi Hdj.
  generalize ((c + N.of_nat i) `div` M)%N ((c + N.of_nat j) `div` M)%N. intros q q' Hdi Hdj.
  destruct (N.lt_trichotomy q q') as [Hq|[->|Hq]]; [nia|lia|nia].
Qed.

(** ** The verdict on a backend *)

(** The manager after an event does not depend on the telemetry. *)
Lemma health_step_telemetry m t t' e : (health_step (m, t) e).1 = (health_step (m, t') e).1.
Proof. by rewrite !health_step_manager. Qed.

Definition manager (w : World) : HealthManager := (sh_health (w_shared w)).1.

(** [m] leaves the health manager alone when no other task interferes. *)
Definition spares_health {A} (m : stateM World A) : Prop := ∀ h, keeps (λ _ s, (sh_health s).1 = h) m.

Lemma spares_bind {A B} (m : stateM World A) (k : A → stateM World B) :
  spares_health m → (∀ a, spares_health (k a)) → spares_health (m ≫= k).
Proof. intros Hm Hk h. by apply keeps_bind; [apply Hm|intros; apply Hk]. Qed.

Lemma spares_atomically {A} (f : Instant → Shared → A * Shared) :
  (∀ n s, env_others n s = s) →
  (∀ now s, (sh_health (f now s).2).1 = (sh_health s).1) → spares_health (atomically f).
Proof.
  intros Hund Hf h. apply keeps_atomically; [intros n s; by rewrite Hund|].
  intros n now s <-. apply Hf.
Qed.

Lemma spares_on_telemetry f : (∀ n s, env_others n s = s) → spares_health (on_telemetry f).
Proof. intros Hund. by apply spares_atomically. Qed.

Lemma spares_complete_request method path backend started r kind id :
  (∀ n s, env_others n s = s) →
  spares_health (complete_request method path backend started r kind id).
Proof.
  intros Hund. unfold complete_request.
  apply spares_bind; [by apply spares_on_telemetry|intros _].
  apply spares_bind; [by apply spares_atomically|intros now].
  apply spares_bind; [by apply spares_on_telemetry|intros _]. by intros h w.
Qed.

Lemma spares_forward client backend request addr ct rt bt hook :
  (∀ n s, env_others n s = s) →
  spares_health (forward client backend request addr ct rt bt (Some RequestErrorHook) hook).
Proof.
  intros Hund. unfold forward. destruct (url_parse backend) as [url|]; [|by intros h w].
  destruct (build_upstream_uri url (req_uri request)); [|by intros h w].
  apply spares_bind; [|by intros ? ? ?]. unfold client_request.
  apply spares_bind; [by intros h w|intros reply]. apply spares_bind.
  - intros h. simpl. apply keeps_forM. intros [[kind|] f]; simpl; [|by intros w].
    by apply spares_on_telemetry.
  - intros _. case_decide; (apply spares_bind; [|by intros ? ? ?]);
      intros h; apply keeps_sleep; intros n s; by rewrite Hund.
Qed.

(** C12: each attempt passes exactly one verdict on its backend: a success when a response
    came whose status is no passive failure for the route, a failure in every other case. *)
Theorem attempt_verdict st method path route backend request addr started bt id w :
  (∀ n s, env_others n s = s) →
  let outcome := (forward (app_upstream st) backend request addr (route_connect_timeout st route)
    (route_read_timeout st route) bt (Some RequestErrorHook)
    (Some (ResponseErrorHook backend)) w).1 in
  ∃ now, manager (forward_request st method path route backend request addr started bt id w).2 =
    (health_step (sh_health (w_shared w))
       match outcome with
       | Ok response => if route_passive_failure (manager w) route (resp_status response)
                        then HFailure backend now else HSuccess backend
       | Err _ => HFailure backend now
       end).1.
Proof.
  intros Hund outcome. unfold outcome, forward_request, mbind at 1, stateM_bind at 1. cbv zeta.
  pose proof (spares_forward (app_upstream st) backend request addr
    (route_connect_timeout st route) (route_read_timeout st route) bt
    (Some (ResponseErrorHook backend)) Hund (manager w) w eq_refl) as Hw1. cbv beta in Hw1.
  destruct (forward _ _ _ _ _ _ _ _ _ w) as [r w1]. cbn [fst snd] in *. clear outcome.
  unfold mbind at 1, stateM_bind at 1. cbv zeta.
  pose proof (spares_atomically (λ now s, (now, s)) Hund (λ _ _, eq_refl) (manager w) w1 Hw1)
    as Hw2. fold instant_now in Hw2. cbv beta in Hw2.
  destruct (instant_now w1) as [t w2]. cbn [fst snd] in *.
  unfold mbind at 1, stateM_bind at 1. cbv zeta.
  pose proof (spares_on_telemetry (record_upstream_latency (elapsed t started)) Hund _ w2 Hw2)
    as Hw3. cbv beta in Hw3. destruct (on_telemetry _ w2) as [u w3]. cbn [fst snd] in *.
  assert (∀ e w4, (sh_health (w_shared w4)).1 = (health_step (sh_health (w_shared w3)) e).1 →
    (sh_health (w_shared w4)).1 = (health_step (sh_health (w_shared w)) e).1) as Hstep.
  { intros e w4 ->. unfold manager in Hw3.
    destruct (sh_health (w_shared w3)) as [m3 t3], (sh_health (w_shared w)) as [m t0].
    simpl in Hw3. subst m3. apply health_step_telemetry. }
  exists (w_now (pass 0 w3)).
  unfold mbind at 1, stateM_bind at 1, manager. cbv zeta. destruct r as [response|err].
  - apply Hstep, spares_complete_request; [done|]. unfold on_health, atomically. cbv zeta.
    cbn [fst snd w_shared set_shared sh_health set_health pass]. rewrite Hund.
    unfold manager in Hw3. rewrite Hw3. by case_match.
  - apply Hstep. unfold mbind, stateM_bind. cbv zeta. apply spares_complete_request; [done|].
    apply spares_on_telemetry; [done|]. unfold on_health, atomically. cbv zeta.
    cbn [fst snd w_shared set_shared sh_health set_health pass]. by rewrite Hund.
Qed.

(** ** Startup *)

Lemma filter_nil_admitted now m (bs : list string) :
  filter (λ b, admitted now m b = true) bs = [] ↔ ∀ b, b ∈ bs → admitted now m b = false.
Proof.
  split.
  - intros Hnil b Hb. apply not_true_is_false. intros Hadm.
    assert (b ∈ filter (λ b, admitted now m b = true) bs) as Hin by by apply list_elem_of_filter.
    rewrite Hnil in Hin. by apply not_elem_of_nil in Hin.
  - intros Hall. destruct (filter _ bs) as [|b k] eqn:Hf; [done|].
    assert (b ∈ filter (λ b, admitted now m b = true) bs) as [Hb Hin]%list_elem_of_filter
      by (rewrite Hf; by left). rewrite Hall in Hb; done.
Qed.

Lemma filter_nonempty {A} (P : A → Prop) `{∀ x, Decision (P x)} (l : list A) :
  filter P l ≠ [] ↔ ∃ x, x ∈ l ∧ P x.
Proof.
  split.
  - destruct (filter P l) as [|x k] eqn:Hf; [done|]. intros _. exists x.
    assert (x ∈ filter P l) as [? ?]%list_elem_of_filter by (rewrite Hf; by left). done.
  - intros (x & Hx & HP) Hnil. assert (x ∈ filter P l) as Hin by by apply list_elem_of_filter.
    rewrite Hnil in Hin. by apply not_elem_of_nil in Hin.
Qed.

(** The routes that have no backend a request could be offered to. *)
Definition dead_routes (now : Instant) (m : HealthManager) (routes : list RouteConfig)
    : list RouteConfig :=
  filter (λ r, Forall (λ b, admitted now m b = false) (rt_backends r)) routes.

Lemma filter_nil_Forall {A} (P : A → Prop) `{∀ x, Decision (P x)} l :
  filter P l = [] ↔ Forall (λ x, ¬ P x) l.
Proof.
  induction l as [|x l IH]; [done|]. rewrite filter_cons, Forall_cons. case_decide; naive_solver.
Qed.

(** What a startup check that does not panic answers. *)
Lemma startup_check_outcome st w :
  let after := run_active_check_pass (app_config st) w in
  let w2 := pass 0 after.2 in
  let dead := rt_path_prefix <$>
    dead_routes (w_now w2) (manager w2) (cfg_routes (app_config st)) in
  hm_wf (manager w2) → after.1 ≠ Panicked →
  (run_startup_health_check st w).1 = Some (
    if srv_fail_on_startup_dead_pool (cfg_server (app_config st)) && negb (bool_decide (dead = []))
    then Err ("startup aborted: " +:+ pretty (N.of_nat (length dead))
              +:+ " route(s) have no reachable backends: " +:+ str_join ", " dead)
    else Ok tt).
Proof.
  intros after w2 dead Hwf Hfin. unfold run_startup_health_check, mbind, stateM_bind. cbv zeta.
  fold after. destruct after.1 eqn:Ho; [|done|].
  all: unfold query_health, atomically; cbv zeta; fold w2.
  all: destruct (startup_dead_pools_spec (w_now w2) (cfg_routes (app_config st)) _ Hwf) as [Hdead _].
  all: unfold manager in *; destruct (startup_dead_pools _ _ _) as [pools m]; cbn [fst snd] in *.
  all: assert (pools = dead) as ->; [|done].
  all: rewrite Hdead; unfold dead, dead_routes; f_equal; apply list_filter_iff; intros r.
  all: rewrite filter_nil_Forall; apply Forall_iff; intros b; by rewrite not_true_iff_false.
Qed.


End state.

(** ** Witnesses *)

From S2P Require Import Instances Scenario.

Definition post_request : Request Body := client_request_to "POST" "/api/users" [] "hello".

Lemma handle_request_keeps_health_witness :
  let E := all_answer 503 in
  shared_health_wf (w_shared (handle_request post_request scenario_app scenario_world).2).
Proof.
  intros E. apply (handle_request_keeps_health post_request scenario_app scenario_world);
    [by intros|]. apply scenario_manager_wf.
Defined.

Lemma permits_returned_witness :
  let E := all_answer 200 in
  available (w_shared (handle_request post_request scenario_app scenario_world).2) = 100%N.
Proof.
  intros E. etrans; [apply (permits_returned post_request scenario_app scenario_world)|];
    [apply _|by intros|reflexivity].
Defined.

Definition guarded_app : AppState := {|
  app_config := {|
    cfg_server := ServerConfig_default; cfg_routes := scenario_routes;
    cfg_health_check := HealthCheckConfig_default; cfg_upstream := UpstreamConfig_default;
    cfg_retry := RetryConfig_default;
    cfg_debug := {| dbg_expose_backend_health := true; dbg_expose_metrics := false;
                    dbg_auth_token := Some "secret" |};
  |};
  app_upstream := UpstreamClient_default;
|}.

Lemma debug_endpoints_protected_witness :
  let E := all_answer 200 in
  ∃ exposed, handle_internal_route (client_request_to "GET" "/health/backends"
                [("authorization", "Bearer secre")] "") guarded_app scenario_world
             = (if exposed : bool then Some unauthorized_debug_response else None, scenario_world).
Proof.
  intros E. apply (debug_endpoints_protected _ guarded_app "secret" scenario_world);
    [reflexivity|vm_compute; congruence|by left].
Defined.

Lemma buffer_request_body_exact_witness :
  let E := all_answer 200 in
  buffer_outcome 5 1000 [(0%N, Chunk "hello")]
    (match (buffer_request_body post_request 5 1000 scenario_world).1 with
     | Ok r => Ok (req_body r) | Err e => Err e end).
Proof. intros E. by apply (buffer_request_body_exact post_request 5 1000 scenario_world). Defined.

Lemma request_ids_distinct_witness :
  let E := all_answer 200 in NoDup (next_ids 3 scenario_world).1.
Proof. intros E. by apply (request_ids_distinct 3 scenario_world). Defined.

Lemma attempt_verdict_witness :
  let E := all_answer 503 in
  ∃ now, manager (forward_request scenario_app "POST" "/api" (sample_route "/api" ["http://a"])
                    "http://a" post_request None 0 1000 "id" scenario_world).2
    = (health_step (scenario_manager, Telemetry_new scenario_routes)
         (HFailure "http://a" now)).1.
Proof.
  intros E. destruct (attempt_verdict scenario_app "POST" "/api" (sample_route "/api" ["http://a"])
    "http://a" post_request None 0 1000 "id" scenario_world) as [now Hnow]; [by intros|].
  exists now. exact Hnow.
Defined.

