(* ===== verification/HttpContent.v ===== *)
(** What a request's exchanges contain ([src/http/mod.rs]): the requests that backends see,
    the identifier on every response, and the eligibility of the chosen backend. *)

From S2P Require Import Prelude RustStd Externals Config Routing Telemetry Health Balancing.
From S2P Require Import Runtime HealthChecks Upstream Http HttpSafety HttpState.
From stdpp Require Import options.

Section content.
Context `{Platform, !Environment}.

(** * What a computation returns *)

Definition yields {A} (Q : A → Prop) (m : stateM World A) : Prop := ∀ w, Q (m w).1.

Lemma yields_bind {A B} (Q : B → Prop) (m : stateM World A) (k : A → stateM World B) :
  (∀ a, yields Q (k a)) → yields Q (m ≫= k).
Proof. intros Hk w. apply Hk. Qed.

Lemma yields_fmap {A B} (Q : B → Prop) (f : A → B) (m : stateM World A) :
  yields (λ a, Q (f a)) m → yields Q (f <$> m).
Proof. intros Hm w. apply Hm. Qed.

(** A response that went through [complete_request] under the identifier [id]. *)
Definition completed (id : string) (r : Response ProxyBody) : Prop :=
  ∃ r0, r = with_header X_REQUEST_ID id r0.
Definition completed_option (id : string) (o : option (Response ProxyBody)) : Prop :=
  ∀ r, o = Some r → completed id r.

Lemma yields_complete method path backend started r kind id :
  yields (completed id) (complete_request method path backend started r kind id).
Proof. intros w. by exists r. Qed.

Lemma yields_forward_request st method path route backend request addr started bt id :
  yields (completed id)
    (forward_request st method path route backend request addr started bt id).
Proof.
  unfold forward_request. apply yields_bind. intros outcome. do 2 (apply yields_bind; intros ?).
  destruct outcome; [|apply yields_bind; intros ?]; apply yields_bind; intros ?;
    apply yields_complete.
Qed.

Lemma completed_Some id (m : stateM World (Response ProxyBody)) :
  yields (completed id) m → yields (completed_option id) (Some <$> m).
Proof. intros Hm. apply yields_fmap. intros w r [= <-]. apply Hm. Qed.

Lemma yields_retry_loop fuel st route method path rr addr started bt id X attempt :
  yields (completed_option id)
    (retry_loop fuel st route method path rr addr started bt id X attempt).
Proof.
  revert X attempt. induction fuel as [|fuel IH]; intros X attempt; [by intros w r|].
  cbn [retry_loop]. apply yields_bind. intros now. case_decide.
  { apply yields_bind. intros _. apply completed_Some, yields_complete. }
  apply yields_bind. intros [b|].
  2: { case_decide; [apply completed_Some; do 2 (apply yields_bind; intros ?)
                    |apply yields_bind; intros _; apply completed_Some]; apply yields_complete. }
  intros w. unfold mbind at 1, stateM_bind at 1. cbv zeta.
  set (r := forward_request _ _ _ _ _ _ _ _ _ _ w).
  assert (completed_option id (Some r.1)) as Hr
    by (intros r' [= <-]; apply yields_forward_request).
  generalize r.2 as w'. intros w'.
  assert (yields (completed_option id) (mret (M := stateM World) (Some r.1))) as Hret
    by (intros w''; exact Hr).
  revert w'.
  match goal with |- ∀ w', completed_option id (?m w').1 => change (yields (completed_option id) m) end.
  destruct (negb _ || _); [exact Hret|]. apply yields_bind. intros now'. case_decide; [done|].
  apply yields_bind. intros _. case_decide; [|apply IH].
  apply yields_bind. intros now''. case_decide; [done|]. apply yields_bind. intros _. apply IH.
Qed.

Lemma yields_handle_routed st request route method path id :
  yields (completed_option id) (handle_routed st request route method path id).
Proof.
  unfold handle_routed. apply yields_bind. intros started.
  assert (∀ e backend, yields (completed id)
    (buffer_error_response method path backend started id e)) as Herr
    by (intros e backend; apply yields_bind; intros _; apply yields_complete).
  assert (∀ backend, yields (completed id)
    (buffer_capacity_response method path backend started id)) as Hcap
    by (intros backend; apply yields_bind; intros _; apply yields_complete).
  assert (yields (completed id) (no_healthy_backends_response method path id)) as Hnone
    by (do 2 (apply yields_bind; intros ?); apply yields_complete).
  assert (∀ e backend, yields (completed_option id)
    (r ← buffer_error_response method path backend started id e; _ ← release; mret (Some r)))
    as Hfail by (intros e backend w r [= <-]; exact (Herr e backend w)).
  case_match; [|case_match].
  - apply yields_bind. intros permit. case_match; [by apply completed_Some|].
    apply yields_bind. intros [buffered|e]; [|apply Hfail].
    apply yields_bind. intros _. apply yields_retry_loop.
  - apply yields_bind. intros [b|]; [|by apply completed_Some].
    apply yields_bind. intros permit. case_match; [by apply completed_Some|].
    apply yields_bind. intros [buffered|e]; [|apply Hfail].
    apply yields_bind. intros _. apply completed_Some, yields_forward_request.
  - apply yields_bind. intros [b|]; [|by apply completed_Some].
    apply completed_Some, yields_forward_request.
Qed.

(** The identifier of a request: the client's when it is text, else a generated one. *)
Definition identifies (request : Request Body) (id : string) : Prop :=
  match headers_get (req_headers request) (name_from_static "x-request-id") ≫= value_to_str with
  | Some client_id => id = client_id
  | None => ∃ n, id = hex016 n
  end.

Lemma yields_handle_request request st :
  yields (λ o, ∃ id, identifies request id ∧ completed_option id o) (handle_request request st).
Proof.
  unfold handle_request. apply yields_bind. intros _ w.
  unfold mbind at 1, stateM_bind at 1. cbv zeta.
  assert (identifies request (request_id_of request w).1) as Hid.
  { unfold identifies, request_id_of, X_REQUEST_ID. case_match; [done|]. by eexists. }
  exists (request_id_of request w).1. split; [done|]. clear Hid.
  generalize (request_id_of request w).1 (request_id_of request w).2. intros id.
  match goal with |- ∀ w', completed_option id (?m w').1 => change (yields (completed_option id) m) end.
  apply yields_bind. intros [r|].
  { apply yields_bind. intros now. apply completed_Some, yields_complete. }
  case_match.
  { do 2 (apply yields_bind; intros ?). apply completed_Some, yields_complete. }
  case_match; [apply yields_handle_routed|].
  apply yields_bind. intros now. apply completed_Some, yields_complete.
Qed.

(** Either identifier can be written into a header. *)
Lemma identifier_is_a_value request id :
  HeaderLaws → identifies request id → is_Some (value_from_str id).
Proof.
  intros HL. unfold identifies. destruct (headers_get _ _) as [v|]; simpl.
  - destruct (value_to_str v) as [s|] eqn:Hs; [intros ->; by eapply value_to_from_str|].
    intros [n ->]. apply value_from_visible, visible_hex016.
  - intros [n ->]. apply value_from_visible, visible_hex016.
Qed.

(** C25: every response, of whatever branch, carries the request's identifier and no other
    [x-request-id]: the one the client sent when it is text, or else a generated one, in place
    of any that the backend put there. *)
Theorem response_carries_request_id request st w r :
  HeaderLaws → (handle_request request st w).1 = Some r →
  ∃ id v, identifies request id ∧
    headers_get_all (resp_headers r) (name_from_static "x-request-id") = [v] ∧
    value_to_str v = Some id.
Proof.
  intros HL Hr. destruct (yields_handle_request request st w) as (id & Hid & Hc).
  destruct (identifier_is_a_value _ _ HL Hid) as [v Hv]. exists id, v. split; [done|].
  destruct (Hc r Hr) as [r0 ->]. split; [|by apply value_from_to_str].
  unfold with_header. cbn [resp_headers]. rewrite insert_text_get, Hv by done.
  by rewrite decide_True.
Qed.

(** * What backends see *)

(** The headers that the proxy manages on the way to a backend. *)
Definition managed_names : list HeaderName :=
  name_from_static <$> ["host"; "x-forwarded-for"; "x-forwarded-proto"; "forwarded";
    "x-request-id"; "content-length"].

Lemma connection_listed headers headers' :
  headers_get_all headers CONNECTION = headers_get_all headers' CONNECTION →
  listed_names headers = listed_names headers'.
Proof. unfold listed_names, headers_get. by intros ->. Qed.

Lemma upstream_headers_get headers url addr n :
  HeaderLaws → HashIterLaws →
  n ∉ managed_names →
  headers_get_all (apply_forwarding_headers (sanitize_hop_by_hop_headers headers) url addr) n =
    if decide (n ∈ hop_by_hop_names ++ listed_names headers) then []
    else headers_get_all headers n.
Proof.
  intros HL HI Hn. rewrite <-sanitize_get by done. unfold managed_names in Hn.
  rewrite !fmap_cons in Hn.
  rewrite !not_elem_of_cons in Hn. destruct Hn as (? & ? & ? & ? & _).
  unfold apply_forwarding_headers. destruct addr as [a|];
    rewrite ?insert_text_get_ne by done;
    (destruct (backend_authority url); rewrite ?insert_text_get_ne by done);
    by rewrite !remove_get_all_ne by (by apply not_eq_sym).
Qed.

(** The requests that may be forwarded have the headers of the client's, but for those the
    proxy manages. *)
Lemma forwarded_headers st request route s :
  HeaderLaws → forwarded st request route s →
  ∃ request' url uri, url_parse (sent_backend s) = Ok url ∧
    build_upstream_uri url (req_uri request) = Ok uri ∧
    req_method request' = req_method request ∧
    (∀ n, n ≠ CONTENT_LENGTH →
       headers_get_all (req_headers request') n = headers_get_all (req_headers request) n) ∧
    sent_request s = upstream_request (app_upstream st) url uri request'
      (req_remote_addr request) (route_client_body_timeout st route) (Some RequestErrorHook).
Proof.
  intros HL (request' & (url & uri & Hurl & Huri & Hs) & Hreq). exists request', url, uri.
  assert (req_uri request' = req_uri request ∧ req_method request' = req_method request ∧
    ∀ n, n ≠ CONTENT_LENGTH →
      headers_get_all (req_headers request') n = headers_get_all (req_headers request) n)
    as (Heq & Hmeth & Hhead).
  { destruct Hreq as [->|(data & _ & [->| ->])]; [done|done|]. split; [done|]. split; [done|].
    intros n Hn. cbn. by apply insert_text_get_ne. }
  rewrite Heq in Huri. done.
Qed.

Lemma config_backend config route backend :
  Config_ok config → route ∈ cfg_routes config → backend ∈ rt_backends route → backend_ok backend.
Proof.
  intros (_ & _ & Hroutes & _) Hr Hb. rewrite Forall_forall in Hroutes.
  destruct (Hroutes route Hr) as (_ & _ & _ & _ & _ & _ & _ & _ & Hall).
  rewrite Forall_forall in Hall. by apply Hall.
Qed.

(** C6: backends see the client's request.  Each request sent upstream has the client's
    method; its target is the client's path and query on the backend's authority, unchanged
    when they are plain and percent-encoded, without dot segments, when they are not; and of
    the client's headers, the hop-by-hop ones are gone and the others keep all their values,
    but for those the proxy manages. *)
Theorem upstream_request_faithful request st w :
  UrlLaws → TargetLaws → HeaderLaws → HashIterLaws → Config_ok (app_config st) →
  ∃ l, w_sent (handle_request request st w).2 = w_sent w ++ l ∧
    ∀ s, s ∈ l →
      req_method (sent_request s) = req_method request ∧
      (∃ url, url_parse (sent_backend s) = Ok url ∧
         client_target url (req_uri request) (req_uri (sent_request s))) ∧
      ∀ n, n ∉ managed_names →
        (hop_by_hop (req_headers request) n →
           headers_get_all (req_headers (sent_request s)) n = []) ∧
        (¬ hop_by_hop (req_headers request) n →
           headers_get_all (req_headers (sent_request s)) n
           = headers_get_all (req_headers request) n).
Proof.
  intros HU HT HL HI Hok. destruct (sends_handle_request request st w)
    as (l & Hl & [->|(route & id & Hroute & _ & _ & _ & Hall)]).
  { exists []. split; [done|]. by intros s ?%not_elem_of_nil. }
  exists l. split; [done|]. intros s Hs. rewrite Forall_forall in Hall.
  destruct (Hall s Hs) as (Hback & _ & Hfwd).
  destruct (forwarded_headers _ _ _ _ HL Hfwd) as (r' & url & uri & Hurl & Huri & Hm & Hh & ->).
  split; [exact Hm|]. split.
  { exists url. split; [done|]. cbn [upstream_request req_uri].
    apply match_route_Some in Hroute as [Hroute _].
    destruct (config_backend _ _ _ Hok Hroute Hback) as (url' & Hurl' & Hhttp & _).
    rewrite Hurl in Hurl'. injection Hurl' as <-.
    exact (build_upstream_uri_target _ _ _ _ HU HT Hurl Hhttp Huri). }
  intros n Hn.
  assert (∀ n, n ∉ [X_REQUEST_ID; CONTENT_LENGTH] → headers_get_all (req_headers r') n
    = headers_get_all (req_headers request) n) as Hsame.
  { intros n'. rewrite !not_elem_of_cons. intros (Hid & Hcl & _). rewrite Hh by done.
    cbn. by apply insert_text_get_ne. }
  cbn [upstream_request req_headers]. rewrite upstream_headers_get by done.
  rewrite (connection_listed (req_headers r') (req_headers request)), Hsame.
  - rewrite <-hop_by_hop_elem. by case_decide.
  - unfold managed_names in Hn. rewrite !fmap_cons, !not_elem_of_cons in *. naive_solver.
  - apply Hsame. rewrite !not_elem_of_cons.
    split; [by apply static_name_ne|]. split; [by apply static_name_ne|apply not_elem_of_nil].
Qed.

Lemma buffered_body_bytes max idle request data :
  (str_len (items_bytes (timed_items idle (req_body request))) < u64_modulus)%N →
  buffered_body max idle request data → data = items_bytes (timed_items idle (req_body request)).
Proof.
  intros Hlt [w Hw]. unfold buffer_request_body, mbind, stateM_bind in Hw. cbv zeta in Hw.
  pose proof (buffer_items_outcome max idle [] (timed_items idle (req_body request)) w
    (Forall_nil_2 _) (N.le_0_l max) Hlt) as Hout.
  change (items_bytes []) with "" in Hout. rewrite app_nil_l in Hout.
  destruct (buffer_items max idle "" _ w) as [[data'|e] w1]; cbn [fst snd mret stateM_ret] in *;
    [|done].
  injection Hw as ->. apply Hout.
Qed.

(** C7: the body a backend is sent is the client's, byte for byte, on every attempt, streamed or
    buffered, and it goes through the stream that enforces the request body limit. *)
Theorem upstream_body_faithful request st w :
  BodyLaws →
  (∀ idle, str_len (items_bytes (timed_items idle (req_body request))) < u64_modulus)%N →
  ∃ l, w_sent (handle_request request st w).2 = w_sent w ++ l ∧
    ∀ s, s ∈ l → ∃ b idle, req_body (sent_request s) = StreamBody b ∧
      lb_max_bytes b = max_request_body_bytes (app_upstream st) ∧
      items_bytes (lb_items b) = items_bytes (timed_items idle (req_body request)).
Proof.
  intros HL Hlt. destruct (sends_handle_request request st w)
    as (l & Hl & [->|(route & id & _ & _ & _ & _ & Hall)]).
  { exists []. split; [done|]. by intros s ?%not_elem_of_nil. }
  exists l. split; [done|]. intros s Hs. rewrite Forall_forall in Hall.
  destruct (Hall s Hs) as (_ & _ & request' & (url & uri & _ & _ & ->) & Hreq).
  eexists _, (route_client_body_timeout st route). split; [done|]. split; [done|].
  cbn [lb_items]. destruct Hreq as [->|(data & Hdata & [->| ->])]; [done|..];
    cbn [req_body with_body to_request ReplayableRequest_from rr_body];
    rewrite (proj2 (body_full_items _ data));
    exact (buffered_body_bytes _ _ (with_request_id id request) data (Hlt _) Hdata).
Qed.

(** * The chosen backend *)

(** C11: a backend is chosen only while its breaker admits requests and only once per request;
    none is chosen only when every admitted backend of the route has been attempted. *)
Theorem selection_is_admitted route attempted w :
  let w1 := pass 0 w in
  hm_wf (manager w1) →
  match (http_select_backend route (Some attempted) w).1 with
  | Some b => b ∈ rt_backends route ∧ (b ∉ attempted) ∧
      admitted (w_now w1) (manager w1) b = true
  | None => ∀ b, b ∈ rt_backends route → admitted (w_now w1) (manager w1) b = true →
      b ∈ attempted
  end.
Proof.
  intros w1 Hwf. unfold http_select_backend, mbind, stateM_bind, query_health, atomically.
  cbv zeta. fold w1. destruct (filter_healthy_spec (w_now w1) (rt_backends route) _ Hwf) as [Hf _].
  unfold healthy_backends, manager in *.
  destruct (filter_healthy _ _ _) as [hs m]. cbn [fst snd] in *. subst hs.
  set (eligible := filter (λ b, b ∉ attempted) _).
  assert (∀ b, b ∈ eligible ↔ b ∈ rt_backends route ∧ (b ∉ attempted) ∧
    admitted (w_now w1) (sh_health (w_shared w1)).1 b = true) as Helig
    by (intros b; unfold eligible; rewrite !list_elem_of_filter; tauto).
  set (w2 := set_shared _ _).
  pose proof (select_backend_is_Some (sh_balancer (w_shared (pass 0 w2))) route eligible) as Hsome.
  destruct (Balancing.select_backend _ route eligible) as [[b|] lb] eqn:Hc; cbn [fst snd].
  - apply Helig. by eapply select_backend_in.
  - intros b Hb Hadm. destruct (decide (b ∈ attempted)) as [|Hni]; [done|exfalso].
    assert (b ∈ eligible) as Hin by by apply Helig.
    destruct Hsome as [? Hsome]; [intros Hnil; rewrite Hnil in Hin; by apply not_elem_of_nil in Hin|].
    done.
Qed.

End content.

(** ** Witnesses *)

From S2P Require Import Instances Scenario.

Definition tagged_request : Request Body :=
  client_request_to "GET" "/api" [("x-request-id", "abc")] "".

(** The client's identifier comes back, in place of the one of the backend. *)
Lemma response_carries_request_id_witness :
  let E := calm (λ _ _, {| reply_after := 1; reply_polled := 1;
                           reply_result := Ok {| resp_status := 200; resp_version := "HTTP/1.1";
                             resp_headers := [("x-request-id", "other")]; resp_body := [] |} |})
                (λ _ _, (1%N, Some 200%N)) in
  ∃ r, (handle_request tagged_request scenario_app scenario_world).1 = Some r ∧
    headers_get_all (resp_headers r) "x-request-id" = ["abc"].
Proof.
  intros E.
  set (r := default (text_response 0 "")
              (handle_request tagged_request scenario_app scenario_world).1).
  assert ((handle_request tagged_request scenario_app scenario_world).1 = Some r) as Hr
    by (apply unwrap_is_some; vm_compute; reflexivity).
  exists r. split; [exact Hr|]. clearbody r.
  destruct (response_carries_request_id tagged_request scenario_app scenario_world r _ Hr)
    as (id & v & Hid & Hv & Hs).
  vm_compute in Hid. subst id. etrans; [exact Hv|]. f_equal.
  revert Hs. simpl. unfold simple_value. case_match; congruence.
Defined.

(** A retried request with a query; [te] and the header that [Connection] lists are dropped. *)
Definition query_request : Request Body := {|
  req_method := "GET";
  req_uri := origin_form "/api/users" (Some "page=2&x=a%20b") : @Uri (@platform_uri simple_platform);
  req_version := "HTTP/1.1";
  req_headers := [("connection", "X-Secret"); ("x-secret", "1"); ("te", "trailers");
                  ("accept", "text/html")] : @HeaderMap (@platform_headers simple_platform);
  req_remote_addr := Some ("9.9.9.9", "4242");
  req_body := body_full "";
|}.

Lemma upstream_body_faithful_witness :
  let E := all_answer 200 in
  ∃ l, w_sent (handle_request post_request scenario_app scenario_world).2 = l ∧
    ∀ s, s ∈ l → ∃ b idle, req_body (sent_request s) = StreamBody b ∧
      items_bytes (lb_items b) = items_bytes (timed_items idle (req_body post_request)).
Proof.
  intros E. destruct (upstream_body_faithful post_request scenario_app scenario_world)
    as (l & Hl & Hall).
  { apply _. }
  { intros idle. change (req_body post_request) with (body_full "hello").
    by rewrite (proj2 (body_full_items idle "hello")). }
  exists l. split; [exact Hl|]. intros s Hs. destruct (Hall s Hs) as (b & idle & Hb & _ & Hd).
  exists b, idle. split; [exact Hb|exact Hd].
Defined.

Lemma selection_is_admitted_witness :
  let E := all_answer 200 in
  (http_select_backend (sample_route "/api" ["http://a"; "http://b"]) (Some {["http://a"]})
     scenario_world).1 = Some "http://b" ∧
  admitted 0 scenario_manager "http://b" = true.
Proof.
  intros E. pose proof (selection_is_admitted (sample_route "/api" ["http://a"; "http://b"])
    {["http://a"]} scenario_world scenario_manager_wf) as Hsel.
  split; [vm_compute; reflexivity|]. apply Hsel.
Defined.

(** ** A retried request, end to end *)

(** [http://a] answers 503, every other backend 200. *)
Definition flaky : Environment :=
  calm (λ _ r, if decide (headers_get (req_headers r) HOST = Some "a")
               then answer 503 "" else answer 200 "hello")
       (λ _ _, (1%N, Some 200%N)).

Definition retrying_app : AppState := {|
  app_config := {|
    cfg_server := ServerConfig_default; cfg_routes := scenario_routes;
    cfg_health_check := HealthCheckConfig_default; cfg_upstream := UpstreamConfig_default;
    cfg_retry := {| retry_max_attempts := 3; retry_total_timeout_ms := 5000;
                    retry_backoff_ms := 50; retry_on_statuses := [502; 503; 504]%N;
                    retry_idempotent_methods := false |};
    cfg_debug := DebugConfig_default;
  |};
  app_upstream := UpstreamClient_default;
|}.

Definition sent_by_query_request : list Sent :=
  let E := flaky in w_sent (handle_request query_request retrying_app scenario_world).2.

Lemma upstream_request_faithful_witness :
  length sent_by_query_request = 2 ∧
  ∀ s, s ∈ sent_by_query_request →
    req_method (sent_request s) = "GET" ∧
    uri_path (req_uri (sent_request s)) = "/api/users" ∧
    uri_query (req_uri (sent_request s)) = Some "page=2&x=a%20b" ∧
    headers_get_all (req_headers (sent_request s)) "x-secret" = [] ∧
    headers_get_all (req_headers (sent_request s)) "accept" = ["text/html"].
Proof.
  split; [vm_compute; reflexivity|].
  destruct (upstream_request_faithful (H0 := flaky) query_request retrying_app
    scenario_world) as (l & Hl & Hall); [apply _..|by apply Config_validate_ok|].
  unfold sent_by_query_request. cbv zeta. rewrite Hl. intros s Hs.
  destruct (Hall s Hs) as (Hm & (url & _ & _ & _ & _ & _ & _ & Hp & Hq) & Hh).
  split; [exact Hm|]. split; [by apply Hp|]. split; [by apply Hq|]. split.
  - apply (Hh "x-secret"); [apply (bool_decide_unpack _); vm_compute; exact I|].
    apply hop_by_hop_elem, (bool_decide_unpack _). vm_compute. exact I.
  - etrans; [apply (Hh "accept")|reflexivity].
    + apply (bool_decide_unpack _). vm_compute. exact I.
    + rewrite <-hop_by_hop_elem. apply (bool_decide_unpack _). vm_compute. exact I.
Defined.

(** The client gets one response, 200, from the next backend of the rotation; the metric of responses sent
    also counts the 503 of the first attempt, which was never sent. *)
Example retried_response_is_counted :
  let E := flaky in
  let (o, w) := handle_request (client_request_to "GET" "/api" [] "") retrying_app
                  scenario_world in
  resp_status <$> o = Some 200%N ∧
  sent_backend <$> w_sent w = ["http://a"; "http://c"] ∧
  map_to_list (response_statuses (sh_health (w_shared w)).2) = [(200%N, 1%N); (503%N, 1%N)].
Proof. vm_compute. repeat split. Qed.
