(* ===== verification/System.v ===== *)
(** The running proxy as a whole: the state behind [AppState::new], and everything that any
    number of requests, health checks and hooks of bodies in flight can do to it.

    [sys_step] is one atomic update by some task; a state is a [Shared] with the number of
    permits that are held.  A task that is cancelled stops between two steps, and its permit
    is dropped, which is a step as well; so the reachable states are those of every
    interleaving of complete and of abandoned requests.  The first part proves what holds of
    every reachable state; the second that the handlers, translated from the source, take
    only such steps, as long as the tasks around them do, and return the permits they take:
    the invariant of a running task counts its own permits apart from those of the others,
    which follow a schedule that the theorem quantifies over. *)

From S2P Require Import Prelude RustStd Externals Config Routing Telemetry Health Balancing.
From S2P Require Import Runtime HealthChecks SharedSteps Upstream Http HttpSafety HttpState.
From stdpp Require Import options.

(** * Machine types *)

Definition backend_typed (st : BackendHealth) : Prop :=
  (consecutive_failures st < u64_modulus)%N ∧ (consecutive_successes st < u64_modulus)%N.

Definition health_typed (s : HealthState) : Prop :=
  map_Forall (λ _, backend_typed) (backend_health s.1) ∧ tele_typed s.2.

Definition balancer_typed (lb : LoadBalancer) : Prop :=
  map_Forall (λ _ rb, rb_counter rb < u64_modulus)%N (lb_routes lb).

Section system.
Context `{Platform}.

Record shared_typed (s : Shared) : Prop := {
  typed_balancer : balancer_typed (sh_balancer s);
  typed_health : health_typed (sh_health s);
  typed_request_id : (sh_request_id s < u64_modulus)%N;
}.

(** * The system *)

(** One atomic update by some task; the number counts the permits that are held. *)
Inductive sys_step : Shared * N → Shared * N → Prop :=
  | sys_shared s s' held : shared_step s s' → sys_step (s, held) (s', held)
  | sys_acquire s sem held :
      sem_try_acquire (sh_semaphore s) = Some sem →
      sys_step (s, held) (set_semaphore sem s, (held + 1)%N)
  | sys_release s held :
      sys_step (s, (held + 1)%N) (set_semaphore (sem_release (sh_semaphore s)) s, held).

Definition sys_reachable (config : Config) (s : Shared) (held : N) : Prop :=
  rtc sys_step ((AppState_new config).2, 0%N) (s, held).

(** ** The types survive every step *)

#[local] Hint Resolve u64_add_lt count_entry_typed push_transition_length : core.

Lemma tele_op_typed op t : tele_typed t → tele_typed (tele_op op t).
Proof. intros []. destruct op; split; simpl; auto. Qed.

Lemma event_state_typed m e st : backend_typed st → backend_typed (event_state m e st).
Proof.
  unfold backend_typed. intros [Hf Hs]. destruct e; simpl;
    unfold success_state, failure_state, observe_state; repeat case_match; simpl; split; try apply u64_add_lt; done.
Qed.

Lemma health_step_typed s e : health_typed s → health_typed (health_step s e).
Proof.
  intros [Hm Ht]. split.
  - intros b st'. rewrite health_step_lookup. case_decide; [|apply Hm].
    intros (st & Hst & ->)%fmap_Some. eapply event_state_typed, Hm, Hst.
  - destruct s as [m t]. simpl in Ht.
    assert (∀ b, tele_typed (record_backend_failure b t))
      as Hfail by (intros b; by apply (tele_event_typed (EvBackendFailure b))).
    assert (∀ b f t' r tele, tele_typed tele → tele_typed (record_health_transition b f t' r tele))
      as Htr by (intros b f t' r tele; by apply (tele_event_typed
        (EvTransition {| tr_backend := b; tr_from := f; tr_to := t'; tr_reason := r |}))).
    destruct e; simpl; unfold record_success, record_failure, record_transition;
      repeat case_match; simplify_eq/=; auto.
Qed.

Lemma op_step_typed s op : hm_wf s.1 → health_typed s → health_typed (op_step s op).
Proof.
  intros Hwf Hs. rewrite op_step_events by done.
  apply (foldl_preserves health_typed); [|done]. intros. by apply health_step_typed.
Qed.

Lemma select_typed lb route eligible :
  balancer_typed lb → balancer_typed (select_backend lb route eligible).2.
Proof.
  intros Hlb. unfold select_backend, RouteBalancer_select.
  repeat case_match; simplify_eq/=; try done; apply map_Forall_insert_2; simpl; auto.
  by eapply Hlb.
Qed.

(** Well-formed health and machine types, together: each step keeps both. *)
Definition shared_wf (s : Shared) : Prop := shared_health_wf s ∧ shared_typed s.

Lemma shared_step_wf s s' : shared_step s s' → shared_wf s → shared_wf s'.
Proof.
  intros Hstep [Hwf [Hlb [Hm Ht] Hid]]. destruct Hstep; (split; [|split]); simpl; try done.
  - split; [done|]. by apply tele_op_typed.
  - by apply (op_steps_wf (sh_health s) [op]).
  - by apply op_step_typed.
  - by apply select_typed.
Qed.

Lemma set_semaphore_wf sem s : shared_wf s → shared_wf (set_semaphore sem s).
Proof. intros [Hwf []]. split; [done|by split]. Qed.

(** ** The initial state *)

Lemma LoadBalancer_new_typed routes : balancer_typed (LoadBalancer_new routes).
Proof.
  unfold balancer_typed, LoadBalancer_new. simpl.
  apply (foldl_preserves (map_Forall (λ _ rb, rb_counter rb < u64_modulus)%N));
    [|apply map_Forall_empty]. intros m r Hm. by apply map_Forall_insert_2.
Qed.

Lemma AppState_new_wf config : Config_ok config → shared_wf (AppState_new config).2.
Proof.
  intros Hok. split; [|split; simpl; [apply LoadBalancer_new_typed| |done]].
  - destruct Hok as (_ & _ & _ & _ & (_ & _ & _ & Hft & Hrt & _) & _).
    apply with_telemetry_wf; lia.
  - split; [|apply Telemetry_new_typed]. by apply map_Forall_or_insert.
Qed.

(** ** The health of the backends in the whole system *)

(** The part of a manager that never changes. *)
Definition limits (m : HealthManager) : HealthManager := set_backend_health ∅ m.

Lemma health_steps_limits s es : limits (foldl health_step s es).1 = limits s.1.
Proof.
  revert s. induction es as [|e es IH]; intros s; [done|]. simpl.
  rewrite IH, health_step_limits. done.
Qed.

Lemma breaker_run_app ft d es1 es2 x y z :
  breaker_run ft d es1 x y → breaker_run ft d es2 y z → breaker_run ft d (es1 ++ es2) x z.
Proof. induction 1; [done|]. intros. simpl. econstructor; eauto. Qed.

(** The breaker of [b] has come from [x] by events about [b]. *)
Definition breaker_came (config : Config) (m : HealthManager) (b : string) (x : Breaker) : Prop :=
  ∃ es y, breaker m b = Some y ∧ Forall (λ e, event_backend e = b) es ∧
    breaker_run (hc_failure_threshold (cfg_health_check config))
      (from_millis (hc_ejection_duration_ms (cfg_health_check config))) es x y.

Definition initial_manager (config : Config) : HealthManager :=
  (sh_health (AppState_new config).2).1.

Lemma breaker_came_step config s op b x :
  hm_wf s.1 → limits s.1 = limits (initial_manager config) →
  (hc_failure_threshold (cfg_health_check config) < u64_modulus)%N →
  breaker_came config s.1 b x → breaker_came config (op_step s op).1 b x.
Proof.
  intros Hwf Hlim Hmax (es & y & Hy & Hes & Hrun). rewrite op_step_events by done.
  assert (failure_threshold s.1 = hc_failure_threshold (cfg_health_check config)) as Hft
    by apply (f_equal failure_threshold Hlim).
  assert (ejection_duration s.1
    = from_millis (hc_ejection_duration_ms (cfg_health_check config))) as Hd
    by apply (f_equal ejection_duration Hlim).
  destruct (health_steps_run s (op_events s op) b y Hwf ltac:(by rewrite Hft) Hy)
    as (z & Hz & Hrun').
  rewrite Hft, Hd in Hrun'. eexists (es ++ _), z. split; [done|].
  split; [|by eapply breaker_run_app]. apply Forall_app. split; [done|].
  apply Forall_forall. intros e He. by apply list_elem_of_filter in He as [? _].
Qed.

Lemma breaker_came_initial config b :
  b ∈ cfg_routes config ≫= rt_backends → breaker_came config (initial_manager config) b (Closed 0).
Proof.
  intros Hb. exists [], (Closed 0). split; [|split; [constructor|constructor]].
  unfold breaker. cbn -[or_insert]. by rewrite foldl_or_insert_lookup, decide_True.
Qed.

(** ** The invariant of the system *)

(** What holds of every reachable state. *)
Record sys_inv (config : Config) (s : Shared) (held : N) : Prop := {
  inv_wf : shared_wf s;
  inv_limits : limits (sh_health s).1 = limits (initial_manager config);
  inv_permits : (available s + held = up_max_buffered_bodies (cfg_upstream config))%N;
  inv_breakers b : b ∈ cfg_routes config ≫= rt_backends →
    breaker_came config (sh_health s).1 b (Closed 0);
}.

Lemma sys_inv_initial `{!SemaphoreLaws} config :
  Config_ok config → sys_inv config (AppState_new config).2 0.
Proof.
  intros Hok. split; [by apply AppState_new_wf|done| |].
  - unfold available. simpl. rewrite sem_new_available. lia.
  - intros b. apply breaker_came_initial.
Qed.

Lemma shared_step_permits s s' : shared_step s s' → available s' = available s.
Proof. by intros []. Qed.

Lemma shared_step_inv config s s' held :
  (hc_failure_threshold (cfg_health_check config) < u64_modulus)%N →
  shared_step s s' → sys_inv config s held → sys_inv config s' held.
Proof.
  intros Hmax Hstep [Hwf Hlim Hper Hbr]. split.
  - by eapply shared_step_wf.
  - destruct Hstep; simpl; try done. rewrite op_step_events by apply Hwf.
    by rewrite health_steps_limits.
  - by rewrite (shared_step_permits _ _ Hstep).
  - intros b Hb. specialize (Hbr b Hb). destruct Hstep; simpl; try done.
    apply breaker_came_step; [apply Hwf|done..].
Qed.

Lemma sys_step_inv `{!SemaphoreLaws} config s held s' held' :
  (hc_failure_threshold (cfg_health_check config) < u64_modulus)%N →
  sys_step (s, held) (s', held') → sys_inv config s held → sys_inv config s' held'.
Proof.
  intros Hmax Hstep Hinv.
  inv Hstep; [by eapply shared_step_inv|destruct Hinv as [Hwf Hlim Hper Hbr]..];
    (split; [by apply set_semaphore_wf|done| |done]); unfold available in *; simpl.
  - match goal with Hs : sem_try_acquire _ = Some _ |- _ => apply sem_acquire_some in Hs end. lia.
  - rewrite sem_release_available. lia.
Qed.

Lemma sys_reachable_inv `{!SemaphoreLaws} config s held :
  Config_ok config → (hc_failure_threshold (cfg_health_check config) < u64_modulus)%N →
  sys_reachable config s held → sys_inv config s held.
Proof.
  intros Hok Hmax Hr. unfold sys_reachable in Hr.
  enough (∀ x y, rtc sys_step x y → sys_inv config x.1 x.2 → sys_inv config y.1 y.2) as Hgen
    by exact (Hgen _ _ Hr (sys_inv_initial config Hok)).
  induction 1 as [|[s1 h1] [s2 h2] z Hstep _ IH]; [done|]. intros Hinv.
  apply IH. by eapply sys_step_inv.
Qed.

Lemma load_from_file_ok read_to_string yaml_from_str path config :
  load_from_file read_to_string yaml_from_str path = Ok config → Config_ok config.
Proof.
  unfold load_from_file. rewrite !bind_Ok.
  intros (text & _ & Hc). apply bind_Ok in Hc as (c & _ & Hc).
  apply bind_Ok in Hc as ([] & Hv & [= ->]). by apply Config_validate_ok.
Qed.

(** * The tasks stay inside the system *)

Lemma sys_reachable_permits `{!SemaphoreLaws} config s held :
  sys_reachable config s held →
  (available s + held = up_max_buffered_bodies (cfg_upstream config))%N.
Proof.
  intros Hr. unfold sys_reachable in Hr.
  assert (∀ x y, rtc sys_step x y → (available x.1 + x.2 = available y.1 + y.2)%N) as Hgen.
  { induction 1 as [|x y z Hstep _ IH]; [done|]. rewrite <-IH. clear IH.
    destruct Hstep as [s1 s2 h Hs|s1 sem h Hs|s1 h]; simpl.
    - by rewrite (shared_step_permits _ _ Hs).
    - apply sem_acquire_some in Hs. unfold available. simpl. lia.
    - unfold available. simpl. rewrite sem_release_available. lia. }
  apply Hgen in Hr. simpl in Hr. rewrite <-Hr. unfold available. simpl.
  rewrite sem_new_available. lia.
Qed.

Lemma sys_reachable_step config s held s' held' :
  sys_reachable config s held → sys_step (s, held) (s', held') → sys_reachable config s' held'.
Proof. intros Hr Hstep. by eapply rtc_r. Qed.

(** The state is reachable, this task holds [mine] permits and the others hold [holds n] at
    its step [n]. *)
Definition accounted (config : Config) (holds : nat → N) (mine : N) (n : nat) (s : Shared) : Prop :=
  sys_reachable config s (mine + holds n).

Context `{!Environment}.

(** The other tasks too take only steps of the system, on a schedule of the permits they hold,
    whether this task holds one more or not. *)
Definition on_schedule (config : Config) (holds : nat → N) (mine : N) : Prop :=
  ∀ n s k, (mine ≤ k ≤ mine + 1)%N →
    sys_reachable config s (k + holds n) → sys_reachable config (env_others n s) (k + holds (S n)).

Lemma accounted_guarded config holds mine :
  on_schedule config holds mine →
  Guarded (accounted config holds mine) (accounted config holds (mine + 1)).
Proof.
  intros Hothers.
  assert (∀ k, (mine ≤ k ≤ mine + 1)%N → Ordinary (accounted config holds k)) as HO.
  { intros k Hk. split; [intros n s; by apply Hothers|]. intros n s s' Hstep Hs.
    eapply sys_reachable_step; [exact Hs|]. by apply sys_shared. }
  unfold accounted in *. split; [apply HO; lia..| |]; unfold accounted; intros n s.
  - intros sem Hsem Hs. eapply sys_reachable_step; [exact Hs|].
    replace (mine + 1 + holds n)%N with (mine + holds n + 1)%N by lia. by apply sys_acquire.
  - intros Hs. eapply sys_reachable_step; [exact Hs|].
    replace (mine + 1 + holds n)%N with (mine + holds n + 1)%N by lia. apply sys_release.
Qed.

(** The tasks of the proxy. *)
Inductive Task :=
  | RequestTask (request : Request Body) (** [handle_request] *)
  | StartupTask (** [run_startup_health_check] *)
  | BackgroundTask (panic : string) (wakes : list Wake). (** [spawn_background_tasks] *)

(** The world after a task that ran in [w] with the configuration. *)
Definition run_task (config : Config) (t : Task) (w : World) : World :=
  let st := (AppState_new config).1 in
  match t with
  | RequestTask request => (handle_request request st w).2
  | StartupTask => (run_startup_health_check st w).2
  | BackgroundTask panic wakes => (spawn_background_tasks st panic wakes w).2
  end.

Lemma run_task_accounted config holds mine t w :
  on_schedule config holds mine →
  accounted config holds mine (w_tick w) (w_shared w) →
  accounted config holds mine (w_tick (run_task config t w)) (w_shared (run_task config t w)).
Proof.
  intros Hothers. pose proof (accounted_guarded config holds mine Hothers) as HG.
  pose proof (guarded_free (Guarded := HG)) as HO.
  destruct t; simpl.
  - by eapply (keeps_handle_request (accounted config holds mine)).
  - by apply (keeps_startup (accounted config holds mine)).
  - by apply (keeps_background (accounted config holds mine)).
Qed.

(** * The correctness of the system *)

(** C3: from a configuration that was loaded, every state the running proxy can reach, with
    any number of requests, checks and hooks in progress or abandoned, is sound: the health
    states are well-formed, every number fits its machine type, permits are neither lost nor
    made up, and every configured backend is where its circuit breaker, closed at the start,
    has been led by events about that backend. *)
Theorem system_invariant `{!SemaphoreLaws} read_to_string yaml_from_str path config s held :
  load_from_file read_to_string yaml_from_str path = Ok config →
  (hc_failure_threshold (cfg_health_check config) < u64_modulus)%N →
  sys_reachable config s held →
  shared_health_wf s ∧ shared_typed s ∧
  (available s + held = up_max_buffered_bodies (cfg_upstream config))%N ∧
  ∀ b, b ∈ cfg_routes config ≫= rt_backends →
    ∃ es y, breaker (sh_health s).1 b = Some y ∧ Forall (λ e, event_backend e = b) es ∧
      breaker_run (hc_failure_threshold (cfg_health_check config))
        (from_millis (hc_ejection_duration_ms (cfg_health_check config))) es (Closed 0) y.
Proof.
  intros Hload Hmax Hr. apply load_from_file_ok in Hload.
  destruct (sys_reachable_inv config s held Hload Hmax Hr) as [[Hwf Hty] _ Hper Hbr]. done.
Qed.

(** C4: a request, the startup check and the background checks take only steps of the system
    on every path, and return exactly the permits they take.  The others may hold any number
    of permits [holds n] at each step [n] of the task, as long as they too take only steps of
    the system: from a state that is reachable with [mine] permits held by the task and the
    others' on top, the task leads to a state that is reachable with the same number [mine]
    and the others' at that time; and what is available has changed by what the others hold
    and by nothing else. *)
Theorem tasks_stay_in_the_system `{!SemaphoreLaws} config holds mine t w :
  (∀ n s k, (mine ≤ k ≤ mine + 1)%N →
     sys_reachable config s (k + holds n) →
     sys_reachable config (env_others n s) (k + holds (S n))) →
  sys_reachable config (w_shared w) (mine + holds (w_tick w)) →
  let w' := run_task config t w in
  sys_reachable config (w_shared w') (mine + holds (w_tick w')) ∧
  (available (w_shared w') + holds (w_tick w')
   = available (w_shared w) + holds (w_tick w))%N.
Proof.
  intros Hothers Hw w'.
  assert (sys_reachable config (w_shared w') (mine + holds (w_tick w'))) as Hw'
    by by apply run_task_accounted.
  split; [done|].
  pose proof (sys_reachable_permits _ _ _ Hw) as Hp.
  pose proof (sys_reachable_permits _ _ _ Hw') as Hp'. lia.
Qed.

End system.

(** ** Witnesses *)

From S2P Require Import Instances Scenario.

(** One request holds a permit, and another has failed on a backend. *)
Definition busy_state : Shared :=
  let s := (AppState_new scenario_config).2 in
  let s := set_semaphore (99 : @Semaphore (@platform_semaphore simple_platform))%N s in
  set_health (op_step (sh_health s) (OpFailure "http://a" 5)) s.

Lemma busy_state_reachable : sys_reachable scenario_config busy_state 1.
Proof.
  eapply rtc_l; [by apply (sys_acquire _ (99 : @Semaphore (@platform_semaphore simple_platform))%N)|].
  apply rtc_once. apply sys_shared, step_health.
Qed.

Lemma system_invariant_witness :
  shared_health_wf busy_state ∧ shared_typed busy_state ∧
  (available busy_state + 1)%N = 100%N ∧
  ∃ es y, breaker (sh_health busy_state).1 "http://a" = Some y ∧
    Forall (λ e, event_backend e = "http://a") es ∧ breaker_run 3 (from_millis 30000) es (Closed 0) y.
Proof.
  destruct (system_invariant (λ _, Ok "routes") (λ _, Ok scenario_config) "config.yaml"
    scenario_config busy_state 1) as (Hwf & Hty & Hper & Hbr);
    [vm_compute; reflexivity|done|apply busy_state_reachable|].
  split; [exact Hwf|]. split; [exact Hty|]. split; [exact Hper|]. apply Hbr. left.
Defined.

(** Between any two steps, another request runs from beginning to end, and a third takes a
    permit or returns it. *)
Definition run_other_request (n : nat) (s : Shared) : Shared :=
  let E := all_answer 503 in
  w_shared (run_task scenario_config (RequestTask post_request)
              {| w_now := N.of_nat n; w_tick := n; w_shared := s; w_sent := [] |}).
Definition third_request (n : nat) (s : Shared) : Shared :=
  if Nat.even n then
    match sem_try_acquire (sh_semaphore s) with Some sem => set_semaphore sem s | None => s end
  else set_semaphore (sem_release (sh_semaphore s)) s.
Definition third_holds (n : nat) : N := if Nat.even n then 0 else 1.

Definition busy : Environment := {|
  env_delay _ := 1%N;
  env_others n s := third_request n (run_other_request n s);
  env_reply _ _ := answer 503 "busy";
  env_probe _ _ := (1%N, None);
|}.

Lemma run_other_request_reachable n s held :
  sys_reachable scenario_config s held →
  sys_reachable scenario_config (run_other_request n s) held.
Proof.
  intros Hs.
  apply (@run_task_accounted _ (all_answer 503) scenario_config (λ _, held) 0 (RequestTask post_request)
    {| w_now := N.of_nat n; w_tick := n; w_shared := s; w_sent := [] |}); [|exact Hs].
  by intros ? s' k _.
Qed.

Lemma third_request_reachable n s k :
  (k ≤ 1)%N → sys_reachable scenario_config s (k + third_holds n) →
  sys_reachable scenario_config (third_request n s) (k + third_holds (S n)).
Proof.
  unfold third_request, third_holds. rewrite Nat.even_succ, <-Nat.negb_even. intros Hk.
  destruct (Nat.even n); cbn [negb]; intros Hs.
  - pose proof (sys_reachable_permits _ _ _ Hs) as Hp.
    change (up_max_buffered_bodies (cfg_upstream scenario_config)) with 100%N in Hp.
    destruct (sem_try_acquire (sh_semaphore s)) as [sem|] eqn:Hsem.
    + eapply sys_reachable_step; [exact Hs|].
      replace (k + 0)%N with k by lia. by apply sys_acquire.
    + apply sem_acquire_none in Hsem. unfold available in Hp. rewrite Hsem in Hp. lia.
  - eapply sys_reachable_step; [exact Hs|]. replace (k + 0)%N with k by lia. apply sys_release.
Qed.

Definition new_world : World :=
  {| w_now := 0; w_tick := 0; w_shared := (AppState_new scenario_config).2; w_sent := [] |}.

Lemma tasks_stay_in_the_system_witness :
  let E := busy in
  let w' := run_task scenario_config (RequestTask post_request) new_world in
  sys_reachable scenario_config (w_shared w') (third_holds (w_tick w')) ∧
  (available (w_shared w') + third_holds (w_tick w') = 100)%N.
Proof.
  intros E.
  destruct (tasks_stay_in_the_system scenario_config third_holds 0 (RequestTask post_request)
    new_world) as [Hr Hp].
  - intros n s k Hk Hs. apply third_request_reachable; [lia|].
    by apply run_other_request_reachable.
  - constructor.
  - rewrite N.add_0_l in Hr. split; [exact Hr|]. etrans; [exact Hp|]. reflexivity.
Defined.
