(* ===== verification/Server.v ===== *)
(** [src/server/mod.rs]: startup, the accept loop, the connections and the graceful drain, as
    a step relation on the state of the server.  A step is one poll of a task between two
    awaits, or one atomic operation of the drain, so that every interleaving of the accept
    loop, the connection tasks and the waiter is a sequence of steps. *)

From S2P Require Import Prelude RustStd Externals Config Telemetry Health Balancing.
From S2P Require Import Runtime HealthChecks Upstream Http.
From stdpp Require Import options.

(** * Shutdown reasons *)

Inductive ShutdownReason :=
  | Terminate (signal : string)
  | Reload (signal : string).

Definition signal_name (r : ShutdownReason) : string :=
  match r with Terminate signal | Reload signal => signal end.
Definition action_name (r : ShutdownReason) : string :=
  match r with Terminate _ => "shutdown" | Reload _ => "graceful_shutdown" end.

(** The signals that [wait_for_shutdown_signal] waits for (on Unix). *)
Inductive Signal := CtrlC | Hangup.
Definition wait_for_shutdown_signal (s : Signal) : ShutdownReason :=
  match s with CtrlC => Terminate "ctrl_c" | Hangup => Reload "sighup" end.

Section server.
Context `{Platform, NotifyOps}.

(** * The connection tracker *)

Record ConnectionTracker := {
  ct_active : N; (** an [AtomicUsize] *)
  ct_drained : Notify;
}.

Definition ConnectionTracker_default : ConnectionTracker :=
  {| ct_active := 0; ct_drained := notify_new |}.

Definition tracker_open (t : ConnectionTracker) : ConnectionTracker :=
  {| ct_active := u64_add (ct_active t) 1; ct_drained := ct_drained t |}.

(** [close] is two atomic operations: the decrement, which says whether to notify, and the
    notification. *)
Definition tracker_close_dec (t : ConnectionTracker) : bool * ConnectionTracker :=
  (bool_decide (ct_active t = 1)%N,
   {| ct_active := u64_sub (ct_active t) 1; ct_drained := ct_drained t |}).
Definition tracker_notify (t : ConnectionTracker) : ConnectionTracker :=
  {| ct_active := ct_active t; ct_drained := notify_waiters (ct_drained t) |}.

(** The program counter of [wait_for_zero]. *)
Inductive Waiter :=
  | WaitCheck (** before the first [active()] *)
  | WaitLoop (** before the [active()] of the [while] *)
  | WaitCreate (** it was not zero; before [notified()] *)
  | WaitAwait (f : Notified) (** awaiting the future *)
  | WaitDone (drained : bool).

(** One step of the waiter on the current tracker; the timeout is a step of its own. *)
Inductive waiter_step (t : ConnectionTracker) : Waiter → Waiter → Prop :=
  | wait_check_zero : ct_active t = 0%N → waiter_step t WaitCheck (WaitDone true)
  | wait_check_more : ct_active t ≠ 0%N → waiter_step t WaitCheck WaitLoop
  | wait_loop_zero : ct_active t = 0%N → waiter_step t WaitLoop (WaitDone true)
  | wait_loop_more : ct_active t ≠ 0%N → waiter_step t WaitLoop WaitCreate
  | wait_create : waiter_step t WaitCreate (WaitAwait (notify_notified (ct_drained t)))
  | wait_wake f : notified_ready (ct_drained t) f = true → waiter_step t (WaitAwait f) WaitLoop.

(** * The server *)

Record Connection := {
  conn_addr : SocketAddr;
  conn_graceful : bool; (** it was told to shut down *)
}.

Inductive Phase :=
  | Accepting
  | Draining (w : Waiter)
  | Stopped (r : result string unit).

Record Server := {
  sv_tracker : ConnectionTracker;
  sv_connections : gmap nat Connection; (** the connection tasks that are alive *)
  sv_accepted : nat; (** connections accepted so far *)
  sv_notifying : nat; (** tasks between the decrement and the notification *)
  sv_shutdown : bool; (** the value of the shutdown channel *)
  sv_phase : Phase;
  sv_telemetry : Telemetry;
}.

Definition server_initial (t : Telemetry) : Server := {|
  sv_tracker := ConnectionTracker_default; sv_connections := ∅; sv_accepted := 0;
  sv_notifying := 0; sv_shutdown := false; sv_phase := Accepting; sv_telemetry := t;
|}.

(** [listener.accept()] gives a connection: it is counted before its task is spawned. *)
Definition accept_connection (addr : SocketAddr) (s : Server) : Server := {|
  sv_tracker := tracker_open (sv_tracker s);
  sv_connections := <[sv_accepted s := {| conn_addr := addr; conn_graceful := false |}]>
                      (sv_connections s);
  sv_accepted := S (sv_accepted s); sv_notifying := sv_notifying s;
  sv_shutdown := sv_shutdown s; sv_phase := sv_phase s; sv_telemetry := sv_telemetry s;
|}.

(** The [?] on the result of [accept]: the server returns the error. *)
Definition accept_error (err : string) (s : Server) : Server := {|
  sv_tracker := sv_tracker s; sv_connections := sv_connections s;
  sv_accepted := sv_accepted s; sv_notifying := sv_notifying s;
  sv_shutdown := sv_shutdown s; sv_phase := Stopped (Err err);
  sv_telemetry := sv_telemetry s;
|}.

(** A connection ends: an error is logged, the task is gone and no longer counted. *)
Definition connection_ends (id : nat) (c : Connection) (err : option string) (s : Server)
    : Server :=
  let (last, tracker) := tracker_close_dec (sv_tracker s) in
  {| sv_tracker := tracker; sv_connections := delete id (sv_connections s);
     sv_accepted := sv_accepted s;
     sv_notifying := if last : bool then S (sv_notifying s) else sv_notifying s;
     sv_shutdown := sv_shutdown s; sv_phase := sv_phase s;
     sv_telemetry := match err with
                     | Some err => log_connection_error (addr_to_string (conn_addr c)) err
                                     (sv_telemetry s)
                     | None => sv_telemetry s
                     end |}.

Definition connection_notifies (n : nat) (s : Server) : Server := {|
  sv_tracker := tracker_notify (sv_tracker s); sv_connections := sv_connections s;
  sv_accepted := sv_accepted s; sv_notifying := n; sv_shutdown := sv_shutdown s;
  sv_phase := sv_phase s; sv_telemetry := sv_telemetry s;
|}.

(** [shutdown_rx.changed()] in a connection task: [graceful_shutdown].  It is also reached by
    the error of [changed()] when the sender is gone, after the server has stopped. *)
Definition shutdown_seen (s : Server) : Prop :=
  sv_shutdown s = true ∨ ∃ r, sv_phase s = Stopped r.
Definition connection_told (id : nat) (c : Connection) (s : Server) : Server := {|
  sv_tracker := sv_tracker s;
  sv_connections := <[id := {| conn_addr := conn_addr c; conn_graceful := true |}]>
                      (sv_connections s);
  sv_accepted := sv_accepted s; sv_notifying := sv_notifying s;
  sv_shutdown := sv_shutdown s; sv_phase := sv_phase s; sv_telemetry := sv_telemetry s;
|}.

(** The shutdown branch of the [select!], up to [wait_for_zero]. *)
Definition begin_shutdown (st : AppState) (reason : ShutdownReason) (s : Server) : Server := {|
  sv_tracker := sv_tracker s; sv_connections := sv_connections s;
  sv_accepted := sv_accepted s; sv_notifying := sv_notifying s;
  sv_shutdown := true; sv_phase := Draining WaitCheck;
  sv_telemetry := log_shutdown_started (shutdown_timeout st)
    (log_control_signal (signal_name reason) (action_name reason) (sv_telemetry s));
|}.

Definition set_waiter (w : Waiter) (s : Server) : Server := {|
  sv_tracker := sv_tracker s; sv_connections := sv_connections s;
  sv_accepted := sv_accepted s; sv_notifying := sv_notifying s;
  sv_shutdown := sv_shutdown s; sv_phase := Draining w; sv_telemetry := sv_telemetry s;
|}.

(** The log line after the drain, and the end of [run]. *)
Definition finish_shutdown (drained : bool) (s : Server) : Server := {|
  sv_tracker := sv_tracker s; sv_connections := sv_connections s;
  sv_accepted := sv_accepted s; sv_notifying := sv_notifying s;
  sv_shutdown := sv_shutdown s; sv_phase := Stopped (Ok tt);
  sv_telemetry := log_shutdown_complete drained (ct_active (sv_tracker s)) (sv_telemetry s);
|}.

Inductive server_step (st : AppState) : Server → Server → Prop :=
  | step_accept s addr :
      sv_phase s = Accepting → server_step st s (accept_connection addr s)
  | step_accept_error s err :
      sv_phase s = Accepting → server_step st s (accept_error err s)
  | step_connection_ends s id c err :
      sv_connections s !! id = Some c → server_step st s (connection_ends id c err s)
  | step_notify s n :
      sv_notifying s = S n → server_step st s (connection_notifies n s)
  | step_told s id c :
      sv_connections s !! id = Some c → shutdown_seen s →
      server_step st s (connection_told id c s)
  | step_signal s signal :
      sv_phase s = Accepting →
      server_step st s (begin_shutdown st (wait_for_shutdown_signal signal) s)
  | step_waiter s w w' :
      sv_phase s = Draining w → waiter_step (sv_tracker s) w w' →
      server_step st s (set_waiter w' s)
  | step_timeout s f :
      sv_phase s = Draining (WaitAwait f) → notified_ready (ct_drained (sv_tracker s)) f = false →
      server_step st s (set_waiter (WaitDone false) s)
  | step_finish s drained :
      sv_phase s = Draining (WaitDone drained) → server_step st s (finish_shutdown drained s).

Definition server_reachable (st : AppState) (t : Telemetry) : Server → Prop :=
  rtc (server_step st) (server_initial t).

(** What holds of every state the server can be in. *)
Record server_inv (s : Server) : Prop := {
  inv_counted : ct_active (sv_tracker s) = as_u64 (N.of_nat (size (sv_connections s)));
  inv_ids : ∀ id, is_Some (sv_connections s !! id) → id < sv_accepted s;
  inv_graceful : ∀ id c, sv_connections s !! id = Some c → conn_graceful c = true →
    shutdown_seen s;
  inv_phase : match sv_phase s with
              | Accepting | Stopped (Err _) => sv_shutdown s = false
              | Draining _ | Stopped (Ok _) => sv_shutdown s = true
              end;
  inv_drained : (N.of_nat (sv_accepted s) < u64_modulus)%N →
    sv_phase s = Draining (WaitDone true) → sv_connections s = ∅;
}.

(** * Startup *)

Context `{!Environment}.

(** The first part of [run_with_shutdown_kind], up to the accept loop; [bind] is the result of
    binding the listener, and [None] a panic of the startup check. *)
Definition server_start (config : Config) (bind : SocketAddr → result string unit)
    : stateM World (option (result string Server)) :=
  match ServerConfig_socket_addr addr_parse (cfg_server config) with
  | Err err => mret (Some (Err (ConfigError_fmt err)))
  | Ok addr =>
      let route_count := N.of_nat (length (cfg_routes config)) in
      let (st, shared) := AppState_new config in
      _ ← atomically (λ _ _, (tt, shared));
      match bind addr with
      | Err err => mret (Some (Err err))
      | Ok _ =>
          checked ← run_startup_health_check st;
          match checked with
          | None => mret None
          | Some (Err err) => mret (Some (Err err))
          | Some (Ok _) =>
              _ ← on_telemetry (log_server_start (addr_to_string addr) route_count);
              telemetry ← atomically (λ _ s, ((sh_health s).2, s));
              mret (Some (Ok (server_initial telemetry)))
          end
      end
  end.

(** * Lemmas *)

Lemma as_u64_pred n : (0 < n)%N → u64_sub (as_u64 n) 1 = as_u64 (n - 1).
Proof.
  intros Hn. unfold u64_sub, as_u64. rewrite N.Div0.add_mod_idemp_l.
  replace (n + (u64_modulus - 1))%N with ((n - 1) + 1 * u64_modulus)%N
    by (pose proof u64_modulus_pos; lia).
  apply N.Div0.mod_add.
Qed.

(** At most as many connections are alive as were accepted. *)
Lemma connections_bounded (m : gmap nat Connection) n :
  (∀ id, is_Some (m !! id) → id < n) → size m ≤ n.
Proof.
  intros Hids. rewrite <-size_dom. transitivity (size (set_seq 0 n : gset nat)).
  - apply subseteq_size. intros id [c Hc]%elem_of_dom. rewrite elem_of_set_seq.
    split; [lia|]. rewrite Nat.add_0_l. apply Hids. eauto.
  - by rewrite size_set_seq.
Qed.

Lemma server_initial_inv t : server_inv (server_initial t).
Proof.
  split; simpl; try done; by intros id [].
Qed.

Lemma accept_inv addr s :
  sv_phase s = Accepting → server_inv s → server_inv (accept_connection addr s).
Proof.
  intros Hphase [Hc Hids Hg Hp Hd]. split; simpl.
  - rewrite map_size_insert_None.
    + rewrite Hc, Nat2N.inj_succ, <-N.add_1_r. by rewrite as_u64_add.
    + destruct (sv_connections s !! sv_accepted s) eqn:Hl; [|done].
      assert (sv_accepted s < sv_accepted s) by (apply Hids; eauto). lia.
  - intros id. rewrite lookup_insert_is_Some'. intros [<-|Hid]; [lia|].
    specialize (Hids id Hid). lia.
  - intros id c. rewrite lookup_insert_Some. intros [[_ <-]|[_ Hl]]; [done|by eauto].
  - done.
  - rewrite Hphase. done.
Qed.

Lemma connection_ends_inv id c err s :
  sv_connections s !! id = Some c → server_inv s → server_inv (connection_ends id c err s).
Proof.
  intros Hl [Hc Hids Hg Hp Hd]. unfold connection_ends, tracker_close_dec. split; simpl; try done.
  - rewrite Hc, map_size_delete_Some by eauto.
    assert (size (sv_connections s) ≠ 0)
      by (intros Hz; apply map_size_empty_inv in Hz; by rewrite Hz, lookup_empty in Hl).
    rewrite as_u64_pred by lia. f_equal. lia.
  - intros id' [c' Hl']. apply lookup_delete_Some in Hl' as [_ Hl']. eauto.
  - intros id' c' Hl'. apply lookup_delete_Some in Hl' as [_ Hl']. eauto.
  - intros Hlt Hphase. rewrite Hd by done. apply delete_empty.
Qed.

Lemma connection_told_inv id c s :
  sv_connections s !! id = Some c → shutdown_seen s →
  server_inv s → server_inv (connection_told id c s).
Proof.
  intros Hl Hsd [Hc Hids Hg Hp Hd]. split; simpl; try done.
  - rewrite map_size_insert_Some; eauto.
  - intros id'. rewrite lookup_insert_is_Some'. intros [<-|Hid]; eauto.
  - intros Hlt Hphase. rewrite Hd in Hl by done. by rewrite lookup_empty in Hl.
Qed.

(** The waiter reports a drain only from a zero counter. *)
Lemma waiter_inv s w w' :
  sv_phase s = Draining w → waiter_step (sv_tracker s) w w' →
  server_inv s → server_inv (set_waiter w' s).
Proof.
  intros Hphase Hstep [Hc Hids Hg Hp Hd]. rewrite Hphase in Hp. split; simpl; try done.
  { intros id c _ _. by left. }
  intros Hlt [= ->].
  assert (ct_active (sv_tracker s) = 0%N) as Hz by by inv Hstep.
  rewrite Hz in Hc. pose proof (connections_bounded _ _ Hids).
  rewrite as_u64_small in Hc by lia. apply map_size_empty_inv. lia.
Qed.

Lemma server_step_inv st s s' : server_step st s s' → server_inv s → server_inv s'.
Proof.
  intros Hstep Hinv. inv Hstep;
    eauto using accept_inv, connection_ends_inv, connection_told_inv, waiter_inv.
  all: destruct Hinv as [Hc Hids Hg Hp Hd]; split; simpl; try done.
  all: try match goal with Hph : sv_phase _ = _ |- _ => rewrite Hph in Hp end; try done.
  all: intros id c _ _; first [by left | by right; eexists].
Qed.

Lemma server_reachable_inv st t s : server_reachable st t s → server_inv s.
Proof.
  unfold server_reachable. intros Hr.
  assert (∀ s0, rtc (server_step st) s0 s → server_inv s0 → server_inv s) as Hgen.
  { induction 1; eauto using server_step_inv. }
  eapply Hgen; [done|apply server_initial_inv].
Qed.

(** * The correctness of the server *)

(** C27: the tracker counts the live connections exactly (modulo its width), and a connection
    is told to shut down only after the shutdown has begun or the server has failed. *)
Theorem tracker_counts_connections st t s :
  server_reachable st t s →
  ct_active (sv_tracker s) = as_u64 (N.of_nat (size (sv_connections s))) ∧
  ∀ id c, sv_connections s !! id = Some c → conn_graceful c = true → shutdown_seen s.
Proof. intros [Hc _ Hg _ _]%server_reachable_inv. done. Qed.

(** C28: a drain that is reported as complete was complete: no connection is alive. *)
Theorem drained_is_sound st t s :
  server_reachable st t s → (N.of_nat (sv_accepted s) < u64_modulus)%N →
  sv_phase s = Draining (WaitDone true) →
  sv_connections s = ∅ ∧ ct_active (sv_tracker s) = 0%N.
Proof.
  intros Hr Hlt Hphase. destruct (server_reachable_inv _ _ _ Hr) as [Hc _ _ _ Hd].
  split; [by apply Hd|]. by rewrite Hc, Hd.
Qed.

(** C29: the converse fails: a wake-up can be lost.  If the last connection ends between the
    waiter's check of the counter and the creation of its [notified()] future, no connection
    is alive, and yet the only step left is the timeout, which reports a failed drain. *)
Theorem drain_can_miss_the_last_close st t (addr : SocketAddr) :
  NotifyLaws →
  ∃ s f, server_reachable st t s ∧ sv_connections s = ∅ ∧ ct_active (sv_tracker s) = 0%N ∧
    sv_phase s = Draining (WaitAwait f) ∧
    ∀ s', server_step st s s' → s' = set_waiter (WaitDone false) s.
Proof.
  intros HL.
  set (s1 := accept_connection addr (server_initial t)).
  set (s2 := begin_shutdown st (wait_for_shutdown_signal CtrlC) s1).
  set (s4 := set_waiter WaitCreate (set_waiter WaitLoop s2)).
  set (c := {| conn_addr := addr; conn_graceful := false |}).
  set (s6 := connection_notifies 0 (connection_ends 0 c None s4)).
  set (f := notify_notified (ct_drained (sv_tracker s6))).
  exists (set_waiter (WaitAwait f) s6), f.
  assert (sv_connections (set_waiter (WaitAwait f) s6) = ∅) as Hempty
    by (cbn; apply delete_insert_id; apply lookup_empty).
  split; [|split; [exact Hempty|split; [done|split; [done|]]]].
  - unfold server_reachable.
    eapply rtc_l; [by apply (step_accept st _ addr)|].
    eapply rtc_l; [by apply (step_signal st _ CtrlC)|].
    eapply rtc_l; [by eapply step_waiter; [done|apply wait_check_more]|].
    eapply rtc_l; [by eapply step_waiter; [done|apply wait_loop_more]|].
    eapply rtc_l; [by apply (step_connection_ends st s4 0 c None)|].
    eapply rtc_l; [by apply (step_notify st _ 0)|].
    apply rtc_once. eapply step_waiter; [done|apply wait_create].
  - intros s' Hstep. inv Hstep; try done.
    simplify_eq/=. match goal with Hw : waiter_step _ _ _ |- _ => inv Hw end.
    match goal with Hr : notified_ready _ _ = true |- _ =>
      by destruct (eq_true_false_abs _ Hr (notified_fresh _)) end.
Qed.

End server.

(** ** Witnesses *)

From S2P Require Import Instances Scenario.

Definition one_connection : Server :=
  accept_connection (("9.9.9.9", "80") : @SocketAddr (@platform_addr simple_platform))
    (server_initial no_telemetry).

Lemma one_connection_reachable :
  server_reachable (AppState_new scenario_config).1 no_telemetry one_connection.
Proof. apply rtc_once. by apply step_accept. Qed.

Lemma tracker_counts_connections_witness : ct_active (sv_tracker one_connection) = 1%N.
Proof.
  etrans; [apply (tracker_counts_connections _ _ _ one_connection_reachable)|].
  vm_compute. reflexivity.
Defined.

Definition drained_server : Server :=
  set_waiter (WaitDone true)
    (begin_shutdown (AppState_new scenario_config).1 (wait_for_shutdown_signal Hangup)
       (server_initial no_telemetry)).

Lemma drained_is_sound_witness : sv_connections drained_server = ∅.
Proof.
  apply (drained_is_sound (AppState_new scenario_config).1 no_telemetry); [|done|done].
  eapply rtc_l; [by apply (step_signal _ _ Hangup)|]. apply rtc_once.
  eapply step_waiter; [done|by apply wait_check_zero].
Defined.

Lemma drain_can_miss_the_last_close_witness :
  ∃ s, ct_active (sv_tracker s) = 0%N ∧
    ∀ s', server_step (AppState_new scenario_config).1 s s' → s' = set_waiter (WaitDone false) s.
Proof.
  destruct (drain_can_miss_the_last_close (AppState_new scenario_config).1 no_telemetry
    (("9.9.9.9", "80") : @SocketAddr (@platform_addr simple_platform)) _)
    as (s & f & _ & _ & Ha & _ & Hs).
  exists s. split; [exact Ha|exact Hs].
Defined.
