(* ===== verification/Main.v ===== *)
(** [src/main.rs], and [run] of [src/server/mod.rs]: the process from its configuration file to
    its exit code.  The runtime around [main] and a panic, which ends the process with the
    panic's own code, are left out. *)

From S2P Require Import Prelude RustStd Externals Config Telemetry Health Balancing.
From S2P Require Import Runtime HealthChecks SharedSteps Upstream Http HttpSafety HttpState System Server.
From stdpp Require Import options.

Section main.
Context `{Platform, !NotifyOps, !Environment}.

(** * The process *)

(** [server::run(config).await] returns [r]: with an error of the startup, or from the accept
    loop, after some run of the server; [bind] is the result of binding the listener. *)
Inductive run (config : Config) (bind : SocketAddr → result string unit) (w : World)
    : result string unit → Prop :=
  | run_start_fails err :
      (server_start config bind w).1 = Some (Err err) → run config bind w (Err err)
  | run_stops sv s r :
      (server_start config bind w).1 = Some (Ok sv) →
      rtc (server_step (AppState_new config).1) sv s → sv_phase s = Stopped r →
      run config bind w r.

(** The exit code and the lines written by [eprintln!]. *)
Record Exit := { exit_code : N; exit_stderr : list string }.

Inductive main (read_to_string : string → result string string)
    (yaml_from_str : string → result string Config)
    (bind : SocketAddr → result string unit) (w : World) : Exit → Prop :=
  | main_stops config :
      load_from_file read_to_string yaml_from_str "config.yaml" = Ok config →
      run config bind w (Ok tt) →
      main read_to_string yaml_from_str bind w {| exit_code := 0; exit_stderr := [] |}
  | main_server_fails config err :
      load_from_file read_to_string yaml_from_str "config.yaml" = Ok config →
      run config bind w (Err err) →
      main read_to_string yaml_from_str bind w
        {| exit_code := 1; exit_stderr := ["server failed: " +:+ err] |}
  | main_load_fails err :
      load_from_file read_to_string yaml_from_str "config.yaml" = Err err →
      main read_to_string yaml_from_str bind w
        {| exit_code := 1; exit_stderr := [ConfigError_fmt err] |}.

(** * Lemmas: what the log says *)

Definition logged (event : string) (t : Telemetry) : Prop :=
  ∃ line, line ∈ t_stderr t ∧ log_event line = event.

Lemma logged_here level event fields t : logged event (log level event fields t).
Proof. eexists. split; [simpl; apply elem_of_app; right; by left|done]. Qed.

Lemma logged_before event level event' fields t :
  logged event t → logged event (log level event' fields t).
Proof. intros (line & Hin & He). exists line. split; [|done]. apply elem_of_app. by left. Qed.

#[local] Hint Resolve logged_here logged_before : core.

(** How far the log has got in each phase. *)
Definition log_phase (s : Server) : Prop :=
  match sv_phase s with
  | Accepting | Stopped (Err _) => True
  | Draining _ => logged "control_signal" (sv_telemetry s) ∧ logged "shutdown_started" (sv_telemetry s)
  | Stopped (Ok _) =>
      logged "control_signal" (sv_telemetry s) ∧ logged "shutdown_started" (sv_telemetry s) ∧
      logged "shutdown_complete" (sv_telemetry s)
  end.

Lemma log_phase_same s s' :
  sv_phase s' = sv_phase s →
  (∀ event, logged event (sv_telemetry s) → logged event (sv_telemetry s')) →
  log_phase s → log_phase s'.
Proof.
  unfold log_phase. intros -> Hlog. destruct (sv_phase s) as [| |[]]; naive_solver.
Qed.

Lemma server_step_log st s s' : server_step st s s' → log_phase s → log_phase s'.
Proof.
  intros Hstep. destruct Hstep as [s addr Hph|s err Hph|s id c err Hc|s n Hn|s id c Hc Hs|s sig Hph
    |s w w' Hph Hw|s f Hph Hf|s drained Hph]; try (by apply log_phase_same); try done.
  - apply log_phase_same; unfold connection_ends, tracker_close_dec; [done|]. intros event Hev.
    simpl. destruct err; [|done]. by apply logged_before.
  - intros _. unfold log_phase. simpl. unfold log_shutdown_started, log_control_signal.
    split; auto.
  - unfold log_phase. by rewrite Hph.
  - unfold log_phase. by rewrite Hph.
  - unfold log_phase. rewrite Hph. simpl. unfold log_shutdown_complete.
    intros [? ?]. split_and!; auto.
Qed.

Lemma server_steps_log st s s' : rtc (server_step st) s s' → log_phase s → log_phase s'.
Proof. induction 1; eauto using server_step_log. Qed.

Lemma server_start_initial config bind w sv :
  (server_start config bind w).1 = Some (Ok sv) → ∃ t, sv = server_initial t.
Proof.
  unfold server_start. destruct (ServerConfig_socket_addr _ _) as [addr|]; [|done].
  destruct (AppState_new config) as [st shared].
  unfold mbind, stateM_bind. cbv zeta. destruct (bind addr); [|done].
  match goal with |- context [run_startup_health_check st ?w'] =>
    destruct (run_startup_health_check st w') as [[[[]|]|] w''] end; simpl; try done.
  intros [= <-]. by eexists.
Qed.

(** * Why the server fails *)

(** The world in which the startup check looks for routes without backends: the new state,
    after one pass of active checks. *)
Definition check_pass_of (config : Config) (w : World) : TaskState * World :=
  run_active_check_pass config (set_shared (AppState_new config).2 (pass 0 w)).
Definition checked_world (config : Config) (w : World) : World :=
  pass 0 (check_pass_of config w).2.

(** The error that [server::run] returns, by its cause. *)
Inductive server_failure (config : Config) (bind : SocketAddr → result string unit) (w : World)
    : string → Prop :=
  | bad_address why :
      addr_parse (srv_host (cfg_server config) +:+ ":" +:+ pretty (srv_port (cfg_server config)))
        = Err why →
      server_failure config bind w
        ("invalid config: server host/port must form a valid socket address: " +:+ why)
  | no_listener addr why :
      addr_parse (srv_host (cfg_server config) +:+ ":" +:+ pretty (srv_port (cfg_server config)))
        = Ok addr →
      bind addr = Err why → server_failure config bind w why
  | dead_pools addr dead :
      addr_parse (srv_host (cfg_server config) +:+ ":" +:+ pretty (srv_port (cfg_server config)))
        = Ok addr →
      bind addr = Ok tt → (check_pass_of config w).1 ≠ Panicked →
      srv_fail_on_startup_dead_pool (cfg_server config) = true →
      dead = rt_path_prefix <$> dead_routes (w_now (checked_world config w))
               (manager (checked_world config w)) (cfg_routes config) →
      dead ≠ [] →
      server_failure config bind w
        ("startup aborted: " +:+ pretty (N.of_nat (length dead))
         +:+ " route(s) have no reachable backends: " +:+ str_join ", " dead)
  | accept_fails sv s why :
      (server_start config bind w).1 = Some (Ok sv) →
      rtc (server_step (AppState_new config).1) sv s → sv_phase s = Accepting →
      server_step (AppState_new config).1 s (accept_error why s) →
      server_failure config bind w why.

(** Only a failed [accept] stops the server with an error. *)
Lemma stopped_by_accept st sv s err :
  rtc (server_step st) sv s → sv_phase sv = Accepting → sv_phase s = Stopped (Err err) →
  ∃ s', rtc (server_step st) sv s' ∧ sv_phase s' = Accepting ∧
    rtc (server_step st) (accept_error err s') s.
Proof.
  intros Hrtc Hsv. revert s Hrtc. apply (rtc_ind_r (λ s, sv_phase s = Stopped (Err err) → _));
    [congruence|].
  intros s s' Hrtc Hstep IH Hs'.
  assert (sv_phase s = Stopped (Err err) ∨ sv_phase s = Accepting ∧ s' = accept_error err s)
    as [Hs|[Hs ->]].
  { destruct Hstep; simpl in Hs'; simplify_eq; auto. }
  - destruct (IH Hs) as (s0 & ? & ? & ?). exists s0. split; [done|]. split; [done|].
    by eapply rtc_r.
  - by exists s.
Qed.

Lemma checked_world_wf config w :
  (∀ n s, shared_health_wf s → shared_health_wf (env_others n s)) → Config_ok config →
  hm_wf (manager (checked_world config w)).
Proof.
  intros Hothers Hok. apply Hothers. apply active_pass_keeps_invariant; [done|].
  apply (AppState_new_wf config Hok).
Qed.

(** The startup past the listener. *)
Lemma server_start_checked config bind w addr :
  (∀ n s, shared_health_wf s → shared_health_wf (env_others n s)) → Config_ok config →
  addr_parse (srv_host (cfg_server config) +:+ ":" +:+ pretty (srv_port (cfg_server config)))
    = Ok addr →
  bind addr = Ok tt →
  let dead := rt_path_prefix <$> dead_routes (w_now (checked_world config w))
                (manager (checked_world config w)) (cfg_routes config) in
  if decide ((check_pass_of config w).1 = Panicked) then (server_start config bind w).1 = None
  else if srv_fail_on_startup_dead_pool (cfg_server config) && negb (bool_decide (dead = []))
  then (server_start config bind w).1 =
    Some (Err ("startup aborted: " +:+ pretty (N.of_nat (length dead))
               +:+ " route(s) have no reachable backends: " +:+ str_join ", " dead))
  else ∃ sv, (server_start config bind w).1 = Some (Ok sv).
Proof.
  intros Hothers Hok Haddr Hbind dead. unfold server_start, ServerConfig_socket_addr.
  rewrite Haddr. assert (app_config (AppState_new config).1 = config) as Hst by done.
  destruct (AppState_new config) as [st shared] eqn:Hnew. simpl in Hst.
  unfold mbind, stateM_bind, atomically. cbv zeta. cbn [fst snd]. rewrite Hbind.
  assert (set_shared shared (pass 0 w) = set_shared (AppState_new config).2 (pass 0 w)) as ->
    by by rewrite Hnew.
  pose proof (startup_check_outcome st (set_shared (AppState_new config).2 (pass 0 w))) as Hout.
  rewrite Hst in Hout. cbv zeta in Hout.
  fold (check_pass_of config w) (checked_world config w) dead in Hout.
  specialize (Hout (checked_world_wf _ _ Hothers Hok)).
  destruct (decide ((check_pass_of config w).1 = Panicked)) as [Hp|Hp].
  { unfold run_startup_health_check, mbind, stateM_bind. cbv zeta. rewrite Hst.
    fold (check_pass_of config w). by rewrite Hp. }
  destruct (run_startup_health_check st _) as [checked w2]. simpl in Hout. rewrite (Hout Hp).
  case_match; simpl; [done|]. by eexists.
Qed.

Lemma server_start_error config bind w err :
  (∀ n s, shared_health_wf s → shared_health_wf (env_others n s)) → Config_ok config →
  (server_start config bind w).1 = Some (Err err) → server_failure config bind w err.
Proof.
  intros Hothers Hok Herr.
  destruct (addr_parse (srv_host (cfg_server config) +:+ ":" +:+ pretty (srv_port (cfg_server config))))
    as [addr|why] eqn:Haddr.
  2: { unfold server_start, ServerConfig_socket_addr in Herr. rewrite Haddr in Herr.
       injection Herr as <-. by apply bad_address. }
  destruct (bind addr) as [[]|why] eqn:Hbind.
  2: { unfold server_start, ServerConfig_socket_addr in Herr. rewrite Haddr in Herr.
       destruct (AppState_new config). unfold mbind, stateM_bind in Herr. cbv zeta in Herr.
       rewrite Hbind in Herr. injection Herr as <-. by eapply no_listener. }
  pose proof (server_start_checked config bind w addr Hothers Hok Haddr Hbind) as Hcheck.
  cbv zeta in Hcheck. rewrite Herr in Hcheck. case_decide; [done|].
  destruct (srv_fail_on_startup_dead_pool _) eqn:Hflag; simpl in Hcheck; [|by destruct Hcheck].
  case_bool_decide; simpl in Hcheck; [by destruct Hcheck|].
  injection Hcheck as ->. by eapply dead_pools.
Qed.

Lemma server_failure_runs config bind w err :
  (∀ n s, shared_health_wf s → shared_health_wf (env_others n s)) → Config_ok config →
  run config bind w (Err err) ↔ server_failure config bind w err.
Proof.
  intros Hothers Hok. split.
  - intros Hrun. inv Hrun; [by apply server_start_error|].
    match goal with Hs : (server_start _ _ _).1 = _ |- _ =>
      pose proof (server_start_initial _ _ _ _ Hs) as [t ->] end.
    destruct (stopped_by_accept (AppState_new config).1 (server_initial t) s err)
      as (s' & Hs' & Hacc & _); [done..|].
    eapply accept_fails; [done|exact Hs'|done|]. by apply step_accept_error.
  - intros Hf. destruct Hf as [why Haddr|addr why Haddr Hbind|addr dead Haddr Hbind Hp Hflag Hdead Hne
      |sv s why Hstart Hrtc Hacc Hstep].
    + apply run_start_fails. unfold server_start, ServerConfig_socket_addr. by rewrite Haddr.
    + apply run_start_fails. unfold server_start, ServerConfig_socket_addr. rewrite Haddr.
      destruct (AppState_new config). unfold mbind, stateM_bind. cbv zeta. by rewrite Hbind.
    + apply run_start_fails.
      pose proof (server_start_checked config bind w addr Hothers Hok Haddr Hbind) as Hcheck.
      cbv zeta in Hcheck. rewrite <-Hdead, Hflag, decide_False in Hcheck by done.
      by rewrite bool_decide_eq_false_2 in Hcheck.
    + eapply run_stops; [exact Hstart|by eapply rtc_r|done].
Qed.

(** * The correctness of the process *)

(** The server started, accepted connections until a signal arrived, and shut down; the log
    has the signal, the start and the end of the shutdown. *)
Definition ends_gracefully (config : Config) (bind : SocketAddr → result string unit) (w : World)
    : Prop :=
  ∃ sv s, (server_start config bind w).1 = Some (Ok sv) ∧ sv_phase sv = Accepting ∧
    rtc (server_step (AppState_new config).1) sv s ∧ sv_phase s = Stopped (Ok tt) ∧
    logged "control_signal" (sv_telemetry s) ∧ logged "shutdown_started" (sv_telemetry s) ∧
    logged "shutdown_complete" (sv_telemetry s).

Lemma graceful_runs config bind w : run config bind w (Ok tt) ↔ ends_gracefully config bind w.
Proof.
  split.
  - intros Hrun. inv Hrun. exists sv, s.
    match goal with Hs : (server_start _ _ _).1 = _ |- _ =>
      destruct (server_start_initial _ _ _ _ Hs) as [t ->] end.
    assert (log_phase s) as Hlog by (by eapply server_steps_log).
    unfold log_phase in Hlog.
    match goal with Hs : sv_phase s = _ |- _ => rewrite Hs in Hlog end.
    split_and!; try done; by apply Hlog.
  - intros (sv & s & Hstart & _ & Hrtc & Hs & _). by eapply run_stops.
Qed.

(** C30: the exits of the process are exactly these.  When the configuration file cannot be
    read or parsed, or is not valid, the code is 1 and the one line on stderr says which, and
    why.  With a valid configuration the code is 0, with nothing on stderr, exactly after a
    graceful end; and it is 1 with the line "server failed" exactly when the server fails, for
    the reason on that line: the address does not parse, the listener cannot be bound, the
    startup check found routes without backends and must not, or accepting failed.  The tasks
    of others keep the health state well-formed. *)
Theorem exit_code_exact read_to_string yaml_from_str bind w e :
  (∀ n s, shared_health_wf s → shared_health_wf (env_others n s)) →
  main read_to_string yaml_from_str bind w e ↔
  match read_to_string "config.yaml" with
  | Err why =>
      e = {| exit_code := 1; exit_stderr := ["failed to read config file: " +:+ why] |}
  | Ok text =>
      match yaml_from_str text with
      | Err why =>
          e = {| exit_code := 1; exit_stderr := ["failed to parse config file: " +:+ why] |}
      | Ok config =>
          (¬ Config_ok config ∧ ∃ why, Config_validate config = Err (Validation why) ∧
             e = {| exit_code := 1; exit_stderr := ["invalid config: " +:+ why] |}) ∨
          (Config_ok config ∧ ends_gracefully config bind w ∧
             e = {| exit_code := 0; exit_stderr := [] |}) ∨
          (Config_ok config ∧ ∃ why, server_failure config bind w why ∧
             e = {| exit_code := 1; exit_stderr := ["server failed: " +:+ why] |})
      end
  end.
Proof.
  intros Hothers.
  assert (main read_to_string yaml_from_str bind w e ↔
    match load_from_file read_to_string yaml_from_str "config.yaml" with
    | Ok config =>
        (run config bind w (Ok tt) ∧ e = {| exit_code := 0; exit_stderr := [] |}) ∨
        ∃ why, run config bind w (Err why) ∧
          e = {| exit_code := 1; exit_stderr := ["server failed: " +:+ why] |}
    | Err err => e = {| exit_code := 1; exit_stderr := [ConfigError_fmt err] |}
    end) as ->.
  { split.
    - destruct 1 as [config Hload Hrun|config err Hload Hrun|err Hload]; rewrite Hload; eauto.
    - destruct (load_from_file _ _ _) as [config|err] eqn:Hload.
      + intros [[Hrun ->]|(why & Hrun & ->)]; [by eapply main_stops|by eapply main_server_fails].
      + intros ->. by apply main_load_fails. }
  unfold load_from_file. destruct (read_to_string _) as [text|why]; simpl; [|done].
  destruct (yaml_from_str text) as [config|why]; simpl; [|done].
  pose proof (Config_validate_ok config) as Hok. pose proof (Config_validate_error config) as Herr.
  destruct (Config_validate config) as [[]|err]; simpl.
  - assert (Config_ok config) as Hc by by apply Hok.
    rewrite graceful_runs. setoid_rewrite (server_failure_runs config bind w _ Hothers Hc).
    naive_solver.
  - destruct (Herr err eq_refl) as [why ->]. simpl.
    assert (¬ Config_ok config) as Hc by by rewrite <-Hok. naive_solver.
Qed.

End main.

(** ** Witness: a run that ends by Ctrl-C *)

From S2P Require Import Instances Scenario.

Definition start_outcome : option (result string Server) :=
  let E := all_answer 200 in (server_start scenario_config (λ _, Ok tt) scenario_world).1.

Lemma start_outcome_ok : ∃ sv, start_outcome = Some (Ok sv).
Proof.
  assert ((if start_outcome is Some (Ok _) then true else false) = true) as Hok
    by by vm_compute.
  destruct start_outcome as [[sv|]|]; [by exists sv|done..].
Qed.

Lemma ctrl_c_exits :
  let E := all_answer 200 in
  main (λ _, Ok "routes") (λ _, Ok scenario_config) (λ _, Ok tt) scenario_world
    {| exit_code := 0; exit_stderr := [] |}.
Proof.
  intros E. apply (main_stops _ _ _ _ scenario_config); [by vm_compute|].
  destruct start_outcome_ok as [sv Hsv]. unfold start_outcome in Hsv. cbv zeta in Hsv.
  destruct (server_start_initial _ _ _ _ Hsv) as [t ->].
  eapply run_stops; [exact Hsv| |]; cycle 1.
  - instantiate (1 := finish_shutdown true (set_waiter (WaitDone true)
      (begin_shutdown (AppState_new scenario_config).1 (wait_for_shutdown_signal CtrlC)
         (server_initial t)))). done.
  - eapply rtc_l; [by apply (step_signal _ _ CtrlC)|].
    eapply rtc_l; [eapply step_waiter; [done|by apply wait_check_zero]|].
    apply rtc_once. by apply step_finish.
Qed.

(** Ctrl-C, a port that is taken, and a configuration without routes. *)
Lemma exit_code_exact_witness :
  let E := all_answer 200 in
  ends_gracefully scenario_config (λ _, Ok tt) scenario_world ∧
  main (λ _, Ok "routes") (λ _, Ok scenario_config) (λ _, Err "address in use") scenario_world
    {| exit_code := 1; exit_stderr := ["server failed: address in use"] |} ∧
  main (λ _, Ok "") (λ _, Ok (sample_config [])) (λ _, Ok tt) scenario_world
    {| exit_code := 1;
       exit_stderr := ["invalid config: at least one route must be configured"] |}.
Proof.
  intros E. split_and!.
  - pose proof ctrl_c_exits as Hexit. cbv zeta in Hexit.
    apply exit_code_exact in Hexit; [|by intros]. simpl in Hexit.
    by destruct Hexit as [(_ & why & _ & [=])|[(_ & Hend & _)|(_ & why & _ & [=])]].
  - apply exit_code_exact; [by intros|]. simpl. right. right.
    split; [apply scenario_config_ok|]. exists "address in use". split; [|done].
    by eapply no_listener.
  - apply exit_code_exact; [by intros|]. simpl. left.
    split; [by intros (_ & Hne & _)|]. eexists. split; [by vm_compute|done].
Defined.
