(* ===== verification/UnitTests.v ===== *)
(** The unit tests of [src/routing/mod.rs], [src/balancing/mod.rs], [src/telemetry/mod.rs],
    [src/config/mod.rs] and of the manager in [src/health/mod.rs], run on the model: each
    [#[test]] is translated assertion by assertion, and an [Example] evaluates it.

    A test is a computation on the object it exercises, and fails at the first assertion that
    does not hold.  The clock of the health tests stands still, except where a test sleeps.
    The YAML of the configuration tests is replaced by the record it denotes. *)

From S2P Require Import Prelude RustStd Externals Instances Config Routing Balancing Telemetry.
From S2P Require Import Health.
From stdpp Require Import options.

(** * Tests *)

Definition testM (S A : Type) : Type := S → option (A * S).

#[export] Instance testM_ret {S} : MRet (testM S) := λ A a s, Some (a, s).
#[export] Instance testM_bind {S} : MBind (testM S) :=
  λ A B f m s, '(a, s) ← m s; f a s.

(** [assert!(c)], [assert_eq!(x, y)] and [x.unwrap()] *)
Definition assert {S} (c : bool) : testM S unit := λ s, if c then Some (tt, s) else None.
Definition assert_eq {S A} `{EqDecision A} (x y : A) : testM S unit :=
  assert (bool_decide (x = y)).
Definition unwrap {S A} (o : option A) : testM S A := λ s, a ← o; Some (a, s).

(** A method call, by the kind of its receiver. *)
Definition call {S A} (m : stateM S A) : testM S A := λ s, Some (m s).
Definition run_test {S} (test : testM S unit) (s : S) : bool := is_some (test s).

(** * Fixtures *)

(** A route of the tests, with the fields they leave empty. *)
Definition test_route (prefix : string) (backends : list string) (balancing : BalancingStrategy)
    : RouteConfig := {|
  rt_path_prefix := prefix;
  rt_backends := backends;
  rt_balancing := balancing;
  rt_retry_on_statuses := [];
  rt_passive_failure_statuses := [];
  rt_health_check_endpoint := None;
  rt_connect_timeout_ms := None;
  rt_read_timeout_ms := None;
  rt_client_body_timeout_ms := None;
|}.

Definition b3001 : string := "http://127.0.0.1:3001".
Definition b3002 : string := "http://127.0.0.1:3002".
Definition b3003 : string := "http://127.0.0.1:3003".

(** * Routing *)

Definition prefers_more_specific_prefix : testM unit unit :=
  let routes := [test_route "/api" [b3001] RoundRobin;
                 test_route "/api/admin" ["http://127.0.0.1:4001"] RoundRobin] in
  route ← unwrap (match_route "/api/admin/users" routes);
  assert_eq (rt_path_prefix route) "/api/admin".

Definition does_not_match_partial_path_segment : testM unit unit :=
  let routes := [test_route "/api" [b3001] RoundRobin] in
  assert (negb (is_some (match_route "/api-other/resource" routes))).

Definition matches_exact_prefix : testM unit unit :=
  let routes := [test_route "/api" [b3001] RoundRobin] in
  assert (is_some (match_route "/api" routes)).

Definition returns_none_when_no_route_matches : testM unit unit :=
  let routes := [test_route "/api" [b3001] RoundRobin] in
  assert (negb (is_some (match_route "/static/logo.png" routes))).

(** * Balancing *)

Definition balancer_select (route : RouteConfig) (backends : list string)
    : testM LoadBalancer (option string) :=
  call (λ balancer, select_backend balancer route backends).

(** The tests start with the balancer of their route. *)
Definition with_balancer (route : RouteConfig) (test : testM LoadBalancer unit) : bool :=
  run_test test (LoadBalancer_new [route]).

Definition cycles_backends_in_round_robin_order : bool :=
  let route := test_route "/api" [b3001; b3002; b3003] RoundRobin in
  let backends := [b3001; b3002; b3003] in
  with_balancer route (
    choice ← balancer_select route backends;
    _ ← assert_eq choice (Some b3001);
    choice ← balancer_select route backends;
    _ ← assert_eq choice (Some b3002);
    choice ← balancer_select route backends;
    _ ← assert_eq choice (Some b3003);
    choice ← balancer_select route backends;
    assert_eq choice (Some b3001)).

Definition first_healthy_strategy_picks_first_backend_without_rotation : bool :=
  let route := test_route "/api" [b3001; b3002] FirstHealthy in
  let backends := [b3001; b3002] in
  with_balancer route (
    choice ← balancer_select route backends;
    _ ← assert_eq choice (Some b3001);
    choice ← balancer_select route backends;
    assert_eq choice (Some b3001)).

Definition returns_none_when_no_eligible_backends_exist : bool :=
  let route := test_route "/api" [b3001] RoundRobin in
  with_balancer route (
    choice ← balancer_select route [];
    assert_eq choice None).

(** * Telemetry *)

Definition label (name value : string) : string :=
  "{" +:+ name +:+ "=" +:+ String dquote (value +:+ String dquote "}").

Definition renders_prometheus_metrics : bool :=
  let routes := [test_route "/api" [b3001] RoundRobin] in
  run_test (
    _ ← call (modifyM record_request);
    _ ← call (modifyM (record_upstream_latency (from_millis 10)));
    _ ← call (modifyM (record_backend_failure b3001));
    _ ← call (modifyM (record_response_status 200));
    _ ← call (modifyM (record_proxy_error "request_body_too_large"));
    _ ← call (modifyM (record_health_transition b3001 "healthy" "unhealthy" "passive_failure"));
    report ← call (gets (render_prometheus [(b3001, false)]));
    _ ← assert (str_contains report "ferrum_proxy_requests_total 1");
    _ ← assert (str_contains report
          ("ferrum_proxy_backend_failures_total" +:+ label "backend" b3001 +:+ " 1"));
    _ ← assert (str_contains report
          ("ferrum_proxy_backend_healthy" +:+ label "backend" b3001 +:+ " 0"));
    _ ← assert (str_contains report
          ("ferrum_proxy_responses_total" +:+ label "status_code" "200" +:+ " 1"));
    assert (str_contains report
      ("ferrum_proxy_errors_total" +:+ label "kind" "request_body_too_large" +:+ " 1")))
    (Telemetry_new routes).

(** * Health *)

(** The manager, its telemetry, and the clock. *)
Definition HealthTest : Type := Instant * HealthState.

Definition test_record_success (backend : string) : testM HealthTest unit :=
  call (modifyM (λ '(now, s), (now, record_success backend s))).
Definition test_record_failure (backend : string) : testM HealthTest unit :=
  call (modifyM (λ '(now, s), (now, record_failure backend now s))).
Definition test_is_healthy (backend : string) : testM HealthTest bool :=
  call (gets (λ s, is_backend_healthy backend s.2.1)).
Definition test_is_probing (backend : string) : testM HealthTest bool :=
  call (gets (λ s, is_backend_probing backend s.2.1)).
Definition test_healthy_backends (route : RouteConfig) : testM HealthTest (list string) :=
  call (λ '(now, (m, t)), let (bs, m) := healthy_backends route now m in (bs, (now, (m, t)))).
Definition test_backend_statuses : testM HealthTest (list (string * bool)) :=
  call (λ '(now, (m, t)), let (bs, m) := backend_statuses now m in (bs, (now, (m, t)))).
(** [tokio::time::sleep(Duration::from_millis(ms)).await] *)
Definition test_sleep (ms : N) : testM HealthTest unit :=
  call (modifyM (λ '(now, s), (now + from_millis ms, s)%N)).

Definition with_manager (m : HealthManager) (test : testM HealthTest unit) : bool :=
  run_test test (0%N, (m, Telemetry_new [])).

Definition health_test_route : RouteConfig := test_route "/api" [b3001] RoundRobin.

(** [HealthManager::with_telemetry(&routes, 1, recovery, ms, 200, 399, 500, 599, None)] *)
Definition probing_manager (routes : list RouteConfig) (recovery ms : N) : HealthManager :=
  HealthManager_with_telemetry routes 1 recovery (from_millis ms) 200 399 500 599 false.

Definition returns_only_healthy_backends_for_route : bool :=
  let route := test_route "/api" [b3001; b3002] RoundRobin in
  with_manager (HealthManager_new [route]) (
    _ ← test_record_failure b3001;
    _ ← test_record_failure b3001;
    _ ← test_record_failure b3001;
    healthy ← test_healthy_backends route;
    assert_eq healthy [b3002]).

Definition starts_with_all_backends_healthy : bool :=
  with_manager (HealthManager_new [health_test_route]) (
    healthy ← test_is_healthy b3001;
    assert healthy).

Definition returns_sorted_backend_statuses : bool :=
  with_manager (HealthManager_new [test_route "/api" [b3002; b3001] RoundRobin]) (
    _ ← test_record_failure b3002;
    _ ← test_record_failure b3002;
    _ ← test_record_failure b3002;
    statuses ← test_backend_statuses;
    assert_eq statuses [(b3001, true); (b3002, false)]).

Definition marks_backend_unhealthy_after_failure_threshold : bool :=
  with_manager (HealthManager_new [health_test_route]) (
    _ ← test_record_failure b3001;
    healthy ← test_is_healthy b3001;
    _ ← assert healthy;
    _ ← test_record_failure b3001;
    healthy ← test_is_healthy b3001;
    _ ← assert healthy;
    _ ← test_record_failure b3001;
    healthy ← test_is_healthy b3001;
    assert (negb healthy)).

Definition marks_backend_healthy_after_recovery_threshold : bool :=
  with_manager (HealthManager_new [health_test_route]) (
    _ ← test_record_failure b3001;
    _ ← test_record_failure b3001;
    _ ← test_record_failure b3001;
    _ ← test_record_success b3001;
    healthy ← test_is_healthy b3001;
    _ ← assert (negb healthy);
    _ ← test_record_success b3001;
    healthy ← test_is_healthy b3001;
    assert healthy).

(** A single success of a probe restores the backend, whatever the recovery threshold. *)
Definition probe_success_restores_ejected_backend_immediately : bool :=
  with_manager (probing_manager [health_test_route] 2 30) (
    _ ← test_record_failure b3001;
    backends ← test_healthy_backends health_test_route;
    _ ← assert_eq backends [];
    _ ← test_sleep 40;
    backends ← test_healthy_backends health_test_route;
    _ ← assert_eq backends [b3001];
    _ ← test_record_success b3001;
    healthy ← test_is_healthy b3001;
    _ ← assert healthy;
    probing ← test_is_probing b3001;
    assert (negb probing)).

Definition probe_failure_re_ejects_backend : bool :=
  with_manager (probing_manager [health_test_route] 2 30) (
    _ ← test_record_failure b3001;
    backends ← test_healthy_backends health_test_route;
    _ ← assert_eq backends [];
    _ ← test_sleep 40;
    backends ← test_healthy_backends health_test_route;
    _ ← assert_eq backends [b3001];
    _ ← test_record_failure b3001;
    backends ← test_healthy_backends health_test_route;
    _ ← assert_eq backends [];
    probing ← test_is_probing b3001;
    assert (negb probing)).

Definition keeps_backend_ejected_until_cooldown_expires : bool :=
  with_manager (probing_manager [health_test_route] 1 50) (
    _ ← test_record_failure b3001;
    _ ← test_record_success b3001;
    backends ← test_healthy_backends health_test_route;
    _ ← assert_eq backends [];
    _ ← test_sleep 60;
    backends ← test_healthy_backends health_test_route;
    assert_eq backends [b3001]).

(** * Configuration *)

(** The sections that the texts of the tests write out; the fields they omit have the
    defaults of [serde]. *)
Definition yaml_server (host : string) : ServerConfig := {|
  srv_port := 8080;
  srv_host := host;
  srv_graceful_shutdown_timeout_ms := default_graceful_shutdown_timeout_ms;
  srv_client_header_timeout_ms := default_client_header_timeout_ms;
  srv_client_body_timeout_ms := default_client_body_timeout_ms;
  srv_fail_on_startup_dead_pool := false;
|}.
Definition yaml_health_check (endpoint : string) : HealthCheckConfig := {|
  hc_interval_sec := 10;
  hc_endpoint := endpoint;
  hc_check_timeout_ms := default_check_timeout_ms;
  hc_failure_threshold := default_failure_threshold;
  hc_recovery_threshold := default_recovery_threshold;
  hc_ejection_duration_ms := default_ejection_duration_ms;
  hc_active_success_status_min := default_active_success_status_min;
  hc_active_success_status_max := default_active_success_status_max;
  hc_passive_failure_status_min := default_passive_failure_status_min;
  hc_passive_failure_status_max := default_passive_failure_status_max;
|}.
Definition yaml_route (prefix backend : string) : RouteConfig :=
  test_route prefix [backend] RoundRobin.
Definition yaml_config (server : ServerConfig) (routes : list RouteConfig)
    (health_check : HealthCheckConfig) : Config := {|
  cfg_server := server;
  cfg_routes := routes;
  cfg_health_check := health_check;
  cfg_upstream := UpstreamConfig_default;
  cfg_retry := RetryConfig_default;
  cfg_debug := DebugConfig_default;
|}.

(** The configuration most tests start from. *)
Definition yaml_local : Config :=
  yaml_config (yaml_server "127.0.0.1") [yaml_route "/api" b3001] (yaml_health_check "/health").
Definition set_upstream (upstream : UpstreamConfig) (c : Config) : Config := {|
  cfg_server := cfg_server c; cfg_routes := cfg_routes c;
  cfg_health_check := cfg_health_check c; cfg_upstream := upstream;
  cfg_retry := cfg_retry c; cfg_debug := cfg_debug c;
|}.
Definition set_retry (retry : RetryConfig) (c : Config) : Config := {|
  cfg_server := cfg_server c; cfg_routes := cfg_routes c;
  cfg_health_check := cfg_health_check c; cfg_upstream := cfg_upstream c;
  cfg_retry := retry; cfg_debug := cfg_debug c;
|}.
Definition set_debug (debug : DebugConfig) (c : Config) : Config := {|
  cfg_server := cfg_server c; cfg_routes := cfg_routes c;
  cfg_health_check := cfg_health_check c; cfg_upstream := cfg_upstream c;
  cfg_retry := cfg_retry c; cfg_debug := debug;
|}.

Section config_tests.
#[local] Existing Instance simple_platform.

(** [config.validate().unwrap_err().to_string()] contains [text]. *)
Definition rejected_with (text : string) (config : Config) : bool :=
  match Config_validate config with
  | Ok _ => false
  | Err err => str_contains (ConfigError_fmt err) text
  end.

Definition accepts_valid_config : bool :=
  is_ok (Config_validate (yaml_config (yaml_server "0.0.0.0")
    [yaml_route "/api" b3001] (yaml_health_check "/health"))).

Definition rejects_duplicate_route_prefixes : bool :=
  negb (is_ok (Config_validate (yaml_config (yaml_server "0.0.0.0")
    [yaml_route "/api" b3001; yaml_route "/api" b3002] (yaml_health_check "/health")))).

Definition rejects_invalid_backend_scheme : bool :=
  negb (is_ok (Config_validate (yaml_config (yaml_server "0.0.0.0")
    [yaml_route "/api" "tcp://127.0.0.1:3001"] (yaml_health_check "/health")))).

Definition rejects_https_backends_until_tls_support_exists : bool :=
  rejected_with "does not terminate or originate TLS yet"
    (yaml_config (yaml_server "0.0.0.0") [yaml_route "/api" "https://example.com"]
       (yaml_health_check "/health")).

Definition rejects_invalid_health_endpoint : bool :=
  negb (is_ok (Config_validate (yaml_config (yaml_server "0.0.0.0")
    [yaml_route "/api" b3001] (yaml_health_check "health")))).

Definition with_health_endpoint (endpoint : string) (r : RouteConfig) : RouteConfig := {|
  rt_path_prefix := rt_path_prefix r;
  rt_backends := rt_backends r;
  rt_balancing := rt_balancing r;
  rt_retry_on_statuses := rt_retry_on_statuses r;
  rt_passive_failure_statuses := rt_passive_failure_statuses r;
  rt_health_check_endpoint := Some endpoint;
  rt_connect_timeout_ms := rt_connect_timeout_ms r;
  rt_read_timeout_ms := rt_read_timeout_ms r;
  rt_client_body_timeout_ms := rt_client_body_timeout_ms r;
|}.
Definition rejects_conflicting_route_health_endpoint_overrides_for_same_backend : bool :=
  rejected_with "conflicting health check endpoints"
    (yaml_config (yaml_server "0.0.0.0")
       [with_health_endpoint "/ready" (yaml_route "/api" b3001);
        with_health_endpoint "/healthz" (yaml_route "/admin" b3001)]
       (yaml_health_check "/health")).

Definition builds_socket_address_from_server_config : bool :=
  match ServerConfig_socket_addr addr_parse (cfg_server yaml_local) with
  | Ok addr => bool_decide (addr_to_string addr = "127.0.0.1:8080")
  | Err _ => false
  end.

Definition rejects_zero_upstream_connect_timeout : bool :=
  let upstream := {|
    up_connect_timeout_ms := 0;
    up_read_timeout_ms := 1000;
    up_max_request_body_bytes := default_max_request_body_bytes;
    up_max_response_body_bytes := default_max_response_body_bytes;
    up_max_buffered_bodies := default_max_buffered_bodies;
  |} in
  negb (is_ok (Config_validate (set_upstream upstream yaml_local))).

Definition rejects_zero_graceful_shutdown_timeout : bool :=
  let server := {|
    srv_port := 8080;
    srv_host := "127.0.0.1";
    srv_graceful_shutdown_timeout_ms := 0;
    srv_client_header_timeout_ms := default_client_header_timeout_ms;
    srv_client_body_timeout_ms := default_client_body_timeout_ms;
    srv_fail_on_startup_dead_pool := false;
  |} in
  negb (is_ok (Config_validate (yaml_config server [yaml_route "/api" b3001]
    (yaml_health_check "/health")))).

Definition rejects_zero_upstream_body_limits : bool :=
  let upstream := {|
    up_connect_timeout_ms := default_connect_timeout_ms;
    up_read_timeout_ms := default_read_timeout_ms;
    up_max_request_body_bytes := 0;
    up_max_response_body_bytes := 1;
    up_max_buffered_bodies := default_max_buffered_bodies;
  |} in
  negb (is_ok (Config_validate (set_upstream upstream yaml_local))).

Definition rejects_invalid_retry_config : bool :=
  let retry := {|
    retry_max_attempts := 0;
    retry_total_timeout_ms := default_retry_total_timeout_ms;
    retry_backoff_ms := default_retry_backoff_ms;
    retry_on_statuses := default_retry_on_statuses;
    retry_idempotent_methods := false;
  |} in
  negb (is_ok (Config_validate (set_retry retry yaml_local))).

Definition rejects_empty_debug_auth_token : bool :=
  let debug := {|
    dbg_expose_backend_health := default_expose_backend_health;
    dbg_expose_metrics := default_expose_metrics;
    dbg_auth_token := Some "   ";
  |} in
  negb (is_ok (Config_validate (set_debug debug yaml_local))).

End config_tests.

(** * The tests pass *)

Example routing_tests_pass :
  forallb (λ test, run_test test tt)
    [prefers_more_specific_prefix; does_not_match_partial_path_segment; matches_exact_prefix;
     returns_none_when_no_route_matches] = true.
Proof. by vm_compute. Qed.

Example balancing_tests_pass :
  forallb id [cycles_backends_in_round_robin_order;
    first_healthy_strategy_picks_first_backend_without_rotation;
    returns_none_when_no_eligible_backends_exist] = true.
Proof. by vm_compute. Qed.

Example telemetry_tests_pass : renders_prometheus_metrics = true.
Proof. by vm_compute. Qed.

Example health_tests_pass :
  forallb id [returns_only_healthy_backends_for_route; starts_with_all_backends_healthy;
    returns_sorted_backend_statuses; marks_backend_unhealthy_after_failure_threshold;
    marks_backend_healthy_after_recovery_threshold;
    probe_success_restores_ejected_backend_immediately; probe_failure_re_ejects_backend;
    keeps_backend_ejected_until_cooldown_expires] = true.
Proof. by vm_compute. Qed.

Example config_tests_pass :
  forallb id [accepts_valid_config; rejects_duplicate_route_prefixes;
    rejects_invalid_backend_scheme; rejects_https_backends_until_tls_support_exists;
    rejects_invalid_health_endpoint;
    rejects_conflicting_route_health_endpoint_overrides_for_same_backend;
    builds_socket_address_from_server_config; rejects_zero_upstream_connect_timeout;
    rejects_zero_graceful_shutdown_timeout; rejects_zero_upstream_body_limits;
    rejects_invalid_retry_config; rejects_empty_debug_auth_token] = true.
Proof. by vm_compute. Qed.
