(* ===== verification/ProxyTests.v ===== *)
(** The tests of the active checks in [src/health/mod.rs] and the tests of
    [src/upstream/mod.rs], run on the model: each [#[test]] and [#[tokio::test]] is translated
    assertion by assertion, and an [Example] evaluates it.

    The servers that the tests spawn are environments: the handler of a server is a function
    from the request it receives to the response on the wire.  A test runs alone, so nothing
    else touches the shared state. *)

From S2P Require Import Prelude RustStd Externals Instances Config Routing Balancing Telemetry.
From S2P Require Import Health Runtime HealthChecks Upstream Http UnitTests.
From stdpp Require Import options.

#[local] Existing Instance simple_platform.

(** * Servers *)

(** The network of a test. *)
Definition network (reply : Request ProxyBody → Reply)
    (health : Uri → Duration * option StatusCode) : Environment := {|
  env_delay _ := 0%N;
  env_others _ s := s;
  env_reply _ := reply;
  env_probe _ := health;
|}.

(** Nothing listens: connections are refused. *)
Definition connection_refused : Reply := {|
  reply_after := from_millis 1;
  reply_polled := 0;
  reply_result := Err (SimpleError true [{| as_io := Some IoConnectionRefused;
                                            as_hyper := None |}]);
|}.
Definition no_probe (uri : Uri) : Duration * option StatusCode := (from_millis 1, None).
Definition no_upstream (request : Request ProxyBody) : Reply := connection_refused.

(** The number of items of a request body. *)
Definition body_length (body : ProxyBody) : nat :=
  match body with FullBody _ => 0 | StreamBody b => length (lb_items b) end.

(** A server that reads the request and sends [response]. *)
Definition respond (request : Request ProxyBody) (response : Response Body) : Reply := {|
  reply_after := from_millis 1;
  reply_polled := body_length (req_body request);
  reply_result := Ok response;
|}.

(** [Response::builder().status(status).header(...).body(Full::new(body))] *)
Definition server_response (status : StatusCode) (headers : list (HeaderName * HeaderValue))
    (body : string) : Response Body := {|
  resp_status := status;
  resp_version := "HTTP/1.1";
  resp_headers := foldl (λ m '(name, value), headers_insert name value m) headers_empty headers;
  resp_body := body_full body;
|}.

(** The network in which each server listens at its address. *)
Definition TestServer : Type := string * (Request ProxyBody → Reply).
Fixpoint upstreams (servers : list TestServer) (request : Request ProxyBody) : Reply :=
  match servers with
  | [] => connection_refused
  | (address, server) :: servers =>
      if decide (suri_origin (req_uri request) = address) then server request
      else upstreams servers request
  end.

(** * Clients *)

(** [Empty::new()], and a body sent in chunks without a length *)
Definition empty_body : Body := [] : @Body (@platform_body simple_platform).
Definition chunked_body (chunks : list string) : Body := (λ chunk, (0%N, Chunk chunk)) <$> chunks.

(** [Request::builder().method(method).uri(uri).header(...).body(body)] *)
Definition build_request (method : Method) (path : string)
    (headers : list (HeaderName * HeaderValue)) (body : Body) : Request Body := {|
  req_method := method;
  req_uri := origin_form path None : @Uri (@platform_uri simple_platform);
  req_version := "HTTP/1.1";
  req_headers := foldl (λ m '(name, value), headers_insert name value m) headers_empty headers;
  req_remote_addr := None;
  req_body := body;
|}.

(** [response.into_body().collect().await]: the bytes, or the first error. *)
Fixpoint collect_frames (frames : list Frame) : result string string :=
  match frames with
  | [] => Ok ""
  | Data bytes :: frames => rest ← collect_frames frames; Ok (bytes +:+ rest)
  | BodyError err :: _ => Err err
  end.
Definition collect (body : ProxyBody) : result string string :=
  match body with
  | FullBody data => Ok data
  | StreamBody b => collect_frames (body_polls b).*2
  end.
Definition unwrap_ok {S E A} (r : result E A) : testM S A :=
  match r with Ok a => mret a | Err _ => λ _, None end.
Definition unwrap_err {S E A} (r : result E A) : testM S E :=
  match r with Ok _ => λ _, None | Err err => mret err end.

(** A test in the state of a proxy with this configuration. *)
Definition world_of (config : Config) : World :=
  {| w_now := 0; w_tick := 0; w_shared := (AppState_new config).2; w_sent := [] |}.
Definition with_state (config : Config) (test : AppState → testM World unit) : bool :=
  run_test (test (AppState_new config).1) (world_of config).

Definition is_healthy (backend : string) : testM World bool :=
  call (gets (λ w, is_backend_healthy backend (sh_health (w_shared w)).1)).

(** * Active checks *)

Definition config_with_backends (backends : list string) : Config := {|
  cfg_server := ServerConfig_default;
  cfg_routes := [test_route "/api" backends RoundRobin];
  cfg_health_check := {|
    hc_interval_sec := 1;
    hc_endpoint := "/health";
    hc_check_timeout_ms := default_check_timeout_ms;
    hc_failure_threshold := default_failure_threshold;
    hc_recovery_threshold := default_recovery_threshold;
    hc_ejection_duration_ms := default_ejection_duration_ms;
    hc_active_success_status_min := default_active_success_status_min;
    hc_active_success_status_max := default_active_success_status_max;
    hc_passive_failure_status_min := default_passive_failure_status_min;
    hc_passive_failure_status_max := default_passive_failure_status_max;
  |};
  cfg_upstream := UpstreamConfig_default;
  cfg_retry := RetryConfig_default;
  cfg_debug := DebugConfig_default;
|}.

(** The world of a test that uses a manager of its own. *)
Definition with_test_manager (config : Config) (m : HealthManager) (test : testM World unit)
    : bool :=
  let w := world_of config in
  run_test test (set_shared (set_health (m, Telemetry_new []) (w_shared w)) w).

(** [spawn_health_server(status)], [spawn_dual_health_server()] and no server at all *)
Definition spawn_health_server (status : StatusCode) : Environment :=
  network no_upstream (λ _, (from_millis 1, Some status)).
Definition spawn_dual_health_server : Environment :=
  network no_upstream (λ uri, (from_millis 1,
    Some (if decide (uri_path uri = "/ready") then 200%N else 500%N))).
Definition no_server : Environment := network no_upstream no_probe.

Definition check_pass (env : Environment) (config : Config) : testM World unit :=
  outcome ← call (run_active_check_pass config);
  assert_eq outcome Finished.

Definition active_checks_mark_backend_unhealthy_after_failed_checks : bool :=
  let backend := "http://127.0.0.1:9" in
  let config := config_with_backends [backend] in
  with_test_manager config (HealthManager_new (cfg_routes config)) (
    _ ← check_pass no_server config;
    healthy ← is_healthy backend;
    _ ← assert healthy;
    _ ← check_pass no_server config;
    healthy ← is_healthy backend;
    _ ← assert healthy;
    _ ← check_pass no_server config;
    healthy ← is_healthy backend;
    assert (negb healthy)).

(** The status that the server answers is stored between the passes. *)
Definition active_checks_restore_backend_after_recovery : bool :=
  let backend := "http://127.0.0.1:40001" in
  let config := config_with_backends [backend] in
  with_test_manager config (HealthManager_new (cfg_routes config)) (
    _ ← check_pass (spawn_health_server 500) config;
    _ ← check_pass (spawn_health_server 500) config;
    _ ← check_pass (spawn_health_server 500) config;
    healthy ← is_healthy backend;
    _ ← assert (negb healthy);
    _ ← check_pass (spawn_health_server 200) config;
    healthy ← is_healthy backend;
    _ ← assert (negb healthy);
    _ ← check_pass (spawn_health_server 200) config;
    healthy ← is_healthy backend;
    assert healthy).

Definition route_specific_health_endpoint_override_is_used_for_active_checks : bool :=
  let backend := "http://127.0.0.1:40001" in
  let base := config_with_backends [] in
  let config := {|
    cfg_server := cfg_server base;
    cfg_routes := [with_health_endpoint "/ready" (test_route "/api" [backend] RoundRobin)];
    cfg_health_check := cfg_health_check base;
    cfg_upstream := cfg_upstream base;
    cfg_retry := cfg_retry base;
    cfg_debug := cfg_debug base;
  |} in
  with_test_manager config (probing_manager (cfg_routes config) 1 30) (
    _ ← check_pass spawn_dual_health_server config;
    healthy ← is_healthy backend;
    assert healthy).

Definition builds_healthcheck_uri_from_backend_and_endpoint : bool :=
  match build_healthcheck_uri b3001 "/health" with
  | Some (Ok uri) => bool_decide (simple_uri_to_string uri = "http://127.0.0.1:3001/health")
  | _ => false
  end.

Example active_check_tests_pass :
  forallb id [active_checks_mark_backend_unhealthy_after_failed_checks;
    active_checks_restore_backend_after_recovery;
    route_specific_health_endpoint_override_is_used_for_active_checks;
    builds_healthcheck_uri_from_backend_and_endpoint] = true.
Proof. by vm_compute. Qed.

(** * Forwarding *)

Definition upstream_config (connect_timeout_ms read_timeout_ms max_request_body_bytes
    max_response_body_bytes : N) : UpstreamConfig := {|
  up_connect_timeout_ms := connect_timeout_ms;
  up_read_timeout_ms := read_timeout_ms;
  up_max_request_body_bytes := max_request_body_bytes;
  up_max_response_body_bytes := max_response_body_bytes;
  up_max_buffered_bodies := default_max_buffered_bodies;
|}.

(** The errors of the client that the servers below cause: the response does not parse, and
    the connection closes before the response. *)
Definition broken_response : ClientError :=
  SimpleError false [{| as_io := None; as_hyper := Some (true, false) |}]
  : @ClientError (@platform_error simple_platform).
Definition closed_early : ClientError :=
  SimpleError false [{| as_io := None; as_hyper := Some (false, true) |}]
  : @ClientError (@platform_error simple_platform).

Definition spawn_header_stall_server (request : Request ProxyBody) : Reply := {|
  reply_after := from_millis 100;
  reply_polled := body_length (req_body request);
  reply_result := Err closed_early;
|}.
Definition spawn_invalid_response_server (request : Request ProxyBody) : Reply := {|
  reply_after := from_millis 1;
  reply_polled := 0;
  reply_result := Err broken_response;
|}.

(** A response whose body arrives in chunks, each after some time. *)
Definition stream_response (chunks : list (Duration * string)) : Response Body := {|
  resp_status := 200;
  resp_version := "HTTP/1.1";
  resp_headers := headers_empty;
  resp_body := (λ '(after, chunk), (after, Chunk chunk)) <$> chunks;
|}.
Definition spawn_body_stall_server (request : Request ProxyBody) : Reply :=
  respond request (stream_response [(from_millis 100, "late")]).
Definition spawn_large_response_server (request : Request ProxyBody) : Reply :=
  respond request (server_response 200 [(CONTENT_LENGTH, "10")] "0123456789").
Definition spawn_chunked_large_response_server (request : Request ProxyBody) : Reply :=
  respond request (stream_response [(0%N, "12"); (0%N, "345")]).

(** A [GET] of [/api/users] sent through [forward] to the only server. *)
Definition forward_to (servers : list TestServer) (backend : string) (config : UpstreamConfig)
    (connect_timeout_ms read_timeout_ms : N)
    : testM World (result UpstreamError (Response ProxyBody)) :=
  let env := network (upstreams servers) no_probe in
  call (forward (UpstreamClient_new config) backend
    (build_request "GET" "/api/users" [] empty_body) None
    (from_millis connect_timeout_ms) (from_millis read_timeout_ms) (from_millis 50) None None).

Definition upstream_test (test : testM World unit) : bool :=
  run_test test (world_of (config_with_backends [])).

Definition u40001 : string := "http://127.0.0.1:40001".
Definition u40002 : string := "http://127.0.0.1:40002".

Definition builds_upstream_uri_from_backend_and_request_path : bool :=
  match uri_parse "/api/users?page=2", url_parse b3001 with
  | Ok request_uri, Ok backend =>
      match build_upstream_uri backend request_uri with
      | Ok upstream_uri =>
          bool_decide (simple_uri_to_string upstream_uri
                       = "http://127.0.0.1:3001/api/users?page=2")
      | Err _ => false
      end
  | _, _ => false
  end.

Definition contains_key (headers : HeaderMap) (name : HeaderName) : bool :=
  is_some (headers_get headers name).

Definition strips_hop_by_hop_and_connection_headers : bool :=
  let headers := headers_insert CONNECTION "keep-alive, x-remove-me" headers_empty in
  let headers := headers_insert KEEP_ALIVE "timeout=5" headers in
  let headers := headers_insert (name_from_static "x-remove-me") "1" headers in
  let headers := headers_insert HOST "proxy.local" headers in
  let headers := sanitize_hop_by_hop_headers headers in
  negb (contains_key headers CONNECTION) && negb (contains_key headers KEEP_ALIVE)
  && negb (contains_key headers (name_from_static "x-remove-me")) && contains_key headers HOST.

Definition times_out_when_upstream_response_headers_stall : bool :=
  let config := upstream_config 20 100 default_max_request_body_bytes
    default_max_response_body_bytes in
  upstream_test (
    outcome ← forward_to [(u40001, spawn_header_stall_server)] u40001 config 20 100;
    err ← unwrap_err outcome;
    assert (str_contains (UpstreamError_fmt err)
      "upstream connect or response-header timeout")).

Definition classifies_connection_refused_errors : bool :=
  upstream_test (
    outcome ← forward_to [] "http://127.0.0.1:9" UpstreamConfig_default 100 100;
    err ← unwrap_err outcome;
    assert_eq (UpstreamError_kind err) "upstream_connection_refused").

Definition classifies_invalid_upstream_responses : bool :=
  upstream_test (
    outcome ← forward_to [(u40001, spawn_invalid_response_server)] u40001
                UpstreamConfig_default 100 100;
    err ← unwrap_err outcome;
    assert_eq (UpstreamError_kind err) "invalid_upstream_response").

Definition times_out_when_upstream_response_body_stalls : bool :=
  let config := upstream_config 100 20 default_max_request_body_bytes
    default_max_response_body_bytes in
  upstream_test (
    outcome ← forward_to [(u40001, spawn_body_stall_server)] u40001 config 100 20;
    response ← unwrap_ok outcome;
    err ← unwrap_err (collect (resp_body response));
    assert (str_contains err "upstream response body idle timeout")).

Definition rejects_large_upstream_response_by_content_length : bool :=
  let config := upstream_config default_connect_timeout_ms default_read_timeout_ms
    default_max_request_body_bytes 4 in
  upstream_test (
    outcome ← forward_to [(u40001, spawn_large_response_server)] u40001 config 100 100;
    err ← unwrap_err outcome;
    assert_eq (UpstreamError_kind err) "response_body_too_large").

Definition chunked_upstream_response_over_limit_errors_mid_stream : bool :=
  let config := upstream_config default_connect_timeout_ms default_read_timeout_ms
    default_max_request_body_bytes 4 in
  upstream_test (
    outcome ← forward_to [(u40001, spawn_chunked_large_response_server)] u40001 config 100 100;
    response ← unwrap_ok outcome;
    err ← unwrap_err (collect (resp_body response));
    assert (str_contains err "upstream response body exceeded 4 byte limit")).

Example upstream_tests_pass :
  forallb id [builds_upstream_uri_from_backend_and_request_path;
    strips_hop_by_hop_and_connection_headers; times_out_when_upstream_response_headers_stall;
    classifies_connection_refused_errors; classifies_invalid_upstream_responses;
    times_out_when_upstream_response_body_stalls;
    rejects_large_upstream_response_by_content_length;
    chunked_upstream_response_over_limit_errors_mid_stream] = true.
Proof. by vm_compute. Qed.
