(* ===== verification/HttpTests.v ===== *)
(** The tests of [src/http/mod.rs], run on the model: each [#[test]] and [#[tokio::test]] is
    translated assertion by assertion, and an [Example] evaluates it.  The requests that reach
    a server are counted by the requests the proxy sent to it. *)

From S2P Require Import Prelude RustStd Externals Instances Config Routing Balancing Telemetry.
From S2P Require Import Health Runtime HealthChecks Upstream Http UnitTests ProxyTests.
From stdpp Require Import options.

#[local] Existing Instance simple_platform.

(** * Fixtures *)

Definition b4000 : string := "http://127.0.0.1:4000".

(** The configuration of [state_with_api_backends], and [sample_config] *)
Definition api_backends_config (backends : list string) : Config := {|
  cfg_server := ServerConfig_default;
  cfg_routes := [test_route "/api" backends RoundRobin; test_route "/static" [b4000] RoundRobin];
  cfg_health_check := HealthCheckConfig_default;
  cfg_upstream := UpstreamConfig_default;
  cfg_retry := RetryConfig_default;
  cfg_debug := DebugConfig_default;
|}.
Definition http_sample_config : Config := api_backends_config [b3001; b3002].

Definition set_routes (routes : list RouteConfig) (c : Config) : Config := {|
  cfg_server := cfg_server c; cfg_routes := routes;
  cfg_health_check := cfg_health_check c; cfg_upstream := cfg_upstream c;
  cfg_retry := cfg_retry c; cfg_debug := cfg_debug c;
|}.
Definition set_health_check (health_check : HealthCheckConfig) (c : Config) : Config := {|
  cfg_server := cfg_server c; cfg_routes := cfg_routes c;
  cfg_health_check := health_check; cfg_upstream := cfg_upstream c;
  cfg_retry := cfg_retry c; cfg_debug := cfg_debug c;
|}.

(** One route [/api] to these backends *)
Definition api_route (backends : list string) : RouteConfig :=
  test_route "/api" backends RoundRobin.
Definition with_statuses (retry_on passive_failure : list N) (r : RouteConfig) : RouteConfig := {|
  rt_path_prefix := rt_path_prefix r;
  rt_backends := rt_backends r;
  rt_balancing := rt_balancing r;
  rt_retry_on_statuses := retry_on;
  rt_passive_failure_statuses := passive_failure;
  rt_health_check_endpoint := rt_health_check_endpoint r;
  rt_connect_timeout_ms := rt_connect_timeout_ms r;
  rt_read_timeout_ms := rt_read_timeout_ms r;
  rt_client_body_timeout_ms := rt_client_body_timeout_ms r;
|}.

(** [RetryConfig { max_attempts: 2, retry_on_statuses: vec![503], ..Default::default() }] *)
Definition two_attempts_on_503 : RetryConfig := {|
  retry_max_attempts := 2;
  retry_total_timeout_ms := default_retry_total_timeout_ms;
  retry_backoff_ms := default_retry_backoff_ms;
  retry_on_statuses := [503%N];
  retry_idempotent_methods := false;
|}.
Definition debug_config (expose_metrics : bool) (auth_token : option string) : DebugConfig := {|
  dbg_expose_backend_health := default_expose_backend_health;
  dbg_expose_metrics := expose_metrics;
  dbg_auth_token := auth_token;
|}.

(** [spawn_test_upstream], with a handler that gives the status and the body *)
Definition spawn_test_upstream (address : string) (status : StatusCode) (body : string)
    : TestServer :=
  (address, λ request, respond request (server_response status [] body)).

(** [handle_request(request, state).await], on a network with these servers *)
Definition serve (servers : list TestServer) (st : AppState) (request : Request Body)
    : testM World (Response ProxyBody) :=
  let env := network (upstreams servers) no_probe in
  response ← call (handle_request request st);
  unwrap response.
Definition get (path : string) : Request Body := build_request "GET" path [] empty_body.

(** The number of requests a server has seen. *)
Definition seen_requests (backend : string) : testM World nat :=
  call (gets (λ w, length (filter (λ sent, sent_backend sent = backend) (w_sent w)))).

(** * Internal endpoints *)

Definition health_endpoint_responds_ok : bool :=
  with_state http_sample_config (λ state,
    response ← serve [] state (get "/health");
    assert_eq (resp_status response) 200%N).

Definition record_on_telemetry (f : Telemetry → Telemetry) : testM World unit :=
  let env := no_server in call (on_telemetry f).
Definition record_failure_of (backend : string) : testM World unit :=
  let env := no_server in call (on_health (record_failure backend)).

Definition metrics_endpoint_returns_prometheus_text : bool :=
  with_state http_sample_config (λ state,
    _ ← record_on_telemetry record_request;
    _ ← record_on_telemetry (record_upstream_latency (from_millis 5));
    _ ← record_on_telemetry (record_response_status 200);
    _ ← record_failure_of b3001;
    _ ← record_failure_of b3001;
    _ ← record_failure_of b3001;
    response ← serve [] state (get "/metrics");
    text ← unwrap_ok (collect (resp_body response));
    _ ← assert_eq (resp_status response) 200%N;
    _ ← assert (str_contains text "# TYPE ferrum_proxy_requests_total counter");
    _ ← assert (str_contains text "ferrum_proxy_requests_total 2");
    assert (str_contains text "ferrum_proxy_backend_healthy")).

Definition metrics_endpoint_requires_bearer_token_when_configured : bool :=
  let config := set_debug (debug_config default_expose_metrics (Some "secret-token"))
    http_sample_config in
  with_state config (λ state,
    unauthorized ← serve [] state (get "/metrics");
    _ ← assert_eq (resp_status unauthorized) 401%N;
    authorized ← serve [] state
      (build_request "GET" "/metrics" [(AUTHORIZATION, "Bearer secret-token")] empty_body);
    assert_eq (resp_status authorized) 200%N).

Definition metrics_endpoint_can_be_disabled : bool :=
  with_state (set_debug (debug_config false None) http_sample_config) (λ state,
    response ← serve [] state (get "/metrics");
    assert_eq (resp_status response) 404%N).

(** * Headers *)

Definition header_text (headers : HeaderMap) (name : HeaderName) : string :=
  default "missing" (headers_get headers name ≫= value_to_str).

(** The upstream of the test: it reports the headers it received. *)
Definition reporting_upstream (request : Request ProxyBody) : Reply :=
  let headers := req_headers request in
  respond request (server_response 200 [(CONNECTION, "close")] (
    "host=" +:+ header_text headers HOST
    +:+ " xff=" +:+ header_text headers (name_from_static "x-forwarded-for")
    +:+ " xfp=" +:+ header_text headers (name_from_static "x-forwarded-proto")
    +:+ " forwarded=" +:+ header_text headers (name_from_static "forwarded")
    +:+ " connection=" +:+ header_text headers CONNECTION
    +:+ " keep_alive=" +:+ header_text headers (name_from_static "keep-alive"))).

Definition with_connection_info (addr : SocketAddr) (request : Request Body) : Request Body := {|
  req_method := req_method request;
  req_uri := req_uri request;
  req_version := req_version request;
  req_headers := req_headers request;
  req_remote_addr := Some addr;
  req_body := req_body request;
|}.

Definition proxy_rewrites_forwarding_headers_and_strips_connection_headers : bool :=
  with_state (api_backends_config [u40001]) (λ state,
    remote_addr ← unwrap_ok (addr_parse "203.0.113.10:1234");
    response ← serve [(u40001, reporting_upstream)] state
      (with_connection_info remote_addr
         (build_request "GET" "/api/users"
            [(HOST, "proxy.local"); (CONNECTION, "keep-alive, x-remove-me");
             (name_from_static "keep-alive", "timeout=5");
             (name_from_static "x-remove-me", "1")] empty_body));
    text ← unwrap_ok (collect (resp_body response));
    _ ← assert (str_contains text "host=127.0.0.1:");
    _ ← assert (str_contains text "xff=203.0.113.10");
    _ ← assert (str_contains text "xfp=http");
    _ ← assert (str_contains text "forwarded=for=203.0.113.10;proto=http");
    _ ← assert (str_contains text "connection=missing");
    _ ← assert (str_contains text "keep_alive=missing");
    assert (negb (contains_key (resp_headers response) CONNECTION))).

(** * Size limits *)

Definition rejects_request_body_over_configured_limit : bool :=
  let config := set_upstream (upstream_config default_connect_timeout_ms default_read_timeout_ms
    4 default_max_response_body_bytes) http_sample_config in
  with_state config (λ state,
    response ← serve [] state
      (build_request "POST" "/api/upload" [(CONTENT_LENGTH, "10")] (body_full "0123456789"));
    body ← unwrap_ok (collect (resp_body response));
    _ ← assert_eq (resp_status response) 413%N;
    assert (str_contains body "request body too large")).

Definition chunked_request_body_over_limit_returns_payload_too_large_before_forwarding : bool :=
  let config := set_upstream (upstream_config default_connect_timeout_ms default_read_timeout_ms
    4 default_max_response_body_bytes) (set_routes [api_route [u40001]] http_sample_config) in
  with_state config (λ state,
    response ← serve [spawn_test_upstream u40001 200 "upstream"] state
      (build_request "POST" "/api/upload" [] (chunked_body ["12"; "345"]));
    text ← unwrap_ok (collect (resp_body response));
    _ ← assert_eq (resp_status response) 413%N;
    _ ← assert (str_contains text "request body exceeded 4 byte limit");
    seen ← seen_requests u40001;
    assert_eq seen 0).

Definition prebuffers_only_unsafe_methods : bool :=
  forallb (λ method, negb (should_prebuffer_request method)) ["GET"; "HEAD"; "OPTIONS"; "TRACE"]
  && forallb should_prebuffer_request ["POST"; "PUT"; "PATCH"; "DELETE"].

Definition rejects_upstream_response_over_configured_limit : bool :=
  let config := set_upstream (upstream_config default_connect_timeout_ms default_read_timeout_ms
    default_max_request_body_bytes 4) (set_routes [api_route [u40001]] http_sample_config) in
  with_state config (λ state,
    response ← serve [(u40001, spawn_large_response_server)] state (get "/api/users");
    assert_eq (resp_status response) 502%N).

(** * Retries *)

Definition retries_safe_request_on_retryable_status : bool :=
  let servers := [spawn_test_upstream u40001 503 "retry me";
                  spawn_test_upstream u40002 200 "healthy-backend"] in
  let config := set_retry two_attempts_on_503
    (set_routes [api_route [u40001; u40002]] http_sample_config) in
  with_state config (λ state,
    response ← serve servers state (get "/api/users");
    body ← unwrap_ok (collect (resp_body response));
    _ ← assert_eq (resp_status response) 200%N;
    assert_eq body "healthy-backend").

Definition does_not_retry_post_request_even_when_retry_is_enabled : bool :=
  let servers := [spawn_test_upstream u40001 503 "retry me";
                  spawn_test_upstream u40002 200 "should-not-run"] in
  let config := set_retry two_attempts_on_503
    (set_routes [api_route [u40001; u40002]] http_sample_config) in
  with_state config (λ state,
    response ← serve servers state
      (build_request "POST" "/api/users" [] (body_full "small"));
    _ ← assert_eq (resp_status response) 503%N;
    seen ← seen_requests u40001;
    assert_eq seen 1).

Definition route_specific_retry_statuses_override_global_retry_policy : bool :=
  let servers := [spawn_test_upstream u40001 502 "retry me";
                  spawn_test_upstream u40002 200 "healthy-backend"] in
  let config := set_retry two_attempts_on_503
    (set_routes [with_statuses [502%N] [] (api_route [u40001; u40002])] http_sample_config) in
  with_state config (λ state,
    response ← serve servers state (get "/api/users");
    body ← unwrap_ok (collect (resp_body response));
    _ ← assert_eq (resp_status response) 200%N;
    assert_eq body "healthy-backend").

(** The four requests of the test share the state. *)
Definition route_specific_passive_failure_statuses_override_global_health_policy : bool :=
  let servers := [spawn_test_upstream u40001 429 "rate-limited";
                  spawn_test_upstream u40002 200 "healthy-backend"] in
  let hc := cfg_health_check http_sample_config in
  let config := set_health_check {|
      hc_interval_sec := hc_interval_sec hc;
      hc_endpoint := hc_endpoint hc;
      hc_check_timeout_ms := hc_check_timeout_ms hc;
      hc_failure_threshold := 2;
      hc_recovery_threshold := hc_recovery_threshold hc;
      hc_ejection_duration_ms := hc_ejection_duration_ms hc;
      hc_active_success_status_min := hc_active_success_status_min hc;
      hc_active_success_status_max := hc_active_success_status_max hc;
      hc_passive_failure_status_min := hc_passive_failure_status_min hc;
      hc_passive_failure_status_max := hc_passive_failure_status_max hc;
    |} (set_routes [with_statuses [] [429%N] (api_route [u40001; u40002])]
          http_sample_config) in
  with_state config (λ state,
    first ← serve servers state (get "/api/users");
    second ← serve servers state (get "/api/users");
    third ← serve servers state (get "/api/users");
    fourth ← serve servers state (get "/api/users");
    _ ← assert_eq (resp_status first) 429%N;
    _ ← assert_eq (resp_status second) 200%N;
    _ ← assert_eq (resp_status third) 429%N;
    body ← unwrap_ok (collect (resp_body fourth));
    assert_eq body "healthy-backend").

Definition unknown_route_returns_not_found : bool :=
  with_state http_sample_config (λ state,
    response ← serve [] state (get "/unknown");
    body ← unwrap_ok (collect (resp_body response));
    _ ← assert_eq (resp_status response) 404%N;
    assert_eq body ("no route matched request path" +:+ newline)).

(** * The tests pass *)

Example http_tests_pass :
  forallb id [health_endpoint_responds_ok; metrics_endpoint_returns_prometheus_text;
    metrics_endpoint_requires_bearer_token_when_configured; metrics_endpoint_can_be_disabled;
    proxy_rewrites_forwarding_headers_and_strips_connection_headers;
    rejects_request_body_over_configured_limit;
    chunked_request_body_over_limit_returns_payload_too_large_before_forwarding;
    prebuffers_only_unsafe_methods; rejects_upstream_response_over_configured_limit;
    retries_safe_request_on_retryable_status;
    does_not_retry_post_request_even_when_retry_is_enabled;
    route_specific_retry_statuses_override_global_retry_policy;
    route_specific_passive_failure_statuses_override_global_health_policy;
    unknown_route_returns_not_found] = true.
Proof. by vm_compute. Qed.
