(* ===== verification/BenchBackend.v ===== *)
(** [src/bin/benchmark_backend.rs]: the backend server of the benchmarks, its command line,
    and how it answers: a fixed size of response, and a failure status for every n-th
    request. *)

From Stdlib Require Import Ascii.
From S2P Require Import Prelude RustStd Externals.
From stdpp Require Import options.

Section bench_backend.
Context `{!UriOps, !HeaderOps, !AddrOps, !StatusOps}.

(** * Data *)

Record BackendConfig := {
  bc_name : string;
  bc_port : N;
  bc_status : StatusCode;
  bc_failure_status : StatusCode;
  bc_fail_every : N;
  bc_delay_ms : N;
  bc_response_body_bytes : N;
  bc_health_status : StatusCode;
}.

(** * The command line *)

Definition usage : string :=
  "usage: benchmark_backend --port <port> [--name <name>] [--status <code>] [--failure-status <code>] [--fail-every <n>] [--delay-ms <ms>] [--response-body-bytes <n>] [--health-status <code>]".

(** [args.next()]: the value of a flag, and the arguments after it. *)
Definition next_value (args : list string) : option string := head args.
Definition skip_value (args : list string) : list string :=
  match args with [] => args | _ :: args => args end.

(** [T::from_str] is [from_str]; a [String] is read as it is. *)
Definition parse_value {A} (from_str : string → result string A) (value : option string)
    (flag : string) : result string A :=
  match value with
  | None => Err ("missing value for " +:+ flag)
  | Some raw =>
      match from_str raw with
      | Ok v => Ok v
      | Err err => Err ("invalid value for " +:+ flag +:+ ": " +:+ err)
      end
  end.
Definition string_from_str (s : string) : result string string := Ok s.

Definition parse_status (value : option string) (flag : string) : result string StatusCode :=
  value ← parse_value (parse_uint u16_modulus) value flag;
  match status_from_u16 value with
  | Some status => Ok status
  | None => Err ("invalid status code for " +:+ flag +:+ ": " +:+ pretty value)
  end.

(** The loop over the arguments; the local variables are the parameters. *)
Fixpoint parse_loop (args : list string) (port : option N) (name : string)
    (status failure_status : StatusCode) (fail_every delay_ms response_body_bytes : N)
    (health_status : StatusCode) : result string BackendConfig :=
  match args with
  | [] =>
      match port with
      | None => Err ("missing required --port" +:+ newline +:+ newline +:+ usage)
      | Some port => Ok {|
          bc_name := name; bc_port := port; bc_status := status;
          bc_failure_status := failure_status; bc_fail_every := fail_every;
          bc_delay_ms := delay_ms; bc_response_body_bytes := response_body_bytes;
          bc_health_status := health_status |}
      end
  | arg :: args =>
      let value := next_value args in
      let rest := skip_value args in
      if decide (arg = "--port") then
        port ← parse_value (parse_uint u16_modulus) value "--port";
        parse_loop rest (Some port) name status failure_status fail_every delay_ms
          response_body_bytes health_status
      else if decide (arg = "--name") then
        name ← parse_value string_from_str value "--name";
        parse_loop rest port name status failure_status fail_every delay_ms
          response_body_bytes health_status
      else if decide (arg = "--status") then
        status ← parse_status value "--status";
        parse_loop rest port name status failure_status fail_every delay_ms
          response_body_bytes health_status
      else if decide (arg = "--failure-status") then
        failure_status ← parse_status value "--failure-status";
        parse_loop rest port name status failure_status fail_every delay_ms
          response_body_bytes health_status
      else if decide (arg = "--fail-every") then
        fail_every ← parse_value (parse_uint u64_modulus) value "--fail-every";
        parse_loop rest port name status failure_status fail_every delay_ms
          response_body_bytes health_status
      else if decide (arg = "--delay-ms") then
        delay_ms ← parse_value (parse_uint u64_modulus) value "--delay-ms";
        parse_loop rest port name status failure_status fail_every delay_ms
          response_body_bytes health_status
      else if decide (arg = "--response-body-bytes") then
        response_body_bytes ← parse_value (parse_uint u64_modulus) value "--response-body-bytes";
        parse_loop rest port name status failure_status fail_every delay_ms
          response_body_bytes health_status
      else if decide (arg = "--health-status") then
        health_status ← parse_status value "--health-status";
        parse_loop rest port name status failure_status fail_every delay_ms
          response_body_bytes health_status
      else if decide (arg = "--help" ∨ arg = "-h") then Err usage
      else Err ("unknown argument: " +:+ arg +:+ newline +:+ newline +:+ usage)
  end.

(** [args] is [std::env::args().skip(1)]. *)
Definition parse_args (args : list string) : result string BackendConfig :=
  parse_loop args None "benchmark-backend" 200 503 0 0 128 200.

(** * Answers *)

Definition build_response_body (name : string) (method : Method) (path : string)
    (request_number received_bytes response_size : N) : string :=
  let body := "name=" +:+ name +:+ " method=" +:+ method +:+ " path=" +:+ path
    +:+ " request=" +:+ pretty request_number
    +:+ " received_bytes=" +:+ pretty received_bytes +:+ newline in
  if decide (response_size ≤ str_len body)%N
  then str_take (N.to_nat response_size) body
  else body +:+ str_repeat "x"%char (N.to_nat response_size - String.length body).

(** [None] is the panic of [expect]: some header is invalid.  The names are distinct, so that
    appending each header to the empty map inserts it. *)
Definition text_response (status : StatusCode) (body : string) (backend_name : option string)
    : option (Response string) :=
  content_type ← value_from_str "text/plain; charset=utf-8";
  content_length ← value_from_str (pretty (str_len body));
  let headers :=
    headers_insert (name_from_static "content-length") content_length
      (headers_insert (name_from_static "content-type") content_type headers_empty) in
  headers ← match backend_name with
            | Some name =>
                name ← value_from_str name;
                Some (headers_insert (name_from_static "x-benchmark-backend") name headers)
            | None => Some headers
            end;
  Some {| resp_status := status; resp_version := "HTTP/1.1"; resp_headers := headers;
          resp_body := body |}.

(** The body of a request is the outcome of collecting it: its bytes, or [None] for an error. *)
Definition read_request_body_size (request : Request (option string)) : N :=
  match req_body request with Some collected => str_len collected | None => 0 end.

(** [request_count.fetch_add(1, Relaxed)] *)
Definition fetch_add_count : stateM N N := λ count, (count, u64_add count 1).

(** The state is [request_count]; the result is the time slept and the response. *)
Definition handle_request (config : BackendConfig) (request : Request (option string))
    : stateM N (Duration * option (Response string)) :=
  if decide (uri_path (req_uri request) = "/health") then
    mret (0%N, text_response (bc_health_status config) ("ok" +:+ newline) (Some (bc_name config)))
  else
    let method := req_method request in
    let path := uri_path (req_uri request) in
    let received_bytes := read_request_body_size request in
    count ← fetch_add_count;
    let request_number := u64_add count 1 in
    let slept := if decide (0 < bc_delay_ms config)%N then from_millis (bc_delay_ms config)
                 else 0%N in
    let status :=
      if decide (0 < bc_fail_every config ∧ request_number `mod` bc_fail_every config = 0)%N
      then bc_failure_status config else bc_status config in
    let body := build_response_body (bc_name config) method path request_number received_bytes
      (bc_response_body_bytes config) in
    mret (slept, text_response status body (Some (bc_name config))).

(** The requests in the order in which they increment the counter. *)
Definition handle_requests (config : BackendConfig) (requests : list (Request (option string)))
    : stateM N (list (Duration * option (Response string))) :=
  mapM (handle_request config) requests.

Definition is_expected_disconnect (err_text : string) : bool :=
  str_contains err_text "broken pipe" || str_contains err_text "connection reset"
  || str_contains err_text "connection closed".

(** ** The process *)

(** What happens to the process once it listens; requests are in the order in which they
    increment the counter, whatever their connection. *)
Inductive BackendEvent :=
  | AcceptFails (err : string)
  | ConnectionEnds (err : option string) (** the error of [serve_connection] *)
  | RequestArrives (request : Request (option string)).

(** The answers, the lines on stderr, and the error that ended [main]. *)
Record BackendRun := {
  br_answers : list (Duration * option (Response string));
  br_stderr : list string;
  br_error : option string;
}.

(** The [loop] of [main], which only an error of [accept] ends. *)
Fixpoint serve_loop (config : BackendConfig) (events : list BackendEvent)
    : stateM N BackendRun :=
  match events with
  | [] => mret {| br_answers := []; br_stderr := []; br_error := None |}
  | AcceptFails err :: _ =>
      mret {| br_answers := []; br_stderr := []; br_error := Some err |}
  | ConnectionEnds err :: events =>
      run ← serve_loop config events;
      let lines := match err with
                   | Some err_text =>
                       if negb (is_expected_disconnect err_text)
                       then ["benchmark backend connection error: " +:+ err_text] else []
                   | None => []
                   end in
      mret {| br_answers := br_answers run; br_stderr := lines ++ br_stderr run;
              br_error := br_error run |}
  | RequestArrives request :: events =>
      answer ← handle_request config request;
      run ← serve_loop config events;
      mret {| br_answers := answer :: br_answers run; br_stderr := br_stderr run;
              br_error := br_error run |}
  end.

(** [main]; [bind] is the result of binding the port.  The result is the line printed and
    the run, or the error before. *)
Definition backend_main (args : list string) (bind : N → result string unit)
    (events : list BackendEvent) : result string (string * BackendRun) :=
  config ← parse_args args;
  _ ← bind (bc_port config);
  Ok ("listening on http://127.0.0.1:" +:+ pretty (bc_port config) +:+ " name="
        +:+ bc_name config,
      (serve_loop config events 0%N).1).

(** * Lemmas *)

Definition arriving (e : BackendEvent) : option (Request (option string)) :=
  match e with RequestArrives request => Some request | _ => None end.

(** While [accept] works, the connections come and go without an effect on the answers. *)
Lemma serve_loop_answers config events count :
  (∀ err, AcceptFails err ∉ events) →
  br_error (serve_loop config events count).1 = None ∧
  br_answers (serve_loop config events count).1
    = (handle_requests config (omap arriving events) count).1.
Proof.
  unfold handle_requests. revert count. induction events as [|e events IH]; intros count Hok; [done|].
  assert (∀ err, AcceptFails err ∉ events) as Hok'.
  { intros err Hin. apply (Hok err). by right. }
  destruct e as [err|err|request].
  - exfalso. apply (Hok err). left.
  - apply (IH count Hok').
  - destruct (IH (handle_request config request count).2 Hok') as [He Ha]. split; [exact He|].
    exact (f_equal (cons (handle_request config request count).1) Ha).
Qed.

Lemma build_response_body_length name method path number received size :
  str_len (build_response_body name method path number received size) = size.
Proof.
  unfold build_response_body. cbv zeta. set (body := "name=" +:+ _). unfold str_len.
  case_decide as Hlen; unfold str_len in Hlen.
  - rewrite str_take_length; lia.
  - rewrite string_length_app, str_repeat_length. lia.
Qed.

(** The response carries the text and its length if the headers can be built. *)
Lemma text_response_spec `{!HeaderLaws} status body name :
  is_Some (value_from_str "text/plain; charset=utf-8") → is_Some (value_from_str name) →
  ∃ response, text_response status body (Some name) = Some response ∧
    resp_status response = status ∧ resp_body response = body.
Proof.
  intros [ct Hct] [nv Hnv]. destruct (value_from_visible _ (visible_pretty (str_len body))) as [cl Hcl].
  unfold text_response. rewrite Hct; simpl. rewrite Hcl; simpl. rewrite Hnv; simpl. eauto.
Qed.

#[export] Instance N_divide_dec (a b : N) : Decision (a | b)%N.
Proof. refine (cast_if (decide (b `mod` a = 0)%N)); by rewrite <-N.Lcm0.mod_divide. Defined.

(** The request with number [n] is one that fails. *)
Definition fails (config : BackendConfig) (n : N) : Prop :=
  (0 < bc_fail_every config)%N ∧ (bc_fail_every config | n)%N.
#[export] Instance fails_dec config n : Decision (fails config n).
Proof. unfold fails. apply _. Defined.

Definition answers (config : BackendConfig) (n : N) (answer : Duration * option (Response string))
    : Prop :=
  ∃ response, answer = (from_millis (bc_delay_ms config), Some response) ∧
    resp_status response
      = (if decide (fails config n) then bc_failure_status config else bc_status config) ∧
    str_len (resp_body response) = bc_response_body_bytes config.

Lemma handle_request_answers `{!HeaderLaws} config request count :
  is_Some (value_from_str "text/plain; charset=utf-8") →
  is_Some (value_from_str (bc_name config)) →
  uri_path (req_uri request) ≠ "/health" → (count + 1 < u64_modulus)%N →
  (handle_request config request count).2 = (count + 1)%N ∧
  answers config (count + 1) (handle_request config request count).1.
Proof.
  intros Hct Hname Hpath Hcount. unfold handle_request. rewrite decide_False by done.
  unfold fetch_add_count, mbind, stateM_bind, mret, stateM_ret; simpl.
  rewrite u64_add_small by done. split; [done|].
  match goal with |- context [text_response ?status ?body _] =>
    destruct (text_response_spec status body _ Hct Hname) as (response & Hresp & Hstatus & Hbody)
  end.
  exists response. rewrite Hresp, Hstatus, Hbody, build_response_body_length. split_and!; [|..|done].
  - f_equal. destruct (decide (0 < bc_delay_ms config)%N); [done|]. by replace (bc_delay_ms config) with 0%N by lia.
  - apply decide_ext. unfold fails. by rewrite N.Lcm0.mod_divide.
Qed.

(** From [count] requests on, the answers follow the schedule. *)
Lemma handle_requests_answers `{!HeaderLaws} config requests count i request :
  is_Some (value_from_str "text/plain; charset=utf-8") →
  is_Some (value_from_str (bc_name config)) →
  Forall (λ request, uri_path (req_uri request) ≠ "/health") requests →
  (count + N.of_nat (length requests) < u64_modulus)%N →
  requests !! i = Some request →
  ∃ answer, (handle_requests config requests count).1 !! i = Some answer ∧
    answers config (count + N.of_nat i + 1) answer.
Proof.
  intros Hct Hname Hall. revert count i. induction Hall as [|r requests Hr _ IH]; intros count i Hlen Hi;
    [done|]. cbn [length] in Hlen.
  destruct (handle_request_answers config r count Hct Hname Hr ltac:(lia)) as [Hnext Hanswer].
  unfold handle_requests in *. cbn [mapM].
  unfold mbind at 1, stateM_bind at 1. cbv zeta. unfold mbind, stateM_bind, mret, stateM_ret; cbv zeta.
  cbn [fst snd]. destruct i as [|i]; cbn [lookup list_lookup].
  - exists (handle_request config r count).1. split; [done|]. by rewrite N.add_0_r.
  - rewrite Hnext. destruct (IH (count + 1)%N i ltac:(lia) Hi) as (answer & Hlook & Hans).
    exists answer. split; [exact Hlook|].
    by replace (count + N.of_nat (S i) + 1)%N with (count + 1 + N.of_nat i + 1)%N by lia.
Qed.

End bench_backend.
