(* ===== verification/Calendar.v ===== *)
(** [src/bin/benchmark_runner.rs], the time stamps: the conversion of a Unix time to a date of
    the Gregorian calendar, with the integer casts of the source, and its correctness against
    the calendar's own rule for the next day. *)

From S2P Require Import Prelude RustStd.
From stdpp Require Import options.
Local Open Scope Z_scope.

(** * Casts *)

(** [x as i64] of a [u64], [x as i32] and [x as u32] of an [i64] *)
Definition as_i64 (x : Z) : Z := (x + 2 ^ 63) `mod` 2 ^ 64 - 2 ^ 63.
Definition as_i32 (x : Z) : Z := (x + 2 ^ 31) `mod` 2 ^ 32 - 2 ^ 31.
Definition as_u32 (x : Z) : Z := x `mod` 2 ^ 32.

(** * The code *)

Record DateParts := {
  dp_year : Z;
  dp_month : Z;
  dp_day : Z;
  dp_hour : Z;
  dp_minute : Z;
  dp_second : Z;
}.

(** [/] on [i64] truncates ([Z.quot]); all dividends below are non-negative but the one of
    [era], which is adjusted for it. *)
Definition civil_from_days (days_since_epoch : Z) : Z * Z * Z :=
  let z := days_since_epoch + 719468 in
  let era := (if bool_decide (0 ≤ z) then z else z - 146096) `quot` 146097 in
  let doe := z - era * 146097 in
  let yoe := (doe - doe `quot` 1460 + doe `quot` 36524 - doe `quot` 146096) `quot` 365 in
  let y := yoe + era * 400 in
  let doy := doe - (365 * yoe + yoe `quot` 4 - yoe `quot` 100) in
  let mp := (5 * doy + 2) `quot` 153 in
  let d := doy - (153 * mp + 2) `quot` 5 + 1 in
  let m := mp + (if bool_decide (mp < 10) then 3 else -9) in
  let year := y + (if bool_decide (m ≤ 2) then 1 else 0) in
  (as_i32 year, as_u32 m, as_u32 d).

Definition chrono_like_utc (timestamp_secs : Z) : DateParts :=
  let secs := as_i64 timestamp_secs in
  let days := secs `div` 86400 in
  let seconds_of_day := secs `mod` 86400 in
  let '(year, month, day) := civil_from_days days in
  {| dp_year := year; dp_month := month; dp_day := day;
     dp_hour := as_u32 (seconds_of_day `quot` 3600);
     dp_minute := as_u32 ((seconds_of_day `rem` 3600) `quot` 60);
     dp_second := as_u32 (seconds_of_day `rem` 60) |}.

(** [as_secs] of a [Duration] *)
Definition as_secs (d : Duration) : N := (d `div` 1000000000)%N.

(** [format!("{:0k}")] of an [i32]: the sign counts as one of the [k] characters. *)
Definition i32_pad (k : nat) (n : Z) : string :=
  if decide (0 ≤ n) then dec_pad k (Z.to_N n) else "-" +:+ dec_pad (k - 1) (Z.to_N (- n)).

(** [since_epoch] is [SystemTime::now().duration_since(UNIX_EPOCH)], which fails for a clock
    that is set before 1970. *)
Definition unix_timestamp_string (since_epoch : result string Duration) : result string string :=
  now ← since_epoch;
  let secs := as_secs now in
  let tm := chrono_like_utc (Z.of_N secs) in
  Ok (i32_pad 4 (dp_year tm) +:+ dec_pad 2 (Z.to_N (dp_month tm)) +:+
      dec_pad 2 (Z.to_N (dp_day tm)) +:+ "-" +:+ dec_pad 2 (Z.to_N (dp_hour tm)) +:+
      dec_pad 2 (Z.to_N (dp_minute tm)) +:+ dec_pad 2 (Z.to_N (dp_second tm))).

(** * The calendar *)

Definition leap (y : Z) : bool :=
  bool_decide (y `mod` 4 = 0) && (negb (bool_decide (y `mod` 100 = 0)) || bool_decide (y `mod` 400 = 0)).

Definition days_in_month (y m : Z) : Z :=
  if bool_decide (m = 2) then (if leap y then 29 else 28)
  else if bool_decide (m = 4 ∨ m = 6 ∨ m = 9 ∨ m = 11) then 30 else 31.

Definition valid_date (dt : Z * Z * Z) : Prop :=
  let '(y, m, d) := dt in 1 ≤ m ≤ 12 ∧ 1 ≤ d ≤ days_in_month y m.

Definition next_date (dt : Z * Z * Z) : Z * Z * Z :=
  let '(y, m, d) := dt in
  if bool_decide (d < days_in_month y m) then (y, m, d + 1)
  else if bool_decide (m < 12) then (y, m + 1, 1) else (y + 1, 1, 1).

(** The day number of a date, in years that begin in March. *)
Definition march_year (y m : Z) : Z := if bool_decide (m ≤ 2) then y - 1 else y.
Definition march_month (m : Z) : Z := if bool_decide (m ≤ 2) then m + 9 else m - 3.
Definition days_before_year (y : Z) : Z := 365 * y + y `div` 4 - y `div` 100 + y `div` 400.
Definition days_before_month (mp : Z) : Z := (153 * mp + 2) `div` 5.
Definition days_from_civil (dt : Z * Z * Z) : Z :=
  let '(y, m, d) := dt in
  days_before_year (march_year y m) + days_before_month (march_month m) + (d - 1) - 719468.

(** * Lemmas *)

(** The days of the months from March on, in the closed form. *)
Lemma month_days y m :
  1 ≤ m ≤ 12 → m ≠ 2 →
  days_before_month (march_month m + 1) - days_before_month (march_month m) = days_in_month y m.
Proof.
  intros Hm Hne. unfold days_in_month. rewrite bool_decide_eq_false_2 by lia.
  assert (m ∈ [1; 3; 4; 5; 6; 7; 8; 9; 10; 11; 12]) as Hin
    by (rewrite !elem_of_cons; lia).
  rewrite !elem_of_cons in Hin.
  repeat destruct Hin as [->|Hin]; try done. by apply not_elem_of_nil in Hin.
Qed.

Lemma div_succ y k :
  0 < k → (y + 1) `div` k = y `div` k + (if bool_decide ((y + 1) `mod` k = 0) then 1 else 0).
Proof.
  intros Hk. pose proof (Z.div_mod y k ltac:(lia)) as Hy. pose proof (Z.mod_pos_bound y k Hk).
  set (q := y `div` k) in *. set (r := y `mod` k) in *.
  destruct (decide (r = k - 1)) as [Hr|Hr].
  - assert (y + 1 = (q + 1) * k) as -> by lia.
    rewrite Z.div_mul, Z.mod_mul by lia. by rewrite bool_decide_eq_true_2.
  - rewrite <-(Z.div_unique (y + 1) k q (r + 1)), <-(Z.mod_unique (y + 1) k q (r + 1)) by lia.
    rewrite bool_decide_eq_false_2; lia.
Qed.

Lemma year_days y :
  days_before_year (y + 1) - days_before_year y = if leap (y + 1) then 366 else 365.
Proof.
  unfold days_before_year, leap.
  rewrite !(div_succ y) by done.
  assert ((y + 1) `mod` 400 = 0 → (y + 1) `mod` 100 = 0) as H400
    by (rewrite !Z.mod_divide by done; intros; by apply (Z.divide_trans _ 400); [exists 4|]).
  assert ((y + 1) `mod` 100 = 0 → (y + 1) `mod` 4 = 0) as H100
    by (rewrite !Z.mod_divide by done; intros; by apply (Z.divide_trans _ 100); [exists 25|]).
  repeat case_bool_decide; simpl; lia.
Qed.

(** The day number of the next day is one more. *)
Lemma next_date_days dt : valid_date dt → days_from_civil (next_date dt) = days_from_civil dt + 1.
Proof.
  destruct dt as [[y m] d]. intros [Hm Hd]. unfold next_date.
  case_bool_decide; [unfold days_from_civil; lia|].
  assert (d = days_in_month y m) as -> by lia.
  destruct (decide (m = 2)) as [->|Hne].
  - pose proof (year_days (y - 1)) as Hyear. replace (y - 1 + 1) with y in Hyear by lia.
    rewrite bool_decide_eq_true_2 by done.
    change (days_from_civil (y, 2 + 1, 1)) with (days_before_year y + 0 + (1 - 1) - 719468).
    change (days_from_civil (y, 2, days_in_month y 2)) with
      (days_before_year (y - 1) + 337 + ((if leap y then 29 else 28) - 1) - 719468).
    destruct (leap y); lia.
  - pose proof (month_days y m Hm Hne) as Hmonth. unfold days_from_civil.
    destruct (decide (m = 12)) as [->|].
    + rewrite bool_decide_eq_false_2 by done.
      change (march_year (y + 1) 1) with (y + 1 - 1). change (march_year y 12) with y.
      replace (y + 1 - 1) with y by lia.
      change (march_month 12 + 1) with (march_month 1) in Hmonth. lia.
    + rewrite bool_decide_eq_true_2 by lia.
      assert (march_year y (m + 1) = march_year y m ∧ march_month (m + 1) = march_month m + 1)
        as [-> ->]; [|lia].
      unfold march_year, march_month. repeat case_bool_decide; lia.
Qed.

Lemma next_date_valid dt : valid_date dt → valid_date (next_date dt).
Proof.
  destruct dt as [[y m] d]. intros [Hm Hd]. unfold next_date.
  assert (∀ y m, 1 ≤ days_in_month y m) as Hpos
    by (intros; unfold days_in_month; repeat case_match; lia).
  repeat case_bool_decide; simpl; [lia|split; [lia|]..]; split; auto with lia.
Qed.

(** ** Injectivity of the day number *)

Lemma days_before_year_le y y' : y ≤ y' → days_before_year y ≤ days_before_year y'.
Proof.
  intros Hle. replace y' with (y + Z.of_nat (Z.to_nat (y' - y))) by lia.
  induction (Z.to_nat (y' - y)) as [|n IH]; [rewrite Z.add_0_r; lia|].
  etrans; [exact IH|]. rewrite Nat2Z.inj_succ.
  replace (y + Z.succ (Z.of_nat n)) with (y + Z.of_nat n + 1) by lia.
  pose proof (year_days (y + Z.of_nat n)). destruct (leap _); lia.
Qed.

(** The offset of a date in its March year. *)
Definition day_of_year (m d : Z) : Z := days_before_month (march_month m) + (d - 1).

Lemma month_cases m : 1 ≤ m ≤ 12 → m ∈ [1; 2; 3; 4; 5; 6; 7; 8; 9; 10; 11; 12].
Proof. rewrite !elem_of_cons. lia. Qed.

Lemma day_of_year_bounds y m d :
  valid_date (y, m, d) →
  0 ≤ day_of_year m d < days_before_year (march_year y m + 1) - days_before_year (march_year y m).
Proof.
  intros [Hm Hd]. rewrite year_days. unfold day_of_year.
  pose proof (month_cases m Hm) as Hin. rewrite !elem_of_cons in Hin.
  assert (march_year y 2 + 1 = y) as Hfeb by (unfold march_year; simpl; lia).
  repeat destruct Hin as [->|Hin]; [..|by apply not_elem_of_nil in Hin].
  all: try (change (days_in_month y 2) with (if leap y then 29 else 28) in Hd;
            rewrite Hfeb; vm_compute (days_before_month _); destruct (leap y); lia).
  all: match type of Hd with _ ≤ _ ≤ ?n => let n' := eval vm_compute in n in change n with n' in Hd end.
  all: vm_compute (days_before_month _); destruct (leap _); lia.
Qed.

(** ** The year of a day *)

Definition shifted_days (doe : Z) : Z :=
  doe - doe `div` 1460 + doe `div` 36524 - doe `div` 146096.
Definition year_of_era (doe : Z) : Z := shifted_days doe `div` 365.

Lemma shifted_days_step d : shifted_days d ≤ shifted_days (d + 1).
Proof.
  unfold shifted_days. rewrite !(div_succ d) by done.
  assert ((d + 1) `mod` 146096 = 0 → (d + 1) `mod` 36524 = 0) as Hdiv
    by (rewrite !Z.mod_divide by done; intros; by apply (Z.divide_trans _ 146096); [exists 4|]).
  repeat case_bool_decide; lia.
Qed.

Lemma shifted_days_mono d d' : d ≤ d' → shifted_days d ≤ shifted_days d'.
Proof.
  intros Hle. replace d' with (d + Z.of_nat (Z.to_nat (d' - d))) by lia.
  induction (Z.to_nat (d' - d)) as [|n IH]; [rewrite Z.add_0_r; lia|].
  etrans; [exact IH|]. rewrite Nat2Z.inj_succ.
  replace (d + Z.succ (Z.of_nat n)) with (d + Z.of_nat n + 1) by lia. apply shifted_days_step.
Qed.

Lemma year_of_era_mono d d' : d ≤ d' → year_of_era d ≤ year_of_era d'.
Proof. intros Hle. apply Z.div_le_mono; [done|]. by apply shifted_days_mono. Qed.

(** On the first and the last day of each of the 400 years the formula gives the year. *)
Lemma year_of_era_ends k :
  0 ≤ k < 400 →
  year_of_era (days_before_year k) = k ∧ year_of_era (days_before_year (k + 1) - 1) = k.
Proof.
  intros Hk.
  assert (forallb (λ n : nat, let k := Z.of_nat n in
    (year_of_era (days_before_year k) =? k) && (year_of_era (days_before_year (k + 1) - 1) =? k))
    (seq 0 400) = true) as Hall by by vm_compute.
  rewrite forallb_forall in Hall. specialize (Hall (Z.to_nat k)).
  rewrite Z2Nat.id in Hall by lia.
  assert (In (Z.to_nat k) (seq 0 400)) as Hin by (apply in_seq; lia).
  apply Hall, andb_true_iff in Hin as [H1 H2]. split; by apply Z.eqb_eq.
Qed.

Lemma year_of_era_correct k doy :
  0 ≤ k < 400 → 0 ≤ doy < days_before_year (k + 1) - days_before_year k →
  year_of_era (days_before_year k + doy) = k.
Proof.
  intros Hk Hdoy. destruct (year_of_era_ends k Hk) as [Hfirst Hlast].
  apply Z.le_antisymm; [rewrite <-Hlast at 2|rewrite <-Hfirst at 1]; apply year_of_era_mono; lia.
Qed.

Lemma days_before_year_era e k :
  days_before_year (400 * e + k) = 146097 * e + days_before_year k.
Proof.
  unfold days_before_year.
  replace (400 * e + k) with (k + (100 * e) * 4) at 2 by lia.
  replace (400 * e + k) with (k + (4 * e) * 100) at 2 by lia.
  replace (400 * e + k) with (k + e * 400) at 2 by lia.
  rewrite !Z.div_add by done. lia.
Qed.

(** The era of the source: division rounding down. *)
Lemma era_div z : (if bool_decide (0 ≤ z) then z else z - 146096) `quot` 146097 = z `div` 146097.
Proof.
  case_bool_decide; [by apply Z.quot_div_nonneg|].
  replace (z - 146096) with (- (146096 - z)) by lia.
  rewrite Z.quot_opp_l, Z.quot_div_nonneg by lia.
  pose proof (Z.div_mod z 146097 ltac:(lia)) as Hz.
  pose proof (Z.mod_pos_bound z 146097 eq_refl).
  rewrite <-(Z.div_unique (146096 - z) 146097 (- (z `div` 146097)) (146096 - z `mod` 146097)); lia.
Qed.

(** ** The month of a day *)

Lemma month_of_day y m d :
  valid_date (y, m, d) → (5 * day_of_year m d + 2) `div` 153 = march_month m.
Proof.
  intros [Hm Hd]. pose proof (month_cases m Hm) as Hin. rewrite !elem_of_cons in Hin.
  assert (d ≤ 31) by (unfold days_in_month in Hd; repeat case_match; lia).
  assert (d ∈ seqZ 1 31) as Hdin by (apply elem_of_seqZ; lia).
  assert (m = 2 → d ≤ 29) by (intros ->; unfold days_in_month in Hd; simpl in Hd; case_match; lia).
  assert (m = 4 ∨ m = 6 ∨ m = 9 ∨ m = 11 → d ≤ 30)
    by (intros Hc; unfold days_in_month in Hd; repeat case_bool_decide; try lia; case_match; lia).
  unfold day_of_year. symmetry. apply (Z.div_unique _ _ _
    (5 * (days_before_month (march_month m) + (d - 1)) + 2 - 153 * march_month m)); [|lia].
  repeat destruct Hin as [->|Hin]; [..|by apply not_elem_of_nil in Hin];
    vm_compute (days_before_month _); vm_compute (march_month _); lia.
Qed.

(** ** The date of a day *)

Lemma as_i32_small x : - 2 ^ 31 ≤ x < 2 ^ 31 → as_i32 x = x.
Proof. intros. unfold as_i32. rewrite Z.mod_small; lia. Qed.
Lemma as_u32_small x : 0 ≤ x < 2 ^ 32 → as_u32 x = x.
Proof. intros. unfold as_u32. by rewrite Z.mod_small. Qed.
Lemma as_i64_small x : - 2 ^ 63 ≤ x < 2 ^ 63 → as_i64 x = x.
Proof. intros. unfold as_i64. rewrite Z.mod_small; lia. Qed.

Lemma march_back m :
  1 ≤ m ≤ 12 → march_month m + (if bool_decide (march_month m < 10) then 3 else -9) = m.
Proof. intros. unfold march_month. repeat case_bool_decide; lia. Qed.

Lemma civil_from_days_date y m d :
  valid_date (y, m, d) → - 2 ^ 31 ≤ y < 2 ^ 31 →
  civil_from_days (days_from_civil (y, m, d)) = (y, m, d).
Proof.
  intros Hdate Hy. pose proof Hdate as [Hm Hd].
  pose proof (day_of_year_bounds y m d Hdate) as Hdoy.
  pose proof (month_of_day y m d Hdate) as Hmonth.
  assert (days_in_month y m ≤ 31) by (unfold days_in_month; repeat case_match; lia).
  unfold civil_from_days, days_from_civil.
  replace (days_before_year (march_year y m) + days_before_month (march_month m) + (d - 1)
    - 719468 + 719468) with (days_before_year (march_year y m) + day_of_year m d)
    by (unfold day_of_year; lia).
  set (Y := march_year y m) in *. set (doy := day_of_year m d) in *.
  pose proof (Z.div_mod Y 400 ltac:(lia)) as HY. pose proof (Z.mod_pos_bound Y 400 eq_refl) as Hk.
  set (e := Y `div` 400) in *. set (k := Y `mod` 400) in *.
  assert (days_before_year Y = 146097 * e + days_before_year k) as HdY
    by (rewrite HY; apply days_before_year_era).
  assert (days_before_year (Y + 1) = 146097 * e + days_before_year (k + 1)) as HdY1
    by (rewrite HY, <-Z.add_assoc; apply days_before_year_era).
  pose proof (days_before_year_le 0 k ltac:(lia)) as Hk0.
  pose proof (days_before_year_le (k + 1) 400 ltac:(lia)) as Hk400.
  change (days_before_year 0) with 0 in Hk0. change (days_before_year 400) with 146097 in Hk400.
  rewrite era_div, HdY.
  assert ((146097 * e + days_before_year k + doy) `div` 146097 = e) as ->
    by (symmetry; apply (Z.div_unique _ _ _ (days_before_year k + doy)); lia).
  replace (146097 * e + days_before_year k + doy - e * 146097)
    with (days_before_year k + doy) by lia.
  set (D := days_before_year k + doy).
  assert (0 ≤ D) by (subst D; lia).
  pose proof (shifted_days_mono 0 D ltac:(lia)) as Hs. change (shifted_days 0) with 0 in Hs.
  rewrite (Z.quot_div_nonneg D 1460), (Z.quot_div_nonneg D 36524), (Z.quot_div_nonneg D 146096)
    by lia.
  fold (shifted_days D). rewrite (Z.quot_div_nonneg (shifted_days D) 365) by lia.
  pose proof (year_of_era_correct k doy Hk ltac:(lia)) as Hyear.
  unfold year_of_era in Hyear. fold D in Hyear. rewrite Hyear.
  rewrite (Z.quot_div_nonneg k 4), (Z.quot_div_nonneg k 100) by lia.
  assert (D - (365 * k + k `div` 4 - k `div` 100) = doy) as ->
    by (subst D; unfold days_before_year; rewrite (Z.div_small k 400) by lia; lia).
  rewrite (Z.quot_div_nonneg (5 * doy + 2) 153) by lia. fold doy in Hmonth. rewrite Hmonth.
  assert (0 ≤ march_month m) by (unfold march_month; case_bool_decide; lia).
  rewrite (Z.quot_div_nonneg (153 * march_month m + 2) 5) by lia.
  rewrite march_back by done.
  assert (k + e * 400 + (if bool_decide (m ≤ 2) then 1 else 0) = y) as ->
    by (replace (k + e * 400) with Y by lia; subst Y; unfold march_year; case_bool_decide; lia).
  fold (days_before_month (march_month m)).
  assert (doy - days_before_month (march_month m) + 1 = d) as ->
    by (subst doy; unfold day_of_year; lia).
  rewrite as_i32_small, !as_u32_small by lia. done.
Qed.

(** ** Counting days *)

(** The date [n] days after the epoch. *)
Definition date_after (n : nat) : Z * Z * Z := Nat.iter n next_date (1970, 1, 1).

Lemma date_after_valid n : valid_date (date_after n).
Proof.
  induction n as [|n IH]; [|by apply next_date_valid].
  split; [lia|]. change (1 ≤ 1 ≤ 31). lia.
Qed.

Lemma date_after_days n : days_from_civil (date_after n) = Z.of_nat n.
Proof.
  induction n as [|n IH]; [done|]. change (date_after (S n)) with (next_date (date_after n)).
  rewrite next_date_days, IH by apply date_after_valid. lia.
Qed.

Lemma next_date_year y m d : y ≤ (next_date (y, m, d)).1.1 ≤ y + 1.
Proof. unfold next_date. repeat case_bool_decide; simpl; lia. Qed.

Lemma date_after_year n : 1970 ≤ (date_after n).1.1 ≤ 1970 + Z.of_nat n.
Proof.
  induction n as [|n IH]; [simpl; lia|]. change (date_after (S n)) with (next_date (date_after n)).
  destruct (date_after n) as [[y m] d]. pose proof (next_date_year y m d). simpl in IH. lia.
Qed.

Lemma civil_from_days_after n :
  Z.of_nat n < 2 ^ 31 - 1970 → civil_from_days (Z.of_nat n) = date_after n.
Proof.
  intros Hn. rewrite <-(date_after_days n).
  pose proof (date_after_valid n) as Hvalid. pose proof (date_after_year n) as Hyear.
  destruct (date_after n) as [[y m] d]. simpl in Hyear.
  apply civil_from_days_date; [done|lia].
Qed.

(** A time stamp and its parts determine each other: the date is a date of the calendar,
    hour, minute and second are in range, and the parts add up to the time stamp. *)
Lemma chrono_like_utc_recovers_timestamp ts :
  0 ≤ ts < 86400 * (2 ^ 31 - 1970) →
  let p := chrono_like_utc ts in
  let date := (dp_year p, dp_month p, dp_day p) in
  valid_date date ∧ 0 ≤ dp_hour p < 24 ∧ 0 ≤ dp_minute p < 60 ∧ 0 ≤ dp_second p < 60 ∧
  ts = 86400 * days_from_civil date + 3600 * dp_hour p + 60 * dp_minute p + dp_second p.
Proof.
  intros Hts. unfold chrono_like_utc. rewrite as_i64_small by lia.
  pose proof (Z.div_mod ts 86400 ltac:(lia)) as Hdiv.
  pose proof (Z.mod_pos_bound ts 86400 eq_refl) as Hmod.
  set (q := ts `div` 86400) in *. set (r := ts `mod` 86400) in *.
  assert (civil_from_days q = date_after (Z.to_nat q)) as ->
    by (rewrite <-(civil_from_days_after (Z.to_nat q)), Z2Nat.id by lia; done).
  pose proof (date_after_valid (Z.to_nat q)) as Hvalid.
  pose proof (date_after_days (Z.to_nat q)) as Hdays. rewrite Z2Nat.id in Hdays by lia.
  destruct (date_after (Z.to_nat q)) as [[y m] d]. cbn -[days_from_civil Z.mul].
  rewrite Hdays. rewrite (Z.quot_div_nonneg r 3600), !Z.rem_mod_nonneg by lia.
  pose proof (Z.div_mod r 3600 ltac:(lia)) as Hh.
  pose proof (Z.mod_pos_bound r 3600 eq_refl) as Hh'.
  set (h := r `div` 3600) in *. set (s := r `mod` 3600) in *.
  assert (r `mod` 60 = s `mod` 60) as ->
    by (rewrite Hh, Z.add_comm; replace (3600 * h) with ((60 * h) * 60) by lia; apply Z.mod_add; done).
  rewrite Z.quot_div_nonneg by lia.
  pose proof (Z.div_mod s 60 ltac:(lia)) as Hm.
  pose proof (Z.mod_pos_bound s 60 eq_refl) as Hm'.
  set (mi := s `div` 60) in *. set (se := s `mod` 60) in *.
  rewrite (as_u32_small h), (as_u32_small mi), (as_u32_small se) by lia.
  split; [done|]. lia.
Qed.

Lemma chrono_like_utc_year ts :
  0 ≤ ts < 86400 * (2 ^ 31 - 1970) → 1970 ≤ dp_year (chrono_like_utc ts).
Proof.
  intros Hts. unfold chrono_like_utc. rewrite as_i64_small by lia.
  pose proof (Z.div_pos ts 86400 ltac:(lia) ltac:(done)).
  pose proof (Z.div_lt_upper_bound ts 86400 (2 ^ 31 - 1970) ltac:(done) ltac:(lia)).
  rewrite <-(Z2Nat.id (ts `div` 86400)), civil_from_days_after by lia.
  pose proof (date_after_year (Z.to_nat (ts `div` 86400))).
  destruct (date_after _) as [[y m] d]. simpl in *. lia.
Qed.

(** ** Directory names *)

Lemma year_before_10000 y m d :
  valid_date (y, m, d) → days_from_civil (y, m, d) < 2932897 → y < 10000.
Proof.
  intros [Hm Hd] Hdays. unfold days_from_civil, march_year, march_month in Hdays.
  destruct (decide (y < 10000)) as [|Hy]; [done|]. exfalso. case_bool_decide.
  - pose proof (days_before_year_le 9999 (y - 1) ltac:(lia)) as Hle.
    change (days_before_year 9999) with 3652059 in Hle.
    assert (306 ≤ days_before_month (m + 9)); [|lia].
    change 306 with (days_before_month 10). unfold days_before_month.
    apply Z.div_le_mono; lia.
  - pose proof (days_before_year_le 10000 y ltac:(lia)) as Hle.
    change (days_before_year 10000) with 3652425 in Hle.
    assert (0 ≤ days_before_month (m - 3)); [|lia].
    unfold days_before_month. apply Z.div_pos; lia.
Qed.

(** The name of a time before the year 10000, in terms of numbers of fixed width. *)
Lemma dec_pad_app_inj k m n s t :
  k ≠ O → 0 ≤ m < 10 ^ Z.of_nat k → 0 ≤ n < 10 ^ Z.of_nat k →
  dec_pad k (Z.to_N m) +:+ s = dec_pad k (Z.to_N n) +:+ t → m = n ∧ s = t.
Proof.
  intros Hk Hm Hn Heq.
  assert (∀ x, 0 ≤ x < 10 ^ Z.of_nat k → (Z.to_N x < 10 ^ N.of_nat k)%N) as Hw.
  { intros x Hx. apply N2Z.inj_lt. rewrite Z2N.id, N2Z.inj_pow, nat_N_Z by lia. apply Hx. }
  apply append_inj_length in Heq as [Heq ->]; [|rewrite !dec_pad_length; auto].
  apply dec_pad_inj in Heq. split; [lia|done].
Qed.

Lemma timestamp_parts now name :
  (now < 253402300800 * 1000000000)%N → unix_timestamp_string (Ok now) = Ok name →
  ∃ y m d h mi s, 0 ≤ y < 10 ^ 4 ∧ 0 ≤ m < 10 ^ 2 ∧ 0 ≤ d < 10 ^ 2 ∧ 0 ≤ h < 10 ^ 2 ∧
    0 ≤ mi < 10 ^ 2 ∧ 0 ≤ s < 10 ^ 2 ∧
    name = dec_pad 4 (Z.to_N y) +:+ dec_pad 2 (Z.to_N m) +:+ dec_pad 2 (Z.to_N d) +:+ "-" +:+
      dec_pad 2 (Z.to_N h) +:+ dec_pad 2 (Z.to_N mi) +:+ dec_pad 2 (Z.to_N s) ∧
    Z.of_N (as_secs now) = 86400 * days_from_civil (y, m, d) + 3600 * h + 60 * mi + s.
Proof.
  intros Hnow. unfold unix_timestamp_string. cbn [mbind result_bind]. cbv zeta.
  assert (as_secs now < 253402300800)%N as Hsecs
    by (unfold as_secs; apply N.Div0.div_lt_upper_bound; lia).
  destruct (chrono_like_utc_recovers_timestamp (Z.of_N (as_secs now)) ltac:(lia))
    as (Hvalid & Hh & Hmi & Hs & Hsum).
  pose proof (chrono_like_utc_year (Z.of_N (as_secs now)) ltac:(lia)) as Hy.
  destruct (chrono_like_utc _) as [y m d h mi s].
  cbn [dp_year dp_month dp_day dp_hour dp_minute dp_second] in *.
  pose proof Hvalid as [Hm Hd].
  assert (days_in_month y m ≤ 31) by (unfold days_in_month; repeat case_match; lia).
  pose proof (year_before_10000 y m d Hvalid ltac:(lia)).
  unfold i32_pad. rewrite decide_True by lia. intros [= <-].
  exists y, m, d, h, mi, s. split_and!; try done; try lia.
Qed.

(** * Correctness *)

(** C40: the date computed for a day is the date reached by stepping through the Gregorian
    calendar day by day from 1 January 1970, for every day up to the year the [i32] holds. *)
Theorem civil_from_days_follows_calendar n :
  Z.of_nat n < 2 ^ 31 - 1970 → civil_from_days (Z.of_nat n) = date_after n.
Proof.
  apply civil_from_days_after.
Qed.

(** 29 February 1972 is day 789. *)
Lemma civil_from_days_follows_calendar_witness :
  civil_from_days (Z.of_nat 789) = date_after 789 ∧ date_after 789 = (1972, 2, 29).
Proof.
  split; [|by vm_compute].
  apply civil_from_days_follows_calendar. vm_compute. done.
Defined.

(** Two runs of the benchmark that start in different seconds, before the year 10000,
    have result directories of different names. *)
Theorem results_directories_distinct now now' name :
  (now < 253402300800 * 1000000000)%N → (now' < 253402300800 * 1000000000)%N →
  unix_timestamp_string (Ok now) = Ok name → unix_timestamp_string (Ok now') = Ok name →
  as_secs now = as_secs now'.
Proof.
  intros Hn Hn' Hname Hname'.
  destruct (timestamp_parts _ _ Hn Hname) as (y & m & d & h & mi & s & Hy & Hm & Hd & Hh & Hmi & Hs & -> & Hsum).
  destruct (timestamp_parts _ _ Hn' Hname')
    as (y' & m' & d' & h' & mi' & s' & Hy' & Hm' & Hd' & Hh' & Hmi' & Hs' & Heq & Hsum').
  apply dec_pad_app_inj in Heq as [-> Heq]; [|done..].
  apply dec_pad_app_inj in Heq as [-> Heq]; [|done..].
  apply dec_pad_app_inj in Heq as [-> Heq]; [|done..].
  rewrite !append_cons, !append_nil_l in Heq. injection Heq as Heq.
  apply dec_pad_app_inj in Heq as [-> Heq]; [|done..].
  apply dec_pad_app_inj in Heq as [-> Heq]; [|done..].
  apply dec_pad_inj in Heq. lia.
Qed.

(** Two moments of 29 February 2024, 12:34:56. *)
Lemma results_directories_distinct_witness :
  as_secs 1709210096100000000 = as_secs 1709210096900000000.
Proof.
  apply (results_directories_distinct _ _ "20240229-123456"); [done|done|by vm_compute..].
Defined.
