(* ===== verification/BenchRunner.v ===== *)
(** [src/bin/benchmark_runner.rs]: the scenarios and backends of the benchmarks, the command
    line, and the arguments of the commands the runner starts.  [BenchProcess] has the run
    itself, [Calendar] its time stamps. *)

From Stdlib Require Import Ascii.
From S2P Require Import Prelude RustStd Externals BenchBackend.
From stdpp Require Import options.

(** * Data *)

Record BackendSpec := {
  bs_name : string;
  bs_response_body_bytes : N;
  bs_status : N;
  bs_failure_status : N;
  bs_fail_every : N;
  bs_delay_ms : N;
}.

Record Scenario := {
  sc_name : string;
  sc_path : string;
  sc_description : string;
  sc_connections : N;
  sc_threads : N;
  sc_lua_script : option string;
}.

Definition SCENARIOS : list Scenario := [
  {| sc_name := "healthy_get"; sc_path := "/api/users";
     sc_description := "Small response, healthy round-robin fast path.";
     sc_connections := 128; sc_threads := 4; sc_lua_script := None |};
  {| sc_name := "large_response"; sc_path := "/large/blob";
     sc_description := "Large streamed response to surface response-body overhead.";
     sc_connections := 64; sc_threads := 4; sc_lua_script := None |};
  {| sc_name := "retry_get"; sc_path := "/retry/items";
     sc_description := "One failing backend plus one healthy backend to exercise retry cost.";
     sc_connections := 64; sc_threads := 4; sc_lua_script := None |};
  {| sc_name := "upload_post"; sc_path := "/upload/object";
     sc_description := "64 KiB POST body to measure request buffering and forwarding.";
     sc_connections := 48; sc_threads := 4; sc_lua_script := Some "post_upload.lua" |}
].

Definition BACKEND_SPECS : list (string * BackendSpec) := [
  ("healthy_a",
   {| bs_name := "healthy-a"; bs_response_body_bytes := 1024; bs_status := 200;
      bs_failure_status := 503; bs_fail_every := 0; bs_delay_ms := 0 |});
  ("healthy_b",
   {| bs_name := "healthy-b"; bs_response_body_bytes := 1024; bs_status := 200;
      bs_failure_status := 503; bs_fail_every := 0; bs_delay_ms := 0 |});
  ("large_a",
   {| bs_name := "large-a"; bs_response_body_bytes := 256 * 1024; bs_status := 200;
      bs_failure_status := 503; bs_fail_every := 0; bs_delay_ms := 0 |});
  ("retry_bad",
   {| bs_name := "retry-bad"; bs_response_body_bytes := 128; bs_status := 200;
      bs_failure_status := 503; bs_fail_every := 1; bs_delay_ms := 0 |});
  ("retry_good",
   {| bs_name := "retry-good"; bs_response_body_bytes := 128; bs_status := 200;
      bs_failure_status := 503; bs_fail_every := 0; bs_delay_ms := 0 |});
  ("upload_a",
   {| bs_name := "upload-a"; bs_response_body_bytes := 64; bs_status := 200;
      bs_failure_status := 503; bs_fail_every := 0; bs_delay_ms := 0 |})
].

Record Cli := {
  cli_duration : string;
  cli_warmup : string;
  cli_timeout : string;
  cli_results_dir : string;
  cli_scenarios : list Scenario;
  cli_skip_build : bool;
  cli_wrk_bin : string;
}.

(** * The command line *)

Definition usage : string :=
  "usage: cargo run --release --bin benchmark_runner -- [--duration 15s] [--warmup 5s] [--timeout 5s] [--results-dir benchmark-results] [--scenarios all|healthy_get,retry_get] [--skip-build] [--wrk-bin /path/to/wrk]".

(** The same function as [parse_value] of the backend; all flags of the runner are strings. *)
Definition parse_arg_value (value : option string) (flag : string) : result string string :=
  parse_value string_from_str value flag.

Definition find_scenario (name : string) : option Scenario :=
  snd <$> list_find (λ scenario, sc_name scenario = name) SCENARIOS.

(** The loop over the names. *)
Fixpoint select_names (names : list string) (selected : list Scenario)
    : result string (list Scenario) :=
  match names with
  | [] => Ok selected
  | name :: names =>
      match find_scenario name with
      | Some scenario => select_names names (selected ++ [scenario])
      | None => Err ("unknown scenario: " +:+ name)
      end
  end.

Definition select_scenarios (selection : string) : result string (list Scenario) :=
  if decide (selection = "all") then Ok SCENARIOS
  else
    let names := filter (λ s, s ≠ "") (trim <$> split_char ","%char selection) in
    selected ← select_names names [];
    if decide (selected = []) then Err "no scenarios selected" else Ok selected.

Fixpoint parse_loop (args : list string) (duration warmup timeout results_dir scenario_arg : string)
    (skip_build : bool) (wrk_bin : string) : result string Cli :=
  match args with
  | [] =>
      scenarios ← select_scenarios scenario_arg;
      Ok {| cli_duration := duration; cli_warmup := warmup; cli_timeout := timeout;
            cli_results_dir := results_dir; cli_scenarios := scenarios;
            cli_skip_build := skip_build; cli_wrk_bin := wrk_bin |}
  | arg :: args =>
      let value := next_value args in
      let rest := skip_value args in
      if decide (arg = "--duration") then
        duration ← parse_arg_value value "--duration";
        parse_loop rest duration warmup timeout results_dir scenario_arg skip_build wrk_bin
      else if decide (arg = "--warmup") then
        warmup ← parse_arg_value value "--warmup";
        parse_loop rest duration warmup timeout results_dir scenario_arg skip_build wrk_bin
      else if decide (arg = "--timeout") then
        timeout ← parse_arg_value value "--timeout";
        parse_loop rest duration warmup timeout results_dir scenario_arg skip_build wrk_bin
      else if decide (arg = "--results-dir") then
        results_dir ← parse_arg_value value "--results-dir";
        parse_loop rest duration warmup timeout results_dir scenario_arg skip_build wrk_bin
      else if decide (arg = "--scenarios") then
        scenario_arg ← parse_arg_value value "--scenarios";
        parse_loop rest duration warmup timeout results_dir scenario_arg skip_build wrk_bin
      else if decide (arg = "--skip-build") then
        parse_loop args duration warmup timeout results_dir scenario_arg true wrk_bin
      else if decide (arg = "--wrk-bin") then
        wrk_bin ← parse_arg_value value "--wrk-bin";
        parse_loop rest duration warmup timeout results_dir scenario_arg skip_build wrk_bin
      else if decide (arg = "--help" ∨ arg = "-h") then Err usage
      else Err ("unknown argument: " +:+ arg +:+ newline +:+ newline +:+ usage)
  end.

(** [args] is [std::env::args().skip(1)]. *)
Definition parse_args (args : list string) : result string Cli :=
  parse_loop args "15s" "5s" "5s" "benchmark-results" "all" false "wrk".

(** * Commands *)

(** The arguments [spawn_backend] starts a backend with. *)
Definition spawn_backend_args (spec : BackendSpec) (port : N) : list string :=
  ["--port"; pretty port; "--name"; bs_name spec; "--status"; pretty (bs_status spec);
   "--failure-status"; pretty (bs_failure_status spec);
   "--fail-every"; pretty (bs_fail_every spec); "--delay-ms"; pretty (bs_delay_ms spec);
   "--response-body-bytes"; pretty (bs_response_body_bytes spec)].

(** The arguments [run_wrk] starts [wrk] with; [script_path] is [runtime_dir.join(_)]. *)
Definition run_wrk_args (scenario : Scenario) (script_path : string → string) (proxy_port : N)
    (duration timeout : string) : list string :=
  ["-t" +:+ pretty (sc_threads scenario); "-c" +:+ pretty (sc_connections scenario);
   "-d" +:+ duration; "--timeout"; timeout; "--latency"]
  ++ match sc_lua_script scenario with Some script => ["-s"; script_path script] | None => [] end
  ++ ["http://127.0.0.1:" +:+ pretty proxy_port +:+ sc_path scenario].

(** The configuration of the backend that a specification describes. *)
Definition config_of_spec (spec : BackendSpec) (port : N) : BackendConfig := {|
  bc_name := bs_name spec; bc_port := port; bc_status := bs_status spec;
  bc_failure_status := bs_failure_status spec; bc_fail_every := bs_fail_every spec;
  bc_delay_ms := bs_delay_ms spec; bc_response_body_bytes := bs_response_body_bytes spec;
  bc_health_status := 200;
|}.

(** The widths of the fields of a [BackendSpec], and its status codes. *)
Definition valid_spec (spec : BackendSpec) : bool :=
  bool_decide (100 ≤ bs_status spec < 1000 ∧ 100 ≤ bs_failure_status spec < 1000 ∧
    bs_fail_every spec < u64_modulus ∧ bs_delay_ms spec < u64_modulus ∧
    bs_response_body_bytes spec < u64_modulus)%N.

(** * Lemmas *)

Lemma parse_value_pretty modulus n flag :
  (n < modulus)%N → parse_value (parse_uint modulus) (Some (pretty n)) flag = Ok n.
Proof. intros Hn. unfold parse_value. by rewrite parse_uint_pretty. Qed.

Section roundtrip.
Context `{!UriOps, !HeaderOps, !AddrOps, !StatusOps}.

Lemma parse_status_pretty `{!StatusLaws} n flag :
  (100 ≤ n < 1000)%N → parse_status (Some (pretty n)) flag = Ok n.
Proof.
  intros Hn. assert (n < u16_modulus)%N by (change u16_modulus with 65536%N; lia).
  unfold parse_status. rewrite parse_value_pretty by done. simpl. by rewrite status_from_u16_valid.
Qed.

#[local] Opaque parse_status parse_value pretty.

Lemma parse_spawned `{!StatusLaws} spec port :
  valid_spec spec = true → (port < u16_modulus)%N →
  BenchBackend.parse_args (spawn_backend_args spec port) = Ok (config_of_spec spec port).
Proof.
  unfold valid_spec. rewrite bool_decide_eq_true. intros (Hs & Hfs & Hfe & Hdm & Hrb) Hport.
  unfold BenchBackend.parse_args, spawn_backend_args. simpl.
  rewrite (parse_value_pretty u16_modulus) by done. simpl.
  change (parse_value string_from_str (Some ?x) _) with (@Ok string _ x). simpl.
  rewrite parse_status_pretty by done. simpl. rewrite parse_status_pretty by done. simpl.
  rewrite parse_value_pretty by done. simpl. rewrite parse_value_pretty by done. simpl.
  by rewrite parse_value_pretty by done.
Qed.

(** C39: a backend that the runner spawns reads its specification back from the command line,
    listens on the port it was given, and answers as specified: it waits for the given delay,
    every response has the given size, and exactly every [fail_every]-th request, in the
    order in which they are counted, gets the failure status. *)
Theorem spawned_backend_behaves `{!StatusLaws, !HeaderLaws} spec port requests i request :
  valid_spec spec = true → (port < u16_modulus)%N →
  is_Some (value_from_str "text/plain; charset=utf-8") → is_Some (value_from_str (bs_name spec)) →
  Forall (λ request, uri_path (req_uri request) ≠ "/health") requests →
  (N.of_nat (length requests) < u64_modulus)%N →
  requests !! i = Some request →
  ∃ config response,
    BenchBackend.parse_args (spawn_backend_args spec port) = Ok config ∧
    bc_port config = port ∧
    (handle_requests config requests 0%N).1 !! i
      = Some (from_millis (bs_delay_ms spec), Some response) ∧
    resp_status response
      = (if decide (0 < bs_fail_every spec ∧ (bs_fail_every spec | N.of_nat i + 1))%N
         then bs_failure_status spec else bs_status spec) ∧
    str_len (resp_body response) = bs_response_body_bytes spec.
Proof.
  intros Hspec Hport Hct Hname Hall Hlen Hi. exists (config_of_spec spec port).
  destruct (handle_requests_answers (config_of_spec spec port) requests 0 i request Hct Hname Hall
    ltac:(lia) Hi) as (answer & Hlook & response & -> & Hstatus & Hbody).
  exists response. split_and!; [by apply parse_spawned|done|exact Hlook|..|done].
  rewrite Hstatus. by apply decide_ext.
Qed.

End roundtrip.

(** Every backend of the benchmarks has a valid specification. *)
Lemma backend_specs_valid key spec : (key, spec) ∈ BACKEND_SPECS → valid_spec spec = true.
Proof.
  intros Hin. assert (forallb (λ e, valid_spec e.2) BACKEND_SPECS = true) as Hall by by vm_compute.
  rewrite forallb_forall in Hall. apply (Hall (key, spec)). by apply list_elem_of_In.
Qed.

Lemma select_names_Ok names selected l :
  select_names names selected = Ok l ↔
  ∃ l', l = selected ++ l' ∧ Forall2 (λ name scenario, find_scenario name = Some scenario) names l'.
Proof.
  revert selected. induction names as [|name names IH]; intros selected; simpl.
  - split; [intros [= ->]; exists []; by rewrite app_nil_r|].
    intros (l' & -> & Hl'). apply Forall2_nil_inv_l in Hl' as ->. by rewrite app_nil_r.
  - destruct (find_scenario name) as [s|] eqn:Hfind.
    + rewrite IH. split.
      * intros (l' & -> & Hl'). exists (s :: l'). rewrite <-app_assoc. eauto.
      * intros (l' & -> & Hl'). apply Forall2_cons_inv_l in Hl' as (s' & l'' & Hs' & Hl'' & ->).
        assert (s' = s) as -> by congruence. exists l''. by rewrite <-app_assoc.
    + split; [done|]. intros (l' & -> & Hl').
      apply Forall2_cons_inv_l in Hl' as (s' & l'' & Hs' & _). congruence.
Qed.

(** A selection is accepted exactly when it is "all" or a non-empty list of known names, and
    then the scenarios of these names run in the order given. *)
Theorem select_scenarios_exact selection l :
  select_scenarios selection = Ok l ↔
  selection = "all" ∧ l = SCENARIOS ∨
  selection ≠ "all" ∧ l ≠ [] ∧
  Forall2 (λ name scenario, find_scenario name = Some scenario)
    (filter (λ s, s ≠ "") (trim <$> split_char ","%char selection)) l.
Proof.
  unfold select_scenarios. case_decide as Hall; [naive_solver|].
  rewrite bind_Ok. setoid_rewrite select_names_Ok. split.
  - intros (l1 & (l' & -> & Hl') & Hne). rewrite app_nil_l in Hne. case_decide; naive_solver.
  - intros [[? _]|(_ & Hne & Hl)]; [done|]. exists l. split; [eauto|]. by rewrite decide_False.
Qed.

(** ** Witness: the failing backend of the retry scenario always fails *)

From S2P Require Import Instances.

Definition get_request (path : string)
    : @Request (@platform_uri simple_platform) (@platform_headers simple_platform)
        (@platform_addr simple_platform) (option string) := {|
  req_method := "GET"; req_uri := origin_form path None : @Uri (@platform_uri simple_platform);
  req_version := "HTTP/1.1";
  req_headers := @headers_empty (@platform_headers simple_platform); req_remote_addr := None;
  req_body := Some "";
|}.

Definition retry_bad : BackendSpec := {|
  bs_name := "retry-bad"; bs_response_body_bytes := 128; bs_status := 200;
  bs_failure_status := 503; bs_fail_every := 1; bs_delay_ms := 0;
|}.

Lemma spawned_backend_behaves_witness :
  ∃ config response,
    BenchBackend.parse_args (spawn_backend_args retry_bad 40001) = Ok config ∧
    bc_port config = 40001%N ∧
    (handle_requests config [get_request "/a"; get_request "/b"] 0%N).1 !! 1
      = Some (0%N, Some response) ∧
    resp_status response = 503%N ∧ str_len (resp_body response) = 128%N.
Proof.
  apply (spawned_backend_behaves retry_bad 40001 [get_request "/a"; get_request "/b"] 1
    (get_request "/b")); [done..| | |done|done].
  - by eexists.
  - repeat constructor; done.
Defined.
