(* ===== verification/BenchHost.v ===== *)
(** The operating system as [src/bin/benchmark_runner.rs] uses it through the standard
    library: files, child processes, connections and the clock.

    A computation in [hostM] acts on a [Host] and returns, fails or panics.  What the system
    answers is the [Machine]'s: any call may fail, a child may end by itself at any time, and
    each call takes any amount of time.  The contents that children write to files and
    sockets are the machine's too. *)

From Stdlib Require Import Ascii.
From S2P Require Import Prelude RustStd.
From stdpp Require Import options.

(** * Data *)

(** [std::process::Command], without its redirections *)
Record Command := {
  cmd_program : string;
  cmd_args : list string;
  cmd_dir : option string;
}.
(** [std::process::Output] *)
Record Output := { out_success : bool; out_stdout : string; out_stderr : string }.

Definition Pid : Type := nat.

Record Host := {
  h_now : Instant;
  h_tick : nat;
  h_files : gmap string string; (** the contents of the files *)
  h_running : gset Pid; (** the children that have not ended, or not been waited for *)
  h_killed : gset Pid; (** those that were sent the signal of [Child::kill] *)
  h_next : Pid;
  h_stdout : list string; (** the lines printed *)
}.

(** Why a computation does not return a value: [Err(...)], a panic, a call that blocks for
    ever, or a loop without an end. *)
Inductive Failure :=
  | Error (err : string)
  | Panicking (msg : string)
  | Blocked
  | OutOfFuel.

(** The answers of the system to the call number [tick]. *)
Class Machine := {
  m_delay : nat → Duration;
  m_io_error : nat → option string; (** the call fails *)
  m_partial : nat → option string; (** the contents of a file after a failed write *)
  m_exists : nat → string → bool;
  m_unix_time : nat → result string Duration;
  m_port : nat → N; (** a port that the system finds unused *)
  m_try_wait : nat → Pid → result string bool; (** has the child ended by itself? *)
  m_kill : nat → Pid → result string unit;
  m_wait : nat → Pid → result string bool;
    (** while it is waited for, does a child end that was not killed? *)
  m_output : nat → Command → Output;
  m_connection : nat → string → string → Duration * result string string;
    (** what is read from a connection to an address, after this request was written *)
}.

(** A program can signal and wait for its own children: [kill] and [waitpid] do not fail on a
    child that has not been waited for. *)
Class MachineLaws `{Machine} := {
  try_wait_ok n pid : is_ok (m_try_wait n pid) = true;
  kill_ok n pid : m_kill n pid = Ok tt;
  wait_ok n pid : is_ok (m_wait n pid) = true;
}.

(** * The monad *)

Definition hostM (A : Type) : Type := Host → result Failure A * Host.

#[export] Instance hostM_ret : MRet hostM := λ A a h, (Ok a, h).
#[export] Instance hostM_bind : MBind hostM := λ A B f m h,
  let r := m h in
  match r.1 with Ok a => f a r.2 | Err e => (Err e, r.2) end.

Definition fail {A} (err : string) : hostM A := λ h, (Err (Error err), h).
Definition panic {A} (msg : string) : hostM A := λ h, (Err (Panicking msg), h).
(** [r?] of a result, and [o.ok_or(err)?] of an option *)
Definition of_result {A} (r : result string A) : hostM A :=
  match r with Ok a => mret a | Err e => fail e end.
Definition ok_or {A} (o : option A) (err : string) : hostM A :=
  match o with Some a => mret a | None => fail err end.

(** The [Result] of a computation as a value; a panic is not caught. *)
Definition try {A} (m : hostM A) : hostM (result string A) := λ h,
  let r := m h in
  (match r.1 with
   | Ok a => Ok (Ok a)
   | Err (Error e) => Ok (Err e)
   | Err e => Err e
   end, r.2).

(** [for x in l { f(x)?; }] *)
Fixpoint each {A} (f : A → hostM unit) (l : list A) : hostM unit :=
  match l with
  | [] => mret tt
  | x :: l => _ ← f x; each f l
  end.

(** * Paths *)

Fixpoint str_last (s : string) : option ascii :=
  match s with
  | "" => None
  | String a s => match s with "" => Some a | _ => str_last s end
  end.

(** [Path::join]: an absolute path replaces the base. *)
Definition path_join (base path : string) : string :=
  if starts_with path "/" then path
  else if is_empty base || bool_decide (str_last base = Some "/"%char) then base +:+ path
  else base +:+ "/" +:+ path.

(** [path.components().count()]: the root, a leading ".", and the names; empty names and
    later "." do not count. *)
Definition components_count (path : string) : nat :=
  (if starts_with path "/" || bool_decide (path = ".") || starts_with path "./" then 1 else 0)
  + length (filter (λ name, name ≠ "" ∧ name ≠ ".") (split_char "/"%char path)).

(** [s.split_once(sep)] *)
Fixpoint str_split_once (sep s : string) : option (string * string) :=
  if starts_with s sep then Some ("", str_drop (String.length sep) s)
  else match s with
       | "" => None
       | String a s => '(x, y) ← str_split_once sep s; Some (String a x, y)
       end.

(** * System calls *)

Section calls.
Context `{Machine}.

Definition with_files (files : gmap string string) (h : Host) : Host :=
  {| h_now := h_now h; h_tick := h_tick h; h_files := files; h_running := h_running h;
     h_killed := h_killed h; h_next := h_next h; h_stdout := h_stdout h |}.
Definition with_running (running : gset Pid) (h : Host) : Host :=
  {| h_now := h_now h; h_tick := h_tick h; h_files := h_files h; h_running := running;
     h_killed := h_killed h; h_next := h_next h; h_stdout := h_stdout h |}.

Definition with_killed (killed : gset Pid) (h : Host) : Host :=
  {| h_now := h_now h; h_tick := h_tick h; h_files := h_files h; h_running := h_running h;
     h_killed := killed; h_next := h_next h; h_stdout := h_stdout h |}.

(** [d] passes, and some more time. *)
Definition step (d : Duration) (h : Host) : Host :=
  {| h_now := (h_now h + d + m_delay (h_tick h))%N; h_tick := S (h_tick h);
     h_files := h_files h; h_running := h_running h; h_killed := h_killed h; h_next := h_next h;
     h_stdout := h_stdout h |}.

(** A call that fails with [failed], or does [f]. *)
Definition syscall {A} (failed : nat → Host → Host) (f : nat → Host → result string A * Host)
    : hostM A := λ h,
  let n := h_tick h in
  let h := step 0 h in
  match m_io_error n with
  | Some e => (Err (Error e), failed n h)
  | None => let (r, h) := f n h in (match r with Ok a => Ok a | Err e => Err (Error e) end, h)
  end.

(** A call that asks the machine and changes nothing. *)
Definition query {A} (f : nat → result string A) : hostM A :=
  λ h, (match f (h_tick h) with Ok a => Ok a | Err e => Err (Error e) end, step 0 h).

Definition instant_now : hostM Instant := λ h, (Ok (h_now (step 0 h)), step 0 h).
Definition sleep (d : Duration) : hostM unit := λ h, (Ok tt, step d h).
Definition println (line : string) : hostM unit := λ h,
  (Ok tt, {| h_now := h_now h; h_tick := h_tick h; h_files := h_files h;
             h_running := h_running h; h_killed := h_killed h; h_next := h_next h;
             h_stdout := h_stdout h ++ [line] |}).

(** ** Files *)

Definition set_file (path : string) (contents : option string) (h : Host) : Host :=
  with_files (partial_alter (λ _, contents) path (h_files h)) h.

Definition create_dir_all (path : string) : hostM unit :=
  syscall (λ _ h, h) (λ _ h, (Ok tt, h)).
Definition write (path contents : string) : hostM unit :=
  syscall (λ n, set_file path (m_partial n)) (λ _ h, (Ok tt, set_file path (Some contents) h)).
(** [File::create] *)
Definition create_file (path : string) : hostM unit := write path "".
Definition read_to_string (path : string) : hostM string :=
  syscall (λ _ h, h) (λ _ h, (match h_files h !! path with
                              | Some contents => Ok contents
                              | None => Err "No such file or directory"
                              end, h)).
Definition copy (from to : string) : hostM unit :=
  contents ← read_to_string from; write to contents.
(** The files below [path] are gone, or some of them after an error. *)
Definition remove_dir_all (path : string) : hostM unit :=
  let below (name : string) := starts_with name (path +:+ "/") in
  syscall
    (λ n h, with_files (map_imap (λ name contents,
              if below name then m_partial n else Some contents) (h_files h)) h)
    (λ _ h, (Ok tt, with_files (filter (λ file, below file.1 = false) (h_files h)) h)).
Definition exists_path (path : string) : hostM bool := query (λ n, Ok (m_exists n path)).

(** ** Processes *)

Definition spawn (command : Command) : hostM Pid :=
  syscall (λ _ h, h) (λ _ h,
    (Ok (h_next h), {| h_now := h_now h; h_tick := h_tick h; h_files := h_files h;
                       h_running := {[h_next h]} ∪ h_running h;
                       h_killed := h_killed h; h_next := S (h_next h);
                       h_stdout := h_stdout h |})).
(** [command.output()], which waits for the process *)
Definition output (command : Command) : hostM Output :=
  syscall (λ _ h, h) (λ n h, (Ok (m_output n command), h)).

Definition child_ended (pid : Pid) (h : Host) : Host := with_running (h_running h ∖ {[pid]}) h.
Definition try_wait (pid : Pid) : hostM bool := λ h,
  match m_try_wait (h_tick h) pid with
  | Ok true => (Ok true, child_ended pid (step 0 h))
  | Ok false => (Ok false, step 0 h)
  | Err e => (Err (Error e), step 0 h)
  end.
(** [Child::kill] sends the signal; the child ends, but is there until it is waited for. *)
Definition kill (pid : Pid) : hostM unit := λ h,
  match m_kill (h_tick h) pid with
  | Ok _ => (Ok tt, with_killed ({[pid]} ∪ h_killed h) (step 0 h))
  | Err e => (Err (Error e), step 0 h)
  end.
(** [Child::wait] returns when the child has ended: at once if it is gone or was killed, else
    when it ends by itself, if ever. *)
Definition wait (pid : Pid) : hostM unit := λ h,
  match m_wait (h_tick h) pid with
  | Ok ends =>
      if bool_decide (pid ∉ h_running h ∨ pid ∈ h_killed h) || ends
      then (Ok tt, child_ended pid (step 0 h))
      else (Err Blocked, step 0 h)
  | Err e => (Err (Error e), step 0 h)
  end.

(** ** Time and connections *)

Definition unix_time : hostM Duration := query m_unix_time.
(** [TcpListener::bind("127.0.0.1:0")?.local_addr()?.port()] *)
Definition unused_port : hostM N := syscall (λ _ h, h) (λ n h, (Ok (m_port n), h)).
(** Connect, write the request, and read to the end. *)
Definition exchange (address request : string) : hostM string := λ h,
  let (after, answer) := m_connection (h_tick h) address request in
  (match answer with Ok text => Ok text | Err e => Err (Error e) end, step after h).

(** * Lemmas: what a computation leaves alone *)

Definition leaves {A B} (obs : Host → B) (m : hostM A) : Prop := ∀ h, obs (m h).2 = obs h.

(** An observation of the processes or of the output, not of files or the clock. *)
Class Outside {B} (obs : Host → B) : Prop := {
  outside_step d h : obs (step d h) = obs h;
  outside_files files h : obs (with_files files h) = obs h;
}.
#[export] Instance outside_running : Outside h_running.
Proof. by split. Qed.
#[export] Instance outside_next : Outside h_next.
Proof. by split. Qed.
#[export] Instance outside_stdout : Outside h_stdout.
Proof. by split. Qed.

Section leaves.
Context {B : Type} (obs : Host → B).

Lemma leaves_ret {A} (a : A) : leaves obs (mret a).
Proof. by intros h. Qed.
Lemma leaves_fail {A} err : leaves obs (fail err : hostM A).
Proof. by intros h. Qed.
Lemma leaves_panic {A} msg : leaves obs (panic msg : hostM A).
Proof. by intros h. Qed.
Lemma leaves_of_result {A} (r : result string A) : leaves obs (of_result r).
Proof. destruct r; [apply leaves_ret|apply leaves_fail]. Qed.
Lemma leaves_ok_or {A} (o : option A) err : leaves obs (ok_or o err).
Proof. destruct o; [apply leaves_ret|apply leaves_fail]. Qed.
Lemma leaves_bind {A C} (m : hostM A) (f : A → hostM C) :
  leaves obs m → (∀ a, leaves obs (f a)) → leaves obs (m ≫= f).
Proof.
  intros Hm Hf h. unfold mbind, hostM_bind. cbv zeta.
  destruct (m h).1; [by rewrite Hf, Hm|apply Hm].
Qed.
Lemma leaves_try {A} (m : hostM A) : leaves obs m → leaves obs (try m).
Proof. intros Hm h. apply Hm. Qed.
Lemma leaves_each {A} (f : A → hostM unit) l :
  (∀ x, x ∈ l → leaves obs (f x)) → leaves obs (each f l).
Proof.
  induction l as [|x l IH]; intros Hf; [apply leaves_ret|].
  apply leaves_bind; [apply Hf; left|]. intros _. apply IH. intros y Hy. apply Hf. by right.
Qed.

Context `{!Outside obs}.
#[local] Set Default Proof Using "Type*".

Lemma leaves_syscall {A} failed (f : nat → Host → result string A * Host) :
  (∀ n h, obs (failed n h) = obs h) → (∀ n h, obs (f n h).2 = obs h) →
  leaves obs (syscall failed f).
Proof.
  intros Hfail Hf h. unfold syscall. cbv zeta. destruct (m_io_error _).
  - simpl. by rewrite Hfail, outside_step.
  - pose proof (Hf (h_tick h) (step 0 h)) as Hobs. destruct (f _ _). simpl in *.
    by rewrite Hobs, outside_step.
Qed.
Lemma leaves_query {A} (f : nat → result string A) : leaves obs (query f).
Proof. intros h. apply outside_step. Qed.
Lemma leaves_instant_now : leaves obs instant_now.
Proof. intros h. apply outside_step. Qed.
Lemma leaves_sleep d : leaves obs (sleep d).
Proof. intros h. apply outside_step. Qed.
Lemma leaves_exchange address request : leaves obs (exchange address request).
Proof. intros h. unfold exchange. destruct (m_connection _ _ _). apply outside_step. Qed.
Lemma leaves_write path contents : leaves obs (write path contents).
Proof. apply leaves_syscall; intros; apply outside_files. Qed.
Lemma leaves_read_to_string path : leaves obs (read_to_string path).
Proof. by apply leaves_syscall. Qed.
Lemma leaves_create_dir_all path : leaves obs (create_dir_all path).
Proof. by apply leaves_syscall. Qed.
Lemma leaves_remove_dir_all path : leaves obs (remove_dir_all path).
Proof. apply leaves_syscall; intros; apply outside_files. Qed.
Lemma leaves_output command : leaves obs (output command).
Proof. by apply leaves_syscall. Qed.
Lemma leaves_unused_port : leaves obs unused_port.
Proof. by apply leaves_syscall. Qed.

End leaves.

(** * Lemmas: a computation returns or fails *)

Definition settled {A} (r : result Failure A) : Prop :=
  match r with Ok _ | Err (Error _) => True | Err _ => False end.
Definition settles {A} (m : hostM A) : Prop := ∀ h, settled (m h).1.

Lemma settles_ret {A} (a : A) : settles (mret a : hostM A).
Proof. by intros h. Qed.
Lemma settles_fail {A} err : settles (fail err : hostM A).
Proof. by intros h. Qed.
Lemma settles_of_result {A} (r : result string A) : settles (of_result r).
Proof. by destruct r. Qed.
Lemma settles_ok_or {A} (o : option A) err : settles (ok_or o err).
Proof. by destruct o. Qed.
Lemma settles_bind {A C} (m : hostM A) (f : A → hostM C) :
  settles m → (∀ a, settles (f a)) → settles (m ≫= f).
Proof.
  intros Hm Hf h. unfold mbind, hostM_bind. cbv zeta. specialize (Hm h).
  destruct (m h).1 as [|[]]; [apply Hf|done..].
Qed.
Lemma settled_bind {A C} (m : hostM A) (f : A → hostM C) h :
  settled (m h).1 → (∀ a, (m h).1 = Ok a → settled (f a (m h).2).1) → settled ((m ≫= f) h).1.
Proof.
  intros Hm Hf. unfold mbind, hostM_bind. cbv zeta. destruct (m h).1 as [|[]]; [by apply Hf|done..].
Qed.
Lemma settles_try {A} (m : hostM A) : settles m → settles (try m).
Proof. intros Hm h. specialize (Hm h). unfold try. cbv zeta. by destruct (m h).1 as [|[]]. Qed.
Lemma try_settled {A} (m : hostM A) h :
  settled (m h).1 → ∃ r, try m h = (Ok r, (m h).2).
Proof. unfold try. cbv zeta. destruct (m h) as [[|[]] ?]; by eauto. Qed.
Lemma settles_each {A} (f : A → hostM unit) l : (∀ x, settles (f x)) → settles (each f l).
Proof. intros Hf. induction l; [apply settles_ret|]. by apply settles_bind. Qed.
Lemma settles_syscall {A} failed (f : nat → Host → result string A * Host) :
  settles (syscall failed f).
Proof.
  intros h. unfold syscall. cbv zeta. destruct (m_io_error _); [done|]. by destruct (f _ _) as [[] ?].
Qed.
Lemma settles_write path contents : settles (write path contents).
Proof. apply settles_syscall. Qed.
Lemma settles_read_to_string path : settles (read_to_string path).
Proof. apply settles_syscall. Qed.
Lemma settles_create_dir_all path : settles (create_dir_all path).
Proof. apply settles_syscall. Qed.
Lemma settles_remove_dir_all path : settles (remove_dir_all path).
Proof. apply settles_syscall. Qed.
Lemma settles_output command : settles (output command).
Proof. apply settles_syscall. Qed.
Lemma settles_spawn command : settles (spawn command).
Proof. apply settles_syscall. Qed.
Lemma settles_kill pid : settles (kill pid).
Proof. intros h. unfold kill. by destruct (m_kill _ _). Qed.
Lemma settles_unused_port : settles unused_port.
Proof. apply settles_syscall. Qed.
Lemma settles_query {A} (f : nat → result string A) : settles (query f).
Proof. intros h. unfold query. simpl. by destruct (f _). Qed.
Lemma settles_instant_now : settles instant_now.
Proof. by intros h. Qed.
Lemma settles_sleep d : settles (sleep d).
Proof. by intros h. Qed.
Lemma settles_println line : settles (println line).
Proof. by intros h. Qed.
Lemma settles_exchange address request : settles (exchange address request).
Proof. intros h. unfold exchange. by destruct (m_connection _ _ _) as [? []]. Qed.
Lemma settles_try_wait pid : settles (try_wait pid).
Proof. intros h. unfold try_wait. by destruct (m_try_wait _ _) as [[]|]. Qed.

(** * Lemmas: the clock *)

Definition onward {A} (m : hostM A) : Prop := ∀ h, (h_now h ≤ h_now (m h).2)%N.

Lemma onward_bind {A C} (m : hostM A) (f : A → hostM C) :
  onward m → (∀ a, onward (f a)) → onward (m ≫= f).
Proof.
  intros Hm Hf h. unfold mbind, hostM_bind. cbv zeta. destruct (m h).1; [|apply Hm].
  etrans; [apply Hm|apply Hf].
Qed.

(** * Lemmas: sequences *)

Lemma bind_failed_at {A C} (m : hostM A) (f : A → hostM C) h e h1 :
  m h = (Err e, h1) → (m ≫= f) h = (Err e, h1).
Proof. intros Hm. unfold mbind, hostM_bind. cbv zeta. by rewrite Hm. Qed.
Lemma leaves_at {A B} (obs : Host → B) (m : hostM A) h r h' :
  leaves obs m → m h = (r, h') → obs h' = obs h.
Proof. intros Hm Heq. specialize (Hm h). by rewrite Heq in Hm. Qed.

Lemma bind_Ok_inv {A C} (m : hostM A) (f : A → hostM C) h c h' :
  (m ≫= f) h = (Ok c, h') → ∃ a h1, m h = (Ok a, h1) ∧ f a h1 = (Ok c, h').
Proof.
  unfold mbind, hostM_bind. cbv zeta. destruct (m h) as [[a|e] h1]; [|done]. simpl. eauto.
Qed.
Lemma bind_at {A C} (m : hostM A) (f : A → hostM C) h a h1 :
  m h = (Ok a, h1) → (m ≫= f) h = f a h1.
Proof. intros Hm. unfold mbind, hostM_bind. cbv zeta. by rewrite Hm. Qed.

End calls.

(** Splits a run of a sequence that returned into the runs of its parts. *)
Ltac split_run H :=
  repeat lazymatch type of H with
  | (_ ≫= _) _ = (Ok _, _) =>
      let a := fresh "a" in let h := fresh "h" in let Hm := fresh "Hm" in
      apply bind_Ok_inv in H as (a & h & Hm & H); cbv beta zeta in H
  end.

(** Proves that a computation leaves an observation alone, or settles, along its structure. *)
#[export] Hint Resolve @leaves_ret @leaves_fail @leaves_panic @leaves_of_result @leaves_ok_or
  @leaves_bind @leaves_try @leaves_each @leaves_query @leaves_instant_now @leaves_sleep
  @leaves_exchange @leaves_write @leaves_read_to_string @leaves_create_dir_all
  @leaves_remove_dir_all @leaves_output @leaves_unused_port : ferrum.
#[export] Hint Resolve @settles_ret @settles_fail @settles_of_result @settles_ok_or @settles_bind
  @settles_try @settles_each @settles_write @settles_read_to_string @settles_create_dir_all @settles_remove_dir_all
  @settles_output @settles_spawn @settles_kill @settles_unused_port @settles_query @settles_instant_now @settles_sleep
  @settles_println @settles_exchange @settles_try_wait : ferrum.
#[export] Hint Extern 1 (Outside _) => apply _ : ferrum.
Create HintDb host.
#[export] Hint Unfold create_file copy exists_path unix_time : host.
