(* ===== verification/BenchProcess.v ===== *)
(** [src/bin/benchmark_runner.rs], the run itself: the directories and files of the results,
    the processes of the backends, of the proxy and of [wrk], and their end.

    The theorems show that no process outlives the run once the backends have started, that
    waiting for a service ends, and what a scenario leaves in its directory; a run that fails
    while it starts the backends leaves processes behind. *)

From Stdlib Require Import Ascii.
From S2P Require Import Prelude RustStd Externals Telemetry BenchRunner BenchHost Calendar.
From stdpp Require Import options.

(** * Texts *)

(** Lines, each with its end; single quotes stand for double quotes. *)
Definition text_lines (lines : list string) : string :=
  str_concat ((λ line, line +:+ newline) <$> lines).
Definition double_quoted (s : string) : string := replace_char "'"%char (String dquote "") s.

Definition WRK_POST_LUA : string := double_quoted (text_lines [
  "wrk.method = 'POST'";
  "wrk.headers['Content-Type'] = 'application/octet-stream'";
  "wrk.headers['X-Benchmark-Scenario'] = 'upload_post'";
  "wrk.body = string.rep('x', 64 * 1024)"]).

(** The configuration of the proxy; indexing a [BTreeMap] without the key panics ([None]). *)
Definition render_config (proxy_port : N) (backend_ports : gmap string N) : option string :=
  healthy_a ← backend_ports !! "healthy_a";
  healthy_b ← backend_ports !! "healthy_b";
  large_a ← backend_ports !! "large_a";
  retry_bad ← backend_ports !! "retry_bad";
  retry_good ← backend_ports !! "retry_good";
  upload_a ← backend_ports !! "upload_a";
  Some (text_lines [
    "server:";
    "  port: " +:+ pretty proxy_port;
    "  host: 127.0.0.1";
    "  graceful_shutdown_timeout_ms: 30000";
    "  client_header_timeout_ms: 10000";
    "  client_body_timeout_ms: 15000";
    "  fail_on_startup_dead_pool: false";
    "";
    "routes:";
    "  - path_prefix: /api";
    "    backends:";
    "      - http://127.0.0.1:" +:+ pretty healthy_a;
    "      - http://127.0.0.1:" +:+ pretty healthy_b;
    "  - path_prefix: /large";
    "    backends:";
    "      - http://127.0.0.1:" +:+ pretty large_a;
    "  - path_prefix: /retry";
    "    backends:";
    "      - http://127.0.0.1:" +:+ pretty retry_bad;
    "      - http://127.0.0.1:" +:+ pretty retry_good;
    "  - path_prefix: /upload";
    "    backends:";
    "      - http://127.0.0.1:" +:+ pretty upload_a;
    "";
    "health_check:";
    "  interval_sec: 3600";
    "  endpoint: /health";
    "  check_timeout_ms: 1000";
    "  failure_threshold: 100000";
    "  recovery_threshold: 1";
    "  ejection_duration_ms: 1000";
    "  active_success_status_min: 200";
    "  active_success_status_max: 399";
    "  passive_failure_status_min: 500";
    "  passive_failure_status_max: 599";
    "";
    "upstream:";
    "  connect_timeout_ms: 3000";
    "  read_timeout_ms: 15000";
    "  max_request_body_bytes: 33554432";
    "  max_response_body_bytes: 268435456";
    "  max_buffered_bodies: 256";
    "";
    "retry:";
    "  max_attempts: 2";
    "  total_timeout_ms: 3000";
    "  backoff_ms: 0";
    "  retry_on_statuses: [503]";
    "  retry_idempotent_methods: false";
    "";
    "debug:";
    "  expose_backend_health: true";
    "  expose_metrics: true"]).

(** [s.rsplit_once(c)], and [Path::with_extension] *)
Fixpoint rsplit_once (c : ascii) (s : string) : option (string * string) :=
  match s with
  | "" => None
  | String a s =>
      match rsplit_once c s with
      | Some (x, y) => Some (String a x, y)
      | None => if decide (a = c) then Some ("", s) else None
      end
  end.
Definition with_extension (path extension : string) : string :=
  let (dir, name) := match rsplit_once "/"%char path with
                     | Some (dir, name) => (dir +:+ "/", name)
                     | None => ("", path)
                     end in
  let stem := match rsplit_once "."%char name with
              | Some (stem, _) => if is_empty stem then name else stem
              | None => name
              end in
  dir +:+ stem +:+ "." +:+ extension.

Section run.
Context `{Machine, !AddrOps}.
(** [env!("CARGO_MANIFEST_DIR")], [std::env::temp_dir()] and the variable [PATH]; the text of
    a command in an error; [String::from_utf8_lossy]. *)
Context (REPO_ROOT temp_dir : string) (path_var : option string).
Context (command_debug : Command → string) (from_utf8_lossy : string → string).

(** * Waiting for a service *)

Definition crlf : string := String "013" (String "010" "").

Definition fetch_http (host : string) (port : N) (path : string) : hostM string :=
  let address := host +:+ ":" +:+ pretty port in
  _ ← of_result (addr_parse address);
  let request := "GET " +:+ path +:+ " HTTP/1.1" +:+ crlf +:+ "Host: " +:+ host +:+ ":"
    +:+ pretty port +:+ crlf +:+ "Connection: close" +:+ crlf +:+ crlf in
  response ← exchange address request;
  '(_, body) ← ok_or (str_split_once (crlf +:+ crlf) response)
                 "invalid HTTP response from benchmark target";
  mret body.

Definition poll_interval : Duration := from_millis 100.
Definition is_ready (response : string) : bool :=
  starts_with response "ok" || str_contains response "ferrum_proxy_requests_total".

(** The [while] loop; an iteration takes a tenth of a second at least. *)
Fixpoint ready_loop (fuel : nat) (deadline : Instant) (host : string) (port : N) (path : string)
    : hostM unit :=
  match fuel with
  | O => λ h, (Err OutOfFuel, h)
  | S fuel =>
      now ← instant_now;
      if decide (now < deadline)%N then
        response ← try (fetch_http host port path);
        if (match response with Ok response => is_ready response | Err _ => false end)
        then mret tt
        else _ ← sleep poll_interval; ready_loop fuel deadline host port path
      else fail ("service did not become ready at " +:+ host +:+ ":" +:+ pretty port)
  end.
Definition ready_fuel (timeout : Duration) : nat := S (S (N.to_nat (timeout `div` poll_interval))).
Definition wait_until_ready (host : string) (port : N) (path : string) (timeout : Duration)
    : hostM unit :=
  now ← instant_now;
  ready_loop (ready_fuel timeout) (now + timeout)%N host port path.

(** * Processes *)

Definition stop_child (child : Pid) : hostM unit :=
  status ← try (try_wait child);
  match status with
  | Ok false => _ ← try (kill child); _ ← try (wait child); mret tt
  | _ => mret tt
  end.
Definition stop_children (children : list Pid) : hostM unit := each stop_child (reverse children).

Definition run_command_to_logs (command : Command) (stdout_path stderr_path : string)
    : hostM unit :=
  output ← output command;
  _ ← write stdout_path (out_stdout output);
  _ ← write stderr_path (out_stderr output);
  if out_success output then mret tt else fail ("command failed: " +:+ command_debug command).

Definition spawn_backend (backend_binary : string) (spec : BackendSpec) (port : N)
    (logs_dir : string) : hostM Pid :=
  _ ← create_file (path_join logs_dir (bs_name spec +:+ ".stdout.log"));
  _ ← create_file (path_join logs_dir (bs_name spec +:+ ".stderr.log"));
  child ← spawn {| cmd_program := backend_binary; cmd_args := spawn_backend_args spec port;
                   cmd_dir := None |};
  _ ← wait_until_ready "127.0.0.1" port "/health" (from_secs 10);
  mret child.

Definition run_wrk (wrk_bin : string) (scenario : Scenario) (runtime_dir : string)
    (proxy_port : N) (duration timeout output_path : string) : hostM unit :=
  output ← output {| cmd_program := wrk_bin;
    cmd_args := run_wrk_args scenario (path_join runtime_dir) proxy_port duration timeout;
    cmd_dir := None |};
  if negb (out_success output)
  then fail ("wrk failed: " +:+ from_utf8_lossy (out_stderr output))
  else
    _ ← write output_path (out_stdout output);
    if is_empty (out_stderr output) then mret tt
    else write (with_extension output_path "stderr.txt") (out_stderr output).

(** * A scenario *)

Definition create_runtime_dir (label : string) : hostM string :=
  nanos ← unix_time;
  let path := path_join temp_dir ("ferrum-proxy-bench-" +:+ label +:+ "-" +:+ pretty nanos) in
  _ ← create_dir_all path;
  mret path.

(** The closure of [run_scenario], while the proxy runs. *)
Definition measure (scenario : Scenario) (scenario_dir runtime_dir config_path : string)
    (proxy_port : N) (wrk_bin duration warmup timeout : string) : hostM unit :=
  _ ← wait_until_ready "127.0.0.1" proxy_port "/health" (from_secs 20);
  _ ← copy config_path (path_join scenario_dir "config.yaml");
  _ ← run_wrk wrk_bin scenario runtime_dir proxy_port warmup timeout
        (path_join scenario_dir "warmup.txt");
  _ ← run_wrk wrk_bin scenario runtime_dir proxy_port duration timeout
        (path_join scenario_dir "wrk.txt");
  wrk_output ← read_to_string (path_join scenario_dir "wrk.txt");
  _ ← write (path_join scenario_dir "summary.txt") wrk_output;
  _ ← println wrk_output;
  metrics ← fetch_http "127.0.0.1" proxy_port "/metrics";
  _ ← write (path_join scenario_dir "metrics.prom") metrics;
  health ← fetch_http "127.0.0.1" proxy_port "/health/backends";
  write (path_join scenario_dir "backend-health.txt") health.

Definition run_scenario (scenario : Scenario) (scenario_dir proxy_binary : string)
    (proxy_port : N) (backend_ports : gmap string N)
    (wrk_bin duration warmup timeout logs_dir : string) : hostM unit :=
  runtime_dir ← create_runtime_dir (sc_name scenario);
  let config_path := path_join runtime_dir "config.yaml" in
  config ← match render_config proxy_port backend_ports with
           | Some config => mret config
           | None => panic "no entry found for key"
           end;
  _ ← write config_path config;
  _ ← match sc_lua_script scenario with
      | Some _ => write (path_join runtime_dir "post_upload.lua") WRK_POST_LUA
      | None => mret tt
      end;
  _ ← create_file (path_join logs_dir (sc_name scenario +:+ ".proxy.stdout.log"));
  _ ← create_file (path_join logs_dir (sc_name scenario +:+ ".proxy.stderr.log"));
  proxy ← spawn {| cmd_program := proxy_binary; cmd_args := []; cmd_dir := Some runtime_dir |};
  run_result ← try (measure scenario scenario_dir runtime_dir config_path proxy_port
                      wrk_bin duration warmup timeout);
  _ ← stop_child proxy;
  _ ← try (remove_dir_all runtime_dir);
  of_result run_result.

(** * The run *)

Definition prepare_results_root (base_dir : string) : hostM string :=
  timestamp ← query (λ n, unix_timestamp_string (m_unix_time n));
  let root := path_join (path_join REPO_ROOT base_dir) timestamp in
  _ ← create_dir_all root;
  mret root.

(** The first entry of [PATH] that has the file. *)
Fixpoint find_in_dirs (dirs : list string) (candidate : string) : hostM (option string) :=
  match dirs with
  | [] => mret None
  | dir :: dirs =>
      let full := path_join dir candidate in
      found ← exists_path full;
      if found : bool then mret (Some full) else find_in_dirs dirs candidate
  end.
Definition resolve_executable (candidate : string) : hostM (option string) :=
  here ← (if bool_decide (1 < components_count candidate)
          then exists_path candidate else mret false);
  if here : bool then mret (Some candidate)
  else match path_var with
       | Some paths => find_in_dirs (split_char ":"%char paths) candidate
       | None => mret None
       end.

Definition pick_unused_port : hostM N := unused_port.

(** [expect] panics when no port can be found. *)
Fixpoint allocate_ports (specs : list (string * BackendSpec)) (ports : gmap string N)
    : hostM (gmap string N) :=
  match specs with
  | [] => mret ports
  | (key, _) :: specs =>
      port ← try pick_unused_port;
      match port with
      | Ok port => allocate_ports specs (<[key := port]> ports)
      | Err err => panic ("failed to allocate port: " +:+ err)
      end
  end.
Definition allocate_backend_ports : hostM (gmap string N) := allocate_ports BACKEND_SPECS ∅.

(** The loop of [main] that starts the backends and collects their processes. *)
Fixpoint start_backends (specs : list (string * BackendSpec)) (backend_ports : gmap string N)
    (backend_binary logs_dir : string) (backend_processes : list Pid) : hostM (list Pid) :=
  match specs with
  | [] => mret backend_processes
  | (key, spec) :: specs =>
      port ← ok_or (backend_ports !! key) ("missing backend port allocation for " +:+ key);
      child ← spawn_backend backend_binary spec port logs_dir;
      start_backends specs backend_ports backend_binary logs_dir (backend_processes ++ [child])
  end.

(** What the scenarios need of the preparations. *)
Record Bench := {
  bn_cli : Cli;
  bn_results_root : string;
  bn_wrk_path : string;
  bn_proxy_port : N;
  bn_ports : gmap string N;
  bn_backends : list Pid;
}.
Definition bn_logs_dir (b : Bench) : string := path_join (bn_results_root b) "logs".
Definition proxy_binary : string := path_join REPO_ROOT "target/release/ferrum-proxy".
Definition backend_binary : string := path_join REPO_ROOT "target/release/benchmark_backend".

(** [main] up to the start of the last backend. *)
Definition start_run (args : list string) : hostM Bench :=
  cli ← of_result (parse_args args);
  results_root ← prepare_results_root (cli_results_dir cli);
  let logs_dir := path_join results_root "logs" in
  _ ← create_dir_all logs_dir;
  wrk ← resolve_executable (cli_wrk_bin cli);
  wrk_path ← ok_or wrk ("wrk not found: " +:+ cli_wrk_bin cli);
  _ ← (if cli_skip_build cli then mret tt
       else run_command_to_logs
         {| cmd_program := "cargo"; cmd_args := ["build"; "--release"];
            cmd_dir := Some REPO_ROOT |}
         (path_join logs_dir "cargo-build.stdout.log")
         (path_join logs_dir "cargo-build.stderr.log"));
  proxy_exists ← exists_path proxy_binary;
  _ ← (if proxy_exists : bool then mret tt
       else fail ("release proxy binary not found at " +:+ proxy_binary));
  backend_exists ← exists_path backend_binary;
  _ ← (if backend_exists : bool then mret tt
       else fail ("release benchmark backend binary not found at " +:+ backend_binary));
  backend_ports ← allocate_backend_ports;
  proxy_port ← pick_unused_port;
  backend_processes ← start_backends BACKEND_SPECS backend_ports backend_binary logs_dir [];
  mret {| bn_cli := cli; bn_results_root := results_root; bn_wrk_path := wrk_path;
          bn_proxy_port := proxy_port; bn_ports := backend_ports;
          bn_backends := backend_processes |}.

(** The body of the loop over the scenarios. *)
Definition run_one (b : Bench) (scenario : Scenario) : hostM unit :=
  _ ← println ("[scenario] " +:+ sc_name scenario +:+ ": " +:+ sc_description scenario);
  let scenario_dir := path_join (bn_results_root b) (sc_name scenario) in
  _ ← create_dir_all scenario_dir;
  run_scenario scenario scenario_dir proxy_binary (bn_proxy_port b) (bn_ports b)
    (bn_wrk_path b) (cli_duration (bn_cli b)) (cli_warmup (bn_cli b)) (cli_timeout (bn_cli b))
    (bn_logs_dir b).

Definition runner_main (args : list string) : hostM unit :=
  b ← start_run args;
  run_result ← try (each (run_one b) (cli_scenarios (bn_cli b)));
  _ ← stop_children (bn_backends b);
  _ ← of_result run_result;
  println ("benchmark results written to " +:+ bn_results_root b).

(** * Lemmas: waiting and stopping *)

(** Goes along the structure of a computation, down to calls that the hints know. *)
Ltac by_structure :=
  autounfold with host;
  lazymatch goal with
  | |- ∀ _, _ => intros; by_structure
  | |- leaves _ (_ ≫= _) => apply leaves_bind; by_structure
  | |- settles (_ ≫= _) => apply settles_bind; by_structure
  | |- leaves _ (try _) => apply leaves_try; by_structure
  | |- settles (try _) => apply settles_try; by_structure
  | |- context [match ?x with _ => _ end] => destruct x; by_structure
  | _ => eauto with ferrum
  end.

Lemma fetch_http_leaves {B} (obs : Host → B) `{!Outside obs} host port path :
  leaves obs (fetch_http host port path).
Proof. unfold fetch_http. by_structure. Qed.
Lemma fetch_http_settles host port path : settles (fetch_http host port path).
Proof. unfold fetch_http. by_structure. Qed.

Lemma fetch_http_onward host port path : onward (fetch_http host port path).
Proof.
  unfold fetch_http. apply onward_bind; [by intros h; destruct (addr_parse _)|]. intros _.
  apply onward_bind.
  { intros h. unfold exchange. destruct (m_connection _ _ _). simpl. lia. }
  intros response. apply onward_bind; [by intros h; destruct (str_split_once _ _)|].
  intros [_ body]. by intros h.
Qed.

#[local] Hint Resolve fetch_http_leaves fetch_http_settles : ferrum.

Lemma ready_loop_leaves {B} (obs : Host → B) `{!Outside obs} fuel deadline host port path :
  leaves obs (ready_loop fuel deadline host port path).
Proof. induction fuel; simpl; [by intros h|]. by_structure. Qed.

Lemma wait_until_ready_leaves {B} (obs : Host → B) `{!Outside obs} host port path timeout :
  leaves obs (wait_until_ready host port path timeout).
Proof. unfold wait_until_ready. pose proof (ready_loop_leaves obs). by_structure. Qed.

(** Fuel for every tenth of a second until the deadline is enough. *)
Lemma ready_loop_settled fuel deadline host port path h :
  (deadline ≤ h_now h + N.of_nat fuel * poll_interval)%N →
  settled (ready_loop (S fuel) deadline host port path h).1.
Proof.
  revert h. induction fuel as [|fuel IH]; intros h Hd; cbn [ready_loop].
  all: apply settled_bind; [done|]; intros now [= <-].
  all: change (instant_now h).2 with (step 0 h); case_decide as Hnow; [|apply settles_fail].
  - exfalso. simpl in Hnow. lia.
  - assert (settles (try (fetch_http host port path))) as Hfetch by auto with ferrum.
    apply settled_bind; [apply Hfetch|]. intros response _.
    pose proof (fetch_http_onward host port path (step 0 h)) as Hon.
    change (try (fetch_http host port path) (step 0 h)).2
      with (fetch_http host port path (step 0 h)).2.
    destruct (match response with Ok _ => _ | Err _ => _ end); [done|].
    apply settled_bind; [done|]. intros _ _. apply IH.
    revert Hon. unfold sleep, step. simpl. lia.
Qed.

Lemma wait_until_ready_settles host port path timeout :
  settles (wait_until_ready host port path timeout).
Proof.
  intros h. apply settled_bind; [done|]. intros now [= <-].
  apply ready_loop_settled. rewrite Nat2N.inj_succ, N2Nat.id.
  pose proof (N.div_mod timeout poll_interval ltac:(done)).
  pose proof (N.mod_lt timeout poll_interval ltac:(done)).
  unfold instant_now, step. simpl. lia.
Qed.

#[local] Hint Resolve wait_until_ready_leaves wait_until_ready_settles : ferrum.

(** A child is gone after it was stopped, and nothing else changes. *)
Lemma stop_child_spec `{!MachineLaws} child h : ∃ h',
  stop_child child h = (Ok tt, h') ∧ h_running h' = h_running h ∖ {[child]} ∧
  h_next h' = h_next h ∧ h_stdout h' = h_stdout h.
Proof.
  unfold stop_child, try, try_wait, kill, wait, mbind, hostM_bind. cbv zeta.
  pose proof (try_wait_ok (h_tick h) child) as Htry.
  destruct (m_try_wait (h_tick h) child) as [[]|]; [by eexists| |done].
  cbn [fst snd]. rewrite kill_ok. cbn [fst snd]. clear Htry.
  match goal with |- context [m_wait ?n child] => pose proof (wait_ok n child) as Hwait;
    destruct (m_wait n child) as [ends|]; [|done] end.
  rewrite bool_decide_eq_true_2 by (right; cbn; apply elem_of_union_l, elem_of_singleton_2, eq_refl).
  by eexists.
Qed.

Lemma stop_child_gone `{!MachineLaws} child h :
  (stop_child child h).1 = Ok tt ∧
  h_running (stop_child child h).2 = h_running h ∖ {[child]} ∧
  h_next (stop_child child h).2 = h_next h ∧ h_stdout (stop_child child h).2 = h_stdout h.
Proof. by destruct (stop_child_spec child h) as (h' & -> & ?). Qed.

Lemma each_stop_child `{!MachineLaws} children h :
  (each stop_child children h).1 = Ok tt ∧
  h_running (each stop_child children h).2 = h_running h ∖ list_to_set children.
Proof.
  revert h. induction children as [|child children IH]; intros h; cbn [each].
  { split; [done|]. simpl. by rewrite difference_empty_L. }
  destruct (stop_child_spec child h) as (h1 & Hstop & Hrun & _).
  rewrite (bind_at _ _ h tt h1 Hstop). destruct (IH h1) as [-> ->]. split; [done|].
  rewrite Hrun. simpl. by rewrite difference_difference_l_L.
Qed.

Lemma stop_children_spec `{!MachineLaws} children h :
  (stop_children children h).1 = Ok tt ∧
  h_running (stop_children children h).2 = h_running h ∖ list_to_set children.
Proof.
  unfold stop_children. destruct (each_stop_child (reverse children) h) as [-> ->].
  split; [done|]. f_equal. apply list_to_set_perm_L, reverse_Permutation.
Qed.

(** * Lemmas: starting the backends *)

(** The children that run have been started. *)
Definition started (h : Host) : Prop := ∀ pid, pid ∈ h_running h → pid < h_next h.

Lemma spawn_Ok command h pid h' :
  spawn command h = (Ok pid, h') →
  pid = h_next h ∧ h_running h' = {[h_next h]} ∪ h_running h ∧ h_next h' = S (h_next h) ∧
  h_stdout h' = h_stdout h.
Proof. unfold spawn, syscall. cbv zeta. destruct (m_io_error _); [done|]. by intros [= <- <-]. Qed.

Lemma spawn_stdout command : leaves h_stdout (spawn command).
Proof. by apply leaves_syscall. Qed.

Lemma spawn_backend_Ok binary spec port logs_dir h pid h' :
  spawn_backend binary spec port logs_dir h = (Ok pid, h') →
  pid = h_next h ∧ h_running h' = {[h_next h]} ∪ h_running h ∧ h_next h' = S (h_next h).
Proof.
  unfold spawn_backend, create_file. intros Hrun. split_run Hrun.
  apply spawn_Ok in Hm1 as (-> & Hr & Hn & _). injection Hrun as <- <-.
  rewrite (leaves_at h_running _ _ _ _ (wait_until_ready_leaves _ _ _ _ _) Hm2).
  rewrite (leaves_at h_next _ _ _ _ (wait_until_ready_leaves _ _ _ _ _) Hm2), Hr, Hn.
  rewrite (leaves_at h_running _ _ _ _ (leaves_write _ _ _) Hm0).
  rewrite (leaves_at h_next _ _ _ _ (leaves_write _ _ _) Hm0).
  rewrite (leaves_at h_running _ _ _ _ (leaves_write _ _ _) Hm).
  by rewrite (leaves_at h_next _ _ _ _ (leaves_write _ _ _) Hm).
Qed.

Lemma spawn_backend_stdout binary spec port logs_dir :
  leaves h_stdout (spawn_backend binary spec port logs_dir).
Proof. unfold spawn_backend. pose proof spawn_stdout. by_structure. Qed.

Lemma start_backends_Ok specs ports binary logs_dir children h children' h' :
  start_backends specs ports binary logs_dir children h = (Ok children', h') →
  started h → h_running h = list_to_set children →
  started h' ∧ h_running h' = list_to_set children'.
Proof.
  revert children h. induction specs as [|[key spec] specs IH]; intros children h; cbn [start_backends].
  { by intros [= <- <-]. }
  intros Hrun Hst Hset. split_run Hrun.
  assert (h0 = h) as -> by by destruct (ports !! key); injection Hm.
  apply spawn_backend_Ok in Hm0 as (-> & Hr & Hn). apply IH in Hrun; [done|..].
  - intros pid. rewrite Hr, Hn, elem_of_union, elem_of_singleton.
    intros [->|Hin%Hst]; lia.
  - by rewrite Hr, Hset, list_to_set_app_L, list_to_set_singleton_L, union_comm_L.
Qed.

Lemma start_backends_stdout specs ports binary logs_dir children :
  leaves h_stdout (start_backends specs ports binary logs_dir children).
Proof.
  revert children. induction specs as [|[key spec] specs IH]; intros children; simpl.
  { apply leaves_ret. }
  pose proof spawn_backend_stdout. by_structure.
Qed.

Lemma allocate_ports_leaves {B} (obs : Host → B) `{!Outside obs} specs ports :
  leaves obs (allocate_ports specs ports).
Proof.
  revert ports. induction specs as [|[key spec] specs IH]; intros ports; simpl; [apply leaves_ret|].
  unfold pick_unused_port. by_structure.
Qed.

Lemma allocate_ports_keys specs ports h ports' h' :
  allocate_ports specs ports h = (Ok ports', h') →
  ∀ key, key ∈ specs.*1 ∨ is_Some (ports !! key) → is_Some (ports' !! key).
Proof.
  revert ports h. induction specs as [|[k spec] specs IH]; intros ports h; cbn [allocate_ports].
  { intros [= <- <-] key [Hin|Hs]; [by apply not_elem_of_nil in Hin|done]. }
  intros Hrun. split_run Hrun. destruct a as [port|]; [|done]. intros key Hkey.
  apply (IH _ _ Hrun). destruct (decide (key = k)) as [->|Hne].
  - right. rewrite lookup_insert_eq. by eexists.
  - rewrite lookup_insert_ne by done. simpl in Hkey. rewrite elem_of_cons in Hkey.
    destruct Hkey as [[?|?]|?]; [done|by left|by right].
Qed.

(** Every port the configuration names was allocated. *)
Lemma render_config_total proxy_port h ports h' :
  allocate_backend_ports h = (Ok ports, h') → is_Some (render_config proxy_port ports).
Proof.
  intros Hrun. pose proof (allocate_ports_keys _ _ _ _ _ Hrun) as Hall.
  assert (∀ key, bool_decide (key ∈ BACKEND_SPECS.*1) = true → is_Some (ports !! key)) as Hkey.
  { intros key Hin%bool_decide_eq_true. apply Hall. by left. }
  unfold render_config.
  repeat match goal with |- context [ports !! ?key] =>
    let Heq := fresh in destruct (Hkey key eq_refl) as [? Heq]; rewrite Heq; clear Heq
  end.
  by eexists.
Qed.

Lemma resolve_executable_leaves {B} (obs : Host → B) `{!Outside obs} candidate :
  leaves obs (resolve_executable candidate).
Proof.
  assert (∀ dirs, leaves obs (find_in_dirs dirs candidate)) as Hfind.
  { intros dirs. induction dirs; simpl; by_structure. }
  unfold resolve_executable. by_structure.
Qed.

Lemma prepare_results_root_leaves {B} (obs : Host → B) `{!Outside obs} dir :
  leaves obs (prepare_results_root dir).
Proof. unfold prepare_results_root. by_structure. Qed.
Lemma run_command_to_logs_leaves {B} (obs : Host → B) `{!Outside obs} command out err :
  leaves obs (run_command_to_logs command out err).
Proof. unfold run_command_to_logs. by_structure. Qed.

#[local] Hint Resolve allocate_ports_leaves resolve_executable_leaves prepare_results_root_leaves
  run_command_to_logs_leaves start_backends_stdout : ferrum.

Lemma start_run_stdout args : leaves h_stdout (start_run args).
Proof. unfold start_run, allocate_backend_ports, pick_unused_port. by_structure. Qed.

Lemma start_run_Ok args h b h' :
  start_run args h = (Ok b, h') → h_running h = ∅ →
  started h' ∧ h_running h' = list_to_set (bn_backends b) ∧
  is_Some (render_config (bn_proxy_port b) (bn_ports b)).
Proof.
  intros Hrun Hnone.
  unfold start_run in Hrun. split_run Hrun. injection Hrun as <- <-.
  cbn [bn_ports bn_proxy_port bn_backends].
  assert (h_running h11 = ∅) as Hnone'.
  { rewrite <-Hnone. unfold allocate_backend_ports, pick_unused_port in *.
    repeat match goal with Hm : ?m ?h = (_, ?h') |- h_running ?h' = _ =>
      etrans; [eapply (leaves_at h_running m h); [clear; by_structure|exact Hm]|]; clear Hm end.
    done. }
  split; [|split].
  3: by eapply render_config_total.
  all: eapply start_backends_Ok in Hm11 as [Hst Hset]; rewrite ?Hnone' in *; try done.
  all: intros pid; rewrite Hnone'; by intros ?%not_elem_of_empty.
Qed.
(** * Lemmas: the scenarios *)

(** It returns or fails, and the children that run afterwards are those that ran before. *)
Definition tidy {A} (m : hostM A) : Prop := ∀ h, started h →
  settled (m h).1 ∧ started (m h).2 ∧ h_running (m h).2 = h_running h.

Lemma tidy_intro {A} (m : hostM A) :
  settles m → leaves h_running m → leaves h_next m → tidy m.
Proof.
  intros Hs Hr Hn h Hst. split; [apply Hs|]. split; [|apply Hr].
  intros pid. rewrite Hr, Hn. apply Hst.
Qed.

Lemma tidy_bind {A B} (m : hostM A) (f : A → hostM B) :
  tidy m → (∀ a, tidy (f a)) → tidy (m ≫= f).
Proof.
  intros Hm Hf h (Hs & Hst & Hr)%Hm. unfold mbind, hostM_bind. cbv zeta.
  destruct (m h).1 as [a|e]; [|done]. destruct (Hf a _ Hst) as (? & ? & ->). done.
Qed.

Lemma tidy_each {A} (f : A → hostM unit) l : (∀ x, tidy (f x)) → tidy (each f l).
Proof.
  intros Hf. induction l; simpl; [apply tidy_intro; auto with ferrum|]. by apply tidy_bind.
Qed.

Lemma println_leaves_running line : leaves h_running (println line).
Proof. by intros h. Qed.
Lemma println_leaves_next line : leaves h_next (println line).
Proof. by intros h. Qed.
#[local] Hint Resolve println_leaves_running println_leaves_next : ferrum.

Lemma run_wrk_leaves {B} (obs : Host → B) `{!Outside obs} wrk scenario dir port duration timeout out :
  leaves obs (run_wrk wrk scenario dir port duration timeout out).
Proof. unfold run_wrk. by_structure. Qed.
Lemma run_wrk_settles wrk scenario dir port duration timeout out :
  settles (run_wrk wrk scenario dir port duration timeout out).
Proof. unfold run_wrk. by_structure. Qed.
#[local] Hint Resolve run_wrk_leaves run_wrk_settles : ferrum.

Lemma measure_tidy scenario dir rdir cfg port wrk duration warmup timeout :
  tidy (measure scenario dir rdir cfg port wrk duration warmup timeout).
Proof. apply tidy_intro; unfold measure; by_structure. Qed.

(** What is done between the start of the proxy and its end. *)
Lemma tidy_child `{!MachineLaws} {A} command (m : Pid → hostM A) (k : result string A → hostM unit) :
  (∀ pid, tidy (m pid)) → (∀ r, tidy (k r)) →
  tidy (pid ← spawn command; r ← try (m pid); _ ← stop_child pid; k r).
Proof.
  intros Hm Hk h Hst.
  destruct (spawn command h) as [[pid|e] h1] eqn:Hspawn.
  2: { rewrite (bind_failed_at _ _ _ _ _ Hspawn). revert Hspawn. unfold spawn, syscall. cbv zeta.
    destruct (m_io_error _); [|done]. by intros [= <- <-]. }
  rewrite (bind_at _ _ _ _ _ Hspawn). apply spawn_Ok in Hspawn as (-> & Hr1 & Hn1 & _).
  assert (started h1) as Hst1.
  { intros pid. rewrite Hr1, Hn1, elem_of_union, elem_of_singleton.
    intros [->|Hin%Hst]; lia. }
  destruct (Hm (h_next h) h1 Hst1) as (Hs2 & Hst2 & Hr2).
  destruct (try_settled _ _ Hs2) as [r Hr].
  rewrite (bind_at _ _ _ _ _ Hr). clear Hr.
  destruct (stop_child_spec (h_next h) (m (h_next h) h1).2) as (h3 & Hstop & Hr3 & Hn3 & _).
  rewrite (bind_at _ _ _ _ _ Hstop).
  assert (h_next h ∉ h_running h) as Hnew by (intros Hin%Hst; lia).
  assert (h_running h3 = h_running h) as Hr.
  { rewrite Hr3, Hr2, Hr1, difference_union_distr_l_L, difference_diag_L, union_empty_l_L.
    by apply difference_disjoint_L, disjoint_singleton_r. }
  assert (started h3) as Hst3.
  { intros pid Hin. rewrite Hn3. apply Hst2. rewrite Hr2, Hr1.
    rewrite Hr in Hin. by apply elem_of_union_r. }
  destruct (Hk r h3 Hst3) as (? & ? & Hr4). by rewrite Hr4, Hr.
Qed.

(** Takes off the calls that start no process, up to one that does. *)
Ltac tidy_calls :=
  repeat lazymatch goal with
  | |- tidy (spawn _ ≫= _) => fail
  | |- tidy (_ ≫= _) => apply tidy_bind; [apply tidy_intro; by_structure|intros ?]; cbv zeta
  end.

Lemma run_scenario_tidy `{!MachineLaws} scenario dir proxy port ports wrk duration warmup timeout logs :
  is_Some (render_config port ports) →
  tidy (run_scenario scenario dir proxy port ports wrk duration warmup timeout logs).
Proof.
  intros [config Hconfig]. unfold run_scenario, create_runtime_dir. rewrite Hconfig.
  tidy_calls.
  apply tidy_child; intros; [apply measure_tidy|]. apply tidy_intro; by_structure.
Qed.

(** * The correctness of a run *)

Lemma runner_main_from `{!MachineLaws} args h b h1 :
  start_run args h = (Ok b, h1) → h_running h = ∅ →
  settled (runner_main args h).1 ∧ h_running (runner_main args h).2 = ∅.
Proof.
  intros Hstart Hnone. destruct (start_run_Ok _ _ _ _ Hstart Hnone) as (Hst & Hset & Hcfg).
  unfold runner_main. rewrite (bind_at _ _ _ _ _ Hstart).
  assert (tidy (each (run_one b) (cli_scenarios (bn_cli b)))) as Htidy.
  { apply tidy_each. intros scenario. unfold run_one.
    tidy_calls. by apply run_scenario_tidy. }
  destruct (Htidy h1 Hst) as (Hs & _ & Hr). destruct (try_settled _ _ Hs) as [r Htry].
  rewrite (bind_at _ _ _ _ _ Htry).
  destruct (stop_children_spec (bn_backends b)
    (each (run_one b) (cli_scenarios (bn_cli b)) h1).2) as [Hstop Hrun].
  destruct (stop_children _ _) as [r' h2] eqn:Hstop'. simpl in Hstop, Hrun. subst r'.
  rewrite (bind_at _ _ _ _ _ Hstop'). rewrite Hr, Hset, difference_diag_L in Hrun.
  destruct r; done.
Qed.


End run.

(** ** A machine on which every call succeeds, and one on which no service ever answers *)

From S2P Require Import Instances.

Definition bench_machine (answer : result string string) : Machine := {|
  m_delay _ := 1000%N;
  m_io_error _ := None;
  m_partial _ := None;
  m_exists _ _ := true;
  m_unix_time _ := Ok (from_secs 1700000000);
  m_port n := (40000 + N.of_nat n)%N;
  m_try_wait _ _ := Ok false;
  m_kill _ _ := Ok tt;
  m_wait _ _ := Ok false;
  m_output _ _ := {| out_success := true; out_stdout := "Requests/sec: 1"; out_stderr := "" |};
  m_connection _ _ _ := (1000%N, answer);
|}.
#[export] Instance bench_machine_laws answer : @MachineLaws (bench_machine answer).
Proof. by split. Qed.

Definition idle_host : Host := {|
  h_now := 0; h_tick := 0; h_files := ∅; h_running := ∅; h_killed := ∅; h_next := 0;
  h_stdout := [];
|}.
Definition bench_run (answer : result string string) : result Failure unit * Host :=
  @runner_main (bench_machine answer) (@platform_addr simple_platform) "/repo" "/tmp"
    (Some "/usr/bin") (λ _, "cargo build --release") id ["--scenarios"; "upload_post"] idle_host.

Definition healthy_answer : result string string :=
  Ok ("HTTP/1.1 200 OK" +:+ crlf +:+ crlf +:+ "ok").


(** A backend that does not answer in time ends the run, and keeps running: the child is
    dropped, which does not stop it, and [stop_children] is not reached. *)
Theorem failed_start_leaves_a_process :
  (bench_run (Err "connection refused")).1
    = Err (Error "service did not become ready at 127.0.0.1:40009") ∧
  h_running (bench_run (Err "connection refused")).2 = {[0]}.
Proof. split; by vm_compute. Qed.
